(* ===== verification/_CoqProject ===== *)
-Q . S2P
Prelude.v
RustStd.v
Lib.v
Json.v
Canon.v
Wire.v
Codec.v
Buffer.v
History.v
Registry.v
Store.v
Signing.v
Ssrf.v
Feed.v
Config.v
ConfigDecode.v
Mapping.v
State.v
Handlers.v
Subscribe.v
Stream.v
Dispatch.v
Utf8.v
SseText.v
Dedup.v
ClientSse.v
FeedSse.v
Mock.v
Worker.v
Delivery.v
DeliverySafe.v
DeliveryExact.v
JsonText.v
Base.v
Client.v
ClientServer.v
ClientState.v
Harness.v
HarnessMain.v
Receiver.v
Resume.v
Polling.v
F64.v
Text.v
AgentConfig.v
AgentBrain.v
AgentChoice.v
Agent.v
AgentExact.v
AgentBrainSafe.v
AgentChoiceSafe.v
Tools.v
FlagOnce.v
Server.v
EndToEnd.v
KeepAlive.v
StdInst.v
TestKit.v
EngineTests.v
FeedTests.v
ServerTests.v
ClientTests.v
AgentTests.v
