(* ===== verification/Prelude.v ===== *)
(** * drasi-mcp-events: a verification library

    The program is a prototype of the draft MCP Events extension: a server
    that turns the changes of Drasi continuous queries into events, keeps the
    newest of each event type in a buffer, and delivers them by poll, by
    server-sent-event stream and by signed webhook; a client library with a
    conformance harness; and a demonstration agent.  All of it is Rust, under
    crates/.  This library follows the code crate by crate, and its theorems
    compose the parts up to the two ends of each kind of delivery.

    ** How the program is put together

    A feed (drasi-feed: Drasi's SSE reaction, or a synthetic one) sends changes
    into the pipeline of the server (mapping.rs), which maps them to events of
    the registered types and emits them into the buffer (mcp-events-engine).
    A request comes in over HTTP (dispatch.rs): events/list and events/poll
    read the registry and the buffer, events/stream tails the buffer,
    events/subscribe and events/unsubscribe change the subscription store, and
    anything else goes to the rmcp SDK with the demo tools (mcp_service.rs,
    tools_db.rs).  The delivery worker (webhook/worker.rs) follows the store
    and the buffer and posts to the endpoints of the subscriptions.  The
    harness and the agent (mcp-events-client, mcp-events-agent) are clients of
    all of these.

    ** Files, in order, and the code they model

    Foundations.  [Prelude]: notations, tactics, hints, shared lemmas.
    [RustStd]: machine integers as [Z] at their width, [str] operations.
    [Lib]: chrono, digests and encodings as parameters ([Chrono], [Crypto]).
    [Json]: serde_json's values; [JsonText] reads compact text back;
    [Utf8]: [from_utf8_lossy]; [SseText]: the text of server-sent events;
    [F64]: double precision and its printing; [Text]: text by characters.

    Wire (crates/mcp-events-wire).  [Wire]: consts.rs, jsonrpc.rs, events.rs,
    webhook.rs, a record per struct with its encoder and decoder; [Base]:
    base.rs; [Codec]: the round trips, as a type class with laws.

    Engine (crates/mcp-events-engine).  [Canon]: canon.rs.  [Buffer]:
    buffer.rs; the state is [EventBuffer], its operations [emit], [read],
    [live], [current_cursor].  [History]: the ghost history readers are owed.
    [Registry]: registry.rs.  [Store]: store.rs; state [Store], a definition
    per method.

    Feed (crates/drasi-feed).  [Feed]: lib.rs.  [FeedSse]: sse.rs.  [Mock]:
    mock.rs.

    Server (crates/mcp-events-server). [Config]: config.rs, [ConfigDecode] its
    decoders. [Mapping]: mapping.rs. [State]: state.rs, and the programs of
    atomic steps ([Prog]) that requests are, run under interference ([exec]).
    [Handlers]: list.rs, poll.rs. [Subscribe]: webhook/handlers.rs and
    challenge.rs. [Stream]: handlers/stream.rs as a state machine. [Dispatch]:
    dispatch.rs. [Signing]: signer.rs and the secrets. [Ssrf]: ssrf.rs.
    [Worker]: one delivery of worker.rs. [Delivery]: its tasks as a step
    relation over the shared state; [DeliverySafe] its invariant,
    [DeliveryExact] what a receiver gets. [Tools]: tools_db.rs and
    mcp_service.rs. [Server]: main.rs, the routes, and the server at work.

    Client (crates/mcp-events-client).  [Dedup]: dedup.rs.  [ClientSse]:
    sse.rs.  [Client]: client.rs, error.rs.  [ClientState]: state.rs.
    [ClientServer]: the client against the server.  [Harness]:
    bin/events-harness.rs, a definition per command; [HarnessMain]: its
    arguments and its main; [Receiver], [Resume], [Polling] and [KeepAlive]
    follow its webhook, stream, poll and subscribe commands against the
    server, and [EndToEnd] an event from the feed to its line.

    Agent (crates/mcp-events-agent, main.rs).  [AgentConfig]: the environment
    and the modes.  [AgentBrain]: what handles an event, as programs over any
    answers.  [AgentChoice]: what is subscribed to.  [Agent]: the main loop.
    [AgentExact], [AgentBrainSafe], [AgentChoiceSafe]: their theorems.
    [FlagOnce]: the agent's policy on the tools of the server.

    Tests.  [EngineTests], [FeedTests], [ServerTests], [ClientTests] and
    [AgentTests] are the repository's own unit tests, a definition of the same
    name per test, in the small language of [TestKit] (a test reads, changes
    and asserts), each run on the model by [vm_compute].  [StdInst] is SHA-256,
    HMAC, base64 and the calendar, so that known answers are checked as well.

    Where the code holds a lock for a whole method, the method is one step;
    state is passed explicitly, errors are [result], a panic is [None] or a
    constructor of its own, the clock and random values are arguments.

    ** What the theorems show

    - The buffer: numbering without holes, capacity, what each cursor means,
      no silent loss, batches, and that paging ends ([Buffer]).
    - Delivery end to end: streams ([Stream.stream_exact]), resumption over
      reconnects and restarts ([Resume.resume_exact]; from the feed on,
      [EndToEnd.feed_to_terminal]), polling
      ([Polling.poll_exact]), webhooks under every interleaving
      ([DeliveryExact], [DeliverySafe]) up to what the receiver prints
      ([Receiver.webhook_exactly_once]), and the agent ([AgentExact]).
    - Subscriptions: who may subscribe, that an endpoint is verified only by
      answering its challenge, grants, quotas (at the time of each upsert; at
      any time, if upserts lock the store in the order of their clock
      readings), suspension, isolation of principals ([Subscribe], [Store],
      [Dispatch]), and that a refreshed one never lapses ([KeepAlive]).
    - Security: signatures, address policy, the pinned client ([Signing],
      [Ssrf], [Receiver.receiver_authentic]).
    - Text and formats: chunking of SSE on both sides, UTF-8, canonical JSON,
      round trips of every wire type ([ClientSse], [FeedSse], [Canon],
      [Codec]).
    - Files: the harness touches its state file only, which is never left
      half written ([HarnessMain.run_files]).
    - From feed to buffer: nothing lost on the way, and what each type of a
      running server carries ([FeedSse.feed_pipeline], [Server.server_log]).
    - The agent: what it flags, at most once ([AgentBrainSafe.policy_flags],
      [FlagOnce.flag_once]), bounded conversations in three dialects, and
      well-typed choices whatever a model replies ([AgentChoiceSafe]).

    ** Bounds and fuel

    Sequence numbers are [u64] and wrap around in the model; theorems on
    histories assume fewer than 2^64 operations.  Dates are nanoseconds within
    chrono's range, and out of it the model panics where the code does.  The
    parsers' loops are fuelled by the length of their input, which every pass
    shortens, and shown not to run out; a drain by polls is shown to end.
    Loops without end (streams, the worker, the harness, the agent) are
    followed over any finite run.

    ** Parameters

    Code that is not in the repository is a parameter with the laws its
    documentation states, each with an instance for the examples (those of
    [Chrono] and [Crypto] in [StdInst] are the real functions): [JsonLib],
    [SerdeLib], [PrettyJson], [JsonFloat], [JsonOfFloat] (serde_json),
    [Chrono], [Rfc3339] (chrono), [Crypto] (sha2, hmac, base64), [UrlLib]
    (url), [DebugLib] and [Unicode] (std's tables), [Postgres] and [OrdersDb]
    (PostgreSQL and the tables of drasi/seed.sql).

    ** Not modelled

    The clap argument parsers (and their three tests), log lines and the
    agent's background ticker; the text of YAML, of which serde_yaml makes the
    document [ConfigDecode] decodes, and socket set-up (arguments of
    [Server.server_start]); what rmcp generates or serves itself (schemas,
    routing, initialization, sessions); tokio's scheduling, beyond the interleavings the
    step relations allow; re-exports; the order of the fields in the text of a
    JSON-RPC message, which is printed with its keys sorted (the bodies of
    webhooks, which are signed, keep the order of their structs). *)
From Stdlib Require Export ZArith Lia Ascii String.
From stdpp Require Export sorting base tactics numbers strings gmap list.
#[global] Set Default Goal Selector "!".

(** Lists are the default reading of [++] and [length] in this library;
    string concatenation is written [+:+] (stdpp). *)
#[global] Open Scope Z_scope.
#[global] Open Scope list_scope.

Declare Scope mcp_scope.
Delimit Scope mcp_scope with mcp.
#[global] Open Scope mcp_scope.

(** ** Rust's [Result<A, E>] *)
Inductive result (E A : Type) : Type :=
| Ok (a : A)
| Err (e : E).
Arguments Ok {E A} a.
Arguments Err {E A} e.

#[export] Instance result_ret E : MRet (result E) := fun A a => Ok a.
#[export] Instance result_bind E : MBind (result E) := fun A B f r =>
  match r with Ok a => f a | Err e => Err e end.
#[export] Instance result_fmap E : FMap (result E) := fun A B f r =>
  match r with Ok a => Ok (f a) | Err e => Err e end.

#[export] Instance result_eq_dec E A `{EqDecision E, EqDecision A} :
  EqDecision (result E A).
Proof. solve_decision. Defined.

Definition is_ok {E A} (r : result E A) : bool :=
  match r with Ok _ => true | Err _ => false end.

(** [Result::ok] and [Option::ok_or]. *)
Definition ok_opt {E A} (r : result E A) : option A :=
  match r with Ok a => Some a | Err _ => None end.

Definition ok_or {E A} (e : E) (o : option A) : result E A :=
  match o with Some a => Ok a | None => Err e end.

(** [Result::map_err]. *)
Definition map_err {E F A} (f : E -> F) (r : result E A) : result F A :=
  match r with Ok a => Ok a | Err e => Err (f e) end.

Lemma ok_or_Ok {E A} (e : E) (o : option A) a :
  ok_or e o = Ok a <-> o = Some a.
Proof. destruct o; naive_solver. Qed.

Lemma bind_Ok {E A B} (r : result E A) (f : A -> result E B) b :
  r ≫= f = Ok b <-> exists a, r = Ok a /\ f a = Ok b.
Proof. destruct r; naive_solver. Qed.

(** ** Automation *)
Create HintDb mcp discriminated.
Create Rewrite HintDb mcp_rw.

(** Boolean guards of the source are bool functions; [bsimp] turns the
    hypotheses about them into propositions. *)
Ltac bsimp :=
  repeat match goal with
  | H : context [negb (negb _)] |- _ => rewrite negb_involutive in H
  | H : negb _ = true |- _ => apply negb_true_iff in H
  | H : negb _ = false |- _ => apply negb_false_iff in H
  | H : (_ && _)%bool = true |- _ => apply andb_true_iff in H as [? ?]
  | H : (_ || _)%bool = false |- _ => apply orb_false_iff in H as [? ?]
  | H : (_ <? _)%Z = true |- _ => apply Z.ltb_lt in H
  | H : (_ <? _)%Z = false |- _ => apply Z.ltb_ge in H
  | H : (_ <=? _)%Z = true |- _ => apply Z.leb_le in H
  | H : (_ <=? _)%Z = false |- _ => apply Z.leb_gt in H
  | H : (_ =? _)%Z = true |- _ => apply Z.eqb_eq in H
  | H : (_ =? _)%Z = false |- _ => apply Z.eqb_neq in H
  | H : bool_decide _ = true |- _ => apply bool_decide_eq_true in H
  | H : bool_decide _ = false |- _ => apply bool_decide_eq_false in H
  end.

(** A closed decidable fact, by evaluation. *)
Ltac decide_closed := apply (bool_decide_unpack _); vm_compute; exact I.

(** Conjunctions, without looking through definitions (not for contexts with
    a conjunction among their section variables). *)
Ltac destruct_conj := repeat match goal with H : _ /\ _ |- _ => destruct H end.
Ltac split_conj := repeat match goal with |- _ /\ _ => split end.

(** Split every match and conditional in sight, keeping the guards readable. *)
Ltac cases := repeat (case_match; simplify_eq/=; bsimp; try done).

(** ** Generic list lemmas *)
Section lists.
Context {A : Type}.
Implicit Types (l k : list A).

(** [l] is a suffix of [k] of the given length exactly when it is a drop. *)
Lemma suffix_drop l k : l `suffix_of` k -> l = drop (length k - length l) k.
Proof.
  intros [p ->]. rewrite length_app.
  replace (length p + length l - length l)%nat with (length p) by lia.
  by rewrite drop_app_length.
Qed.

Lemma drop_suffix n l : drop n l `suffix_of` l.
Proof. exists (take n l). by rewrite take_drop. Qed.

Lemma suffix_lookup_last l k :
  l `suffix_of` k -> l <> [] -> last l = last k.
Proof.
  intros [p ->] Hne. rewrite last_app. destruct (last l) eqn:E; [done|].
  by apply last_None in E.
Qed.

Lemma filter_all (P : A -> Prop) `{!forall x, Decision (P x)} l :
  Forall P l -> filter P l = l.
Proof.
  induction 1 as [|x l Hx _ IH]; [done|].
  by rewrite filter_cons_True, IH.
Qed.

Lemma filter_none (P : A -> Prop) `{!forall x, Decision (P x)} l :
  Forall (fun x => ~ P x) l -> filter P l = [].
Proof.
  induction 1 as [|x l Hx _ IH]; [done|].
  by rewrite filter_cons_False, IH.
Qed.

Lemma list_filter_app_split (P : A -> Prop) `{!forall x, Decision (P x)} l k :
  Forall (fun x => ~ P x) l -> Forall P k -> filter P (l ++ k) = k.
Proof.
  intros Hl Hk. by rewrite filter_app, (filter_none _ l), (filter_all _ k).
Qed.

Lemma list_filter_ext_in (P Q : A -> Prop) `{!forall x, Decision (P x)}
    `{!forall x, Decision (Q x)} l :
  (forall x, x ∈ l -> P x <-> Q x) -> filter P l = filter Q l.
Proof.
  induction l as [|x l IH]; intros HPQ; [done|]. rewrite !filter_cons.
  rewrite IH by (intros y Hy; apply HPQ; by right).
  destruct (HPQ x (list_elem_of_here _ _)) as [? ?].
  repeat case_decide; tauto.
Qed.

Lemma existsb_false_elem (f : A -> bool) l x :
  existsb f l = false -> x ∈ l -> f x = false.
Proof.
  induction l as [|y l IH]; simpl; [by intros _ ?%elem_of_nil|].
  intros [? ?]%orb_false_iff [->|?]%elem_of_cons; auto.
Qed.

Lemma existsb_true_elem (f : A -> bool) l :
  existsb f l = true <-> exists x, x ∈ l /\ f x = true.
Proof.
  rewrite existsb_exists. split; intros (x & Hx & ?); exists x; split; try done;
    by apply list_elem_of_In.
Qed.
End lists.
#[export] Hint Resolve drop_suffix : mcp.

Lemma list_omap_ext_in {A B} (f g : A -> option B) (l : list A) :
  (forall x, x ∈ l -> f x = g x) -> omap f l = omap g l.
Proof.
  induction l as [|x l IH]; intros H; [done|]. csimpl. rewrite (H x) by (by left).
  rewrite IH by (intros y Hy; apply H; by right). done.
Qed.

Lemma filter_impl_sublist {A} (P Q : A -> Prop) `{!forall x, Decision (P x)}
    `{!forall x, Decision (Q x)} (l : list A) :
  (forall x, P x -> Q x) -> base.filter P l `sublist_of` base.filter Q l.
Proof.
  intros HPQ. induction l as [|x l IH]; [done|]. rewrite !filter_cons.
  destruct (decide (P x)) as [HP|HP].
  - rewrite decide_True by by apply HPQ. by constructor.
  - case_decide; [by constructor|done].
Qed.

(** A pointwise relation follows a permutation of its left side. *)
Lemma Forall2_perm_l {A B} (R : A -> B -> Prop) l l' k :
  l ≡ₚ l' -> Forall2 R l k -> exists k', k ≡ₚ k' /\ Forall2 R l' k'.
Proof.
  intros Hp. revert k. induction Hp as [|x l l' _ IH|x y l|l l' l'' _ IH1 _ IH2]; intros k H.
  - inv H. by exists [].
  - inv H. edestruct IH as (k' & ? & ?); [done|]. eexists (_ :: k').
    split; [by constructor|]. by constructor.
  - inv H. match goal with H : Forall2 _ _ _ |- _ => inv H end.
    eexists. split; [apply perm_swap|]. by repeat constructor.
  - edestruct IH1 as (k1 & ? & ?); [done|]. edestruct IH2 as (k2 & ? & ?); [done|].
    exists k2. split; [by etrans|done].
Qed.
