(* ===== verification/RustStd.v ===== *)
(** * The parts of Rust's standard library the program uses.

    Machine integers at their width ([u64], [i64], [u32], [usize] = 64 bits)
    as [Z] with the wrap-around of a release build written out; decimal
    printing and [str::parse]; the [str] operations of the source on strings
    of UTF-8 bytes; [String::from_utf8_lossy].  A Rust [String] or [Vec<u8>]
    is the Rocq [string] of its bytes.  Durations and chrono's
    [DateTime<Utc>] are [Z] numbers of nanoseconds. *)
From S2P Require Import Prelude.

(** ** Machine integers *)
Definition u64_max : Z := 2 ^ 64 - 1.
Definition i64_max : Z := 2 ^ 63 - 1.
Definition i64_min : Z := - 2 ^ 63.
Definition u32_max : Z := 2 ^ 32 - 1.

Definition is_u64 (z : Z) : bool := (0 <=? z) && (z <=? u64_max).
Definition is_i64 (z : Z) : bool := (i64_min <=? z) && (z <=? i64_max).
Definition is_u32 (z : Z) : bool := (0 <=? z) && (z <=? u32_max).

(** [+ 1] and [- 1] on [u64] and [+ 1] on [u32], with the wrap-around. *)
Definition u64_add (a b : Z) : Z := (a + b) mod 2 ^ 64.
Definition u64_sub (a b : Z) : Z := (a - b) mod 2 ^ 64.
Definition u32_add (a b : Z) : Z := (a + b) mod 2 ^ 32.

(** [i64::try_from(ms).unwrap_or(i64::MAX)] on a [u64]. *)
Definition i64_try_from_or_max (ms : Z) : Z := if ms <=? i64_max then ms else i64_max.

Lemma u64_add_small a b : 0 <= a + b <= u64_max -> u64_add a b = a + b.
Proof. unfold u64_add, u64_max. intros. apply Z.mod_small. lia. Qed.

Lemma u64_sub_small a b : 0 <= a - b <= u64_max -> u64_sub a b = a - b.
Proof. unfold u64_sub, u64_max. intros. apply Z.mod_small. lia. Qed.

Lemma u32_add_small a b : 0 <= a + b <= u32_max -> u32_add a b = a + b.
Proof. unfold u32_add, u32_max. intros. apply Z.mod_small. lia. Qed.

Lemma is_u64_spec z : is_u64 z = true <-> 0 <= z <= u64_max.
Proof. unfold is_u64. rewrite andb_true_iff, !Z.leb_le. lia. Qed.

(** ** Decimal printing ([Display]) and [str::parse] *)
Definition digit_char (d : Z) : ascii := ascii_of_N (Z.to_N (48 + d)).

Definition char_digit (c : ascii) : option Z :=
  let k := Z.of_N (N_of_ascii c) in
  if (48 <=? k) && (k <=? 57) then Some (k - 48) else None.

(** [fuel] bounds the number of digits: 20 is enough below [2 ^ 64]. *)
Fixpoint dec_digits (fuel : nat) (n : Z) (acc : string) : string :=
  match fuel with
  | O => acc
  | S f =>
      let acc' := String (digit_char (n mod 10)) acc in
      if n <? 10 then acc' else dec_digits f (n / 10) acc'
  end.

Definition u64_to_string (n : Z) : string := dec_digits 20 n "".

Definition i64_to_string (n : Z) : string :=
  if n <? 0 then String "-" (u64_to_string (- n)) else u64_to_string n.

Fixpoint parse_digits (max acc : Z) (s : string) : option Z :=
  match s with
  | EmptyString => Some acc
  | String c s' =>
      match char_digit c with
      | None => None
      | Some d =>
          let acc' := acc * 10 + d in
          if max <? acc' then None else parse_digits max acc' s'
      end
  end.

Definition parse_nonempty (max : Z) (s : string) : option Z :=
  match s with EmptyString => None | _ => parse_digits max 0 s end.

(** [u64::from_str]: one optional leading [+], then at least one digit. *)
Definition u64_from_str (s : string) : option Z :=
  match s with
  | String "+" s' => parse_nonempty u64_max s'
  | _ => parse_nonempty u64_max s
  end.

(** [i64::from_str]: one optional sign. *)
Definition i64_from_str (s : string) : option Z :=
  match s with
  | String "+" s' => parse_nonempty i64_max s'
  | String "-" s' => Z.opp <$> parse_nonempty (2 ^ 63) s'
  | _ => parse_nonempty i64_max s
  end.

(** ** [str] operations *)
Fixpoint str_forall (p : ascii -> bool) (s : string) : bool :=
  match s with
  | EmptyString => true
  | String c s' => p c && str_forall p s'
  end.

Definition str_has (c : ascii) (s : string) : bool :=
  negb (str_forall (fun x => negb (bool_decide (x = c))) s).

(** [str::strip_prefix]. *)
Fixpoint strip_prefix (p s : string) : option string :=
  match p, s with
  | EmptyString, _ => Some s
  | String a p', String b s' => if bool_decide (a = b) then strip_prefix p' s' else None
  | _, _ => None
  end.

Definition starts_with (p s : string) : bool := bool_decide (is_Some (strip_prefix p s)).

(** [str::contains]. *)
Fixpoint str_contains (p s : string) : bool :=
  starts_with p s ||
  match s with EmptyString => false | String _ s' => str_contains p s' end.

(** [str::split_once] on one ASCII character. *)
Fixpoint split_once (sep : ascii) (s : string) : option (string * string) :=
  match s with
  | EmptyString => None
  | String c s' =>
      if bool_decide (c = sep) then Some ("", s')
      else match split_once sep s' with
           | Some (a, b) => Some (String c a, b)
           | None => None
           end
  end.

(** [[String]::join]. *)
Fixpoint str_join (sep : string) (l : list string) : string :=
  match l with
  | [] => ""
  | [x] => x
  | x :: l' => x +:+ sep +:+ str_join sep l'
  end.

Definition to_ascii_lowercase_char (c : ascii) : ascii :=
  let k := N_of_ascii c in
  if (65 <=? k)%N && (k <=? 90)%N then ascii_of_N (k + 32) else c.

Fixpoint to_ascii_lowercase (s : string) : string :=
  match s with
  | EmptyString => ""
  | String c s' => String (to_ascii_lowercase_char c) (to_ascii_lowercase s')
  end.

Definition eq_ignore_ascii_case (s t : string) : bool :=
  bool_decide (to_ascii_lowercase s = to_ascii_lowercase t).

(** *** White space: [char::is_whitespace] on UTF-8 bytes *)
Definition ws1 (a : ascii) : bool :=
  let k := N_of_ascii a in ((9 <=? k) && (k <=? 13) || (k =? 32))%N.

Definition ws2 (a b : ascii) : bool :=
  let k := N_of_ascii b in ((N_of_ascii a =? 194) && ((k =? 133) || (k =? 160)))%N.

Definition ws3 (a b c : ascii) : bool :=
  let x := N_of_ascii a in let y := N_of_ascii b in let z := N_of_ascii c in
  ((x =? 225) && (y =? 154) && (z =? 128)
   || (x =? 226) && (y =? 128) &&
      ((128 <=? z) && (z <=? 138) || (z =? 168) || (z =? 169) || (z =? 175))
   || (x =? 226) && (y =? 129) && (z =? 159)
   || (x =? 227) && (y =? 128) && (z =? 128))%N.

Fixpoint trim_start (s : string) : string :=
  match s with
  | EmptyString => s
  | String a s1 =>
      if ws1 a then trim_start s1
      else match s1 with
           | EmptyString => s
           | String b s2 =>
               if ws2 a b then trim_start s2
               else match s2 with
                    | EmptyString => s
                    | String c s3 => if ws3 a b c then trim_start s3 else s
                    end
           end
  end.

Fixpoint trim_end (s : string) : string :=
  match s with
  | EmptyString => s
  | String a s' =>
      if bool_decide (trim_start s = "") then "" else String a (trim_end s')
  end.

(** [str::trim]. *)
Definition trim (s : string) : string := trim_end (trim_start s).

(** Adds the token read so far, unless it is empty. *)
Definition push_token (cur : string) (l : list string) : list string :=
  match cur with EmptyString => l | _ => cur :: l end.

Fixpoint split_ws_aux (cur : string) (s : string) : list string :=
  match s with
  | EmptyString => push_token cur []
  | String a s1 =>
      if ws1 a then push_token cur (split_ws_aux "" s1)
      else
        let plain := split_ws_aux (cur +:+ String a "") s1 in
        match s1 with
        | EmptyString => plain
        | String b s2 =>
            if ws2 a b then push_token cur (split_ws_aux "" s2)
            else match s2 with
                 | EmptyString => plain
                 | String c s3 =>
                     if ws3 a b c then push_token cur (split_ws_aux "" s3) else plain
                 end
        end
  end.

(** [str::split_whitespace]. *)
Definition split_whitespace (s : string) : list string := split_ws_aux "" s.

(** ** Lemmas on strings *)
Lemma length_app' s t : String.length (s +:+ t) = (String.length s + String.length t)%nat.
Proof. induction s as [|c s IH]; [done|]. simpl. by rewrite IH. Qed.

Lemma app_split a b x y :
  a +:+ b = x +:+ y ->
  (exists z, a = x +:+ z /\ y = z +:+ b) \/ (exists z, x = a +:+ z /\ b = z +:+ y).
Proof.
  revert x. induction a as [|c a IH]; intros x E.
  - right. by exists x.
  - destruct x as [|d x]; [left; by exists (String c a)|]. simpl in E. injection E as <- E.
    destruct (IH x E) as [(z & -> & ->)|(z & -> & ->)]; [left|right]; by exists z.
Qed.

Lemma app_nil_l' s : "" +:+ s = s.
Proof. done. Qed.

Lemma app_cons c s t : String c s +:+ t = String c (s +:+ t).
Proof. done. Qed.

Lemma app_nil_r' s : s +:+ "" = s.
Proof. induction s as [|c s IH]; [done|]. by rewrite app_cons, IH. Qed.

Lemma app_assoc' s t u : (s +:+ t) +:+ u = s +:+ t +:+ u.
Proof. induction s as [|c s IH]; [done|]. by rewrite !app_cons, IH. Qed.

Lemma app_inj_l s t u : s +:+ t = s +:+ u -> t = u.
Proof. induction s as [|c s IH]; [done|]. rewrite !app_cons. intros [= H]. auto. Qed.

Lemma str_forall_app p s t : str_forall p (s +:+ t) = str_forall p s && str_forall p t.
Proof. induction s as [|c s IH]; [done|]. rewrite app_cons; simpl. by rewrite IH, andb_assoc. Qed.

Lemma str_forall_impl (p q : ascii -> bool) s :
  (forall c, p c = true -> q c = true) -> str_forall p s = true -> str_forall q s = true.
Proof.
  intros Hpq. induction s as [|c s IH]; [done|]. simpl. intros [Hc Hs]%andb_true_iff.
  by rewrite Hpq, IH.
Qed.

Lemma str_has_forall (p : ascii -> bool) c s :
  str_forall p s = true -> p c = false -> str_has c s = false.
Proof.
  intros Hs Hc. unfold str_has. apply negb_false_iff. revert Hs. apply str_forall_impl.
  intros x Hx. apply negb_true_iff, bool_decide_eq_false. intros ->. congruence.
Qed.

Lemma str_has_app c s t : str_has c (s +:+ t) = str_has c s || str_has c t.
Proof. unfold str_has. by rewrite str_forall_app, negb_andb. Qed.

Lemma str_has_cons c x s : str_has c (String x s) = bool_decide (x = c) || str_has c s.
Proof. unfold str_has. simpl. by rewrite negb_andb, negb_involutive. Qed.

Lemma split_once_app sep a b :
  str_has sep a = false -> split_once sep (a +:+ String sep b) = Some (a, b).
Proof.
  induction a as [|c a IH]; intros H.
  - simpl. by rewrite bool_decide_eq_true_2.
  - rewrite str_has_cons in H. apply orb_false_iff in H as [Hc Ha].
    rewrite app_cons. simpl. by rewrite Hc, IH.
Qed.

Lemma split_once_Some sep s a b :
  split_once sep s = Some (a, b) <-> s = a +:+ String sep b /\ str_has sep a = false.
Proof.
  split; [|intros [-> ?]; by apply split_once_app].
  revert a. induction s as [|c s IH]; intros a; [done|]. simpl.
  case_bool_decide as Hc.
  - intros [= <- <-]. by subst.
  - destruct (split_once sep s) as [[a' b']|] eqn:E; [|done]. intros [= <- <-].
    destruct (IH a' eq_refl) as [-> ?]. split; [done|].
    rewrite str_has_cons, bool_decide_eq_false_2 by done. done.
Qed.

Lemma strip_prefix_app p s : strip_prefix p (p +:+ s) = Some s.
Proof.
  induction p as [|c p IH]; [done|]. rewrite app_cons. simpl.
  by rewrite bool_decide_eq_true_2.
Qed.

Lemma strip_prefix_Some p s r : strip_prefix p s = Some r <-> s = p +:+ r.
Proof.
  split; [|intros ->; apply strip_prefix_app].
  revert s. induction p as [|c p IH]; intros s; simpl; [by intros [= ->]|].
  destruct s as [|d s]; [done|]. case_bool_decide; [|done]. subst.
  intros H%IH. by rewrite app_cons, H.
Qed.

Lemma starts_with_true p s : starts_with p s = true <-> exists r, s = p +:+ r.
Proof.
  unfold starts_with. rewrite bool_decide_eq_true. unfold is_Some.
  setoid_rewrite strip_prefix_Some. done.
Qed.

(** ** Decimal round trip *)
Definition is_digit (c : ascii) : bool := bool_decide (is_Some (char_digit c)).

Lemma char_digit_digit_char d : 0 <= d < 10 -> char_digit (digit_char d) = Some d.
Proof.
  intros H. assert (d = 0 \/ d = 1 \/ d = 2 \/ d = 3 \/ d = 4 \/ d = 5 \/ d = 6
    \/ d = 7 \/ d = 8 \/ d = 9) as Hd by lia.
  repeat destruct Hd as [->|Hd]; try done. by subst.
Qed.

Lemma is_digit_digit_char d : 0 <= d < 10 -> is_digit (digit_char d) = true.
Proof. intros H. unfold is_digit. rewrite char_digit_digit_char by done. done. Qed.

Lemma dec_digits_forall f n acc :
  str_forall is_digit acc = true -> str_forall is_digit (dec_digits f n acc) = true.
Proof.
  revert n acc. induction f as [|f IH]; intros n acc Hacc; [done|]. simpl.
  assert (str_forall is_digit (String (digit_char (n mod 10)) acc) = true).
  { simpl. rewrite Hacc, is_digit_digit_char; [done|]. apply Z.mod_pos_bound. lia. }
  destruct (n <? 10); auto.
Qed.

Lemma dec_digits_cons f n acc :
  exists c s, dec_digits (S f) n acc = String c s.
Proof.
  revert n acc. induction f as [|f IH]; intros n acc.
  - simpl. case_match; eauto.
  - cbn [dec_digits]. destruct (n <? 10); [eauto|]. apply IH.
Qed.

Lemma parse_dec_digits max f n acc :
  0 <= n < 10 ^ Z.of_nat f -> n <= max -> (0 < f)%nat ->
  parse_digits max 0 (dec_digits f n acc) = parse_digits max n acc.
Proof.
  revert n acc. induction f as [|f IH]; intros n acc Hn Hmax Hf; [lia|].
  cbn [dec_digits]. destruct (n <? 10) eqn:E; bsimp.
  - cbn [parse_digits]. rewrite char_digit_digit_char by (apply Z.mod_pos_bound; lia).
    rewrite Z.mod_small by lia. replace (0 * 10 + n) with n by lia.
    destruct (max <? n) eqn:?; bsimp; [lia|done].
  - destruct f as [|f]; [simpl in Hn; lia|].
    rewrite IH; [| |pose proof (Z.div_le_upper_bound n 10 n); lia|lia].
    2: { rewrite Nat2Z.inj_succ, Z.pow_succ_r in Hn by lia.
         split; [apply Z.div_pos; lia|]. apply Z.div_lt_upper_bound; lia. }
    cbn [parse_digits]. rewrite char_digit_digit_char by (apply Z.mod_pos_bound; lia).
    rewrite (Z.mul_comm (n / 10)), <- Z.div_mod by lia.
    destruct (max <? n) eqn:?; bsimp; [lia|done].
Qed.

Lemma u64_to_string_forall n : str_forall is_digit (u64_to_string n) = true.
Proof. by apply dec_digits_forall. Qed.

(** Decimal text of any natural number. *)
Definition dec_string (n : Z) : string := dec_digits (S (Z.to_nat (Z.log2 n))) n "".

Lemma dec_string_parse n : 0 <= n -> parse_digits n 0 (dec_string n) = Some n.
Proof.
  intros Hn. unfold dec_string. rewrite parse_dec_digits; [done| |lia|lia].
  split; [done|]. rewrite Nat2Z.inj_succ, Z2Nat.id by apply Z.log2_nonneg.
  destruct (decide (n = 0)) as [->|Hne]; [done|].
  pose proof (Z.log2_spec n ltac:(lia)) as [_ Hlt].
  eapply Z.lt_le_trans; [exact Hlt|]. apply Z.pow_le_mono_l. lia.
Qed.

Lemma parse_digits_mono max max' acc s n :
  parse_digits max acc s = Some n -> max <= max' -> parse_digits max' acc s = Some n.
Proof.
  revert acc. induction s as [|c s IH]; intros acc; simpl; [done|].
  destruct (char_digit c) as [d|]; [|done].
  destruct (max <? _) eqn:E1; [done|]. destruct (max' <? _) eqn:E2; bsimp; [lia|auto].
Qed.

Lemma dec_string_inj n m : 0 <= n -> 0 <= m -> dec_string n = dec_string m -> n = m.
Proof.
  intros Hn Hm E. pose proof (dec_string_parse n Hn) as H1.
  pose proof (dec_string_parse m Hm) as H2. rewrite E in H1.
  eapply parse_digits_mono with (max' := Z.max n m) in H1; [|lia].
  eapply parse_digits_mono with (max' := Z.max n m) in H2; [|lia]. congruence.
Qed.

Lemma dec_string_digits n :
  str_forall is_digit (dec_string n) = true /\ exists c s, dec_string n = String c s.
Proof. split; [by apply dec_digits_forall|]. apply dec_digits_cons. Qed.

(** A printed [u64] contains no separator of the program's formats. *)
Lemma u64_to_string_no c n : is_digit c = false -> str_has c (u64_to_string n) = false.
Proof. intros. eapply str_has_forall; [apply u64_to_string_forall|done]. Qed.

Lemma parse_nonempty_to_string max n :
  0 <= n <= u64_max -> n <= max -> parse_nonempty max (u64_to_string n) = Some n.
Proof.
  intros Hn Hmax. unfold parse_nonempty, u64_to_string.
  destruct (dec_digits_cons 19 n "") as (c & s & E). rewrite E, <- E.
  rewrite parse_dec_digits; [done| |done|lia].
  unfold u64_max in Hn. split; [lia|]. change (10 ^ Z.of_nat 20) with (10 ^ 20). lia.
Qed.

Lemma u64_from_to_string n : 0 <= n <= u64_max -> u64_from_str (u64_to_string n) = Some n.
Proof.
  intros Hn. pose proof (parse_nonempty_to_string u64_max n Hn ltac:(lia)) as Hp.
  pose proof (u64_to_string_forall n) as Hd.
  destruct (dec_digits_cons 19 n "") as (c & s & E).
  unfold u64_to_string in *. rewrite E in *. simpl in Hd.
  apply andb_true_iff in Hd as [Hc _]. unfold u64_from_str.
  destruct c as [[] [] [] [] [] [] [] []]; try exact Hp; by vm_compute in Hc.
Qed.

Lemma i64_from_to_string n :
  i64_min <= n <= i64_max -> i64_from_str (i64_to_string n) = Some n.
Proof.
  unfold i64_min, i64_max, i64_to_string. intros Hn. destruct (n <? 0) eqn:E; bsimp.
  - unfold i64_from_str.
    rewrite parse_nonempty_to_string by (unfold u64_max; lia). simpl. f_equal. lia.
  - pose proof (parse_nonempty_to_string i64_max n) as Hp.
    unfold u64_max, i64_max in Hp. specialize (Hp ltac:(lia) ltac:(lia)).
    pose proof (u64_to_string_forall n) as Hd.
    destruct (dec_digits_cons 19 n "") as (c & s & E').
    unfold u64_to_string in *. rewrite E' in *. simpl in Hd.
    apply andb_true_iff in Hd as [Hc _]. unfold i64_from_str, i64_max.
    destruct c as [[] [] [] [] [] [] [] []]; try exact Hp; by vm_compute in Hc.
Qed.

#[export] Hint Rewrite split_once_app strip_prefix_app : mcp_rw.

Lemma parse_digits_bounds max acc s n :
  parse_digits max acc s = Some n -> 0 <= acc <= max -> 0 <= n <= max.
Proof.
  revert acc. induction s as [|c s IH]; intros acc; simpl; [by intros [= ->]|].
  destruct (char_digit c) as [d|] eqn:E; [|done]. destruct (max <? _) eqn:E1; [done|]. bsimp.
  intros H ?. apply (IH _ H). unfold char_digit in E. case_match eqn:E2; simplify_eq.
  apply andb_true_iff in E2 as [? ?]. bsimp. lia.
Qed.

Lemma u64_from_str_bounds s n : u64_from_str s = Some n -> 0 <= n <= u64_max.
Proof.
  assert (forall t, parse_nonempty u64_max t = Some n -> 0 <= n <= u64_max) as H.
  { intros [|c t]; [done|]. intros Ht. by apply (parse_digits_bounds _ _ _ _ Ht). }
  unfold u64_from_str. intros Hn. repeat case_match; by apply H in Hn.
Qed.

Lemma i64_from_str_bounds s n : i64_from_str s = Some n -> i64_min <= n <= i64_max.
Proof.
  assert (forall max t m, 0 <= max -> parse_nonempty max t = Some m -> 0 <= m <= max) as H.
  { intros max [|c t] m Hm; [done|]. intros Ht. apply (parse_digits_bounds _ _ _ _ Ht). lia. }
  unfold i64_from_str, i64_min, i64_max. intros Hn.
  repeat case_match; try (apply fmap_Some in Hn as (m & Hn & ->)); apply H in Hn; lia.
Qed.

Lemma app_sep_inj sep a b s t :
  str_has sep a = false -> str_has sep b = false ->
  a +:+ String sep s = b +:+ String sep t -> a = b /\ s = t.
Proof.
  intros Ha Hb E. pose proof (split_once_app sep a s Ha) as H1.
  rewrite E, split_once_app in H1 by done. by injection H1 as -> ->.
Qed.

Lemma u64_to_string_inj n m :
  0 <= n <= u64_max -> 0 <= m <= u64_max -> u64_to_string n = u64_to_string m -> n = m.
Proof. intros Hn Hm E. apply u64_from_to_string in Hn, Hm. rewrite E in Hn. congruence. Qed.
