(* ===== verification/Lib.v ===== *)
(** * Third-party code the program calls, as parameters.

    chrono's [DateTime<Utc>] is the number of nanoseconds since the Unix
    epoch, [Duration] a number of nanoseconds; the range of dates and the
    rendering are parameters.  Digests, encodings and random identifiers are
    parameters as well: each with the laws its documentation states, and a
    small instance for the executable examples. *)
From S2P Require Import Prelude RustStd.

(** ** chrono *)
Class Chrono := {
  MIN_UTC : Z;
  MAX_UTC : Z;
  (** [to_rfc3339_opts(SecondsFormat::Millis, true)] *)
  to_rfc3339_millis : Z -> string
}.

Class ChronoLaws (C : Chrono) : Prop := {
  utc_range : MIN_UTC < 0 < MAX_UTC
}.

Section chrono.
Context {C : Chrono}.

(** The dates chrono represents. *)
Definition is_dt (t : Z) : bool := (MIN_UTC <=? t) && (t <=? MAX_UTC).

(** [DateTime::checked_sub_signed]: [None] outside the range. *)
Definition checked_sub_signed (t d : Z) : option Z :=
  if is_dt (t - d) then Some (t - d) else None.

Lemma checked_sub_floor t d :
  MIN_UTC <= t - d <= MAX_UTC -> checked_sub_signed t d = Some (t - d).
Proof.
  intros H. unfold checked_sub_signed, is_dt.
  by rewrite (proj2 (Z.leb_le _ _)), (proj2 (Z.leb_le _ _)) by lia.
Qed.
End chrono.

(** [Duration::milliseconds] and [Duration::seconds]. *)
Definition milliseconds (ms : Z) : Z := ms * 1000000.
Definition seconds (s : Z) : Z := s * 1000000000.

(** Dates of the examples: chrono's range, rendered as the number of
    milliseconds. *)
#[export] Instance MillisChrono : Chrono := {
  MIN_UTC := - 8334601228800 * 10 ^ 9;
  MAX_UTC := 8210266876799 * 10 ^ 9 + 999999999;
  to_rfc3339_millis t := i64_to_string (t / 1000000)
}.

#[export] Instance MillisChrono_laws : ChronoLaws MillisChrono.
Proof. by split. Qed.

(** ** Digests and encodings *)
Class Crypto := {
  sha256 : string -> string;
  hmac_sha256 : string -> string -> string;  (* key, message *)
  hex_encode : string -> string;
  base64_encode : string -> string;          (* STANDARD: padded, [+/] *)
  base64_decode : string -> option string;
  base64_error : string -> string            (* the decoder's message *)
}.

(** What the encodings promise; nothing is assumed of the digests except
    where a theorem says so. *)
Class CryptoLaws (C : Crypto) : Prop := {
  base64_roundtrip s : base64_decode (base64_encode s) = Some s;
  base64_visible s : str_forall (fun c => (32 <? N_of_ascii c) && (N_of_ascii c <? 127))%N (base64_encode s) = true
}.

(** An instance for the examples: hexadecimal text for both encodings, and
    the message itself for its digest. *)
Definition hex_nibble (n : N) : ascii :=
  if (n <? 10)%N then ascii_of_N (48 + n) else ascii_of_N (87 + n).

Definition nibble_hex (c : ascii) : option N :=
  let k := N_of_ascii c in
  if ((48 <=? k) && (k <=? 57))%N then Some (k - 48)%N
  else if ((97 <=? k) && (k <=? 102))%N then Some (k - 87)%N else None.

Fixpoint hex_text (s : string) : string :=
  match s with
  | EmptyString => ""
  | String c s' =>
      let k := N_of_ascii c in
      String (hex_nibble (k / 16)) (String (hex_nibble (k mod 16)) (hex_text s'))
  end.

Fixpoint hex_bytes (s : string) : option string :=
  match s with
  | EmptyString => Some ""
  | String a (String b s') =>
      x ← nibble_hex a; y ← nibble_hex b; r ← hex_bytes s';
      Some (String (ascii_of_N (x * 16 + y)) r)
  | _ => None
  end.

#[export] Instance HexCrypto : Crypto := {
  sha256 s := s;
  hmac_sha256 k m := k +:+ m;
  hex_encode := hex_text;
  base64_encode := hex_text;
  base64_decode := hex_bytes;
  base64_error _ := "invalid"
}.

#[export] Instance HexCrypto_laws : CryptoLaws HexCrypto.
Proof.
  split; simpl.
  - intros s. induction s as [|c s IH]; [done|]. simpl. rewrite IH.
    destruct c as [[] [] [] [] [] [] [] []]; reflexivity.
  - intros s. induction s as [|c s IH]; [done|]. simpl. rewrite IH.
    destruct c as [[] [] [] [] [] [] [] []]; reflexivity.
Qed.
