(* ===== verification/Json.v ===== *)
(** * JSON values as the program sees them ([serde_json::Value]).

    [Value] is the public enum the source matches on; its accessors follow
    their documentation.  A [Map] is a [BTreeMap] (the feature
    [preserve_order] is off in Cargo.lock): entries in ascending byte order
    of their keys.  Numbers and the printing of numbers and strings belong to
    serde_json and are parameters ([JsonLib]), with their documented laws in
    [JsonLaws]; [ZJson] is an instance with integer numbers and the JSON
    escaping rules that satisfies them, for the executable examples. *)
From S2P Require Import Prelude RustStd.

(** ** What the program uses of [serde_json::Number] and of JSON text *)
Class JsonLib := {
  Num : Type;
  Num_eq_dec :: EqDecision Num;
  num_as_u64 : Num -> option Z;
  num_as_i64 : Num -> option Z;
  num_of_Z : Z -> Num;            (* [Number::from] on [u64] and [i64] *)
  num_to_string : Num -> string;  (* [Display] *)
  str_escape : string -> string   (* [Value::String(s).to_string()] *)
}.

Definition is_num_char (c : ascii) : bool :=
  is_digit c || bool_decide (c = "-"%char) || bool_decide (c = "+"%char)
  || bool_decide (c = "."%char) || bool_decide (c = "e"%char).

Definition is_num_head (c : ascii) : bool := is_digit c || bool_decide (c = "-"%char).

(** A text that cannot extend the number before it. *)
Definition num_stop (s : string) : Prop :=
  match s with EmptyString => True | String c _ => is_num_char c = false end.

Class JsonLaws (J : JsonLib) : Prop := {
  num_as_u64_of z : 0 <= z <= u64_max -> num_as_u64 (num_of_Z z) = Some z;
  num_as_i64_of z : i64_min <= z <= i64_max -> num_as_i64 (num_of_Z z) = Some z;
  num_to_string_head n : exists c s,
    num_to_string n = String c s /\ is_num_head c = true;
  num_to_string_chars n : str_forall is_num_char (num_to_string n) = true;
  num_to_string_inj n m : num_to_string n = num_to_string m -> n = m;
  str_escape_head s : exists r, str_escape s = String "034" r;
  str_escape_prefix s t u v :
    str_escape s +:+ u = str_escape t +:+ v -> s = t /\ u = v;
  str_escape_line s : str_has "010" (str_escape s) = false
}.

Section value.
Context {J : JsonLib}.

Unset Elimination Schemes.
Inductive Value : Type :=
| JNull
| JBool (b : bool)
| JNumber (n : Num)
| JString (s : string)
| JArray (l : list Value)
| JObject (m : list (string * Value)).
Set Elimination Schemes.

(** Induction with the hypotheses of the nested lists. *)
Lemma Value_ind (P : Value -> Prop) :
  P JNull -> (forall b, P (JBool b)) -> (forall n, P (JNumber n)) ->
  (forall s, P (JString s)) ->
  (forall l, Forall P l -> P (JArray l)) ->
  (forall m, Forall (fun kv => P kv.2) m -> P (JObject m)) ->
  forall v, P v.
Proof.
  intros Hn Hb Hnum Hs Ha Ho. fix IH 1. intros [|b|n|s|l|m].
  - exact Hn.
  - apply Hb.
  - apply Hnum.
  - apply Hs.
  - apply Ha. induction l as [|v l IHl]; constructor; [apply IH|exact IHl].
  - apply Ho. induction m as [|[k v] m IHm]; constructor; [apply IH|exact IHm].
Qed.

#[export] Instance Value_eq_dec : EqDecision Value.
Proof.
  refine (fix go v w :=
    match v, w return Decision (v = w) with
    | JNull, JNull => left eq_refl
    | JBool a, JBool b => cast_if (decide (a = b))
    | JNumber a, JNumber b => cast_if (decide (a = b))
    | JString a, JString b => cast_if (decide (a = b))
    | JArray a, JArray b => cast_if (@list_eq_dec _ go a b)
    | JObject a, JObject b => cast_if (@list_eq_dec _ (@prod_eq_dec _ _ _ go) a b)
    | _, _ => right _
    end); clear go; congruence.
Defined.

#[export] Instance Value_inhabited : Inhabited Value := populate JNull.

(** ** [Map] *)
Definition Map : Type := list (string * Value).

Fixpoint map_get (k : string) (m : Map) : option Value :=
  match m with
  | [] => None
  | (k', v) :: m' => if decide (k = k') then Some v else map_get k m'
  end.

(** [Map::insert]: replaces the entry of the key or adds it in order. *)
Fixpoint map_insert (k : string) (v : Value) (m : Map) : Map :=
  match m with
  | [] => [(k, v)]
  | (k', v') :: m' =>
      if decide (k = k') then (k, v) :: m'
      else if decide (String.le k k') then (k, v) :: m
      else (k', v') :: map_insert k v m'
  end.

(** [map.entry(k).or_insert_with(|| v)]. *)
Definition map_entry_or_insert (k : string) (v : Value) (m : Map) : Map :=
  match map_get k m with Some _ => m | None => map_insert k v m end.

(** An object built entry by entry: [json!({..})] and the serialized structs. *)
Definition map_of (l : list (string * Value)) : Map :=
  foldl (fun m kv => map_insert kv.1 kv.2 m) [] l.

Definition json_obj (l : list (string * Value)) : Value := JObject (map_of l).

(** ** Accessors of [Value] *)
Definition is_null (v : Value) : bool := match v with JNull => true | _ => false end.
Definition as_str (v : Value) : option string := match v with JString s => Some s | _ => None end.
Definition as_array (v : Value) : option (list Value) := match v with JArray l => Some l | _ => None end.
Definition as_object (v : Value) : option Map := match v with JObject m => Some m | _ => None end.
Definition as_i64 (v : Value) : option Z := match v with JNumber n => num_as_i64 n | _ => None end.
Definition as_u64 (v : Value) : option Z := match v with JNumber n => num_as_u64 n | _ => None end.

(** [Value::get] with a string key. *)
Definition value_get (k : string) (v : Value) : option Value :=
  match v with JObject m => map_get k m | _ => None end.

(** [Value::from] on integers; [Option] fields written as [null] or a string. *)
Definition json_int (z : Z) : Value := JNumber (num_of_Z z).
Definition json_opt_str (o : option string) : Value :=
  match o with Some s => JString s | None => JNull end.

(** ** Compact JSON text ([Value::to_string], [serde_json::to_vec]) *)
Fixpoint value_to_string (v : Value) : string :=
  match v with
  | JNull => "null"
  | JBool true => "true"
  | JBool false => "false"
  | JNumber n => num_to_string n
  | JString s => str_escape s
  | JArray l => "[" +:+ str_join "," (value_to_string <$> l) +:+ "]"
  | JObject m =>
      "{" +:+ str_join "," ((fun kv => str_escape kv.1 +:+ ":" +:+ value_to_string kv.2) <$> m) +:+ "}"
  end.

(** ** Well-formed values: every [Map] is ascending with distinct keys *)
Definition str_lt (a b : string) : Prop := String.le a b /\ a <> b.

#[export] Instance str_lt_trans : Transitive str_lt.
Proof.
  intros a b c [Hab Nab] [Hbc Nbc]. split; [by transitivity b|].
  intros ->. apply Nbc. by apply (anti_symm String.le).
Qed.

Definition map_sorted (m : Map) : Prop := StronglySorted str_lt m.*1.

Fixpoint wf_value (v : Value) : Prop :=
  match v with
  | JArray l => foldr (fun x P => wf_value x /\ P) True l
  | JObject m => map_sorted m /\ foldr (fun kv P => wf_value kv.2 /\ P) True m
  | _ => True
  end.

Lemma wf_array l : wf_value (JArray l) <-> Forall wf_value l.
Proof. induction l; simpl in *; [done|]. rewrite Forall_cons. naive_solver. Qed.

Lemma wf_object m :
  wf_value (JObject m) <-> map_sorted m /\ Forall (fun kv => wf_value kv.2) m.
Proof.
  simpl. apply and_iff_compat_l. induction m as [|kv m IH]; simpl; [done|].
  rewrite Forall_cons. naive_solver.
Qed.

(** ** Lemmas on maps *)
Lemma map_get_insert k k' v m :
  map_get k (map_insert k' v m) = if decide (k = k') then Some v else map_get k m.
Proof.
  induction m as [|[k1 v1] m IH]; simpl; [done|].
  repeat (case_decide; simplify_eq/=; try done).
Qed.

Lemma map_insert_keys k v m x :
  x ∈ (map_insert k v m).*1 <-> x = k \/ x ∈ m.*1.
Proof.
  induction m as [|[k1 v1] m IH]; simpl; [set_solver|].
  repeat (case_decide; simplify_eq/=); set_solver.
Qed.

Lemma map_insert_sorted k v m : map_sorted m -> map_sorted (map_insert k v m).
Proof.
  unfold map_sorted. induction m as [|[k1 v1] m IH]; simpl; intros Hm.
  { repeat constructor. }
  apply StronglySorted_inv in Hm as [Hm Hk1]. rewrite Forall_forall in Hk1.
  case_decide as E1; simplify_eq/=.
  { constructor; [done|]. by apply Forall_forall. }
  case_decide as E2; simpl.
  - constructor; [constructor; [done|by apply Forall_forall]|].
    apply Forall_cons. split; [by split|]. apply Forall_forall. intros x Hx.
    transitivity k1; [by split|auto].
  - constructor; [auto|]. apply Forall_forall. intros x [->|Hx]%map_insert_keys; [|auto].
    destruct (total String.le k1 k); [|done]. split; [done|congruence].
Qed.

Lemma map_insert_Forall (P : string * Value -> Prop) k v m :
  P (k, v) -> Forall P m -> Forall P (map_insert k v m).
Proof.
  induction m as [|[k1 v1] m IH]; simpl; intros Hk Hm; [by constructor|].
  apply Forall_cons in Hm as [? ?].
  repeat (case_decide; simplify_eq/=); repeat constructor; auto.
Qed.

Lemma map_get_snoc k k' v l :
  map_get k (reverse (l ++ [(k', v)])) =
  if decide (k = k') then Some v else map_get k (reverse l).
Proof. rewrite reverse_snoc. simpl. done. Qed.

(** In a [Map] built entry by entry the last entry of a key wins. *)
Lemma map_get_map_of k l : map_get k (map_of l) = map_get k (reverse l).
Proof.
  induction l as [|[k' v] l IH] using rev_ind; [done|].
  rewrite map_get_snoc. unfold map_of. rewrite foldl_snoc. simpl.
  rewrite map_get_insert. by case_decide.
Qed.

Lemma map_of_sorted l : map_sorted (map_of l).
Proof.
  induction l as [|[k' v] l IH] using rev_ind; [constructor|].
  unfold map_of. rewrite foldl_snoc. by apply map_insert_sorted.
Qed.

Lemma map_of_Forall (P : string * Value -> Prop) l : Forall P l -> Forall P (map_of l).
Proof.
  induction l as [|[k' v] l IH] using rev_ind; [done|].
  intros [? [? _]%Forall_cons]%Forall_app.
  unfold map_of. rewrite foldl_snoc. apply map_insert_Forall; auto.
Qed.

Lemma json_obj_wf l : Forall (fun kv => wf_value kv.2) l -> wf_value (json_obj l).
Proof. intros H. apply wf_object. auto using map_of_sorted, map_of_Forall. Qed.

Lemma map_get_elem k v m : map_get k m = Some v -> (k, v) ∈ m.
Proof.
  induction m as [|[k' v'] m IH]; simpl; [done|]. case_decide; simplify_eq/=; set_solver.
Qed.

Lemma map_get_None k m : map_get k m = None <-> k ∉ m.*1.
Proof.
  induction m as [|[k' v'] m IH]; simpl; [set_solver|].
  case_decide; simplify_eq/=; set_solver.
Qed.

Lemma map_get_app k m1 m2 :
  map_get k (m1 ++ m2) =
  match map_get k m1 with Some v => Some v | None => map_get k m2 end.
Proof. induction m1 as [|[k' v] m1 IH]; simpl; [done|]. by case_decide. Qed.

Lemma map_sorted_NoDup m : map_sorted m -> NoDup m.*1.
Proof.
  unfold map_sorted. induction 1 as [|k l _ IH Hk]; constructor; [|done].
  intros Hin. rewrite Forall_forall in Hk. by destruct (Hk k Hin).
Qed.

(** ** Objects with optional fields (serialized structs) *)
Definition struct_fields (l : list (string * option Value)) : list (string * Value) :=
  omap (fun kv => pair kv.1 <$> kv.2) l.

Definition json_struct (l : list (string * option Value)) : Value :=
  json_obj (struct_fields l).

(** [serde_json::to_vec] of a struct itself: its fields in the order of their
    declaration. *)
Definition struct_text (l : list (string * option Value)) : string := value_to_string (JObject (struct_fields l)).

Fixpoint field_of (k : string) (l : list (string * option Value)) : option Value :=
  match l with
  | [] => None
  | (k', o) :: l' => if decide (k = k') then o else field_of k l'
  end.

Lemma struct_fields_keys k l : k ∉ l.*1 -> map_get k (reverse (struct_fields l)) = None.
Proof.
  intros Hk. apply map_get_None. intros ([k' v] & -> & Hin)%list_elem_of_fmap.
  rewrite elem_of_reverse in Hin. apply list_elem_of_omap in Hin as ([k1 o] & Hin & Ho).
  simpl in *. destruct o; simplify_eq/=. apply Hk. apply list_elem_of_fmap. by exists (k', Some v).
Qed.

(** The fields of a serialized struct are read back by name. *)
Lemma json_struct_get k l :
  NoDup l.*1 -> value_get k (json_struct l) = field_of k l.
Proof.
  simpl. rewrite map_get_map_of. induction l as [|[k' o] l IH]; simpl; [done|].
  intros [Hk Hl]%NoDup_cons. specialize (IH Hl). destruct o as [v|]; simpl.
  - rewrite reverse_cons, map_get_app. simpl. rewrite IH. case_decide; subst; [|by destruct field_of].
    by rewrite <- IH, struct_fields_keys.
  - rewrite IH. case_decide; subst; [|done]. by rewrite <- IH, struct_fields_keys.
Qed.

Lemma json_struct_wf l :
  Forall (fun kv => from_option wf_value True kv.2) l -> wf_value (json_struct l).
Proof.
  rewrite Forall_forall. intros H. apply json_obj_wf. apply Forall_forall. intros [k v] Hin.
  apply list_elem_of_omap in Hin as ([k' o] & Hin & Ho). specialize (H _ Hin).
  simpl in *. destruct o; by simplify_eq/=.
Qed.
(** ** What a text says

    A reader collects the entries of an object in a map: ascending keys, the
    last value of each. *)
Fixpoint normal (v : Value) : Value :=
  match v with
  | JArray l => JArray (normal <$> l)
  | JObject m => JObject (map_of ((fun kv => (kv.1, normal kv.2)) <$> m))
  | _ => v
  end.

(** A map that is sorted is what its entries build. *)
Lemma map_insert_last k v (m : list (string * Value)) :
  Forall (fun x => str_lt x k) m.*1 -> map_insert k v m = m ++ [(k, v)].
Proof.
  induction m as [|[k' v'] m IH]; [done|]. rewrite fmap_cons. intros [[Hle Hne] Hm]%Forall_cons. cbn [map_insert app].
  cbn [fst] in *. rewrite decide_False by done. rewrite decide_False.
  - by rewrite IH.
  - intros Hle'. apply Hne. by apply (anti_symm String.le).
Qed.

Lemma map_of_self (m : list (string * Value)) : map_sorted m -> map_of m = m.
Proof.
  unfold map_of. induction m as [|[k v] m IH] using rev_ind; [done|]. intros Hs. rewrite foldl_snoc. cbn [fst snd].
  unfold map_sorted in Hs. rewrite fmap_app in Hs. apply StronglySorted_app in Hs as (Hlt & Hs & _).
  rewrite IH by done. apply map_insert_last. apply Forall_forall. intros x Hx. apply Hlt; [done|]. by left.
Qed.

Lemma normal_entries (m : list (string * Value)) :
  Forall (fun kv => normal kv.2 = kv.2) m -> (fun kv => (kv.1, normal kv.2)) <$> m = m.
Proof. induction 1 as [|[k v] m Hv _ IH]; [done|]. csimpl in *. by rewrite Hv, IH. Qed.

Lemma normal_wf v : wf_value v -> normal v = v.
Proof.
  induction v as [| | | |l IH|m IH] using Value_ind; intros Hw; [done..| |].
  - apply wf_array in Hw. cbn [normal]. f_equal. induction IH as [|v l Hv _ IHl]; [done|].
    apply Forall_cons in Hw as [Hw1 Hw2]. csimpl. by rewrite Hv, IHl.
  - apply wf_object in Hw as [Hs Hw]. cbn [normal]. rewrite normal_entries, map_of_self; [done..|].
    rewrite Forall_forall in *. intros kv Hkv. auto.
Qed.

Lemma normal_struct l :
  Forall (fun kv => from_option wf_value True kv.2) l -> normal (JObject (struct_fields l)) = json_struct l.
Proof.
  intros Hl. cbn [normal]. rewrite normal_entries; [done|]. apply Forall_forall. intros [k v] Hin.
  apply list_elem_of_omap in Hin as ([k' o] & Hin & Ho). rewrite Forall_forall in Hl. specialize (Hl _ Hin).
  simpl in *. destruct o; simplify_eq/=. by apply normal_wf.
Qed.
End value.
Arguments Map {J}.
Arguments Value {J}.
#[export] Hint Resolve map_of_sorted map_insert_sorted json_obj_wf json_struct_wf : mcp.

(** ** An instance: integer numbers and JSON's escapes *)
Definition hex_digit (n : N) : ascii :=
  if (n <? 10)%N then ascii_of_N (48 + n) else ascii_of_N (87 + n).

Definition escape_char (c : ascii) : string :=
  let k := N_of_ascii c in
  match k with
  | 8%N => "\b" | 9%N => "\t" | 10%N => "\n" | 12%N => "\f" | 13%N => "\r"
  | 34%N => String "\" (String "034" "")
  | 92%N => "\\"
  | _ => if (k <? 32)%N
         then "\u00" +:+ String (hex_digit (k / 16)) (String (hex_digit (k mod 16)) "")
         else String c ""
  end.

Fixpoint escape_chars (s : string) : string :=
  match s with
  | EmptyString => ""
  | String c s' => escape_char c +:+ escape_chars s'
  end.

Definition json_escape (s : string) : string :=
  String "034" (escape_chars s +:+ String "034" "").

#[export] Instance ZJson : JsonLib := {
  Num := Z;
  num_as_u64 z := if is_u64 z then Some z else None;
  num_as_i64 z := if is_i64 z then Some z else None;
  num_of_Z z := z;
  num_to_string z := if z <? 0 then String "-" (dec_string (- z)) else dec_string z;
  str_escape := json_escape
}.

(** Reading back one escaped character; used to show that escaping is
    self-delimiting. *)
Definition unhex (c : ascii) : N :=
  let k := N_of_ascii c in if (k <? 58)%N then (k - 48)%N else (k - 87)%N.

Definition unescape (s : string) : option (ascii * string) :=
  match s with
  | String c r =>
      let k := N_of_ascii c in
      if (k =? 34)%N then None
      else if (k =? 92)%N then
        match r with
        | String "b" r' => Some (ascii_of_N 8, r')
        | String "t" r' => Some (ascii_of_N 9, r')
        | String "n" r' => Some (ascii_of_N 10, r')
        | String "f" r' => Some (ascii_of_N 12, r')
        | String "r" r' => Some (ascii_of_N 13, r')
        | String "u" (String _ (String _ (String a (String b r')))) =>
            Some (ascii_of_N (unhex a * 16 + unhex b), r')
        | String a r' => Some (a, r')
        | EmptyString => None
        end
      else Some (c, r)
  | EmptyString => None
  end.

Lemma unescape_escape c r : unescape (escape_char c +:+ r) = Some (c, r).
Proof. destruct c as [[] [] [] [] [] [] [] []]; reflexivity. Qed.

Lemma escape_char_line c : str_has "010" (escape_char c) = false.
Proof. destruct c as [[] [] [] [] [] [] [] []]; reflexivity. Qed.

Lemma escape_chars_prefix s t u v :
  escape_chars s +:+ String "034" u = escape_chars t +:+ String "034" v -> s = t /\ u = v.
Proof.
  revert t. induction s as [|c s IH]; intros [|d t]; simpl; rewrite ?app_assoc'.
  - by intros [= ->].
  - intros E%(f_equal unescape). rewrite unescape_escape in E. done.
  - intros E%(f_equal unescape). rewrite unescape_escape in E. done.
  - intros E%(f_equal unescape). rewrite !unescape_escape in E.
    injection E as -> [-> ->]%IH. done.
Qed.

#[export] Instance ZJson_laws : JsonLaws ZJson.
Proof.
  split; simpl.
  - intros z Hz. by rewrite (proj2 (is_u64_spec z)).
  - intros z Hz. unfold is_i64. rewrite (proj2 (Z.leb_le _ _)), (proj2 (Z.leb_le _ _)) by lia. done.
  - intros n. destruct (n <? 0); [by eexists _, _|].
    destruct (dec_string_digits n) as (H & c & s & E). exists c, s. split; [done|].
    rewrite E in H. simpl in H. apply andb_true_iff in H as [H _].
    unfold is_num_head. by rewrite H.
  - intros n. assert (forall m, str_forall is_num_char (dec_string m) = true) as H.
    { intros m. eapply str_forall_impl; [|apply (proj1 (dec_string_digits m))].
      intros c Hc. unfold is_num_char. by rewrite Hc. }
    destruct (n <? 0); simpl; by rewrite ?H.
  - intros n m. assert (forall a b, dec_string a = String "-" b -> False) as Hno.
    { intros a b E. pose proof (proj1 (dec_string_digits a)) as H. by rewrite E in H. }
    destruct (n <? 0) eqn:En, (m <? 0) eqn:Em; bsimp; intros E.
    + injection E as E. apply dec_string_inj in E; lia.
    + by apply eq_sym, Hno in E.
    + by apply Hno in E.
    + apply dec_string_inj in E; lia.
  - intros s. unfold json_escape. eauto.
  - intros s t u v. unfold json_escape. rewrite !app_cons, !app_assoc'.
    intros [= E]. apply (escape_chars_prefix _ _ _ _ E).
  - intros s. unfold json_escape. rewrite str_has_cons, str_has_app. simpl.
    induction s as [|c s IH]; [done|]. simpl. rewrite str_has_app, escape_char_line. done.
Qed.

Example json_text_example :
  value_to_string (json_obj [("b", json_int 1); ("a", JArray [JString "x"; JNull; JBool true])])
  = "{" +:+ String "034" "a" +:+ String "034" ":[" +:+ String "034" "x"
      +:+ String "034" ",null,true]," +:+ String "034" "b" +:+ String "034" ":1}".
Proof. reflexivity. Qed.
