(* ===== verification/Canon.v ===== *)
(** * Canonical JSON (crates/mcp-events-engine/src/canon.rs).

    [canonical_json] is the text used for params equality in subscription
    keys.  [json_equiv] is the equality it is meant to decide: same JSON
    value up to the order of object entries.  The file shows that the text
    is equal exactly for equivalent values, that it is free of line feeds,
    and that on values held in a [BTreeMap]-backed [Map] it is the plain
    compact text. *)
From S2P Require Import Prelude RustStd Json.

(** ** [pairs.sort_by(|a, b| a.0.cmp(b.0))]: a stable sort by key *)
Section sort.
Context {A : Type}.
Implicit Types l : list (string * A).

Fixpoint insert_pair (p : string * A) l : list (string * A) :=
  match l with
  | [] => [p]
  | q :: l' => if decide (String.le p.1 q.1) then p :: l else q :: insert_pair p l'
  end.

Definition sort_pairs l : list (string * A) := foldr insert_pair [] l.

Lemma insert_pair_perm p l : insert_pair p l ≡ₚ p :: l.
Proof.
  induction l as [|q l IH]; simpl; [done|]. case_decide; [done|].
  rewrite IH. apply perm_swap.
Qed.

Lemma sort_pairs_perm l : sort_pairs l ≡ₚ l.
Proof. induction l as [|p l IH]; simpl; [done|]. by rewrite insert_pair_perm, IH. Qed.

Lemma insert_pair_sorted p l :
  StronglySorted String.le l.*1 -> StronglySorted String.le (insert_pair p l).*1.
Proof.
  induction l as [|q l IH]; simpl; [repeat constructor|].
  intros [Hl Hq]%StronglySorted_inv. case_decide as E; simpl.
  - constructor; [by constructor|]. constructor; [done|].
    eapply Forall_impl; [exact Hq|]. intros x ?. by transitivity q.1.
  - constructor; [auto|]. apply Forall_forall. intros x Hx.
    rewrite insert_pair_perm in Hx. apply elem_of_cons in Hx as [->|Hx].
    + destruct (total String.le p.1 q.1); done.
    + rewrite Forall_forall in Hq. auto.
Qed.

Lemma sort_pairs_sorted l : StronglySorted String.le (sort_pairs l).*1.
Proof. induction l as [|p l IH]; simpl; [constructor|]. by apply insert_pair_sorted. Qed.

Lemma insert_pair_head p l :
  Forall (fun q => String.le p.1 q.1) l -> insert_pair p l = p :: l.
Proof. intros H. destruct l as [|q l]; [done|]. inv H. simpl. by rewrite decide_True. Qed.

Lemma sort_pairs_sorted_id l : StronglySorted String.le l.*1 -> sort_pairs l = l.
Proof.
  induction l as [|p l IH]; simpl; [done|]. intros [Hl Hp]%StronglySorted_inv.
  rewrite IH by done. apply insert_pair_head.
  rewrite Forall_fmap in Hp. exact Hp.
Qed.
End sort.

Definition on_value {A B} (f : A -> B) (p : string * A) : string * B := (p.1, f p.2).

Lemma insert_pair_fmap {A B} (f : A -> B) p (l : list (string * A)) :
  insert_pair (on_value f p) (on_value f <$> l) = on_value f <$> insert_pair p l.
Proof. induction l as [|q l IH]; simpl; [done|]. case_decide; [done|]. by f_equal/=. Qed.

(** Sorting only looks at the keys. *)
Lemma sort_pairs_fmap {A B} (f : A -> B) (l : list (string * A)) :
  sort_pairs (on_value f <$> l) = on_value f <$> sort_pairs l.
Proof.
  induction l as [|p l IH]; [done|]. etrans; [|apply (insert_pair_fmap f)].
  simpl. f_equal. exact IH.
Qed.

(** With distinct keys the result does not depend on the order of the input. *)
Lemma sort_pairs_perm_eq {A} (l k : list (string * A)) :
  l ≡ₚ k -> NoDup l.*1 -> sort_pairs l = sort_pairs k.
Proof.
  intros Hp Hl. set (R := fun p q : string * A => String.le p.1 q.1).
  assert (forall l : list (string * A), StronglySorted String.le l.*1 -> StronglySorted R l) as HR.
  { induction l0 as [|p l' IH]; simpl; [constructor|]. intros [? Hf]%StronglySorted_inv.
    constructor; [auto|]. rewrite Forall_fmap in Hf. exact Hf. }
  apply (StronglySorted_unique_strong R); auto using sort_pairs_sorted.
  - intros p q Hin1 Hin2 H1 H2. rewrite sort_pairs_perm in Hin1, Hin2.
    rewrite <- Hp in Hin2.
    assert (p.1 = q.1) as Hk by (by apply (anti_symm String.le)).
    apply list_elem_of_lookup in Hin1 as [i Hi], Hin2 as [j Hj].
    assert (i = j) as ->; [|congruence].
    apply (NoDup_lookup _ i j p.1 Hl).
    + by rewrite list_lookup_fmap, Hi.
    + rewrite list_lookup_fmap, Hj. simpl. by rewrite Hk.
  - by rewrite !sort_pairs_perm.
Qed.

(** ** Reading joined texts back *)
Definition join_tail (l : list string) : string := foldr (fun x acc => "," +:+ x +:+ acc) "" l.

Lemma str_join_cons x l : str_join "," (x :: l) = x +:+ join_tail l.
Proof.
  revert x. induction l as [|y l IH]; intros x; [by rewrite app_nil_r'|].
  change (str_join "," (x :: y :: l)) with (x +:+ "," +:+ str_join "," (y :: l)).
  by rewrite IH.
Qed.

Section join.
Context {A B : Type} (f : A -> string) (g : B -> string) (R : A -> B -> Prop) (close : ascii).
Context (Hclose : close <> ","%char) (Hstop : is_num_char close = false).

(** [f x] is read back whatever follows it, as long as no number can go on. *)
Definition readable (x : A) : Prop :=
  forall y s t, num_stop s -> num_stop t -> f x +:+ s = g y +:+ t -> R x y /\ s = t.

Lemma join_tail_stop l s : num_stop (join_tail l +:+ String close s).
Proof. destruct l; done. Qed.

Lemma join_tail_readable l k s t :
  Forall readable l ->
  join_tail (f <$> l) +:+ String close s = join_tail (g <$> k) +:+ String close t ->
  Forall2 R l k /\ s = t.
Proof.
  intros Hl. revert k. induction Hl as [|x l Hx _ IH]; intros [|y k]; simpl.
  - by intros [= ->].
  - intros [= ? ?]. congruence.
  - intros [= ? ?]. congruence.
  - rewrite !app_cons, !app_assoc'. intros [= E].
    apply Hx in E as [? E]; [|apply join_tail_stop..]. apply IH in E as [? ->]. auto.
Qed.

Lemma join_readable l k s t :
  (forall x r, f x <> String close r) -> (forall y r, g y <> String close r) ->
  (forall x, f x <> "") -> (forall y, g y <> "") ->
  Forall readable l ->
  str_join "," (f <$> l) +:+ String close s = str_join "," (g <$> k) +:+ String close t ->
  Forall2 R l k /\ s = t.
Proof.
  intros Hf Hg Hf' Hg' Hl. destruct l as [|x l], k as [|y k]; rewrite ?fmap_cons, ?str_join_cons.
  - by intros [= ->].
  - rewrite app_assoc'. intros E. exfalso. simpl in E.
    destruct (g y) as [|c r] eqn:Ey; [by apply (Hg' y)|]. rewrite app_cons in E.
    injection E as -> _. by apply (Hg y r).
  - rewrite app_assoc'. intros E. exfalso. simpl in E.
    destruct (f x) as [|c r] eqn:Ex; [by apply (Hf' x)|]. rewrite app_cons in E.
    injection E as -> _. by apply (Hf x r).
  - apply Forall_cons in Hl as [Hx Hl]. rewrite !app_assoc'. intros E.
    apply Hx in E as [? E]; [|apply join_tail_stop..].
    apply join_tail_readable in E as [? ->]; auto.
Qed.
End join.

Section canon.
Context {J : JsonLib}.

(** What [write_canonical] appends to its output.  The recursive calls on
    the entries come before the sort, which does not look at them. *)
Fixpoint write_canonical (v : Value) : string :=
  match v with
  | JObject m =>
      let pairs := sort_pairs ((fun kv => (kv.1, write_canonical kv.2)) <$> m) in
      "{" +:+ str_join "," ((fun kt => str_escape kt.1 +:+ ":" +:+ kt.2) <$> pairs) +:+ "}"
  | JArray items => "[" +:+ str_join "," (write_canonical <$> items) +:+ "]"
  | scalar => value_to_string scalar
  end.

Definition canonical_json (v : Value) : string := write_canonical v.

(** ** The equality it decides *)
Fixpoint json_equiv (v w : Value) {struct v} : Prop :=
  match v, w with
  | JArray l, JArray k =>
      (fix go l k := match l, k with
         | [], [] => True
         | x :: l', y :: k' => json_equiv x y /\ go l' k'
         | _, _ => False
         end) l k
  | JObject m, JObject n =>
      exists n', n ≡ₚ n' /\
      (fix go m n := match m, n with
         | [], [] => True
         | (k, x) :: m', (k', y) :: n' => k = k' /\ json_equiv x y /\ go m' n'
         | _, _ => False
         end) m n'
  | _, _ => v = w
  end.

Lemma json_equiv_array l k :
  json_equiv (JArray l) (JArray k) <-> Forall2 json_equiv l k.
Proof.
  simpl. revert k. induction l as [|x l IH]; intros [|y k]; simpl.
  - split; [constructor|done].
  - split; [done|]. inversion 1.
  - split; [done|]. inversion 1.
  - rewrite Forall2_cons, <- IH. done.
Qed.

Definition entry_equiv (p q : string * Value) : Prop := p.1 = q.1 /\ json_equiv p.2 q.2.

Lemma json_equiv_object m n :
  json_equiv (JObject m) (JObject n) <-> exists n', n ≡ₚ n' /\ Forall2 entry_equiv m n'.
Proof.
  assert (forall m n, (fix go m n := match m, n with
         | [], [] => True
         | (k, x) :: m', (k', y) :: n' => k = k' /\ json_equiv x y /\ go m' n'
         | _, _ => False
         end) m n <-> Forall2 entry_equiv m n) as H.
  { intros m'. induction m' as [|[k x] m' IH]; intros [|[k' y] n']; simpl.
    - split; [constructor|done].
    - split; [done|]. inversion 1.
    - split; [done|]. inversion 1.
    - rewrite Forall2_cons, <- IH. unfold entry_equiv. simpl. tauto. }
  simpl. by setoid_rewrite H.
Qed.

(** The entries of an object as they are written. *)
Definition entry_text (kv : string * Value) : string :=
  str_escape kv.1 +:+ ":" +:+ write_canonical kv.2.

Lemma write_canonical_object m :
  write_canonical (JObject m) = "{" +:+ str_join "," (entry_text <$> sort_pairs m) +:+ "}".
Proof.
  simpl. change ((fun kv => (kv.1, write_canonical kv.2)) <$> m)
    with (on_value write_canonical <$> m).
  rewrite sort_pairs_fmap, <- list_fmap_compose. done.
Qed.

(** Keys of an object are distinct: what every [Map] guarantees. *)
Fixpoint keys_distinct (v : Value) : Prop :=
  match v with
  | JArray l => foldr (fun x P => keys_distinct x /\ P) True l
  | JObject m => NoDup m.*1 /\ foldr (fun kv P => keys_distinct kv.2 /\ P) True m
  | _ => True
  end.

Lemma keys_distinct_array l : keys_distinct (JArray l) <-> Forall keys_distinct l.
Proof. induction l; simpl in *; [done|]. rewrite Forall_cons. naive_solver. Qed.

Lemma keys_distinct_object m :
  keys_distinct (JObject m) <-> NoDup m.*1 /\ Forall (fun kv => keys_distinct kv.2) m.
Proof.
  simpl. apply and_iff_compat_l. induction m as [|kv m IH]; simpl; [done|].
  rewrite Forall_cons. naive_solver.
Qed.

Lemma wf_keys_distinct v : wf_value v -> keys_distinct v.
Proof.
  induction v as [| | | |l IH|m IH] using Value_ind; try done.
  - rewrite wf_array, keys_distinct_array, !Forall_forall in *. eauto.
  - rewrite wf_object, keys_distinct_object. intros [Hm Hv].
    split; [by apply map_sorted_NoDup|]. rewrite !Forall_forall in *. eauto.
Qed.

Lemma entry_equiv_keys m n : Forall2 entry_equiv m n -> m.*1 = n.*1.
Proof. induction 1 as [|p q m n [Hk _] _ IH]; [done|]. by f_equal/=. Qed.

(** Equivalent values have the same text. *)
Lemma canonical_json_equiv v w :
  keys_distinct v -> json_equiv v w -> canonical_json v = canonical_json w.
Proof.
  unfold canonical_json. revert w.
  induction v as [| | | |l IH|m IH] using Value_ind; intros w Hv Hw;
    try (destruct w; simpl in Hw; simplify_eq/=; done).
  - destruct w as [| | | |k|]; try done. rewrite json_equiv_array in Hw.
    rewrite keys_distinct_array in Hv. simpl. do 3 f_equal.
    induction Hw as [|x y l k Hxy _ IHl]; [done|]. inv IH. inv Hv. csimpl. f_equal; auto.
  - destruct w as [| | | | |n]; try done. rewrite json_equiv_object in Hw.
    destruct Hw as (n' & Hn & Hw). rewrite keys_distinct_object in Hv.
    destruct Hv as [Hnd Hv]. simpl. do 4 f_equal.
    change ((fun kv => (kv.1, write_canonical kv.2)) <$> ?x) with (on_value write_canonical <$> x).
    transitivity (sort_pairs (on_value write_canonical <$> n')).
    + f_equal. clear Hn Hnd.
      induction Hw as [|x y l k [Hk Hxy] _ IHl]; [done|]. inv IH. inv Hv. csimpl.
      f_equal; [|auto]. unfold on_value. f_equal; auto.
    + rewrite (entry_equiv_keys _ _ Hw) in Hnd. symmetry. apply sort_pairs_perm_eq.
      * by apply fmap_Permutation.
      * rewrite Hn. by rewrite <- list_fmap_compose.
Qed.

Context {JL : JsonLaws J}.

(** The kind of a value shows in the first character of its text. *)
Definition value_kind (v : Value) : nat :=
  match v with
  | JNull => 0 | JBool _ => 1 | JNumber _ => 2 | JString _ => 3 | JArray _ => 4 | JObject _ => 5
  end.

Definition head_kind (c : ascii) : nat :=
  if is_num_head c then 2
  else match N_of_ascii c with
       | 110%N => 0 | 116%N => 1 | 102%N => 1 | 34%N => 3 | 91%N => 4 | 123%N => 5
       | _ => 6
       end.

Lemma write_canonical_head v :
  exists c r, write_canonical v = String c r /\ head_kind c = value_kind v.
Proof.
  destruct v as [|b|n|s|l|m].
  - by eexists _, _.
  - destruct b; by eexists _, _.
  - destruct (num_to_string_head n) as (c & s & E & Hc). exists c, s.
    split; [done|]. unfold head_kind. by rewrite Hc.
  - destruct (str_escape_head s) as [r E]. by exists "034"%char, r.
  - by eexists _, _.
  - by eexists _, _.
Qed.

Lemma write_canonical_no_head v c r : head_kind c = 6%nat -> write_canonical v <> String c r.
Proof.
  intros Hc. destruct (write_canonical_head v) as (c' & r' & -> & Hk). intros [= -> _].
  rewrite Hc in Hk. by destruct v.
Qed.

Lemma write_canonical_nonempty v : write_canonical v <> "".
Proof. by destruct (write_canonical_head v) as (c' & r' & -> & _). Qed.

Lemma entry_text_head kv : exists r, entry_text kv = String "034" r.
Proof. unfold entry_text. destruct (str_escape_head kv.1) as [r ->]. by eexists. Qed.

Lemma num_readable n m s t :
  num_stop s -> num_stop t ->
  num_to_string n +:+ s = num_to_string m +:+ t -> n = m /\ s = t.
Proof.
  intros Hs Ht E. enough (num_to_string n = num_to_string m /\ s = t) as [? ?]
    by auto using num_to_string_inj.
  generalize (num_to_string_chars n), (num_to_string_chars m). revert E.
  generalize (num_to_string n), (num_to_string m). intros a.
  induction a as [|c a IH]; intros [|d b]; simpl; rewrite ?app_nil_l', ?app_cons.
  - done.
  - intros -> _ [Hc _]%andb_true_iff. simpl in Hs. congruence.
  - intros <- [Hc _]%andb_true_iff _. simpl in Ht. congruence.
  - intros [= -> E] [_ Ha]%andb_true_iff [_ Hb]%andb_true_iff.
    destruct (IH b E Ha Hb) as [-> ->]. done.
Qed.

(** ** Unique readability of the text *)
Lemma write_canonical_readable v : readable write_canonical write_canonical json_equiv v.
Proof.
  induction v as [|b|n|x|l IH|m IH] using Value_ind; intros w s t Hs Ht E.
  all: pose proof (write_canonical_head w) as (c & r & Ew & Hk);
    match type of E with write_canonical ?v +:+ _ = _ =>
      pose proof (write_canonical_head v) as (c' & r' & Ev & Hk') end;
    assert (c' = c) as -> by (rewrite Ev, Ew, !app_cons in E; by injection E);
    rewrite Hk in Hk'; clear Ev Ew Hk c r r'; destruct w as [|b'|n'|x'|l'|m']; try done; clear Hk'.
  - by injection E.
  - destruct b, b'; simpl in E; try (by injection E); rewrite !app_cons in E; discriminate E.
  - simpl in E. apply num_readable in E as [-> ->]; done.
  - simpl in E. apply str_escape_prefix in E as [-> ->]. done.
  - simpl in E. rewrite !app_assoc', !app_cons, !app_nil_l' in E. injection E as E.
    rewrite json_equiv_array.
    eapply (join_readable write_canonical write_canonical json_equiv "]"); try done.
    all: auto using write_canonical_no_head, write_canonical_nonempty.
  - rewrite !write_canonical_object, !app_assoc', !app_cons, !app_nil_l' in E.
    injection E as E.
    eapply (join_readable entry_text entry_text entry_equiv "}") in E as [E ->]; try done.
    + split; [|done]. apply json_equiv_object. clear -E.
      destruct (Forall2_perm_l entry_equiv (sort_pairs m) m (sort_pairs m')) as (n' & Hn & H);
        [apply sort_pairs_perm|exact E|].
      exists n'. split; [|done]. by rewrite <- Hn, sort_pairs_perm.
    + intros y r. by destruct (entry_text_head y) as [? ->].
    + intros y r. by destruct (entry_text_head y) as [? ->].
    + intros y. by destruct (entry_text_head y) as [? ->].
    + intros y. by destruct (entry_text_head y) as [? ->].
    + rewrite sort_pairs_perm. eapply Forall_impl; [exact IH|].
      intros [k x] Hx [k' y] u v Hu Hv. unfold entry_text. simpl in *.
      rewrite !app_assoc'. intros [-> E']%str_escape_prefix.
      rewrite !app_cons in E'. injection E' as E'. by apply Hx in E' as [? ->].
Qed.

Lemma canonical_json_inv v w : canonical_json v = canonical_json w -> json_equiv v w.
Proof.
  intros E. eapply (write_canonical_readable v w "" ""); [done..|].
  by rewrite !app_nil_r'.
Qed.

(** On well-formed values equivalence is equality. *)
Lemma json_equiv_wf v w : wf_value v -> wf_value w -> json_equiv v w -> v = w.
Proof.
  revert w. induction v as [| | | |l IH|m IH] using Value_ind; intros w Hv Hw E;
    try (destruct w; simpl in E; congruence || done).
  - destruct w as [| | | |k|]; try done. rewrite json_equiv_array in E. f_equal.
    rewrite wf_array in Hv, Hw.
    induction E as [|x y l k Hxy _ IHl]; [done|]. inv IH. inv Hv. inv Hw. f_equal; auto.
  - destruct w as [| | | | |n]; try done. f_equal.
    rewrite json_equiv_object in E. destruct E as (n' & Hn & E).
    rewrite wf_object in Hv, Hw. destruct Hv as [Hsm Hv], Hw as [Hsn Hw].
    rewrite Hn in Hw. assert (m = n') as ->.
    { clear Hn Hsm. induction E as [|[k x] [k' y] m n' [Hk Hxy] _ IHm]; [done|].
      simpl in *. inv IH. inv Hv. inv Hw. simpl in *. subst. repeat f_equal; auto. }
    assert (n'.*1 = n.*1) as Hkeys.
    { eapply (StronglySorted_unique_strong str_lt); [|done..|by rewrite Hn].
      intros a b _ _ [Ha _] [Hb _]. by apply (anti_symm String.le). }
    apply map_sorted_NoDup in Hsm. clear -Hn Hkeys Hsm.
    apply list_eq_same_length with (length n); [done|by rewrite Hn|].
    intros i [k x] [k' y] _ Hx Hy. assert (k = k') as <-.
    { apply (f_equal (fun l => l !! i)) in Hkeys.
      rewrite !list_lookup_fmap, Hx, Hy in Hkeys. by injection Hkeys. }
    f_equal. symmetry in Hn.
    assert ((k, y) ∈ n') as Hin by (rewrite Hn; by eapply list_elem_of_lookup_2).
    apply list_elem_of_lookup in Hin as [j Hj].
    assert (i = j) as ->; [|congruence].
    apply (NoDup_lookup _ i j k Hsm); by rewrite list_lookup_fmap, ?Hx, ?Hj.
Qed.

(** Canonical text has no line feed, the separator of subscription-id input. *)
Lemma canonical_json_line v : str_has "010" (canonical_json v) = false.
Proof.
  unfold canonical_json. assert (forall l, Forall (fun x => str_has "010" x = false) l ->
    str_has "010" (str_join "," l) = false) as Hjoin.
  { induction 1 as [|x l Hx _ IH]; [done|]. destruct l as [|y l]; [done|].
    change (str_join "," (x :: y :: l)) with (x +:+ "," +:+ str_join "," (y :: l)).
    by rewrite !str_has_app, Hx, IH. }
  induction v as [|b|n|x|l IH|m IH] using Value_ind.
  - done.
  - by destruct b.
  - eapply str_has_forall; [apply num_to_string_chars|done].
  - apply str_escape_line.
  - simpl. rewrite !str_has_app, Hjoin; [done|]. by apply Forall_fmap.
  - rewrite write_canonical_object, !str_has_app, Hjoin; [done|].
    apply Forall_fmap. rewrite sort_pairs_perm. eapply Forall_impl; [exact IH|].
    intros kv Hkv. simpl. unfold entry_text. by rewrite !str_has_app, str_escape_line, Hkv.
Qed.

(** On well-formed values the sort changes nothing. *)
Lemma canonical_json_compact v : wf_value v -> canonical_json v = value_to_string v.
Proof.
  unfold canonical_json. induction v as [| | | |l IH|m IH] using Value_ind; try done.
  - rewrite wf_array. intros Hl. simpl. do 3 f_equal. apply list_fmap_ext.
    intros i x Hx. rewrite Forall_forall in *. apply IH, Hl; by eapply list_elem_of_lookup_2.
  - rewrite wf_object. intros [Hs Hm]. rewrite write_canonical_object. simpl. do 3 f_equal.
    rewrite sort_pairs_sorted_id.
    + apply list_fmap_ext. intros i x Hx. unfold entry_text. rewrite Forall_forall in *.
      do 2 f_equal. apply IH, Hm; by eapply list_elem_of_lookup_2.
    + unfold map_sorted in Hs. induction Hs as [|k l _ IHs Hk]; constructor; [done|].
      eapply Forall_impl; [exact Hk|]. by intros x [? _].
Qed.
End canon.


Section properties.
Context {J : JsonLib} {JL : JsonLaws J}.

(** C36. The canonical text decides equality of JSON values up to the order
    of object entries: two values have the same text exactly when they are
    equal up to a permutation of the entries of their objects.  On values
    whose objects are the sorted maps the program builds, that is equality,
    and the text is then the compact serialization; it never contains a
    line feed, the separator of the subscription id's preimage. *)
Theorem canonical_json_spec v w :
  keys_distinct v ->
  (canonical_json v = canonical_json w <-> json_equiv v w) /\
  (wf_value v -> wf_value w -> canonical_json v = canonical_json w -> v = w) /\
  (wf_value v -> canonical_json v = value_to_string v) /\
  str_has "010" (canonical_json v) = false.
Proof.
  intros Hv. split_and!.
  - split; [apply canonical_json_inv|by apply canonical_json_equiv].
  - intros ? ? ?. by apply json_equiv_wf, canonical_json_inv.
  - apply canonical_json_compact.
  - apply canonical_json_line.
Qed.
End properties.

(** Two spellings of one object, the second out of order. *)
Lemma canonical_json_spec_witness :
  let v := JObject [("a", json_int 1); ("b", JArray [JBool true])] in
  let w := JObject [("b", JArray [JBool true]); ("a", json_int 1)] in
  canonical_json v = canonical_json w /\ json_equiv v w.
Proof.
  intros v w. assert (canonical_json v = canonical_json w) as H by (vm_compute; reflexivity).
  split; [exact H|]. apply (canonical_json_spec v w); [|exact H].
  apply keys_distinct_object. split; [apply (bool_decide_unpack _); vm_compute; exact I|].
  repeat constructor.
Defined.
