(* ===== verification/Wire.v ===== *)
(** * Wire types (crates/mcp-events-wire/src: consts, jsonrpc, events).

    One record per struct and one inductive type per enum, with [enc_T]
    ([serde_json::to_value]) and [dec_T] ([serde_json::from_value]) as the
    [serde] attributes of the source define them: names, [default],
    [skip_serializing_if], [double_option], [rename_all], [untagged],
    [tag = "type"].  A derived struct decoder also accepts an array of the
    fields in order; [struct_view] covers both forms.  Unknown fields are
    ignored.  [enc_] and [dec_] are total: where serde reports an error,
    [dec_T] is [None]. *)
From S2P Require Import Prelude RustStd Json.

(** ** consts.rs *)
Module consts.
Definition PROTOCOL_VERSION : string := "2025-11-25".
Definition PROTOCOL_VERSION_2026_07_28 : string := "2026-07-28".
Definition JSONRPC_VERSION : string := "2.0".
Definition METHOD_INITIALIZE : string := "initialize".
Definition METHOD_PING : string := "ping".
Definition METHOD_SERVER_DISCOVER : string := "server/discover".
Definition NOTIF_INITIALIZED : string := "notifications/initialized".
Definition METHOD_EVENTS_LIST : string := "events/list".
Definition METHOD_EVENTS_POLL : string := "events/poll".
Definition METHOD_EVENTS_STREAM : string := "events/stream".
Definition METHOD_EVENTS_SUBSCRIBE : string := "events/subscribe".
Definition METHOD_EVENTS_UNSUBSCRIBE : string := "events/unsubscribe".
Definition NOTIF_EVENTS_ACTIVE : string := "notifications/events/active".
Definition NOTIF_EVENTS_EVENT : string := "notifications/events/event".
Definition NOTIF_EVENTS_HEARTBEAT : string := "notifications/events/heartbeat".
Definition NOTIF_EVENTS_ERROR : string := "notifications/events/error".
Definition NOTIF_EVENTS_TERMINATED : string := "notifications/events/terminated".
Definition NOTIF_EVENTS_LIST_CHANGED : string := "notifications/events/list_changed".
Definition META_SUBSCRIPTION_ID : string := "io.modelcontextprotocol/subscriptionId".
Definition META_PROTOCOL_VERSION : string := "io.modelcontextprotocol/protocolVersion".
Definition META_CLIENT_CAPABILITIES : string := "io.modelcontextprotocol/clientCapabilities".
Definition META_CLIENT_INFO : string := "io.modelcontextprotocol/clientInfo".
Definition HEADER_WEBHOOK_ID : string := "webhook-id".
Definition HEADER_WEBHOOK_TIMESTAMP : string := "webhook-timestamp".
Definition HEADER_WEBHOOK_SIGNATURE : string := "webhook-signature".
Definition HEADER_MCP_SUBSCRIPTION_ID : string := "x-mcp-subscription-id".
End consts.

Section wire.
Context {J : JsonLib}.

(** ** Decoders of the field types *)
Definition dec_string (v : Value) : option string := as_str v.
Definition dec_bool (v : Value) : option bool := match v with JBool b => Some b | _ => None end.
Definition dec_u64 (v : Value) : option Z := as_u64 v.
Definition dec_i64 (v : Value) : option Z := as_i64 v.
Definition dec_u32 (v : Value) : option Z :=
  z ← as_u64 v; if z <=? u32_max then Some z else None.
Definition dec_value (v : Value) : option Value := Some v.
Definition dec_list {A} (dec : Value -> option A) (v : Value) : option (list A) :=
  l ← as_array v; mapM dec l.
(** [Option<T>]: [null] is [None]. *)
Definition dec_option {A} (dec : Value -> option A) (v : Value) : option (option A) :=
  match v with JNull => Some None | _ => Some <$> dec v end.

(** Where a struct decoder looks up its fields: by name in an object, by
    position in an array (which may be shorter, not longer). *)
Definition struct_view (n : nat) (v : Value) : option (string -> nat -> option Value) :=
  match v with
  | JObject m => Some (fun k _ => map_get k m)
  | JArray l => if bool_decide (length l <= n)%nat then Some (fun _ i => l !! i) else None
  | _ => None
  end.

(** A field with no [default]; a field with [#[serde(default)]]; and
    [default] with [deserialize_with = "double_option"]. *)
Definition req {A} (dec : Value -> option A) (o : option Value) : option A := o ≫= dec.
Definition dflt {A} (d : A) (dec : Value -> option A) (o : option Value) : option A :=
  match o with None => Some d | Some v => dec v end.
Definition opt_field {A} (dec : Value -> option A) (o : option Value) : option (option A) :=
  dflt None (dec_option dec) o.
Definition double_option {A} (dec : Value -> option A) (o : option Value) : option (option (option A)) :=
  match o with None => Some None | Some v => Some <$> dec_option dec v end.

(** ** jsonrpc.rs *)
Definition PARSE_ERROR : Z := -32700.
Definition INVALID_REQUEST : Z := -32600.
Definition METHOD_NOT_FOUND : Z := -32601.
Definition INVALID_PARAMS : Z := -32602.
Definition INTERNAL_ERROR : Z := -32603.
Definition NOT_FOUND : Z := -32011.
Definition FORBIDDEN : Z := -32012.
Definition RESOURCE_EXHAUSTED : Z := -32013.
Definition UNSUPPORTED : Z := -32014.
Definition CALLBACK_ENDPOINT_ERROR : Z := -32015.

Inductive RequestId : Type := Num_ (n : Z) | Str_ (s : string).

#[export] Instance RequestId_eq_dec : EqDecision RequestId.
Proof. solve_decision. Defined.

Definition enc_RequestId (r : RequestId) : Value :=
  match r with Num_ n => json_int n | Str_ s => JString s end.

(** [#[serde(untagged)]]: the first variant that fits. *)
Definition dec_RequestId (v : Value) : option RequestId :=
  match dec_i64 v with
  | Some n => Some (Num_ n)
  | None => Str_ <$> dec_string v
  end.

(** [Display], and the [From] instances. *)
Definition RequestId_text (r : RequestId) : string :=
  match r with Num_ n => i64_to_string n | Str_ s => s end.
Definition RequestId_of_i64 (n : Z) : RequestId := Num_ n.
Definition RequestId_of_str (s : string) : RequestId := Str_ s.

Record JsonRpcError := {
  err_code : Z;
  err_message : string;
  err_data : option Value
}.

Record JsonRpcRequest := {
  rq_jsonrpc : string;
  rq_id : option RequestId;
  rq_method : string;
  rq_params : option Value
}.

Record JsonRpcResponse := {
  rs_jsonrpc : string;
  rs_id : option RequestId;
  rs_result : option Value;
  rs_error : option JsonRpcError
}.

Definition is_notification (r : JsonRpcRequest) : bool := bool_decide (rq_id r = None).

Definition request (id : RequestId) (method : string) (params : option Value) : JsonRpcRequest :=
  {| rq_jsonrpc := consts.JSONRPC_VERSION; rq_id := Some id; rq_method := method; rq_params := params |}.

Definition notification (method : string) (params : option Value) : JsonRpcRequest :=
  {| rq_jsonrpc := consts.JSONRPC_VERSION; rq_id := None; rq_method := method; rq_params := params |}.

Definition success (id : RequestId) (result : Value) : JsonRpcResponse :=
  {| rs_jsonrpc := consts.JSONRPC_VERSION; rs_id := Some id; rs_result := Some result; rs_error := None |}.

Definition failure (id : option RequestId) (error : JsonRpcError) : JsonRpcResponse :=
  {| rs_jsonrpc := consts.JSONRPC_VERSION; rs_id := id; rs_result := None; rs_error := Some error |}.

Definition new_error (code : Z) (message : string) (data : option Value) : JsonRpcError :=
  {| err_code := code; err_message := message; err_data := data |}.

Definition parse_error (message : string) := new_error PARSE_ERROR message None.
Definition invalid_request (message : string) := new_error INVALID_REQUEST message None.
Definition method_not_found (method : string) :=
  new_error METHOD_NOT_FOUND "MethodNotFound" (Some (json_obj [("method", JString method)])).
Definition invalid_params (message : string) := new_error INVALID_PARAMS message None.
Definition internal_error (message : string) := new_error INTERNAL_ERROR message None.
Definition not_found (kind message : string) :=
  new_error NOT_FOUND message (Some (json_obj [("kind", JString kind)])).
Definition forbidden (message : string) := new_error FORBIDDEN message None.
Definition resource_exhausted (limit : string) (max : option Z) :=
  let data := map_insert "limit" (JString limit) [] in
  let data := match max with Some m => map_insert "max" (json_int m) data | None => data end in
  new_error RESOURCE_EXHAUSTED "ResourceExhausted" (Some (JObject data)).
Definition unsupported (feature value : string) :=
  new_error UNSUPPORTED "Unsupported"
    (Some (json_obj [("feature", JString feature); ("value", JString value)])).
Definition callback_endpoint_error (reason : string) :=
  new_error CALLBACK_ENDPOINT_ERROR "CallbackEndpointError"
    (Some (json_obj [("reason", JString reason)])).

Definition enc_JsonRpcError (e : JsonRpcError) : Value :=
  json_struct [("code", Some (json_int (err_code e)));
               ("message", Some (JString (err_message e)));
               ("data", err_data e)].

Definition dec_JsonRpcError (v : Value) : option JsonRpcError :=
  f ← struct_view 3 v;
  code ← req dec_i64 (f "code" 0%nat);
  message ← req dec_string (f "message" 1%nat);
  data ← opt_field dec_value (f "data" 2%nat);
  Some {| err_code := code; err_message := message; err_data := data |}.

Definition enc_JsonRpcRequest (r : JsonRpcRequest) : Value :=
  json_struct [("jsonrpc", Some (JString (rq_jsonrpc r)));
               ("id", enc_RequestId <$> rq_id r);
               ("method", Some (JString (rq_method r)));
               ("params", rq_params r)].

Definition dec_JsonRpcRequest (v : Value) : option JsonRpcRequest :=
  f ← struct_view 4 v;
  jsonrpc ← req dec_string (f "jsonrpc" 0%nat);
  id ← opt_field dec_RequestId (f "id" 1%nat);
  method ← req dec_string (f "method" 2%nat);
  params ← opt_field dec_value (f "params" 3%nat);
  Some {| rq_jsonrpc := jsonrpc; rq_id := id; rq_method := method; rq_params := params |}.

Definition enc_JsonRpcResponse (r : JsonRpcResponse) : Value :=
  json_struct [("jsonrpc", Some (JString (rs_jsonrpc r)));
               ("id", Some (from_option enc_RequestId JNull (rs_id r)));
               ("result", rs_result r);
               ("error", enc_JsonRpcError <$> rs_error r)].

Definition dec_JsonRpcResponse (v : Value) : option JsonRpcResponse :=
  f ← struct_view 4 v;
  jsonrpc ← req dec_string (f "jsonrpc" 0%nat);
  id ← opt_field dec_RequestId (f "id" 1%nat);
  result ← opt_field dec_value (f "result" 2%nat);
  error ← opt_field dec_JsonRpcError (f "error" 3%nat);
  Some {| rs_jsonrpc := jsonrpc; rs_id := id; rs_result := result; rs_error := error |}.

(** ** events.rs *)
Inductive DeliveryMode : Type := Poll | Push | Webhook.

#[export] Instance DeliveryMode_eq_dec : EqDecision DeliveryMode.
Proof. solve_decision. Defined.

Definition mode_name (m : DeliveryMode) : string :=
  match m with Poll => "poll" | Push => "push" | Webhook => "webhook" end.

Definition enc_DeliveryMode (m : DeliveryMode) : Value := JString (mode_name m).

Definition mode_of_name (s : string) : option DeliveryMode :=
  if decide (s = "poll") then Some Poll
  else if decide (s = "push") then Some Push
  else if decide (s = "webhook") then Some Webhook else None.

(** An externally tagged unit variant is its name, or an object with the
    name as its only key and [null] as the value. *)
Definition dec_DeliveryMode (v : Value) : option DeliveryMode :=
  match v with
  | JString s => mode_of_name s
  | JObject [(k, JNull)] => mode_of_name k
  | _ => None
  end.

Record EventDefinition := {
  ed_name : string;
  ed_description : option string;
  ed_delivery : list DeliveryMode;
  ed_input_schema : option Value;
  ed_payload_schema : option Value;
  ed_meta : option Value
}.

Definition enc_EventDefinition (d : EventDefinition) : Value :=
  json_struct [("name", Some (JString (ed_name d)));
               ("description", JString <$> ed_description d);
               ("delivery", Some (JArray (enc_DeliveryMode <$> ed_delivery d)));
               ("inputSchema", ed_input_schema d);
               ("payloadSchema", ed_payload_schema d);
               ("_meta", ed_meta d)].

Definition dec_EventDefinition (v : Value) : option EventDefinition :=
  f ← struct_view 6 v;
  name ← req dec_string (f "name" 0%nat);
  description ← opt_field dec_string (f "description" 1%nat);
  delivery ← req (dec_list dec_DeliveryMode) (f "delivery" 2%nat);
  input_schema ← opt_field dec_value (f "inputSchema" 3%nat);
  payload_schema ← opt_field dec_value (f "payloadSchema" 4%nat);
  meta ← opt_field dec_value (f "_meta" 5%nat);
  Some {| ed_name := name; ed_description := description; ed_delivery := delivery;
          ed_input_schema := input_schema; ed_payload_schema := payload_schema;
          ed_meta := meta |}.

Record ListEventsParams := { lp_cursor : option string }.

Definition enc_ListEventsParams (p : ListEventsParams) : Value :=
  json_struct [("cursor", JString <$> lp_cursor p)].

Definition dec_ListEventsParams (v : Value) : option ListEventsParams :=
  f ← struct_view 1 v;
  cursor ← opt_field dec_string (f "cursor" 0%nat);
  Some {| lp_cursor := cursor |}.

Record ListEventsResult := {
  lr_events : list EventDefinition;
  lr_next_cursor : option string
}.

Definition enc_ListEventsResult (r : ListEventsResult) : Value :=
  json_struct [("events", Some (JArray (enc_EventDefinition <$> lr_events r)));
               ("nextCursor", JString <$> lr_next_cursor r)].

Definition dec_ListEventsResult (v : Value) : option ListEventsResult :=
  f ← struct_view 2 v;
  events ← req (dec_list dec_EventDefinition) (f "events" 0%nat);
  next_cursor ← opt_field dec_string (f "nextCursor" 1%nat);
  Some {| lr_events := events; lr_next_cursor := next_cursor |}.

(** [eo_cursor]: absent is [None], [null] is [Some None]. *)
Record EventOccurrence := {
  eo_event_id : string;
  eo_name : string;
  eo_timestamp : string;
  eo_data : Value;
  eo_cursor : option (option string);
  eo_meta : option Value
}.

Definition occurrence_fields (o : EventOccurrence) : list (string * option Value) :=
  [("eventId", Some (JString (eo_event_id o)));
   ("name", Some (JString (eo_name o)));
   ("timestamp", Some (JString (eo_timestamp o)));
   ("data", Some (eo_data o));
   ("cursor", json_opt_str <$> eo_cursor o);
   ("_meta", eo_meta o)].

Definition enc_EventOccurrence (o : EventOccurrence) : Value := json_struct (occurrence_fields o).

Definition dec_EventOccurrence (v : Value) : option EventOccurrence :=
  f ← struct_view 6 v;
  event_id ← req dec_string (f "eventId" 0%nat);
  name ← req dec_string (f "name" 1%nat);
  timestamp ← req dec_string (f "timestamp" 2%nat);
  data ← req dec_value (f "data" 3%nat);
  cursor ← double_option dec_string (f "cursor" 4%nat);
  meta ← opt_field dec_value (f "_meta" 5%nat);
  Some {| eo_event_id := event_id; eo_name := name; eo_timestamp := timestamp;
          eo_data := data; eo_cursor := cursor; eo_meta := meta |}.

Record PollEventsParams := {
  pp_name : string;
  pp_params : option Value;
  pp_cursor : option string;
  pp_max_age_ms : option Z;
  pp_max_events : option Z
}.

Definition enc_PollEventsParams (p : PollEventsParams) : Value :=
  json_struct [("name", Some (JString (pp_name p)));
               ("params", pp_params p);
               ("cursor", Some (json_opt_str (pp_cursor p)));
               ("maxAgeMs", json_int <$> pp_max_age_ms p);
               ("maxEvents", json_int <$> pp_max_events p)].

Definition dec_PollEventsParams (v : Value) : option PollEventsParams :=
  f ← struct_view 5 v;
  name ← req dec_string (f "name" 0%nat);
  params ← opt_field dec_value (f "params" 1%nat);
  cursor ← opt_field dec_string (f "cursor" 2%nat);
  max_age_ms ← opt_field dec_u64 (f "maxAgeMs" 3%nat);
  max_events ← opt_field dec_u32 (f "maxEvents" 4%nat);
  Some {| pp_name := name; pp_params := params; pp_cursor := cursor;
          pp_max_age_ms := max_age_ms; pp_max_events := max_events |}.

Record PollEventsResult := {
  pr_events : list EventOccurrence;
  pr_cursor : option string;
  pr_truncated : bool;
  pr_has_more : bool;
  pr_next_poll_ms : Z
}.

Definition enc_PollEventsResult (r : PollEventsResult) : Value :=
  json_struct [("events", Some (JArray (enc_EventOccurrence <$> pr_events r)));
               ("cursor", Some (json_opt_str (pr_cursor r)));
               ("truncated", Some (JBool (pr_truncated r)));
               ("hasMore", Some (JBool (pr_has_more r)));
               ("nextPollMs", Some (json_int (pr_next_poll_ms r)))].

Definition dec_PollEventsResult (v : Value) : option PollEventsResult :=
  f ← struct_view 5 v;
  events ← dflt [] (dec_list dec_EventOccurrence) (f "events" 0%nat);
  cursor ← opt_field dec_string (f "cursor" 1%nat);
  truncated ← dflt false dec_bool (f "truncated" 2%nat);
  has_more ← dflt false dec_bool (f "hasMore" 3%nat);
  next_poll_ms ← dflt 0 dec_u64 (f "nextPollMs" 4%nat);
  Some {| pr_events := events; pr_cursor := cursor; pr_truncated := truncated;
          pr_has_more := has_more; pr_next_poll_ms := next_poll_ms |}.

Record StreamEventsParams := {
  sp_name : string;
  sp_params : option Value;
  sp_cursor : option string;
  sp_max_age_ms : option Z
}.

Definition enc_StreamEventsParams (p : StreamEventsParams) : Value :=
  json_struct [("name", Some (JString (sp_name p)));
               ("params", sp_params p);
               ("cursor", Some (json_opt_str (sp_cursor p)));
               ("maxAgeMs", json_int <$> sp_max_age_ms p)].

Definition dec_StreamEventsParams (v : Value) : option StreamEventsParams :=
  f ← struct_view 4 v;
  name ← req dec_string (f "name" 0%nat);
  params ← opt_field dec_value (f "params" 1%nat);
  cursor ← opt_field dec_string (f "cursor" 2%nat);
  max_age_ms ← opt_field dec_u64 (f "maxAgeMs" 3%nat);
  Some {| sp_name := name; sp_params := params; sp_cursor := cursor;
          sp_max_age_ms := max_age_ms |}.

Record EventsActiveParams := {
  ea_cursor : option string;
  ea_truncated : bool;
  ea_meta : Value
}.

Definition enc_EventsActiveParams (p : EventsActiveParams) : Value :=
  json_struct [("cursor", Some (json_opt_str (ea_cursor p)));
               ("truncated", Some (JBool (ea_truncated p)));
               ("_meta", Some (ea_meta p))].

Definition dec_EventsActiveParams (v : Value) : option EventsActiveParams :=
  f ← struct_view 3 v;
  cursor ← opt_field dec_string (f "cursor" 0%nat);
  truncated ← dflt false dec_bool (f "truncated" 1%nat);
  meta ← dflt JNull dec_value (f "_meta" 2%nat);
  Some {| ea_cursor := cursor; ea_truncated := truncated; ea_meta := meta |}.

(** [EventsErrorParams] and [EventsTerminatedParams] have the same shape. *)
Record EventsErrorParams := { ee_error : JsonRpcError; ee_meta : Value }.
Record EventsTerminatedParams := { et_error : JsonRpcError; et_meta : Value }.

Definition enc_EventsErrorParams (p : EventsErrorParams) : Value :=
  json_struct [("error", Some (enc_JsonRpcError (ee_error p))); ("_meta", Some (ee_meta p))].

Definition dec_EventsErrorParams (v : Value) : option EventsErrorParams :=
  f ← struct_view 2 v;
  error ← req dec_JsonRpcError (f "error" 0%nat);
  meta ← req dec_value (f "_meta" 1%nat);
  Some {| ee_error := error; ee_meta := meta |}.

Definition enc_EventsTerminatedParams (p : EventsTerminatedParams) : Value :=
  json_struct [("error", Some (enc_JsonRpcError (et_error p))); ("_meta", Some (et_meta p))].

Definition dec_EventsTerminatedParams (v : Value) : option EventsTerminatedParams :=
  f ← struct_view 2 v;
  error ← req dec_JsonRpcError (f "error" 0%nat);
  meta ← req dec_value (f "_meta" 1%nat);
  Some {| et_error := error; et_meta := meta |}.

Record EventsHeartbeatParams := { eh_cursor : option string; eh_meta : Value }.

Definition enc_EventsHeartbeatParams (p : EventsHeartbeatParams) : Value :=
  json_struct [("cursor", Some (json_opt_str (eh_cursor p))); ("_meta", Some (eh_meta p))].

Definition dec_EventsHeartbeatParams (v : Value) : option EventsHeartbeatParams :=
  f ← struct_view 2 v;
  cursor ← opt_field dec_string (f "cursor" 0%nat);
  meta ← dflt JNull dec_value (f "_meta" 1%nat);
  Some {| eh_cursor := cursor; eh_meta := meta |}.

(** [mode] is empty when absent and skipped when empty. *)
Record DeliverySpec := {
  ds_mode : string;
  ds_url : string;
  ds_secret : option string
}.

Definition enc_DeliverySpec (d : DeliverySpec) : Value :=
  json_struct [("mode", if decide (ds_mode d = "") then None else Some (JString (ds_mode d)));
               ("url", Some (JString (ds_url d)));
               ("secret", JString <$> ds_secret d)].

Definition dec_DeliverySpec (v : Value) : option DeliverySpec :=
  f ← struct_view 3 v;
  mode ← dflt "" dec_string (f "mode" 0%nat);
  url ← req dec_string (f "url" 1%nat);
  secret ← opt_field dec_string (f "secret" 2%nat);
  Some {| ds_mode := mode; ds_url := url; ds_secret := secret |}.

(** [sb_ttl_ms]: absent is [None], [null] is [Some None]. *)
Record SubscribeParams := {
  sb_name : string;
  sb_params : option Value;
  sb_delivery : DeliverySpec;
  sb_cursor : option string;
  sb_max_age_ms : option Z;
  sb_ttl_ms : option (option Z)
}.

Definition enc_SubscribeParams (p : SubscribeParams) : Value :=
  json_struct [("name", Some (JString (sb_name p)));
               ("params", sb_params p);
               ("delivery", Some (enc_DeliverySpec (sb_delivery p)));
               ("cursor", Some (json_opt_str (sb_cursor p)));
               ("maxAgeMs", json_int <$> sb_max_age_ms p);
               ("ttlMs", from_option json_int JNull <$> sb_ttl_ms p)].

Definition dec_SubscribeParams (v : Value) : option SubscribeParams :=
  f ← struct_view 6 v;
  name ← req dec_string (f "name" 0%nat);
  params ← opt_field dec_value (f "params" 1%nat);
  delivery ← req dec_DeliverySpec (f "delivery" 2%nat);
  cursor ← opt_field dec_string (f "cursor" 3%nat);
  max_age_ms ← opt_field dec_u64 (f "maxAgeMs" 4%nat);
  ttl_ms ← double_option dec_u64 (f "ttlMs" 5%nat);
  Some {| sb_name := name; sb_params := params; sb_delivery := delivery;
          sb_cursor := cursor; sb_max_age_ms := max_age_ms; sb_ttl_ms := ttl_ms |}.

Record DeliveryStatus := {
  dv_active : bool;
  dv_last_delivery_at : option string;
  dv_last_error : option string;
  dv_failed_since : option string
}.

Definition enc_DeliveryStatus (d : DeliveryStatus) : Value :=
  json_struct [("active", Some (JBool (dv_active d)));
               ("lastDeliveryAt", Some (json_opt_str (dv_last_delivery_at d)));
               ("lastError", Some (json_opt_str (dv_last_error d)));
               ("failedSince", JString <$> dv_failed_since d)].

Definition dec_DeliveryStatus (v : Value) : option DeliveryStatus :=
  f ← struct_view 4 v;
  active ← req dec_bool (f "active" 0%nat);
  last_delivery_at ← opt_field dec_string (f "lastDeliveryAt" 1%nat);
  last_error ← opt_field dec_string (f "lastError" 2%nat);
  failed_since ← opt_field dec_string (f "failedSince" 3%nat);
  Some {| dv_active := active; dv_last_delivery_at := last_delivery_at;
          dv_last_error := last_error; dv_failed_since := failed_since |}.

Record SubscribeResult := {
  sr_id : string;
  sr_refresh_before : option string;
  sr_cursor : option string;
  sr_truncated : bool;
  sr_delivery_status : option DeliveryStatus
}.

Definition enc_SubscribeResult (r : SubscribeResult) : Value :=
  json_struct [("id", Some (JString (sr_id r)));
               ("refreshBefore", Some (json_opt_str (sr_refresh_before r)));
               ("cursor", Some (json_opt_str (sr_cursor r)));
               ("truncated", Some (JBool (sr_truncated r)));
               ("deliveryStatus", enc_DeliveryStatus <$> sr_delivery_status r)].

Definition dec_SubscribeResult (v : Value) : option SubscribeResult :=
  f ← struct_view 5 v;
  id ← req dec_string (f "id" 0%nat);
  refresh_before ← opt_field dec_string (f "refreshBefore" 1%nat);
  cursor ← opt_field dec_string (f "cursor" 2%nat);
  truncated ← dflt false dec_bool (f "truncated" 3%nat);
  delivery_status ← opt_field dec_DeliveryStatus (f "deliveryStatus" 4%nat);
  Some {| sr_id := id; sr_refresh_before := refresh_before; sr_cursor := cursor;
          sr_truncated := truncated; sr_delivery_status := delivery_status |}.

Record UnsubscribeParams := {
  un_name : string;
  un_params : option Value;
  un_delivery : DeliverySpec
}.

Definition enc_UnsubscribeParams (p : UnsubscribeParams) : Value :=
  json_struct [("name", Some (JString (un_name p)));
               ("params", un_params p);
               ("delivery", Some (enc_DeliverySpec (un_delivery p)))].

Definition dec_UnsubscribeParams (v : Value) : option UnsubscribeParams :=
  f ← struct_view 3 v;
  name ← req dec_string (f "name" 0%nat);
  params ← opt_field dec_value (f "params" 1%nat);
  delivery ← req dec_DeliverySpec (f "delivery" 2%nat);
  Some {| un_name := name; un_params := params; un_delivery := delivery |}.

(** ** webhook.rs: the control envelopes, tagged by ["type"] *)
Inductive WebhookControlBody : Type :=
| Gap (cursor : option string)
| Terminated (error : JsonRpcError)
| Verification (challenge : string).

Definition control_fields (b : WebhookControlBody) : list (string * option Value) :=
  match b with
  | Gap cursor => [("type", Some (JString "gap")); ("cursor", Some (json_opt_str cursor))]
  | Terminated error => [("type", Some (JString "terminated")); ("error", Some (enc_JsonRpcError error))]
  | Verification challenge => [("type", Some (JString "verification")); ("challenge", Some (JString challenge))]
  end.

Definition enc_WebhookControlBody (b : WebhookControlBody) : Value := json_struct (control_fields b).

(** The fields of the variant [tag]; an absent [Option] is [None]. *)
Definition dec_control_fields (tag : string) (field : string -> option Value) : option WebhookControlBody :=
  if decide (tag = "gap") then Gap <$> opt_field dec_string (field "cursor")
  else if decide (tag = "terminated") then Terminated <$> req dec_JsonRpcError (field "error")
  else if decide (tag = "verification") then Verification <$> req dec_string (field "challenge")
  else None.

(** The variant's fields follow the tag when the envelope is an array. *)
Definition dec_WebhookControlBody (v : Value) : option WebhookControlBody :=
  match v with
  | JObject m => tag ← map_get "type" m ≫= as_str; dec_control_fields tag (fun k => map_get k m)
  | JArray [JString tag; x] => dec_control_fields tag (fun _ => Some x)
  | _ => None
  end.
End wire.
