(* ===== verification/Codec.v ===== *)
(** * Round trips of the wire types.

    [Codec] is the interface a wire type offers to the code that puts it on
    the wire: an encoder, a decoder and the values the encoder represents
    faithfully ([wire_ok]: integers in the range of their Rust type, and no
    [Some(Value::Null)] in an optional [Value] field, which serde reads back
    as [None]).  [CodecLaws] is the round trip; an instance per wire type
    discharges it. *)
From S2P Require Import Prelude RustStd Json Wire.

Class Codec {J : JsonLib} (A : Type) := {
  encode : A -> Value;
  decode : Value -> option A;
  wire_ok : A -> Prop
}.

Class CodecLaws {J : JsonLib} (A : Type) `{Codec A} : Prop := {
  decode_encode x : wire_ok x -> decode (encode x) = Some x;
  encode_not_null x : encode x <> JNull
}.

(** [P] holds of the content of an option. *)
Definition opt_ok {A} (P : A -> Prop) (o : option A) : Prop := forall x, o = Some x -> P x.

Definition u64_ok (z : Z) : Prop := 0 <= z <= u64_max.
Definition u32_ok (z : Z) : Prop := 0 <= z <= u32_max.
Definition i64_ok (z : Z) : Prop := i64_min <= z <= i64_max.

Section fields.
Context {J : JsonLib} {JL : JsonLaws J}.

Definition value_ok (v : Value) : Prop := v <> JNull.

Lemma struct_view_json_struct n l :
  struct_view n (json_struct l) = Some (fun k _ => value_get k (json_struct l)).
Proof. done. Qed.

Lemma json_struct_not_null l : json_struct l <> JNull.
Proof. done. Qed.

Lemma opt_field_value o : opt_ok value_ok o -> opt_field dec_value o = Some o.
Proof. destruct o as [v|]; [|done]. intros H. specialize (H v eq_refl). by destruct v. Qed.

Lemma opt_field_string o : opt_field dec_string (JString <$> o) = Some o.
Proof. by destruct o. Qed.

Lemma opt_field_opt_str o : opt_field dec_string (Some (json_opt_str o)) = Some o.
Proof. by destruct o. Qed.

Lemma double_option_opt_str o : double_option dec_string (json_opt_str <$> o) = Some o.
Proof. by destruct o as [[]|]. Qed.

Lemma dec_u64_int z : u64_ok z -> dec_u64 (json_int z) = Some z.
Proof. apply num_as_u64_of. Qed.

Lemma dec_i64_int z : i64_ok z -> dec_i64 (json_int z) = Some z.
Proof. apply num_as_i64_of. Qed.

Lemma dec_u32_int z : u32_ok z -> dec_u32 (json_int z) = Some z.
Proof.
  unfold u32_ok, dec_u32. intros Hz.
  change (as_u64 (json_int z)) with (dec_u64 (json_int z)).
  rewrite dec_u64_int by (unfold u64_ok, u32_max, u64_max in *; lia). cbn.
  by rewrite (proj2 (Z.leb_le _ _)) by lia.
Qed.

Lemma opt_field_u64 o : opt_ok u64_ok o -> opt_field dec_u64 (json_int <$> o) = Some o.
Proof.
  destruct o as [z|]; [|done]. intros H.
  change (Some <$> dec_u64 (json_int z) = Some (Some z)). by rewrite dec_u64_int by auto.
Qed.

Lemma opt_field_u32 o : opt_ok u32_ok o -> opt_field dec_u32 (json_int <$> o) = Some o.
Proof.
  destruct o as [z|]; [|done]. intros H.
  change (Some <$> dec_u32 (json_int z) = Some (Some z)). by rewrite dec_u32_int by auto.
Qed.

Lemma double_option_u64 o :
  opt_ok (opt_ok u64_ok) o -> double_option dec_u64 (from_option json_int JNull <$> o) = Some o.
Proof.
  destruct o as [[z|]|]; [|done..]. intros H.
  change (Some <$> (Some <$> dec_u64 (json_int z)) = Some (Some (Some z))).
  by rewrite dec_u64_int by (by eapply H).
Qed.

(** A nested message, optional or in a list. *)
Context {A} {C : Codec A} {CL : CodecLaws A}.

Lemma opt_field_codec o : opt_ok wire_ok o -> opt_field decode (encode <$> o) = Some o.
Proof.
  destruct o as [x|]; [|done]. intros H. unfold opt_field, dflt. simpl.
  pose proof (encode_not_null x) as Hn. pose proof (decode_encode x (H x eq_refl)) as Hx.
  destruct (encode x); try done; simpl; by rewrite Hx.
Qed.

Lemma opt_field_codec_null o :
  opt_ok wire_ok o -> opt_field decode (Some (from_option encode JNull o)) = Some o.
Proof. destruct o as [x|]; [|done]. apply (opt_field_codec (Some x)). Qed.

Lemma dec_list_codec l : Forall wire_ok l -> dec_list decode (JArray (encode <$> l)) = Some l.
Proof.
  intros Hl. change (mapM decode (encode <$> l) = Some l). rewrite mapM_fmap_Forall_Some; [done|].
  eapply Forall_impl; [exact Hl|]. apply decode_encode.
Qed.
End fields.

(** Reading a serialized struct back, field by field. *)
Ltac keys_distinct_tac := apply (bool_decide_unpack _); vm_compute; exact I.

Arguments json_int : simpl never.
Arguments json_struct : simpl never.
Arguments dec_u64 : simpl never.
Arguments dec_i64 : simpl never.
Arguments dec_u32 : simpl never.
Arguments opt_field : simpl never.
Arguments double_option : simpl never.
Arguments dec_list : simpl never.
Arguments encode : simpl never.
Arguments decode : simpl never.
Arguments wire_ok : simpl never.

Ltac read_struct :=
  rewrite struct_view_json_struct; cbn [mbind option_bind];
  rewrite ?json_struct_get by keys_distinct_tac;
  cbn [field_of decide]; simpl.

Create Rewrite HintDb wire_rw.
#[export] Hint Rewrite @opt_field_string @opt_field_opt_str @double_option_opt_str : wire_rw.
#[export] Hint Rewrite @opt_field_value @opt_field_u64 @opt_field_u32 @double_option_u64
  @dec_u64_int @dec_i64_int @dec_u32_int using (assumption || typeclasses eauto) : wire_rw.

Ltac roundtrip :=
  repeat match goal with H : _ /\ _ |- _ => destruct H end;
  read_struct;
  repeat (progress (autorewrite with wire_rw;
    rewrite ?decode_encode, ?opt_field_codec, ?opt_field_codec_null, ?dec_list_codec
      by (assumption || exact I || (intros ? _; exact I) || auto)); simpl).

Ltac codec_start :=
  split; [|done]; intros [] H; unfold wire_ok at 1 in H; unfold encode, decode; simpl in *.

Section codecs.
Context {J : JsonLib} {JL : JsonLaws J}.

#[export] Instance RequestId_codec : Codec RequestId := {
  encode := enc_RequestId; decode := dec_RequestId;
  wire_ok r := match r with Num_ n => i64_ok n | Str_ _ => True end
}.
#[export] Instance RequestId_laws : CodecLaws RequestId.
Proof.
  split; [|by intros []]. intros [n|s] H; [|done].
  unfold decode, encode; simpl. unfold dec_RequestId. by rewrite dec_i64_int.
Qed.

#[export] Instance JsonRpcError_codec : Codec JsonRpcError := {
  encode := enc_JsonRpcError; decode := dec_JsonRpcError;
  wire_ok e := i64_ok (err_code e) /\ opt_ok value_ok (err_data e)
}.
#[export] Instance JsonRpcError_laws : CodecLaws JsonRpcError.
Proof.
  codec_start. unfold dec_JsonRpcError, enc_JsonRpcError.
  by roundtrip.
Qed.

#[export] Instance JsonRpcRequest_codec : Codec JsonRpcRequest := {
  encode := enc_JsonRpcRequest; decode := dec_JsonRpcRequest;
  wire_ok x := opt_ok wire_ok (rq_id x) /\ opt_ok value_ok (rq_params x)
}.
#[export] Instance JsonRpcRequest_laws : CodecLaws JsonRpcRequest.
Proof.
  codec_start. unfold dec_JsonRpcRequest, enc_JsonRpcRequest.
  change dec_RequestId with (decode (A := RequestId)); change enc_RequestId with (encode (A := RequestId)).
  by roundtrip.
Qed.

#[export] Instance JsonRpcResponse_codec : Codec JsonRpcResponse := {
  encode := enc_JsonRpcResponse; decode := dec_JsonRpcResponse;
  wire_ok x := opt_ok wire_ok (rs_id x) /\ opt_ok value_ok (rs_result x)
    /\ opt_ok wire_ok (rs_error x)
}.
#[export] Instance JsonRpcResponse_laws : CodecLaws JsonRpcResponse.
Proof.
  codec_start. unfold dec_JsonRpcResponse, enc_JsonRpcResponse.
  change dec_RequestId with (decode (A := RequestId)); change enc_RequestId with (encode (A := RequestId)).
  change dec_JsonRpcError with (decode (A := JsonRpcError)); change enc_JsonRpcError with (encode (A := JsonRpcError)).
  by roundtrip.
Qed.

#[export] Instance DeliveryMode_codec : Codec DeliveryMode := {
  encode := enc_DeliveryMode; decode := dec_DeliveryMode; wire_ok _ := True
}.
#[export] Instance DeliveryMode_laws : CodecLaws DeliveryMode.
Proof. split; [by intros []|done]. Qed.

Lemma DeliveryMode_list_ok (l : list DeliveryMode) : Forall wire_ok l.
Proof. by induction l; constructor. Qed.
#[local] Hint Resolve DeliveryMode_list_ok : core.

#[export] Instance EventDefinition_codec : Codec EventDefinition := {
  encode := enc_EventDefinition; decode := dec_EventDefinition;
  wire_ok x := opt_ok value_ok (ed_input_schema x) /\ opt_ok value_ok (ed_payload_schema x)
    /\ opt_ok value_ok (ed_meta x)
}.
#[export] Instance EventDefinition_laws : CodecLaws EventDefinition.
Proof.
  codec_start. unfold dec_EventDefinition, enc_EventDefinition.
  change dec_DeliveryMode with (decode (A := DeliveryMode)); change enc_DeliveryMode with (encode (A := DeliveryMode)).
  by roundtrip.
Qed.

#[export] Instance ListEventsParams_codec : Codec ListEventsParams := {
  encode := enc_ListEventsParams; decode := dec_ListEventsParams;
  wire_ok x := True
}.
#[export] Instance ListEventsParams_laws : CodecLaws ListEventsParams.
Proof.
  codec_start. unfold dec_ListEventsParams, enc_ListEventsParams.
  by roundtrip.
Qed.

#[export] Instance ListEventsResult_codec : Codec ListEventsResult := {
  encode := enc_ListEventsResult; decode := dec_ListEventsResult;
  wire_ok x := Forall wire_ok (lr_events x)
}.
#[export] Instance ListEventsResult_laws : CodecLaws ListEventsResult.
Proof.
  codec_start. unfold dec_ListEventsResult, enc_ListEventsResult.
  change dec_EventDefinition with (decode (A := EventDefinition)); change enc_EventDefinition with (encode (A := EventDefinition)).
  by roundtrip.
Qed.

#[export] Instance EventOccurrence_codec : Codec EventOccurrence := {
  encode := enc_EventOccurrence; decode := dec_EventOccurrence;
  wire_ok x := opt_ok value_ok (eo_meta x)
}.
#[export] Instance EventOccurrence_laws : CodecLaws EventOccurrence.
Proof.
  codec_start. unfold dec_EventOccurrence, enc_EventOccurrence, occurrence_fields.
  by roundtrip.
Qed.

#[export] Instance PollEventsParams_codec : Codec PollEventsParams := {
  encode := enc_PollEventsParams; decode := dec_PollEventsParams;
  wire_ok x := opt_ok value_ok (pp_params x) /\ opt_ok u64_ok (pp_max_age_ms x)
    /\ opt_ok u32_ok (pp_max_events x)
}.
#[export] Instance PollEventsParams_laws : CodecLaws PollEventsParams.
Proof.
  codec_start. unfold dec_PollEventsParams, enc_PollEventsParams.
  by roundtrip.
Qed.

#[export] Instance PollEventsResult_codec : Codec PollEventsResult := {
  encode := enc_PollEventsResult; decode := dec_PollEventsResult;
  wire_ok x := Forall wire_ok (pr_events x) /\ u64_ok (pr_next_poll_ms x)
}.
#[export] Instance PollEventsResult_laws : CodecLaws PollEventsResult.
Proof.
  codec_start. unfold dec_PollEventsResult, enc_PollEventsResult.
  change dec_EventOccurrence with (decode (A := EventOccurrence)); change enc_EventOccurrence with (encode (A := EventOccurrence)).
  by roundtrip.
Qed.

#[export] Instance StreamEventsParams_codec : Codec StreamEventsParams := {
  encode := enc_StreamEventsParams; decode := dec_StreamEventsParams;
  wire_ok x := opt_ok value_ok (sp_params x) /\ opt_ok u64_ok (sp_max_age_ms x)
}.
#[export] Instance StreamEventsParams_laws : CodecLaws StreamEventsParams.
Proof.
  codec_start. unfold dec_StreamEventsParams, enc_StreamEventsParams.
  by roundtrip.
Qed.

#[export] Instance EventsActiveParams_codec : Codec EventsActiveParams := {
  encode := enc_EventsActiveParams; decode := dec_EventsActiveParams;
  wire_ok x := True
}.
#[export] Instance EventsActiveParams_laws : CodecLaws EventsActiveParams.
Proof.
  codec_start. unfold dec_EventsActiveParams, enc_EventsActiveParams.
  by roundtrip.
Qed.

#[export] Instance EventsErrorParams_codec : Codec EventsErrorParams := {
  encode := enc_EventsErrorParams; decode := dec_EventsErrorParams;
  wire_ok x := wire_ok (ee_error x)
}.
#[export] Instance EventsErrorParams_laws : CodecLaws EventsErrorParams.
Proof.
  codec_start. unfold dec_EventsErrorParams, enc_EventsErrorParams.
  change dec_JsonRpcError with (decode (A := JsonRpcError)); change enc_JsonRpcError with (encode (A := JsonRpcError)).
  by roundtrip.
Qed.

#[export] Instance EventsTerminatedParams_codec : Codec EventsTerminatedParams := {
  encode := enc_EventsTerminatedParams; decode := dec_EventsTerminatedParams;
  wire_ok x := wire_ok (et_error x)
}.
#[export] Instance EventsTerminatedParams_laws : CodecLaws EventsTerminatedParams.
Proof.
  codec_start. unfold dec_EventsTerminatedParams, enc_EventsTerminatedParams.
  change dec_JsonRpcError with (decode (A := JsonRpcError)); change enc_JsonRpcError with (encode (A := JsonRpcError)).
  by roundtrip.
Qed.

#[export] Instance EventsHeartbeatParams_codec : Codec EventsHeartbeatParams := {
  encode := enc_EventsHeartbeatParams; decode := dec_EventsHeartbeatParams;
  wire_ok x := True
}.
#[export] Instance EventsHeartbeatParams_laws : CodecLaws EventsHeartbeatParams.
Proof.
  codec_start. unfold dec_EventsHeartbeatParams, enc_EventsHeartbeatParams.
  by roundtrip.
Qed.

#[export] Instance DeliverySpec_codec : Codec DeliverySpec := {
  encode := enc_DeliverySpec; decode := dec_DeliverySpec;
  wire_ok x := True
}.
#[export] Instance DeliverySpec_laws : CodecLaws DeliverySpec.
Proof.
  split; [|done]. intros [[|c m] u s] _; unfold decode, encode; simpl;
    unfold dec_DeliverySpec, enc_DeliverySpec; by roundtrip.
Qed.

#[export] Instance SubscribeParams_codec : Codec SubscribeParams := {
  encode := enc_SubscribeParams; decode := dec_SubscribeParams;
  wire_ok x := opt_ok value_ok (sb_params x) /\ opt_ok u64_ok (sb_max_age_ms x)
    /\ opt_ok (opt_ok u64_ok) (sb_ttl_ms x)
}.
#[export] Instance SubscribeParams_laws : CodecLaws SubscribeParams.
Proof.
  codec_start. unfold dec_SubscribeParams, enc_SubscribeParams.
  change dec_DeliverySpec with (decode (A := DeliverySpec)); change enc_DeliverySpec with (encode (A := DeliverySpec)).
  by roundtrip.
Qed.

#[export] Instance DeliveryStatus_codec : Codec DeliveryStatus := {
  encode := enc_DeliveryStatus; decode := dec_DeliveryStatus;
  wire_ok x := True
}.
#[export] Instance DeliveryStatus_laws : CodecLaws DeliveryStatus.
Proof.
  codec_start. unfold dec_DeliveryStatus, enc_DeliveryStatus.
  by roundtrip.
Qed.

#[export] Instance SubscribeResult_codec : Codec SubscribeResult := {
  encode := enc_SubscribeResult; decode := dec_SubscribeResult;
  wire_ok x := True
}.
#[export] Instance SubscribeResult_laws : CodecLaws SubscribeResult.
Proof.
  codec_start. unfold dec_SubscribeResult, enc_SubscribeResult.
  change dec_DeliveryStatus with (decode (A := DeliveryStatus)); change enc_DeliveryStatus with (encode (A := DeliveryStatus)).
  by roundtrip.
Qed.

#[export] Instance UnsubscribeParams_codec : Codec UnsubscribeParams := {
  encode := enc_UnsubscribeParams; decode := dec_UnsubscribeParams;
  wire_ok x := opt_ok value_ok (un_params x)
}.
#[export] Instance UnsubscribeParams_laws : CodecLaws UnsubscribeParams.
Proof.
  codec_start. unfold dec_UnsubscribeParams, enc_UnsubscribeParams.
  change dec_DeliverySpec with (decode (A := DeliverySpec)); change enc_DeliverySpec with (encode (A := DeliverySpec)).
  by roundtrip.
Qed.

#[export] Instance WebhookControlBody_codec : Codec WebhookControlBody := {
  encode := enc_WebhookControlBody; decode := dec_WebhookControlBody;
  wire_ok b := match b with Terminated e => wire_ok e | _ => True end
}.

Lemma dec_control_struct l :
  dec_WebhookControlBody (json_struct l) =
  (tag ← value_get "type" (json_struct l) ≫= as_str;
   dec_control_fields tag (fun k => value_get k (json_struct l))).
Proof. done. Qed.

#[export] Instance WebhookControlBody_laws : CodecLaws WebhookControlBody.
Proof.
  split; [|by intros []]. intros b H. change (dec_WebhookControlBody (enc_WebhookControlBody b) = Some b).
  destruct b as [c|e|c]; unfold enc_WebhookControlBody, control_fields; rewrite dec_control_struct;
    rewrite !json_struct_get by keys_distinct_tac; cbn [field_of decide]; simpl;
    unfold dec_control_fields; simpl.
  - by autorewrite with wire_rw.
  - change dec_JsonRpcError with (decode (A := JsonRpcError)).
    change enc_JsonRpcError with (encode (A := JsonRpcError)).
    by rewrite decode_encode by exact H.
  - done.
Qed.

(** The two kinds of webhook body cannot be taken for each other. *)
Lemma occurrence_not_control o : dec_WebhookControlBody (enc_EventOccurrence o) = None.
Proof.
  unfold enc_EventOccurrence, occurrence_fields. rewrite dec_control_struct.
  by rewrite json_struct_get by keys_distinct_tac.
Qed.

Lemma control_not_occurrence b : dec_EventOccurrence (enc_WebhookControlBody b) = None.
Proof.
  unfold dec_EventOccurrence.
  destruct b; unfold enc_WebhookControlBody, control_fields; rewrite struct_view_json_struct; cbn [mbind option_bind];
    by rewrite !json_struct_get by keys_distinct_tac.
Qed.

(** C37. Every message survives serialization: decoding the JSON-RPC requests
    and responses, the parameters and results of events/list, poll, stream,
    subscribe and unsubscribe (an unsubscribe's and a stream's result is empty),
    the payloads of the notifications active, event, heartbeat, error and
    terminated, and the bodies of webhook requests gives back what was encoded,
    with absent and [null] fields kept apart where the protocol distinguishes
    them ([eo_cursor], [sb_ttl_ms]); and a receiver can tell an event from a
    control envelope: neither decodes as the other.  [wire_ok] asks for integers
    in the range of their Rust type and excludes [Some(Value::Null)] in optional
    [Value] fields, which serde reads as [None]. *)
Theorem wire_roundtrip :
  (forall r, wire_ok r -> dec_JsonRpcRequest (enc_JsonRpcRequest r) = Some r) /\
  (forall r, wire_ok r -> dec_JsonRpcResponse (enc_JsonRpcResponse r) = Some r) /\
  (forall p, dec_ListEventsParams (enc_ListEventsParams p) = Some p) /\
  (forall r, wire_ok r -> dec_ListEventsResult (enc_ListEventsResult r) = Some r) /\
  (forall p, wire_ok p -> dec_PollEventsParams (enc_PollEventsParams p) = Some p) /\
  (forall r, wire_ok r -> dec_PollEventsResult (enc_PollEventsResult r) = Some r) /\
  (forall p, wire_ok p -> dec_StreamEventsParams (enc_StreamEventsParams p) = Some p) /\
  (forall p, wire_ok p -> dec_SubscribeParams (enc_SubscribeParams p) = Some p) /\
  (forall r, dec_SubscribeResult (enc_SubscribeResult r) = Some r) /\
  (forall p, wire_ok p -> dec_UnsubscribeParams (enc_UnsubscribeParams p) = Some p) /\
  (forall o, wire_ok o -> dec_EventOccurrence (enc_EventOccurrence o) = Some o) /\
  (forall b, wire_ok b -> dec_WebhookControlBody (enc_WebhookControlBody b) = Some b) /\
  (forall p, dec_EventsActiveParams (enc_EventsActiveParams p) = Some p) /\
  (forall p, dec_EventsHeartbeatParams (enc_EventsHeartbeatParams p) = Some p) /\
  (forall p, wire_ok p -> dec_EventsErrorParams (enc_EventsErrorParams p) = Some p) /\
  (forall p, wire_ok p -> dec_EventsTerminatedParams (enc_EventsTerminatedParams p) = Some p) /\
  (forall o, dec_WebhookControlBody (enc_EventOccurrence o) = None) /\
  (forall b, dec_EventOccurrence (enc_WebhookControlBody b) = None).
Proof.
  repeat match goal with |- _ /\ _ => split end; intros r;
    first [exact (decode_encode r I) | exact (decode_encode r)
          | apply occurrence_not_control | apply control_not_occurrence].
Qed.
End codecs.

Lemma wire_roundtrip_witness :
  let p := {| sb_name := "sensor.reading"; sb_params := Some (json_obj [("id", json_int 7)]);
              sb_delivery := {| ds_mode := "webhook"; ds_url := "https://h/x"; ds_secret := None |};
              sb_cursor := Some "1:4:9"; sb_max_age_ms := Some 1000; sb_ttl_ms := Some None |} in
  let o := {| eo_event_id := "evt-1"; eo_name := "n"; eo_timestamp := "t"; eo_data := JNull;
              eo_cursor := Some None; eo_meta := None |} in
  dec_SubscribeParams (enc_SubscribeParams p) = Some p /\
  dec_EventOccurrence (enc_EventOccurrence o) = Some o.
Proof.
  intros p o. split; apply (wire_roundtrip (J := ZJson)); [|by intros x].
  split; [|split]; intros x [= <-]; [done|unfold u64_ok, u64_max; lia|by intros y].
Defined.
