(* ===== verification/Buffer.v ===== *)
(** * The event buffer (crates/mcp-events-engine/src/buffer.rs).

    One ring buffer per event type, behind a mutex: every method holds the
    lock for its whole body, so each is one transition of [EventBuffer].  The
    clock is read once per call, before the lock, and is an argument [now].
    A [broadcast::Sender] is the log of what was sent on it; a receiver is a
    position in that log (see Stream.v for what a receiver may observe). *)
From S2P Require Import Prelude RustStd Json Lib Wire.

Section buffer.
Context {J : JsonLib} {C : Chrono}.

(** [iso8601] (lib.rs). *)
Definition iso8601 (ts : Z) : string := to_rfc3339_millis ts.

Record EmittedEvent := {
  em_name : string;
  em_event_id : string;
  em_timestamp : Z;
  em_data : Value
}.

Definition ParamFilter : Type := Value -> Value -> bool.

Record BufferConfig := {
  max_events_per_type : Z;
  max_age : option Z
}.

Record LiveEvent := {
  le_seq : Z;
  le_occurrence : EventOccurrence
}.

Record ReadResult := {
  rr_events : list EventOccurrence;
  rr_cursor : string;
  rr_truncated : bool;
  rr_has_more : bool
}.

Record Stored := {
  st_seq : Z;
  st_event_id : string;
  st_timestamp : Z;
  st_data : Value
}.

Record TypeState := {
  last_seq : Z;
  entries : list Stored;
  tx : list LiveEvent
}.

Definition TypeState_new : TypeState := {| last_seq := 0; entries := []; tx := [] |}.

Record EventBuffer := {
  epoch : Z;
  cfg : BufferConfig;
  chan_capacity : Z;
  types : gmap string TypeState
}.

(** ** Cursors *)
Definition cursor_text (e seq : Z) : string :=
  u64_to_string e +:+ ":" +:+ u64_to_string seq.

Definition parse_cursor (s : string) : option (Z * Z) :=
  '(e, q) ← split_once ":" s;
  e' ← u64_from_str e;
  q' ← u64_from_str q;
  Some (e', q').

Definition floor_from_max_age_ms (now ms : Z) : Z :=
  let delta := milliseconds (i64_try_from_or_max ms) in
  default MIN_UTC (checked_sub_signed now delta).

(** [EventBuffer::new]; [rnd] is [rand::random()]. *)
Definition buffer_new (c : BufferConfig) (rnd : Z) : EventBuffer :=
  {| epoch := rnd; cfg := c;
     chan_capacity := Z.max 1 (Z.min 1024 (max_events_per_type c));
     types := ∅ |}.

Definition cursor_str (b : EventBuffer) (seq : Z) : string := cursor_text (epoch b) seq.

(** ** Retention: the two loops of [prune] *)
Fixpoint prune_len (max : Z) (l : list Stored) : list Stored :=
  match l with
  | [] => []
  | _ :: l' => if max <? Z.of_nat (length l) then prune_len max l' else l
  end.

Fixpoint prune_age (cutoff : Z) (l : list Stored) : list Stored :=
  match l with
  | [] => []
  | e :: l' => if st_timestamp e <? cutoff then prune_age cutoff l' else l
  end.

Definition set_entries (st : TypeState) (l : list Stored) : TypeState :=
  {| last_seq := last_seq st; entries := l; tx := tx st |}.

Definition prune (c : BufferConfig) (st : TypeState) (now : Z) : TypeState :=
  let l := prune_len (max_events_per_type c) (entries st) in
  match max_age c with
  | Some a => set_entries st (prune_age (default MIN_UTC (checked_sub_signed now a)) l)
  | None => set_entries st l
  end.

(** [types.entry(name).or_insert_with(TypeState::new)]: the map keeps the
    entry, so the operations below put the state back. *)
Definition type_state (b : EventBuffer) (name : string) : TypeState :=
  default TypeState_new (types b !! name).

Definition put_state (b : EventBuffer) (name : string) (st : TypeState) : EventBuffer :=
  {| epoch := epoch b; cfg := cfg b; chan_capacity := chan_capacity b;
     types := <[name := st]> (types b) |}.

(** ** emit *)
Definition stored_of (seq : Z) (ev : EmittedEvent) : Stored :=
  {| st_seq := seq; st_event_id := em_event_id ev; st_timestamp := em_timestamp ev;
     st_data := em_data ev |}.

Definition live_occurrence (e seq : Z) (ev : EmittedEvent) : EventOccurrence :=
  {| eo_event_id := em_event_id ev; eo_name := em_name ev;
     eo_timestamp := iso8601 (em_timestamp ev); eo_data := em_data ev;
     eo_cursor := Some (Some (cursor_text e seq)); eo_meta := None |}.

Definition emit (b : EventBuffer) (now : Z) (ev : EmittedEvent) : EventBuffer * Z :=
  let st := type_state b (em_name ev) in
  let seq := u64_add (last_seq st) 1 in
  let st := {| last_seq := seq; entries := entries st ++ [stored_of seq ev]; tx := tx st |} in
  let st := prune (cfg b) st now in
  let le := {| le_seq := seq; le_occurrence := live_occurrence (epoch b) seq ev |} in
  let st := {| last_seq := last_seq st; entries := entries st; tx := tx st ++ [le] |} in
  (put_state b (em_name ev) st, seq).

(** ** read *)

(** Where a read starts, and whether that is a gap. *)
Definition read_start (b : EventBuffer) (st : TypeState) (cursor : string) : Z * bool :=
  let oldest := st_seq <$> head (entries st) in
  let foreign :=
    (match oldest with Some o => u64_sub o 1 | None => last_seq st end, true) in
  match parse_cursor cursor with
  | Some (e, seq) =>
      if (e =? epoch b) && (seq <=? last_seq st) then
        match oldest with
        | Some o => if u64_add seq 1 <? o then (u64_sub o 1, true) else (seq, false)
        | None => if seq <? last_seq st then (last_seq st, true) else (seq, false)
        end
      else if e =? epoch b then (last_seq st, true)
      else foreign
  | None => foreign
  end.

Definition poll_occurrence (name : string) (e : Stored) : EventOccurrence :=
  {| eo_event_id := st_event_id e; eo_name := name; eo_timestamp := iso8601 (st_timestamp e);
     eo_data := st_data e; eo_cursor := None; eo_meta := None |}.

(** The locals of the loop. *)
Record LoopState := {
  lo_events : list EventOccurrence;
  lo_pos : Z;
  lo_truncated : bool;
  lo_has_more : bool
}.

(** [floor.is_some_and(|f| e.timestamp < f)]. *)
Definition below_floor (floor : option Z) (e : Stored) : bool :=
  match floor with Some f => st_timestamp e <? f | None => false end.

(** The filter lets the event through. *)
Definition passes (params : option Value) (filter : option ParamFilter) (e : Stored) : bool :=
  match params, filter with
  | Some p, Some f => f p (st_data e)
  | _, _ => true
  end.

(** [cap.is_some_and(|c| events.len() >= c)]. *)
Definition cap_reached {A} (cap : option Z) (events : list A) : bool :=
  match cap with Some c => c <=? Z.of_nat (length events) | None => false end.

(** The body of the loop; [continue] is a recursive call, [break] is the
    state. *)
Fixpoint read_loop (name : string) (floor : option Z) (params : option Value)
    (filter : option ParamFilter) (cap : option Z) (l : list Stored) (s : LoopState) : LoopState :=
  match l with
  | [] => s
  | e :: l' =>
      if below_floor floor e then
        read_loop name floor params filter cap l'
          {| lo_events := lo_events s; lo_pos := st_seq e; lo_truncated := true;
             lo_has_more := lo_has_more s |}
      else if negb (passes params filter e) then
        read_loop name floor params filter cap l'
          {| lo_events := lo_events s; lo_pos := st_seq e; lo_truncated := lo_truncated s;
             lo_has_more := lo_has_more s |}
      else if cap_reached cap (lo_events s) then
        {| lo_events := lo_events s; lo_pos := lo_pos s; lo_truncated := lo_truncated s;
           lo_has_more := true |}
      else
        read_loop name floor params filter cap l'
          {| lo_events := lo_events s ++ [poll_occurrence name e]; lo_pos := st_seq e;
             lo_truncated := lo_truncated s; lo_has_more := lo_has_more s |}
  end.

(** The entries past a position ([e.seq > start_after]). *)
Definition entries_after (start : Z) (l : list Stored) : list Stored :=
  base.filter (fun e => start < st_seq e) l.

(** What [read] answers from the (pruned) state of the type. *)
Definition read_state (b : EventBuffer) (st : TypeState) (now : Z) (name : string)
    (cursor : option string) (max_age_ms max_events : option Z)
    (params : option Value) (filter : option ParamFilter) : ReadResult :=
  match cursor with
  | None =>
      {| rr_events := []; rr_cursor := cursor_str b (last_seq st);
         rr_truncated := false; rr_has_more := false |}
  | Some c =>
      let '(start_after, truncated) := read_start b st c in
      let floor := floor_from_max_age_ms now <$> max_age_ms in
      let s := read_loop name floor params filter max_events
                 (entries_after start_after (entries st))
                 {| lo_events := []; lo_pos := start_after; lo_truncated := truncated;
                    lo_has_more := false |} in
      {| rr_events := lo_events s; rr_cursor := cursor_str b (lo_pos s);
         rr_truncated := lo_truncated s; rr_has_more := lo_has_more s |}
  end.

Definition read (b : EventBuffer) (now : Z) (name : string) (cursor : option string)
    (max_age_ms max_events : option Z) (params : option Value) (filter : option ParamFilter)
    : EventBuffer * ReadResult :=
  let st := prune (cfg b) (type_state b name) now in
  (put_state b name st, read_state b st now name cursor max_age_ms max_events params filter).

(** [live]: the state with the type's entry, and where the receiver starts. *)
Definition live (b : EventBuffer) (name : string) : EventBuffer * nat :=
  let st := type_state b name in (put_state b name st, length (tx st)).

Definition current_cursor (b : EventBuffer) (name : string) : string :=
  cursor_str b (default 0 (last_seq <$> types b !! name)).

(** ** The buffer as a state machine *)
Inductive BufOp : Type :=
| OpEmit (now : Z) (ev : EmittedEvent)
| OpRead (now : Z) (name : string)
| OpLive (name : string).

(** The state part of each call; a read leaves the same state whatever its
    other arguments are. *)
Definition buf_step (b : EventBuffer) (o : BufOp) : EventBuffer :=
  match o with
  | OpEmit now ev => (emit b now ev).1
  | OpRead now name => put_state b name (prune (cfg b) (type_state b name) now)
  | OpLive name => (live b name).1
  end.

Definition buf_run (b : EventBuffer) (ops : list BufOp) : EventBuffer := foldl buf_step b ops.

Lemma buf_step_read b now name c a m p f :
  (read b now name c a m p f).1 = buf_step b (OpRead now name).
Proof. done. Qed.

(** Ghost: what was emitted for a type, with the numbers it was given. *)
Fixpoint number (n : Z) (l : list EmittedEvent) : list Stored :=
  match l with
  | [] => []
  | ev :: l' => stored_of n ev :: number (n + 1) l'
  end.

Definition emits (name : string) (ops : list BufOp) : list EmittedEvent :=
  omap (fun o => match o with
                 | OpEmit _ ev => if decide (em_name ev = name) then Some ev else None
                 | _ => None
                 end) ops.

Definition history (name : string) (ops : list BufOp) : list Stored := number 1 (emits name ops).

Definition live_log (e : Z) (n : Z) (l : list EmittedEvent) : list LiveEvent :=
  imap (fun i ev => {| le_seq := n + Z.of_nat i;
                       le_occurrence := live_occurrence e (n + Z.of_nat i) ev |}) l.

(** ** Lemmas on numbering *)
Definition consecutive (n : Z) (l : list Stored) : Prop :=
  forall i e, l !! i = Some e -> st_seq e = n + Z.of_nat i.

Lemma number_length n l : length (number n l) = length l.
Proof. revert n. induction l as [|ev l IH]; intros n; simpl; [done|]. by rewrite IH. Qed.

Lemma number_app n l k : number n (l ++ k) = number n l ++ number (n + Z.of_nat (length l)) k.
Proof.
  revert n. induction l as [|ev l IH]; intros n; csimpl; [by rewrite Z.add_0_r|].
  rewrite IH. do 3 f_equal. lia.
Qed.

Lemma number_lookup n l i : number n l !! i = stored_of (n + Z.of_nat i) <$> l !! i.
Proof.
  revert n i. induction l as [|ev l IH]; intros n [|i]; csimpl; try done.
  - by rewrite Z.add_0_r.
  - rewrite IH. by replace (n + 1 + Z.of_nat i) with (n + Z.of_nat (S i)) by lia.
Qed.

Lemma number_imap l :
  number 1 l = imap (fun i ev => {| st_seq := Z.of_nat i + 1; st_event_id := em_event_id ev;
                                    st_timestamp := em_timestamp ev; st_data := em_data ev |}) l.
Proof.
  apply list_eq. intros i. rewrite number_lookup, list_lookup_imap. destruct (l !! i) as [ev|]; [|done].
  simpl. unfold stored_of. do 2 f_equal. lia.
Qed.

Lemma number_consecutive n l : consecutive n (number n l).
Proof.
  revert n. induction l as [|ev l IH]; intros n [|i] e; csimpl; try done.
  - intros [= <-]. simpl. lia.
  - intros H. rewrite (IH (n + 1) i e H). lia.
Qed.

Lemma consecutive_cons n e l : consecutive n (e :: l) <-> st_seq e = n /\ consecutive (n + 1) l.
Proof.
  split.
  - intros H. split; [rewrite (H 0%nat e eq_refl); lia|].
    intros i x Hx. rewrite (H (S i) x Hx). lia.
  - intros [He H] [|i] x; simpl; [intros [= <-]; lia|]. intros Hx. rewrite (H i x Hx). lia.
Qed.

Lemma consecutive_app n l k :
  consecutive n (l ++ k) <-> consecutive n l /\ consecutive (n + Z.of_nat (length l)) k.
Proof.
  revert n. induction l as [|e l IH]; intros n; csimpl.
  - rewrite Z.add_0_r. split; [|naive_solver]. intros H. split; [by intros i x|done].
  - rewrite !consecutive_cons, IH.
    replace (n + 1 + Z.of_nat (length l)) with (n + Z.of_nat (S (length l))) by lia. tauto.
Qed.

Lemma consecutive_suffix n l k :
  consecutive n k -> l `suffix_of` k ->
  consecutive (n + Z.of_nat (length k) - Z.of_nat (length l)) l.
Proof.
  intros H [p ->]. apply consecutive_app in H as [_ H]. rewrite length_app.
  by replace (n + Z.of_nat (length p + length l) - Z.of_nat (length l))
    with (n + Z.of_nat (length p)) by lia.
Qed.

(** In a consecutive list the entries past a position are a tail of it. *)
Lemma entries_after_drop n start l :
  consecutive n l -> entries_after start l = drop (Z.to_nat (start + 1 - n)) l.
Proof.
  unfold entries_after. revert n.
  induction l as [|e l IH]; intros n; [by rewrite drop_nil|].
  intros [He Hl]%consecutive_cons. rewrite filter_cons. case_decide as Hs.
  - replace (Z.to_nat (start + 1 - n)) with 0%nat by lia. simpl. f_equal.
    rewrite (IH _ Hl). by replace (Z.to_nat (start + 1 - (n + 1))) with 0%nat by lia.
  - rewrite (IH _ Hl).
    by replace (Z.to_nat (start + 1 - n)) with (S (Z.to_nat (start + 1 - (n + 1)))) by lia.
Qed.

Lemma entries_after_all n start l :
  consecutive n l -> start < n -> entries_after start l = l.
Proof.
  intros Hl Hs. rewrite (entries_after_drop _ _ _ Hl).
  by replace (Z.to_nat (start + 1 - n)) with 0%nat by lia.
Qed.

Lemma consecutive_drop n l k : consecutive n l -> consecutive (n + Z.of_nat k) (drop k l).
Proof. intros H i e He. rewrite lookup_drop in He. rewrite (H _ _ He). lia. Qed.

Lemma entries_after_consecutive n start l :
  consecutive n l -> n <= start + 1 -> consecutive (start + 1) (entries_after start l).
Proof.
  intros H Hn. rewrite (entries_after_drop _ _ _ H).
  pose proof (consecutive_drop n l (Z.to_nat (start + 1 - n)) H) as H'.
  by replace (n + Z.of_nat (Z.to_nat (start + 1 - n))) with (start + 1) in H' by lia.
Qed.

(** ** Retention *)
Lemma prune_len_drop max l :
  0 <= max -> prune_len max l = drop (length l - Z.to_nat max) l.
Proof.
  intros Hmax. induction l as [|e l IH]; [done|]. cbn [prune_len].
  destruct (max <? _) eqn:E; bsimp.
  - rewrite IH. cbn [length] in *.
    by replace (S (length l) - Z.to_nat max)%nat with (S (length l - Z.to_nat max)) by lia.
  - by replace (length (e :: l) - Z.to_nat max)%nat with 0%nat by lia.
Qed.

Lemma prune_len_suffix max l : prune_len max l `suffix_of` l.
Proof.
  induction l as [|e l IH]; [done|]. cbn [prune_len]. case_match; [|done].
  by apply suffix_cons_r.
Qed.

Lemma prune_age_suffix cutoff l : prune_age cutoff l `suffix_of` l.
Proof.
  induction l as [|e l IH]; [done|]. simpl. case_match; [|done]. by apply suffix_cons_r.
Qed.

Lemma prune_suffix c st now : entries (prune c st now) `suffix_of` entries st.
Proof.
  unfold prune. case_match; simpl; [|apply prune_len_suffix].
  etrans; [apply prune_age_suffix|apply prune_len_suffix].
Qed.

Lemma prune_last_seq c st now : last_seq (prune c st now) = last_seq st.
Proof. unfold prune. by case_match. Qed.

Lemma prune_tx c st now : tx (prune c st now) = tx st.
Proof. unfold prune. by case_match. Qed.

Lemma prune_length c st now :
  0 <= max_events_per_type c ->
  Z.of_nat (length (entries (prune c st now))) <= max_events_per_type c.
Proof.
  intros Hmax. assert (Z.of_nat (length (prune_len (max_events_per_type c) (entries st)))
    <= max_events_per_type c) as Hlen.
  { rewrite prune_len_drop, length_drop by done. lia. }
  unfold prune. case_match; simpl; [|done].
  etrans; [|exact Hlen]. apply inj_le, suffix_length, prune_age_suffix.
Qed.

(** ** The invariant of a type's state *)
Record type_ok (e : Z) (evs : list EmittedEvent) (st : TypeState) : Prop := {
  ok_last : last_seq st = Z.of_nat (length evs);
  ok_entries : entries st `suffix_of` number 1 evs;
  ok_tx : tx st = live_log e 1 evs
}.

Definition buf_ok (c : BufferConfig) (rnd : Z) (ops : list BufOp) (b : EventBuffer) : Prop :=
  epoch b = rnd /\ cfg b = c /\
  forall name, type_ok rnd (emits name ops) (type_state b name) /\
    Z.of_nat (length (entries (type_state b name))) <= max_events_per_type c.

Lemma type_ok_prune c e evs st now : type_ok e evs st -> type_ok e evs (prune c st now).
Proof.
  intros [Hl He Ht]. split; [by rewrite prune_last_seq| |by rewrite prune_tx].
  etrans; [apply prune_suffix|done].
Qed.

Lemma live_log_snoc e n evs ev :
  live_log e n (evs ++ [ev]) = live_log e n evs ++
    [{| le_seq := n + Z.of_nat (length evs);
        le_occurrence := live_occurrence e (n + Z.of_nat (length evs)) ev |}].
Proof. unfold live_log. rewrite imap_app. simpl. by rewrite Nat.add_0_r. Qed.

Lemma live_log_seqs e n evs : le_seq <$> live_log e n evs = st_seq <$> number n evs.
Proof.
  induction evs as [|ev evs IH] using rev_ind; [done|].
  by rewrite live_log_snoc, number_app, !fmap_app, IH.
Qed.

Lemma type_state_put b name st name' :
  type_state (put_state b name st) name' =
  if decide (name' = name) then st else type_state b name'.
Proof.
  unfold type_state, put_state. simpl. case_decide; subst.
  - by rewrite lookup_insert_eq.
  - by rewrite lookup_insert_ne.
Qed.

Lemma emits_snoc name ops o :
  emits name (ops ++ [o]) = emits name ops ++ emits name [o].
Proof. unfold emits. by rewrite omap_app. Qed.

Lemma emits_length name ops : (length (emits name ops) <= length ops)%nat.
Proof. induction ops as [|o ops IH]; [done|]. simpl. repeat case_match; simpl; lia. Qed.

Lemma emits_named name ops i ev : emits name ops !! i = Some ev -> em_name ev = name.
Proof.
  intros H%list_elem_of_lookup_2. unfold emits in H. apply list_elem_of_omap in H as (o & _ & Ho).
  destruct o as [now ev'| |]; [|done..]. by case_decide; simplify_eq.
Qed.

(** The only operation that changes what a type has seen is its emit. *)
Lemma emits_other name o :
  (forall now ev, o = OpEmit now ev -> em_name ev <> name) -> emits name [o] = [].
Proof. destruct o as [now ev| |]; intros H; [|done..]. simpl. by rewrite decide_False by eauto. Qed.

(** The state of a type right after an emit. *)
Definition emit_state (c : BufferConfig) (e now : Z) (ev : EmittedEvent) (st : TypeState) : TypeState :=
  let seq := u64_add (last_seq st) 1 in
  let st' := prune c {| last_seq := seq; entries := entries st ++ [stored_of seq ev]; tx := tx st |} now in
  {| last_seq := last_seq st'; entries := entries st';
     tx := tx st' ++ [{| le_seq := seq; le_occurrence := live_occurrence e seq ev |}] |}.

Lemma emit_put b now ev :
  (emit b now ev).1 =
  put_state b (em_name ev) (emit_state (cfg b) (epoch b) now ev (type_state b (em_name ev))).
Proof. done. Qed.

Lemma emit_state_ok c e now ev evs st :
  type_ok e evs st -> Z.of_nat (length evs) < u64_max ->
  type_ok e (evs ++ [ev]) (emit_state c e now ev st).
Proof.
  intros [Hl He Ht] Hb. unfold emit_state. rewrite u64_add_small by lia. rewrite Hl. split; simpl.
  - rewrite prune_last_seq, length_app. simpl. lia.
  - etrans; [apply prune_suffix|]. simpl. rewrite number_app. simpl.
    rewrite Z.add_comm. destruct He as [p ->]. exists p. by rewrite (assoc_L (++)).
  - rewrite prune_tx. simpl. rewrite Ht, live_log_snoc. by rewrite Z.add_comm.
Qed.

Lemma buf_ok_put c rnd ops o b name st :
  buf_ok c rnd ops b ->
  (forall now ev, o = OpEmit now ev -> em_name ev = name) ->
  type_ok rnd (emits name (ops ++ [o])) st ->
  Z.of_nat (length (entries st)) <= max_events_per_type c ->
  buf_ok c rnd (ops ++ [o]) (put_state b name st).
Proof.
  intros (He & Hc & H) Hemit Hst Hlen. split_and!; [done..|]. intros name'.
  rewrite type_state_put. case_decide; subst; [done|].
  destruct (H name') as [Hok ?]. split; [|done].
  rewrite emits_snoc, (emits_other name'), app_nil_r; [done|]. intros now ev Ho.
  rewrite (Hemit now ev Ho). congruence.
Qed.

Lemma buf_step_ok c rnd ops o b :
  0 <= max_events_per_type c ->
  Z.of_nat (length (ops ++ [o])) <= u64_max ->
  buf_ok c rnd ops b -> buf_ok c rnd (ops ++ [o]) (buf_step b o).
Proof.
  intros Hmax Hb Hok. pose proof Hok as (He & Hc & H).
  assert (forall name, Z.of_nat (length (emits name ops)) < u64_max) as Hlt.
  { intros name. pose proof (emits_length name ops). rewrite length_app in Hb. simpl in Hb. lia. }
  destruct o as [now ev|now name|name].
  - destruct (H (em_name ev)) as [Hst _].
    change (buf_step b (OpEmit now ev)) with (emit b now ev).1. rewrite emit_put.
    apply buf_ok_put; [done|..].
    + by intros ? ? [= _ ->].
    + rewrite emits_snoc. simpl. rewrite decide_True, He by done. by apply emit_state_ok.
    + rewrite Hc. apply (prune_length c _ now). done.
  - destruct (H name) as [Hst ?]. simpl. rewrite Hc. apply buf_ok_put; [done..| |by apply prune_length].
    rewrite emits_snoc, app_nil_r. by apply type_ok_prune.
  - destruct (H name) as [Hst ?]. simpl. apply buf_ok_put; [done..| |done].
    by rewrite emits_snoc, app_nil_r.
Qed.

Lemma buf_run_ok c rnd ops :
  0 <= max_events_per_type c -> Z.of_nat (length ops) <= u64_max ->
  buf_ok c rnd ops (buf_run (buffer_new c rnd) ops).
Proof.
  intros Hmax. induction ops as [|o ops IH] using rev_ind; intros Hb.
  - split_and!; [done..|]. intros name. split; [split; [done|by exists []|done]|done].
  - unfold buf_run. rewrite foldl_snoc. apply buf_step_ok; [done..|]. apply IH.
    rewrite length_app in Hb. lia.
Qed.

(** ** The read loop *)

(** The events a read delivers among those it passes over. *)
Definition wanted (floor : option Z) (params : option Value) (filter : option ParamFilter)
    (e : Stored) : bool :=
  negb (below_floor floor e) && passes params filter e.

Definition deliver (name : string) (floor : option Z) (params : option Value)
    (filter : option ParamFilter) (l : list Stored) : list EventOccurrence :=
  poll_occurrence name <$> base.filter (fun e => wanted floor params filter e = true) l.

Lemma deliver_cons name fl p f e l :
  deliver name fl p f (e :: l) =
  if wanted fl p f e then poll_occurrence name e :: deliver name fl p f l else deliver name fl p f l.
Proof. unfold deliver. rewrite filter_cons. by destruct (wanted fl p f e). Qed.

(** The loop passes over a prefix [l1]: it delivers the wanted events of the
    prefix, moves to its end, and stops before a wanted event when the batch
    is full. *)
Lemma read_loop_spec name fl p f cap l s :
  exists l1 l2, l = l1 ++ l2 /\
    let s' := read_loop name fl p f cap l s in
    lo_events s' = lo_events s ++ deliver name fl p f l1 /\
    lo_pos s' = from_option st_seq (lo_pos s) (last l1) /\
    lo_truncated s' = lo_truncated s || existsb (below_floor fl) l1 /\
    match l2 with
    | [] => lo_has_more s' = lo_has_more s
    | e :: _ => lo_has_more s' = true /\ wanted fl p f e = true /\
                cap_reached cap (lo_events s') = true
    end.
Proof.
  revert s. induction l as [|e l IH]; intros s.
  { exists [], []. simpl. rewrite app_nil_r, orb_false_r. done. }
  assert (forall b ev,
    lo_events s ++ (if wanted fl p f e then [poll_occurrence name e] else []) = ev ->
    let s1 := {| lo_events := ev; lo_pos := st_seq e; lo_truncated := b; lo_has_more := lo_has_more s |} in
    b = lo_truncated s || below_floor fl e ->
    exists l1 l2, e :: l = l1 ++ l2 /\
    let s' := read_loop name fl p f cap l s1 in
    lo_events s' = lo_events s ++ deliver name fl p f l1 /\
    lo_pos s' = from_option st_seq (lo_pos s) (last l1) /\
    lo_truncated s' = lo_truncated s || existsb (below_floor fl) l1 /\
    match l2 with
    | [] => lo_has_more s' = lo_has_more s
    | e :: _ => lo_has_more s' = true /\ wanted fl p f e = true /\
                cap_reached cap (lo_events s') = true
    end) as Hstep.
  { intros b ev Hev s1 Hb. destruct (IH s1) as (l1 & l2 & -> & H1 & H2 & H3 & H4).
    exists (e :: l1), l2. split; [done|]. simpl in *. split_and!; [..|done].
    - rewrite H1, <- Hev, deliver_cons, <- (assoc_L (++)). by destruct (wanted fl p f e).
    - rewrite H2, last_cons. by destruct (last l1).
    - by rewrite H3, Hb, orb_assoc. }
  simpl. destruct (below_floor fl e) eqn:Hf.
  - apply Hstep; [|by rewrite orb_true_r].
    unfold wanted. rewrite Hf. simpl. by rewrite app_nil_r.
  - destruct (passes p f e) eqn:Hp; simpl.
    + destruct (cap_reached cap (lo_events s)) eqn:Hc.
      * exists [], (e :: l). simpl. unfold wanted. rewrite Hf, Hp, app_nil_r, orb_false_r. done.
      * apply Hstep; [|by rewrite orb_false_r].
        unfold wanted. by rewrite Hf, Hp.
    + apply Hstep; [|by rewrite orb_false_r].
      unfold wanted. rewrite Hf, Hp. simpl. by rewrite app_nil_r.
Qed.

Lemma read_loop_cap name fl p f c l s :
  Z.of_nat (length (lo_events s)) <= c ->
  Z.of_nat (length (lo_events (read_loop name fl p f (Some c) l s))) <= c.
Proof.
  revert s. induction l as [|e l IH]; intros s Hs; [done|]. simpl.
  repeat case_match; bsimp; try (by apply IH); [done|]. apply IH. simpl.
  rewrite length_app. simpl. lia.
Qed.

(** ** The events between two positions of a history *)
Definition window (lo hi : Z) (l : list Stored) : list Stored :=
  base.filter (fun e => lo < st_seq e <= hi) l.

Lemma consecutive_Forall n l :
  consecutive n l -> Forall (fun e => n <= st_seq e < n + Z.of_nat (length l)) l.
Proof.
  intros H. apply Forall_lookup. intros i e He. rewrite (H i e He).
  apply lookup_lt_Some in He. lia.
Qed.

Lemma consecutive_last n l :
  consecutive n l -> from_option st_seq (n - 1) (last l) = n - 1 + Z.of_nat (length l).
Proof.
  destruct l as [|e l _] using rev_ind; [simpl; lia|].
  intros [_ [H _]%consecutive_cons]%consecutive_app. rewrite last_snoc, length_app. simpl. lia.
Qed.

Lemma window_prefix start l l1 l2 :
  consecutive (start + 1) (l1 ++ l2) -> entries_after start l = l1 ++ l2 ->
  window start (start + Z.of_nat (length l1)) l = l1.
Proof.
  intros [H1 H2]%consecutive_app El.
  transitivity (base.filter (fun e => st_seq e <= start + Z.of_nat (length l1)) (entries_after start l)).
  - unfold window, entries_after. rewrite list_filter_filter.
    apply list_filter_iff. intros e. lia.
  - rewrite El, filter_app, filter_all, filter_none; [by rewrite app_nil_r|..].
    + eapply Forall_impl; [by apply consecutive_Forall|]. simpl. lia.
    + eapply Forall_impl; [by apply consecutive_Forall|]. simpl. lia.
Qed.

(** What remains of a history after pruning, and where it starts. *)
Definition low (st : TypeState) : Z := last_seq st - Z.of_nat (length (entries st)).

Section type_facts.
Context {e : Z} {evs : list EmittedEvent} {st : TypeState} (Hok : type_ok e evs st).
#[local] Abbreviation H := (number 1 evs).

Lemma low_bounds : 0 <= low st <= last_seq st.
Proof.
  unfold low. rewrite (ok_last _ _ _ Hok). pose proof (suffix_length _ _ (ok_entries _ _ _ Hok)).
  rewrite number_length in *. lia.
Qed.

Lemma entries_consecutive : consecutive (low st + 1) (entries st).
Proof.
  pose proof (consecutive_suffix 1 _ _ (number_consecutive 1 evs) (ok_entries _ _ _ Hok)) as Hc.
  rewrite number_length in Hc. unfold low. rewrite (ok_last _ _ _ Hok).
  by replace (Z.of_nat (length evs) - Z.of_nat (length (entries st)) + 1)
    with (1 + Z.of_nat (length evs) - Z.of_nat (length (entries st))) by lia.
Qed.

Lemma head_seq :
  st_seq <$> head (entries st) = if decide (entries st = []) then None else Some (low st + 1).
Proof.
  pose proof entries_consecutive as Hc. destruct (entries st) as [|x l]; [done|].
  apply consecutive_cons in Hc as [Hx _]. simpl. by rewrite Hx.
Qed.

(** The retained entries past a retained position are the events of the
    history past it. *)
Lemma entries_after_history start :
  low st <= start -> entries_after start (entries st) = entries_after start H.
Proof.
  intros Hs. pose proof low_bounds as Hb.
  rewrite (entries_after_drop _ _ _ entries_consecutive),
    (entries_after_drop _ _ _ (number_consecutive 1 evs)).
  rewrite (suffix_drop _ _ (ok_entries _ _ _ Hok)) at 1. rewrite drop_drop. f_equal.
  unfold low in *. rewrite (ok_last _ _ _ Hok) in *. rewrite number_length.
  pose proof (suffix_length _ _ (ok_entries _ _ _ Hok)). rewrite number_length in *. lia.
Qed.

Lemma entries_after_length start :
  0 <= start <= last_seq st ->
  start + Z.of_nat (length (entries_after start H)) = last_seq st.
Proof.
  intros Hs. rewrite (entries_after_drop _ _ _ (number_consecutive 1 evs)).
  rewrite length_drop, number_length. rewrite (ok_last _ _ _ Hok) in *. lia.
Qed.
End type_facts.

(** ** The cursor lifecycle over a log of [n] events of which those up to
    [lo] are gone: where a read starts, and whether that is a gap. *)
Definition start_spec (e lo n : Z) (cursor : string) : Z * bool :=
  match parse_cursor cursor with
  | Some (e', s) =>
      if decide (e' = e) then
        if decide (n < s) then (n, true)
        else if decide (s < lo) then (lo, true)
        else (s, false)
      else (lo, true)
  | None => (lo, true)
  end.

(** A cursor names a retained position of this process. *)
Definition servable (e lo n : Z) (cursor : string) : Prop :=
  exists s, parse_cursor cursor = Some (e, s) /\ lo <= s <= n.

Lemma parse_cursor_bounds c e s :
  parse_cursor c = Some (e, s) -> 0 <= e <= u64_max /\ 0 <= s <= u64_max.
Proof.
  unfold parse_cursor. intros ([a b] & _ & H)%bind_Some.
  apply bind_Some in H as (e' & He & (s' & Hs & [= -> ->])%bind_Some).
  split; by eapply u64_from_str_bounds.
Qed.

Lemma parse_cursor_text e s :
  0 <= e <= u64_max -> 0 <= s <= u64_max -> parse_cursor (cursor_text e s) = Some (e, s).
Proof.
  intros He Hs. unfold parse_cursor, cursor_text.
  change (":" +:+ u64_to_string s) with (String ":" (u64_to_string s)).
  rewrite split_once_app by by apply u64_to_string_no. simpl.
  by rewrite !u64_from_to_string.
Qed.

Lemma start_spec_bounds e lo n c : 0 <= lo <= n -> lo <= (start_spec e lo n c).1 <= n.
Proof. intros H. unfold start_spec. repeat case_match; simpl; lia. Qed.

Lemma start_spec_servable e lo n c :
  (start_spec e lo n c).2 = false <-> servable e lo n c.
Proof.
  unfold start_spec, servable. split.
  - repeat case_match; simplify_eq/=; intros; try done. eexists. split; [done|]. lia.
  - intros (s & -> & Hs). rewrite decide_True, decide_False, decide_False by lia. done.
Qed.

Lemma start_spec_at e lo n c s :
  parse_cursor c = Some (e, s) -> lo <= s <= n -> start_spec e lo n c = (s, false).
Proof.
  intros Hp Hs. unfold start_spec. rewrite Hp.
  rewrite (decide_True (P := e = e)), (decide_False (P := n < s)),
    (decide_False (P := s < lo)) by (done || lia). done.
Qed.

Lemma read_start_spec b evs st c :
  type_ok (epoch b) evs st -> last_seq st < u64_max ->
  read_start b st c = start_spec (epoch b) (low st) (last_seq st) c.
Proof.
  intros Hok Hb. pose proof (low_bounds Hok) as Hlow. unfold read_start, start_spec.
  rewrite (head_seq Hok). assert (entries st = [] -> low st = last_seq st) as Hempty.
  { unfold low. intros ->. simpl. lia. }
  assert ((match (if decide (entries st = []) then None else Some (low st + 1)) with
           | Some o => u64_sub o 1 | None => last_seq st end) = low st) as Ho.
  { case_decide; [symmetry; auto|]. rewrite u64_sub_small by lia. lia. }
  rewrite Ho. destruct (parse_cursor c) as [[e s]|] eqn:Hp; [|done].
  apply parse_cursor_bounds in Hp as [_ Hs].
  destruct (e =? epoch b) eqn:He; bsimp; simpl; [|by rewrite decide_False].
  rewrite (decide_True (P := e = epoch b)) by done.
  destruct (s <=? last_seq st) eqn:Hle; bsimp;
    [rewrite (decide_False (P := last_seq st < s)) by lia
    |by rewrite (decide_True (P := last_seq st < s)) by lia].
  case_decide as Hnil.
  - rewrite Hempty by done. destruct (s <? last_seq st) eqn:E; bsimp.
    + by rewrite decide_True by lia.
    + by rewrite decide_False by lia.
  - rewrite u64_add_small by lia. destruct (s + 1 <? low st + 1) eqn:E; bsimp.
    + rewrite u64_sub_small, decide_True by lia. do 2 f_equal. lia.
    + by rewrite decide_False by lia.
Qed.

(** ** What a read with a cursor answers, over the history of the type *)
Lemma read_state_spec b evs st now name c age cap p f :
  type_ok (epoch b) evs st -> last_seq st < u64_max ->
  let fl := floor_from_max_age_ms now <$> age in
  let r := read_state b st now name (Some c) age cap p f in
  let start := start_spec (epoch b) (low st) (last_seq st) c in
  exists pos, start.1 <= pos <= last_seq st /\
    rr_cursor r = cursor_str b pos /\
    rr_events r = deliver name fl p f (window start.1 pos (number 1 evs)) /\
    rr_truncated r = start.2 || existsb (below_floor fl) (window start.1 pos (number 1 evs)) /\
    if rr_has_more r
    then exists e, number 1 evs !! Z.to_nat pos = Some e /\ wanted fl p f e = true /\
                   cap_reached cap (rr_events r) = true
    else pos = last_seq st.
Proof.
  intros Hok Hb fl r start. pose proof (low_bounds Hok) as Hlow.
  assert (read_start b st c = start) as Hstart by by eapply read_start_spec.
  pose proof (start_spec_bounds (epoch b) (low st) (last_seq st) c Hlow) as Hsb.
  fold start in Hsb. subst r. unfold read_state. rewrite Hstart.
  destruct start as [sa tr]. simpl in *. fold fl.
  rewrite (entries_after_history Hok) by lia.
  match goal with |- context [read_loop name fl p f cap ?l ?s] =>
    destruct (read_loop_spec name fl p f cap l s) as (l1 & l2 & El & H1 & H2 & H3 & H4);
    set (s' := read_loop name fl p f cap l s) in * end.
  simpl in *. pose proof (entries_after_consecutive 1 sa _ (number_consecutive 1 evs)) as Hc.
  rewrite El in Hc. specialize (Hc ltac:(lia)).
  pose proof (entries_after_length Hok sa ltac:(lia)) as Hlen. rewrite El, length_app in Hlen.
  pose proof (window_prefix sa _ l1 l2 Hc El) as Hw.
  pose proof (consecutive_last (sa + 1) l1) as Hlast.
  replace (sa + 1 - 1) with sa in Hlast by lia. rewrite Hlast in H2
    by (by apply consecutive_app in Hc as [? _]).
  exists (lo_pos s'). rewrite H1, H2, H3, Hw. split_and!; try done; try lia.
  destruct l2 as [|e l2]; [rewrite H4; simpl in *; lia|].
  destruct H4 as (-> & He & Hcap). exists e. split_and!; [|done|by rewrite <- H1].
  rewrite (entries_after_drop 1 sa _ (number_consecutive 1 evs)) in El.
  apply (f_equal (fun l => l !! length l1)) in El.
  rewrite lookup_drop, list_lookup_middle in El by done.
  rewrite <- El. f_equal. lia.
Qed.

(** ** Windows compose, pruning is idempotent *)
Lemma window_take_drop lo hi l :
  consecutive 1 l -> 0 <= lo <= hi -> hi <= Z.of_nat (length l) ->
  window lo hi l = take (Z.to_nat (hi - lo)) (drop (Z.to_nat lo) l).
Proof.
  intros Hl Hlo Hhi.
  pose proof (entries_after_consecutive 1 lo l Hl ltac:(lia)) as Hc.
  pose proof (entries_after_drop 1 lo l Hl) as Ed.
  replace (Z.to_nat (lo + 1 - 1)) with (Z.to_nat lo) in Ed by lia.
  rewrite <- (take_drop (Z.to_nat (hi - lo)) (entries_after lo l)) in Hc.
  pose proof (window_prefix lo l _ _ Hc (eq_sym (take_drop _ _))) as Hw.
  rewrite length_take, Ed, length_drop in Hw.
  replace (lo + Z.of_nat (Z.to_nat (hi - lo) `min` (length l - Z.to_nat lo))) with hi in Hw by lia.
  done.
Qed.

Lemma window_app lo mid hi l :
  consecutive 1 l -> 0 <= lo <= mid -> mid <= hi <= Z.of_nat (length l) ->
  window lo mid l ++ window mid hi l = window lo hi l.
Proof.
  intros Hl ? ?. rewrite !window_take_drop by (done || lia).
  replace (Z.to_nat mid) with (Z.to_nat lo + Z.to_nat (mid - lo))%nat by lia.
  rewrite <- drop_drop, take_take_drop. f_equal. lia.
Qed.

Lemma window_empty lo l : window lo lo l = [].
Proof. apply filter_none, Forall_true. intros e. lia. Qed.

Lemma deliver_app name fl p f l k :
  deliver name fl p f (l ++ k) = deliver name fl p f l ++ deliver name fl p f k.
Proof. unfold deliver. by rewrite filter_app, fmap_app. Qed.

Lemma prune_len_id max l : Z.of_nat (length l) <= max -> prune_len max l = l.
Proof. destruct l as [|e l]; [done|]. intros H. cbn [prune_len]. by rewrite (proj2 (Z.ltb_ge _ _)). Qed.

Lemma prune_age_idemp t l : prune_age t (prune_age t l) = prune_age t l.
Proof.
  induction l as [|e l IH]; [done|]. simpl. destruct (_ <? t) eqn:E; [done|]. simpl. by rewrite E.
Qed.

Lemma prune_idemp c st now :
  0 <= max_events_per_type c -> prune c (prune c st now) now = prune c st now.
Proof.
  intros H. pose proof (prune_length c st now H) as Hlen. unfold prune in *.
  destruct (max_age c); simpl in *; rewrite (prune_len_id _ _ Hlen); simpl;
    rewrite ?prune_age_idemp; done.
Qed.

(** Pruning drops an entry only for the capacity or for its age. *)
Lemma prune_keeps c st now e :
  e ∈ entries st -> e ∉ entries (prune c st now) ->
  max_events_per_type c < Z.of_nat (length (entries st)) \/
  exists a, max_age c = Some a /\ st_timestamp e < default MIN_UTC (checked_sub_signed now a).
Proof.
  intros He Hn. destruct (decide (Z.of_nat (length (entries st)) <= max_events_per_type c)) as [Hl|];
    [right|left; lia].
  unfold prune in Hn. rewrite (prune_len_id _ _ Hl) in Hn.
  destruct (max_age c) as [a|]; simpl in Hn; [|done]. exists a. split; [done|].
  clear Hl. induction (entries st) as [|x l IH]; [by apply elem_of_nil in He|].
  simpl in Hn. destruct (st_timestamp x <? _) eqn:E; bsimp; [|done].
  apply elem_of_cons in He as [->|He]; auto.
Qed.

(** The newest entry survives unless the capacity is zero or it is too old. *)
Lemma prune_keeps_last c st now e l :
  entries st = l ++ [e] -> 1 <= max_events_per_type c ->
  (forall a, max_age c = Some a -> default MIN_UTC (checked_sub_signed now a) <= st_timestamp e) ->
  last (entries (prune c st now)) = Some e.
Proof.
  intros El Hmax Hage.
  assert (exists k, prune_len (max_events_per_type c) (entries st) = k ++ [e]) as [k Hk].
  { rewrite prune_len_drop, El by lia. rewrite length_app. simpl.
    rewrite drop_app_le by lia. by eexists. }
  unfold prune. rewrite Hk. destruct (max_age c) as [a|]; simpl; [|by rewrite last_snoc].
  specialize (Hage a eq_refl). clear Hk. induction k as [|x k IH]; simpl.
  - by rewrite (proj2 (Z.ltb_ge _ _)).
  - case_match; [done|]. by rewrite last_cons, last_snoc.
Qed.

(** ** What was lost *)

#[export] Instance Stored_eq_dec : EqDecision Stored.
Proof. solve_decision. Defined.

(** Out of the retention window at a time. *)
Definition expired (c : BufferConfig) (now : Z) (e : Stored) : Prop :=
  exists a, max_age c = Some a /\ st_timestamp e < default MIN_UTC (checked_sub_signed now a).

(** The time at which an operation prunes a type. *)
Definition op_time (name : string) (o : BufOp) : option Z :=
  match o with
  | OpEmit now ev => if decide (em_name ev = name) then Some now else None
  | OpRead now n => if decide (n = name) then Some now else None
  | OpLive _ => None
  end.

Lemma prune_age_lost cutoff l e : e ∈ l -> e ∉ prune_age cutoff l -> st_timestamp e < cutoff.
Proof.
  induction l as [|x l IH]; intros He Hn; [by apply elem_of_nil in He|].
  simpl in Hn. destruct (st_timestamp x <? _) eqn:E; bsimp; [|done]. apply elem_of_cons in He as [->|He]; auto.
Qed.

(** An entry that is pruned is out of the window, or was not among the newest
    that fit. *)
Lemma prune_lost c st l now e :
  0 <= max_events_per_type c -> entries st `suffix_of` number 1 l -> e ∈ entries st -> e ∉ entries (prune c st now) ->
  st_seq e <= Z.of_nat (length l) - max_events_per_type c \/ expired c now e.
Proof.
  intros Hmax Hs He Hn. set (k := (length (entries st) - Z.to_nat (max_events_per_type c))%nat).
  rewrite <- (take_drop k (entries st)) in He. apply elem_of_app in He as [He|He].
  - left. apply list_elem_of_lookup in He as [i Hi]. apply lookup_take_Some in Hi as [Hi Hik].
    pose proof (consecutive_suffix 1 _ _ (number_consecutive 1 l) Hs i e Hi) as Hseq. rewrite number_length in Hseq. lia.
  - right. unfold prune in Hn. rewrite prune_len_drop in Hn by done. fold k in Hn.
    destruct (max_age c) as [a|] eqn:Ea; [|done]. exists a. split; [done|]. by eapply prune_age_lost.
Qed.

(** A ring that has lost nothing else is the newest entries that fit. *)
Lemma ring_exact cap l es :
  es `suffix_of` number 1 l -> Z.of_nat (length es) <= cap ->
  (forall e, e ∈ number 1 l -> e ∉ es -> st_seq e <= Z.of_nat (length l) - cap) ->
  es = drop (length l - Z.to_nat cap) (number 1 l).
Proof.
  intros [k Hk] Hlen Hloss. pose proof (number_length 1 l) as El. pose proof (number_consecutive 1 l) as Hc.
  rewrite Hk in *. rewrite length_app in El.
  replace (length l - Z.to_nat cap)%nat with (length k); [by rewrite drop_app_length|].
  destruct (decide (length k = 0)%nat) as [Ek|Ek]; [lia|].
  destruct (lookup_lt_is_Some_2 k (length k - 1)) as [e He]; [lia|].
  pose proof (Hc _ e (lookup_app_l_Some _ es _ _ He)) as Hseq.
  assert (st_seq e <= Z.of_nat (length l) - cap); [|lia].
  apply Hloss; [by eapply list_elem_of_lookup_2, lookup_app_l_Some|].
  intros [i Hi]%list_elem_of_lookup. assert ((k ++ es) !! (length k + i)%nat = Some e) as Hi'
    by (rewrite lookup_app_r by lia; by replace (length k + i - length k)%nat with i by lia).
  pose proof (Hc _ e Hi'). lia.
Qed.

(** What a state has lost is explained by the times it was pruned at. *)
Definition loss_explained (c : BufferConfig) (l : list EmittedEvent) (times : list Z) (st : TypeState) : Prop :=
  forall e, e ∈ number 1 l -> e ∉ entries st ->
    st_seq e <= Z.of_nat (length l) - max_events_per_type c \/ exists now, now ∈ times /\ expired c now e.

Lemma loss_prune c l times st now :
  0 <= max_events_per_type c -> entries st `suffix_of` number 1 l -> loss_explained c l times st ->
  loss_explained c l (times ++ [now]) (prune c st now).
Proof.
  intros Hmax Hs H e He Hn. destruct (decide (e ∈ entries st)) as [Hin|Hout].
  - destruct (prune_lost c st l now e Hmax Hs Hin Hn) as [?|?]; [by left|]. right. exists now. split; [set_solver|done].
  - destruct (H e He Hout) as [?|(t & ? & ?)]; [by left|]. right. exists t. split; [set_solver|done].
Qed.

Lemma loss_emit c e now ev l times st :
  0 <= max_events_per_type c -> Z.of_nat (length l) < u64_max -> type_ok e l st -> loss_explained c l times st ->
  loss_explained c (l ++ [ev]) (times ++ [now]) (emit_state c e now ev st).
Proof.
  intros Hmax Hb [Hl Hs _] H. unfold emit_state. rewrite u64_add_small by lia. rewrite Hl.
  match goal with |- loss_explained _ _ _ {| last_seq := _; entries := entries (prune c ?x now); tx := _ |} => set (st' := x) end.
  assert (number 1 (l ++ [ev]) = number 1 l ++ [stored_of (Z.of_nat (length l) + 1) ev]) as En
    by (rewrite number_app; simpl; by rewrite Z.add_comm).
  apply (loss_prune c (l ++ [ev]) times st' now Hmax).
  - rewrite En. destruct Hs as [k ->]. exists k. symmetry. apply (assoc_L (++)).
  - intros x Hx Hn. rewrite En in Hx. apply elem_of_app in Hx as [Hx|Hx]; [|destruct Hn; apply elem_of_app; by right].
    destruct (H x Hx) as [?|?]; [intros ?; apply Hn, elem_of_app; by left|left; rewrite length_app; simpl; lia|by right].
Qed.

Lemma buf_run_losses c rnd ops name :
  0 <= max_events_per_type c -> Z.of_nat (length ops) <= u64_max ->
  loss_explained c (emits name ops) (omap (op_time name) ops) (type_state (buf_run (buffer_new c rnd) ops) name).
Proof.
  intros Hmax. induction ops as [|o ops IH] using rev_ind; intros Hb; [by intros e He%elem_of_nil|].
  rewrite length_app in Hb. simpl in Hb. specialize (IH ltac:(lia)).
  destruct (buf_run_ok c rnd ops Hmax ltac:(lia)) as (He & Hc & Hok). destruct (Hok name) as [Hst _].
  unfold buf_run in *. rewrite foldl_snoc, omap_app, emits_snoc. set (b := foldl buf_step _ ops) in *.
  pose proof (emits_length name ops). pose proof (ok_entries _ _ _ Hst).
  destruct o as [now ev|now n|n].
  - change (buf_step b (OpEmit now ev)) with (emit b now ev).1. rewrite emit_put, type_state_put, Hc. csimpl.
    destruct (decide (em_name ev = name)) as [E|E]; [|by rewrite decide_False, !app_nil_r by congruence].
    rewrite decide_True, E, He by done. apply loss_emit; (done || lia).
  - simpl. rewrite type_state_put, Hc, app_nil_r. destruct (decide (n = name)) as [E|E]; [|by rewrite decide_False, app_nil_r by congruence].
    rewrite decide_True, E by done. by apply loss_prune.
  - simpl. rewrite type_state_put, !app_nil_r. case_decide as E; [by rewrite E in IH |- *|done].
Qed.

(** ** A client draining the buffer: reading on while [hasMore], each time
    with the size of the batch it asks for. *)
Fixpoint drain (sizes : list Z) (b : EventBuffer) (now : Z) (name cursor : string)
    (age : option Z) (p : option Value) (f : option ParamFilter)
    : list EventOccurrence * string * bool :=
  match sizes with
  | [] => ([], cursor, false)
  | k :: sizes =>
      let '(b', r) := read b now name (Some cursor) age (Some k) p f in
      if rr_has_more r then
        let '(es, c', ok) := drain sizes b' now name (rr_cursor r) age p f in
        (rr_events r ++ es, c', ok)
      else (rr_events r, rr_cursor r, true)
  end.

Lemma drain_spec sizes b evs now name cur age p f s :
  type_ok (epoch b) evs (type_state b name) -> 0 <= max_events_per_type (cfg b) ->
  0 <= epoch b <= u64_max -> Z.of_nat (length evs) < u64_max -> Forall (fun k => 1 <= k) sizes ->
  let n := Z.of_nat (length evs) in
  parse_cursor cur = Some (epoch b, s) ->
  low (prune (cfg b) (type_state b name) now) <= s <= n -> n - s < Z.of_nat (length sizes) ->
  drain sizes b now name cur age p f =
  (deliver name (floor_from_max_age_ms now <$> age) p f (window s n (number 1 evs)),
   cursor_text (epoch b) n, true).
Proof.
  intros Hok Hmax He Hb Hk n. revert b cur s Hok Hmax He.
  induction Hk as [|k sizes Hk _ IH]; intros b cur s Hok Hmax He Hp Hs Hf; simpl in Hf; [lia|].
  pose proof (type_ok_prune (cfg b) _ _ _ now Hok) as Hok'.
  pose proof (ok_last _ _ _ Hok') as Hl. fold n in Hl. pose proof (low_bounds Hok') as Hlow.
  destruct (read_state_spec b evs _ now name cur age (Some k) p f Hok' ltac:(lia))
    as (pos & Hpos & Hcur & Hev & _ & Hmore).
  rewrite (start_spec_at _ _ _ _ s Hp) in * by lia. cbn [fst snd] in *. rewrite Hl in *.
  cbn [drain read]. unfold read. set (r := read_state _ _ _ _ _ _ _ _ _) in *.
  destruct (rr_has_more r) eqn:Em.
  - destruct Hmore as (e & _ & _ & Hcap). simpl in Hcap. bsimp.
    assert (s < pos) as Hlt.
    { destruct (decide (pos = s)) as [->|]; [|lia]. rewrite window_empty in Hev.
      rewrite Hev in Hcap. simpl in Hcap. lia. }
    set (b' := put_state b name (prune (cfg b) (type_state b name) now)).
    assert (type_state b' name = prune (cfg b) (type_state b name) now) as Est.
    { unfold b'. rewrite type_state_put. by rewrite decide_True. }
    rewrite (IH b' (rr_cursor r) pos); try done.
    + rewrite Hev, <- deliver_app, window_app; [done| |lia|].
      * apply number_consecutive.
      * rewrite number_length. unfold n in *. lia.
    + by rewrite Est.
    + rewrite Hcur. apply (parse_cursor_text (epoch b)); unfold n in *; lia.
    + change (cfg b') with (cfg b). rewrite Est, prune_idemp by done. lia.
    + lia.
  - by rewrite Hev, Hcur, Hmore.
Qed.
End buffer.

Section properties.
Context {J : JsonLib} {C : Chrono}.

Variables (c : BufferConfig) (rnd : Z) (ops : list BufOp).
Hypothesis Hmax : 0 <= max_events_per_type c.
Hypothesis Hrnd : 0 <= rnd <= u64_max.
Hypothesis Hops : Z.of_nat (length ops) < u64_max.

(** The buffer after any sequence of calls. *)
Definition reached : EventBuffer := buf_run (buffer_new c rnd) ops.

#[local] Lemma reached_ok : buf_ok c rnd ops reached.
Proof. apply buf_run_ok; [done|lia]. Qed.

#[local] Lemma reached_type_ok now name :
  type_ok rnd (emits name ops) (prune c (type_state reached name) now).
Proof. apply type_ok_prune. destruct reached_ok as (_ & _ & H). apply (H name). Qed.

#[local] Lemma emits_bound name : Z.of_nat (length (emits name ops)) < u64_max.
Proof. pose proof (emits_length name ops). lia. Qed.

#[local] Lemma reached_last now name :
  last_seq (prune c (type_state reached name) now) = Z.of_nat (length (emits name ops)).
Proof. apply (ok_last _ _ _ (reached_type_ok now name)). Qed.

#[local] Lemma reached_read now name cursor age cap p f :
  let st := prune c (type_state reached name) now in
  let fl := floor_from_max_age_ms now <$> age in
  let r := (read reached now name (Some cursor) age cap p f).2 in
  let start := start_spec rnd (low st) (last_seq st) cursor in
  exists pos, start.1 <= pos <= last_seq st /\
    rr_cursor r = cursor_text rnd pos /\
    rr_events r = deliver name fl p f (window start.1 pos (history name ops)) /\
    rr_truncated r = start.2 || existsb (below_floor fl) (window start.1 pos (history name ops)) /\
    if rr_has_more r
    then exists e, history name ops !! Z.to_nat pos = Some e /\ wanted fl p f e = true /\
                   cap_reached cap (rr_events r) = true
    else pos = last_seq st.
Proof.
  destruct reached_ok as (He & Hc & _). unfold read, history. cbn [snd]. unfold cursor_str in *.
  rewrite Hc. rewrite <- He. apply (read_state_spec reached); [rewrite He; apply reached_type_ok|].
  rewrite reached_last. apply emits_bound.
Qed.

(** What a type holds, in full. *)
Lemma buffer_losses name e :
  e ∈ number 1 (emits name ops) -> e ∉ entries (type_state reached name) ->
  st_seq e <= Z.of_nat (length (emits name ops)) - max_events_per_type c \/
  exists now, now ∈ omap (op_time name) ops /\ expired c now e.
Proof. revert e. apply (buf_run_losses c rnd ops name Hmax). lia. Qed.

Lemma buffer_contents name :
  let st := type_state reached name in
  let evs := emits name ops in
  let h := imap (fun i ev => {| st_seq := Z.of_nat i + 1; st_event_id := em_event_id ev;
                                st_timestamp := em_timestamp ev; st_data := em_data ev |}) evs in
  last_seq st = Z.of_nat (length evs) /\
  tx st = imap (fun i ev => {| le_seq := Z.of_nat i + 1; le_occurrence :=
    {| eo_event_id := em_event_id ev; eo_name := name; eo_timestamp := iso8601 (em_timestamp ev); eo_data := em_data ev;
       eo_cursor := Some (Some (cursor_text rnd (Z.of_nat i + 1))); eo_meta := None |} |}) evs /\
  entries st `suffix_of` h /\
  (max_age c = None -> entries st = drop (length evs - Z.to_nat (max_events_per_type c)) h).
Proof.
  destruct reached_ok as (_ & _ & H). destruct (H name) as [[Hl He Ht] Hlen].
  intros st evs h. rewrite number_imap in He. fold evs h in He.
  split; [exact Hl|]. split; [|split; [exact He|]].
  - unfold st. rewrite Ht. apply imap_ext. intros i ev Hev. simpl. unfold live_occurrence.
    by rewrite (emits_named _ _ _ _ Hev), (Z.add_comm 1).
  - intros Hno. unfold h in *. rewrite <- number_imap in *. apply ring_exact; [exact He|done|].
    intros e Hin Hout. destruct (buffer_losses name e Hin Hout) as [?|(now & _ & a & Ha & _)]; [done|congruence].
Qed.

(** C13. Invariant of the buffer, in every reachable state and for every event
    type: [last_seq] counts the events emitted; what was sent to live
    receivers is each of them, in order, with its id, time and data, numbered
    1, 2, 3, ... and with a cursor that reads back as this process and that
    number; the ring holds them in the same order and numbering, without
    holes and no more than its capacity; and an event it no longer holds was
    either not among the newest [max_events_per_type], or out of the retention
    window at the time of an emission or a read of the type.  So without a
    window the ring is exactly the newest events that fit. *)
Theorem buffer_invariant name :
  let st := type_state reached name in
  let evs := emits name ops in
  let n := Z.of_nat (length evs) in
  let h := imap (fun i ev => {| st_seq := Z.of_nat i + 1; st_event_id := em_event_id ev;
                                st_timestamp := em_timestamp ev; st_data := em_data ev |}) evs in
  last_seq st = n /\
  tx st = imap (fun i ev => {| le_seq := Z.of_nat i + 1; le_occurrence :=
    {| eo_event_id := em_event_id ev; eo_name := name; eo_timestamp := iso8601 (em_timestamp ev); eo_data := em_data ev;
       eo_cursor := Some (Some (cursor_text rnd (Z.of_nat i + 1))); eo_meta := None |} |}) evs /\
  (forall i, 0 <= i <= n -> parse_cursor (cursor_text rnd i) = Some (rnd, i)) /\
  entries st `suffix_of` h /\ Z.of_nat (length (entries st)) <= max_events_per_type c /\
  (forall e, e ∈ h -> e ∉ entries st ->
     st_seq e <= n - max_events_per_type c \/
     exists a now, max_age c = Some a /\ now ∈ omap (op_time name) ops /\
       st_timestamp e < default MIN_UTC (checked_sub_signed now a)) /\
  (max_age c = None -> entries st = drop (length evs - Z.to_nat (max_events_per_type c)) h).
Proof.
  destruct reached_ok as (_ & _ & H). destruct (H name) as [_ Hlen]. pose proof (emits_bound name) as Hb. intros st evs n h.
  destruct (buffer_contents name) as (Hl & Ht & He & Hring).
  split; [exact Hl|]. split; [exact Ht|]. split; [|split; [exact He|split; [exact Hlen|split; [|exact Hring]]]].
  - intros i Hi. unfold n, evs in Hi. apply parse_cursor_text; lia.
  - intros e Hin Hout. unfold h in Hin. rewrite <- number_imap in Hin.
    destruct (buffer_losses name e Hin Hout) as [?|(now & ? & a & ? & ?)]; [by left|right]. by exists a, now.
Qed.

(** C2. No silent loss: a read that does not report [truncated] was given a
    cursor of this process at a retained position [s], and delivers, in
    order, every event of the type after [s] up to the cursor it returns,
    save those the subscription's filter rejects; unless [hasMore] is set
    that cursor is the head. *)
Theorem read_no_silent_loss now name cursor age cap p f :
  let r := (read reached now name (Some cursor) age cap p f).2 in
  rr_truncated r = false ->
  exists s pos, parse_cursor cursor = Some (rnd, s) /\
    s <= pos <= Z.of_nat (length (history name ops)) /\
    parse_cursor (rr_cursor r) = Some (rnd, pos) /\
    rr_events r = poll_occurrence name <$>
      base.filter (fun e => s < st_seq e <= pos /\ passes p f e = true) (history name ops) /\
    (rr_has_more r = false -> pos = Z.of_nat (length (history name ops))).
Proof.
  intros r Ht. destruct (reached_read now name cursor age cap p f)
    as (pos & Hpos & Hcur & Hev & Htr & Hmore). fold r in Hcur, Hev, Htr, Hmore.
  rewrite Ht in Htr. symmetry in Htr. apply orb_false_iff in Htr as [Hs Hfl].
  pose proof (low_bounds (reached_type_ok now name)) as Hlow.
  pose proof (reached_last now name) as Hlast. pose proof (emits_bound name).
  pose proof (proj1 (start_spec_servable _ _ _ _) Hs) as (s & Hp & Hsb).
  pose proof (start_spec_at _ _ _ _ _ Hp Hsb) as Es.
  rewrite Es in *. cbn [fst] in *. exists s, pos.
  unfold history at 1 3. rewrite number_length, <- Hlast. split_and!; [done|lia|lia|..].
  - rewrite Hcur. apply parse_cursor_text; lia.
  - rewrite Hev. unfold deliver, window. f_equal. rewrite list_filter_filter.
    apply list_filter_ext_in. intros e He. unfold wanted. split.
    + by intros [[_ ?]%andb_true_iff ?].
    + intros [Hw Hpa]. split; [|done]. rewrite Hpa, andb_true_r. apply negb_true_iff.
      eapply existsb_false_elem; [exact Hfl|]. by apply list_elem_of_filter.
  - intros E. by rewrite E in Hmore.
Qed.

(** C14. The cursor lifecycle.  With [n] events emitted for the type, those
    up to [lo] evicted, a read from a servable cursor (this process, [lo <=
    s <= n]) starts at [s]; from a cursor past the head it starts at the
    head; from any other (evicted position, other process, garbage) it
    replays from the oldest retained event.  [truncated] is set exactly when
    the cursor was not servable or the [maxAgeMs] floor skipped an event
    that the read passed over. *)
Theorem read_lifecycle now name cursor age cap p f :
  let b' := (read reached now name (Some cursor) age cap p f).1 in
  let r := (read reached now name (Some cursor) age cap p f).2 in
  let n := Z.of_nat (length (history name ops)) in
  let lo := n - Z.of_nat (length (entries (type_state b' name))) in
  let fl := floor_from_max_age_ms now <$> age in
  exists start pos,
    match parse_cursor cursor with
    | Some (e, s) => if decide (e = rnd) then start = Z.min n (Z.max lo s) else start = lo
    | None => start = lo
    end /\
    lo <= start <= pos /\ pos <= n /\
    parse_cursor (rr_cursor r) = Some (rnd, pos) /\
    rr_events r = deliver name fl p f (window start pos (history name ops)) /\
    (rr_truncated r = true <->
       ~ servable rnd lo n cursor \/
       exists e, e ∈ window start pos (history name ops) /\ below_floor fl e = true).
Proof.
  intros b' r n lo fl. destruct (reached_read now name cursor age cap p f)
    as (pos & Hpos & Hcur & Hev & Htr & _). fold r fl in Hcur, Hev, Htr.
  pose proof (reached_last now name) as Hlast. pose proof (emits_bound name).
  pose proof (low_bounds (reached_type_ok now name)) as Hlow.
  assert (n = last_seq (prune c (type_state reached name) now)) as En.
  { unfold n, history. by rewrite number_length, Hlast. }
  assert (low (prune c (type_state reached name) now) = lo) as Elo.
  { unfold lo, low. rewrite En. unfold b', read. cbn [fst]. rewrite type_state_put, decide_True by done.
    by destruct reached_ok as (_ & -> & _). }
  assert (0 <= lo <= n /\ n < u64_max) as [Hlo Hn] by (rewrite <- Elo; lia).
  rewrite Elo, <- En in *. pose proof (start_spec_bounds rnd lo n cursor Hlo). exists (start_spec rnd lo n cursor).1, pos.
  split_and!; [|by apply start_spec_bounds|..].
  - unfold start_spec. destruct (parse_cursor cursor) as [[e s]|]; [|done].
    destruct (decide (e = rnd)); [|done]. repeat case_decide; simpl; lia.
  - apply Hpos.
  - apply Hpos.
  - rewrite Hcur. apply parse_cursor_text; lia.
  - exact Hev.
  - rewrite Htr, orb_true_iff, existsb_true_elem. apply or_iff_compat_r.
    rewrite <- start_spec_servable. by destruct (start_spec _ _ _ _).2.
Qed.

(** C25. Batches: [maxEvents] bounds what one read delivers, [hasMore] says
    exactly that another deliverable event is retained past the returned
    cursor, and a read without a cursor delivers nothing and returns the
    head. *)
Theorem read_batch now name cursor age p f cap :
  0 <= cap ->
  let r := (read reached now name (Some cursor) age (Some cap) p f).2 in
  let r0 := (read reached now name None age (Some cap) p f).2 in
  let fl := floor_from_max_age_ms now <$> age in
  Z.of_nat (length (rr_events r)) <= cap /\
  (rr_has_more r = true ->
     Z.of_nat (length (rr_events r)) = cap /\
     exists pos e, parse_cursor (rr_cursor r) = Some (rnd, pos) /\
       history name ops !! Z.to_nat pos = Some e /\ wanted fl p f e = true) /\
  (rr_has_more r = false ->
     rr_cursor r = current_cursor reached name) /\
  rr_events r0 = [] /\ rr_truncated r0 = false /\ rr_has_more r0 = false /\
  rr_cursor r0 = current_cursor reached name.
Proof.
  intros Hcap r r0 fl. destruct (reached_read now name cursor age (Some cap) p f)
    as (pos & Hpos & Hcur & _ & _ & Hmore). fold r fl in Hcur, Hmore.
  pose proof (reached_last now name) as Hlast. pose proof (emits_bound name).
  pose proof (low_bounds (reached_type_ok now name)) as Hlow.
  pose proof (start_spec_bounds rnd _ _ cursor Hlow) as Hsb.
  destruct reached_ok as (He & Hc & Hok). destruct (Hok name) as [[Hl _ _] _].
  assert (current_cursor reached name = cursor_text rnd (last_seq (prune c (type_state reached name) now)))
    as Ecur.
  { rewrite prune_last_seq. unfold current_cursor, cursor_str, type_state. rewrite He.
    by destruct (types reached !! name). }
  assert (Z.of_nat (length (rr_events r)) <= cap) as Hlen.
  { unfold r, read, read_state. cbn [snd]. destruct (read_start _ _ _) as [sa tr].
    apply read_loop_cap. simpl. lia. }
  split_and!; try done.
  - intros E. rewrite E in Hmore. destruct Hmore as (e & Hh & Hw & Hr). simpl in Hr. bsimp.
    split; [lia|]. exists pos, e. split_and!; [|done..]. rewrite Hcur. apply parse_cursor_text; lia.
  - intros E. rewrite E in Hmore. by rewrite Hcur, Hmore, Ecur.
  - unfold r0, read, read_state, cursor_str. cbn [snd]. rewrite Ecur, Hc. simpl. by rewrite He.
Qed.

(** C15. Pagination of a buffer at rest (one reading of the clock, nothing
    emitted in between): from a cursor of this process at a position that is
    still retained, reading on while [hasMore], in batches of whatever
    positive sizes, terminates at the head after at most one read per event
    and one more, and the concatenated batches are what one unbounded read
    would have delivered.  (A batch of size zero has [hasMore] set and stands
    still: [Polling.no_events_spins].) *)
Theorem drain_complete sizes now name cursor age p f s :
  Forall (fun k => 1 <= k) sizes ->
  let n := Z.of_nat (length (history name ops)) in
  let whole := (read reached now name (Some cursor) age None p f).2 in
  parse_cursor cursor = Some (rnd, s) ->
  n - Z.of_nat (length (entries (prune c (type_state reached name) now))) <= s <= n ->
  n - s < Z.of_nat (length sizes) ->
  drain sizes reached now name cursor age p f = (rr_events whole, rr_cursor whole, true) /\
  rr_has_more whole = false.
Proof.
  intros Hk n whole Hp Hs Hf. pose proof reached_ok as (He & Hc & Hok).
  destruct (Hok name) as [Hty _]. pose proof (emits_bound name).
  pose proof (reached_last now name) as Hlast.
  assert (n = Z.of_nat (length (emits name ops))) as En by (unfold n, history; by rewrite number_length).
  assert (low (prune c (type_state reached name) now) <= s) as Hlow by (unfold low; lia).
  destruct (reached_read now name cursor age None p f) as (pos & Hpos & Hcur & Hev & _ & Hmore).
  fold whole in Hcur, Hev, Hmore.
  rewrite (start_spec_at _ _ _ _ s Hp) in * by lia. cbn [fst snd] in *.
  destruct (rr_has_more whole).
  { by destruct Hmore as (? & _ & _ & ?). }
  split; [|done]. rewrite (drain_spec sizes reached (emits name ops) now name cursor age p f s);
    rewrite ?He, ?Hc; try done; try lia.
  rewrite Hev, Hcur. unfold history. rewrite Hmore, Hlast. done.
Qed.

(** [emit] gives the event the next number of its type, sends it to the
    live receivers with the cursor that position has, leaves every other
    type alone, retains it unless the capacity is zero or its timestamp is
    already out of the retention window, and evicts a retained event only
    when the ring is full or the event is out of the window. *)
Theorem emit_spec now ev :
  let name := em_name ev in
  let b' := (emit reached now ev).1 in
  let seq := (emit reached now ev).2 in
  let st := type_state reached name in
  let st' := type_state b' name in
  let old t := exists a, max_age c = Some a /\ t < default MIN_UTC (checked_sub_signed now a) in
  seq = Z.of_nat (length (history name ops)) + 1 /\
  last_seq st' = seq /\
  tx st' = tx st ++ [{| le_seq := seq; le_occurrence := live_occurrence rnd seq ev |}] /\
  (forall other, other <> name -> type_state b' other = type_state reached other) /\
  (1 <= max_events_per_type c -> ~ old (em_timestamp ev) ->
     last (entries st') = Some (stored_of seq ev)) /\
  (forall e, e ∈ entries st -> e ∉ entries st' ->
     max_events_per_type c <= Z.of_nat (length (entries st)) \/ old (st_timestamp e)).
Proof.
  intros name b' seq st st' old. pose proof reached_ok as (He & Hc & Hok).
  destruct (Hok name) as [[Hl _ _] _]. pose proof (emits_bound name).
  assert (seq = last_seq st + 1) as Eseq.
  { unfold seq, emit. cbn [snd]. fold name st. apply u64_add_small. fold st in Hl. lia. }
  assert (st' = emit_state c rnd now ev st) as Est.
  { unfold st', b'. rewrite emit_put, type_state_put, decide_True by done. by rewrite He, Hc. }
  assert (u64_add (last_seq st) 1 = seq) as Eu by done.
  unfold emit_state in Est. rewrite Eu in Est. fold st in Hl.
  split_and!.
  - unfold history. rewrite number_length. lia.
  - rewrite Est. simpl. by rewrite prune_last_seq.
  - rewrite Est. simpl. by rewrite prune_tx.
  - intros other Hne. unfold b'. rewrite emit_put, type_state_put. by rewrite decide_False.
  - intros Hm Hold. rewrite Est. simpl. eapply prune_keeps_last; [done|done|].
    intros a Ha. apply Z.nlt_ge. intros Hlt. apply Hold. by exists a.
  - intros e Hin Hout. rewrite Est in Hout. simpl in Hout.
    eapply prune_keeps in Hout; [|apply elem_of_app; by left]. simpl in Hout.
    rewrite length_app in Hout. simpl in Hout. destruct Hout as [?|?]; [left; lia|by right].
Qed.
End properties.

(** ** Examples: a ring of two after three emissions, epoch 7 *)
Definition ex_event (id : string) (n : Z) : EmittedEvent :=
  {| em_name := "t.changed"; em_event_id := id; em_timestamp := seconds n; em_data := json_int n |}.

Definition ex_config : BufferConfig := {| max_events_per_type := 2; max_age := None |}.

Definition ex_ops : list BufOp :=
  [OpEmit (seconds 1) (ex_event "a" 1); OpEmit (seconds 2) (ex_event "b" 2);
   OpLive "t.changed"; OpEmit (seconds 3) (ex_event "c" 3)].

(** A capped read delivers one event, says there is more and returns a cursor
    that continues after it; a read from an evicted position is truncated. *)
Example read_example :
  let b := reached ex_config 7 ex_ops in
  let r := (read b (seconds 4) "t.changed" (Some "7:1") None (Some 1) None None).2 in
  let r' := (read b (seconds 4) "t.changed" (Some "7:0") None None None None).2 in
  (eo_event_id <$> rr_events r, rr_cursor r, rr_truncated r, rr_has_more r,
   eo_event_id <$> rr_events r', rr_truncated r')
  = (["b"], "7:2", false, true, ["b"; "c"], true).
Proof. vm_compute. reflexivity. Qed.

Ltac ex_hyps := first [done | vm_compute; done | unfold u64_max; simpl; lia].

Lemma buffer_invariant_witness :
  le_seq <$> tx (type_state (reached ex_config 7 ex_ops) "t.changed") = [1; 2; 3].
Proof.
  destruct (buffer_invariant ex_config 7 ex_ops ltac:(ex_hyps) ltac:(ex_hyps) ltac:(ex_hyps) "t.changed")
    as (_ & H & _). rewrite H. reflexivity.
Defined.

Lemma read_no_silent_loss_witness :
  exists s pos, parse_cursor "7:1" = Some (7, s) /\ s <= pos <= 3.
Proof.
  destruct (read_no_silent_loss ex_config 7 ex_ops ltac:(ex_hyps) ltac:(ex_hyps) ltac:(ex_hyps)
    (seconds 4) "t.changed" "7:1" None (Some 1) None None eq_refl) as (s & pos & H1 & H2 & _).
  exists s, pos. split; [exact H1|exact H2].
Defined.

Lemma read_lifecycle_witness :
  exists start, rr_events (read (reached ex_config 7 ex_ops) (seconds 4) "t.changed" (Some "8:3") None None None None).2
    = deliver "t.changed" None None None (window start 3 (history "t.changed" ex_ops)).
Proof.
  destruct (read_lifecycle ex_config 7 ex_ops ltac:(ex_hyps) ltac:(ex_hyps) ltac:(ex_hyps)
    (seconds 4) "t.changed" "8:3" None None None None) as (start & pos & _ & _ & _ & H1 & H2 & _).
  exists start. vm_compute in H1. injection H1 as <-. exact H2.
Defined.

Lemma read_batch_witness :
  Z.of_nat (length (rr_events (read (reached ex_config 7 ex_ops) (seconds 4) "t.changed" (Some "7:1")
    None (Some 1) None None).2)) <= 1.
Proof.
  destruct (read_batch ex_config 7 ex_ops ltac:(ex_hyps) ltac:(ex_hyps) ltac:(ex_hyps)
    (seconds 4) "t.changed" "7:1" None None None 1 ltac:(lia)) as (H & _).
  exact H.
Defined.

Lemma drain_complete_witness :
  (drain [1; 2; 5] (reached ex_config 7 ex_ops) (seconds 4) "t.changed" "7:1" None None None).1.2 = "7:3".
Proof.
  destruct (drain_complete ex_config 7 ex_ops ltac:(ex_hyps) ltac:(ex_hyps) ltac:(ex_hyps)
    [1; 2; 5] (seconds 4) "t.changed" "7:1" None None None 1 ltac:(by repeat constructor) eq_refl) as [H _].
  - vm_compute. split; discriminate.
  - vm_compute. reflexivity.
  - rewrite H. vm_compute. reflexivity.
Defined.

Lemma emit_spec_witness :
  last (entries (type_state (emit (reached ex_config 7 ex_ops) (seconds 9) (ex_event "d" 4)).1 "t.changed"))
  = Some (stored_of 4 (ex_event "d" 4)).
Proof.
  destruct (emit_spec ex_config 7 ex_ops ltac:(ex_hyps) ltac:(ex_hyps)
    (seconds 9) (ex_event "d" 4)) as (_ & _ & _ & _ & H & _).
  apply H; [simpl; lia|]. intros (a & E & _). discriminate E.
Defined.
