(* ===== verification/History.v ===== *)
(** * Positions in the history of an event type.

    What the readers of a buffer are owed: the events of a history between
    two positions that a subscription's filter lets through, while the
    history grows. *)
From S2P Require Import Prelude RustStd Lib Json Wire Buffer.

Section history.
Context {J : JsonLib} {C : Chrono}.
Implicit Types (h k : list Stored) (p : option Value) (f : option ParamFilter) (name : string).

(** The events of [(lo, hi]] that the filter passes. *)
Definition passing p f (lo hi : Z) h : list Stored :=
  base.filter (fun e => passes p f e = true) (window lo hi h).

Lemma elem_of_passing p f lo hi h e :
  e ∈ passing p f lo hi h <-> passes p f e = true /\ lo < st_seq e <= hi /\ e ∈ h.
Proof. unfold passing, window. by rewrite !list_elem_of_filter. Qed.

Lemma window_grow lo hi h k :
  consecutive 1 (h ++ k) -> hi <= Z.of_nat (length h) -> window lo hi (h ++ k) = window lo hi h.
Proof.
  intros [_ Hk]%consecutive_app Hhi. unfold window. rewrite filter_app.
  rewrite (filter_none _ k); [by rewrite app_nil_r|].
  eapply Forall_impl; [by apply consecutive_Forall|]. simpl. lia.
Qed.

Lemma passing_grow p f lo hi h k :
  consecutive 1 (h ++ k) -> hi <= Z.of_nat (length h) ->
  passing p f lo hi (h ++ k) = passing p f lo hi h.
Proof. intros Hh Hhi. unfold passing. by rewrite window_grow. Qed.

Lemma passing_app p f lo mid hi h :
  consecutive 1 h -> 0 <= lo <= mid -> mid <= hi <= Z.of_nat (length h) ->
  passing p f lo hi h = passing p f lo mid h ++ passing p f mid hi h.
Proof. intros. unfold passing. by rewrite <- (window_app lo mid hi), filter_app. Qed.

Lemma passing_empty p f lo h : passing p f lo lo h = [].
Proof. unfold passing. by rewrite window_empty. Qed.

Lemma passing_none p f lo hi h : hi <= lo -> passing p f lo hi h = [].
Proof.
  intros Hle. destruct (passing p f lo hi h) as [|e l] eqn:E; [done|].
  assert (e ∈ passing p f lo hi h) as (_ & ? & _)%elem_of_passing by (rewrite E; left). lia.
Qed.

Lemma passing_none_mono p f lo lo' hi h : lo <= lo' -> passing p f lo hi h = [] -> passing p f lo' hi h = [].
Proof.
  intros Hle Hn. destruct (passing p f lo' hi h) as [|e l] eqn:E; [done|].
  assert (e ∈ passing p f lo' hi h) as (? & ? & ?)%elem_of_passing by (rewrite E; left).
  assert (e ∈ passing p f lo hi h) as Hin by (apply elem_of_passing; split_and!; (done || lia)).
  rewrite Hn in Hin. by apply elem_of_nil in Hin.
Qed.

Lemma window_next h pos e :
  consecutive 1 h -> h !! Z.to_nat pos = Some e -> 0 <= pos -> window pos (pos + 1) h = [e].
Proof.
  intros Hc He Hp. pose proof (lookup_lt_Some _ _ _ He).
  rewrite window_take_drop by (done || lia). replace (Z.to_nat (pos + 1 - pos)) with 1%nat by lia.
  rewrite (drop_S _ e) by done. done.
Qed.

(** The event right after a position. *)
Lemma passing_next p f h pos e :
  consecutive 1 h -> h !! Z.to_nat pos = Some e -> 0 <= pos ->
  passing p f pos (pos + 1) h = if passes p f e then [e] else [].
Proof.
  intros. unfold passing. rewrite (window_next h pos e), filter_cons, filter_nil by done.
  by destruct (passes p f e).
Qed.

(** The only event that passes between two positions is followed by none. *)
Lemma passing_singleton p f pos pos' h e :
  consecutive 1 h -> 0 <= pos <= pos' /\ pos' <= Z.of_nat (length h) ->
  [e] = passing p f pos pos' h -> passing p f (st_seq e) pos' h = [].
Proof.
  intros Hc Hp He.
  assert (e ∈ passing p f pos pos' h) as Hin by (rewrite <- He; left).
  apply elem_of_passing in Hin as (Hpass & Hs & Hh).
  rewrite (passing_app p f pos (st_seq e) pos' h) in He by (done || lia).
  assert (e ∈ passing p f pos (st_seq e) h) as Hin' by (apply elem_of_passing; split_and!; (done || lia)).
  destruct (passing p f pos (st_seq e) h) as [|x l]; [by apply elem_of_nil in Hin'|].
  destruct (passing p f (st_seq e) pos' h) as [|y k]; [done|].
  apply (f_equal length) in He. simpl in He. rewrite length_app in He. simpl in He. lia.
Qed.

(** ** Histories of operation sequences *)
Lemma history_length ops name : Z.of_nat (length (history name ops)) = Z.of_nat (length (emits name ops)).
Proof. unfold history. by rewrite number_length. Qed.

Lemma history_consecutive name ops : consecutive 1 (history name ops).
Proof. apply number_consecutive. Qed.

Lemma history_snoc name ops o : history name (ops ++ [o]) =
  history name ops ++ number (1 + Z.of_nat (length (emits name ops))) (emits name [o]).
Proof. unfold history. by rewrite emits_snoc, number_app. Qed.

Lemma history_prefix name (ops ops' : list BufOp) : exists h, history name (ops ++ ops') = history name ops ++ h.
Proof. unfold history, emits. rewrite omap_app, number_app. by eexists. Qed.

Lemma history_length_mono name (ops ops' : list BufOp) :
  Z.of_nat (length (history name ops)) <= Z.of_nat (length (history name (ops ++ ops'))).
Proof. destruct (history_prefix name ops ops') as [h ->]. rewrite length_app. lia. Qed.

Lemma history_quiet name ops o : emits name [o] = [] -> history name (ops ++ [o]) = history name ops.
Proof. intros E. by rewrite history_snoc, E, app_nil_r. Qed.

(** What a live receiver finds at a position of its channel. *)
Lemma log_lookup c rnd name ops b i le :
  buf_ok c rnd ops b -> tx (type_state b name) !! i = Some le ->
  exists ev, em_name ev = name /\ le_seq le = Z.of_nat i + 1 /\
    le_occurrence le = live_occurrence rnd (Z.of_nat i + 1) ev /\
    history name ops !! i = Some (stored_of (Z.of_nat i + 1) ev).
Proof.
  intros (_ & _ & Hty) Hle. destruct (Hty name) as [[_ _ Htx] _]. rewrite Htx in Hle.
  unfold live_log in Hle. rewrite list_lookup_imap in Hle. apply fmap_Some in Hle as (ev & Hev & ->).
  exists ev. pose proof (emits_named _ _ _ _ Hev). simpl. rewrite (Z.add_comm 1). split_and!; [done..|].
  unfold history. by rewrite number_lookup, Hev, (Z.add_comm 1).
Qed.

Lemma log_length c rnd name ops b :
  buf_ok c rnd ops b -> length (tx (type_state b name)) = length (history name ops).
Proof.
  intros (_ & _ & Hty). destruct (Hty name) as [[_ _ ->] _].
  unfold live_log, history. by rewrite length_imap, number_length.
Qed.

Lemma current_cursor_head c rnd name ops b :
  buf_ok c rnd ops b -> current_cursor b name = cursor_text rnd (Z.of_nat (length (history name ops))).
Proof.
  intros (He & _ & Hty). destruct (Hty name) as [[Hl _ _] _]. unfold current_cursor, cursor_str.
  rewrite He, history_length, <- Hl. unfold type_state. by destruct (types b !! name).
Qed.
End history.
