(* ===== verification/Registry.v ===== *)
(** * The event-type registry (crates/mcp-events-engine/src/registry.rs). *)
From S2P Require Import Prelude RustStd Json Wire.

Section registry.
Context {J : JsonLib}.

Record Registry := {
  defs : list EventDefinition;
  index : gmap string nat
}.

(** The loop of [new]: a later definition overwrites the index entry. *)
Definition index_insert (m : gmap string nat) (id : nat * EventDefinition) : gmap string nat :=
  <[ed_name id.2 := id.1]> m.

Definition registry_new (ds : list EventDefinition) : Registry :=
  {| defs := ds; index := foldl index_insert ∅ (imap pair ds) |}.

Definition registry_list (r : Registry) : list EventDefinition := defs r.

Definition registry_get (r : Registry) (name : string) : option EventDefinition :=
  i ← index r !! name; defs r !! i.

(** The last definition of a name. *)
Definition last_named (name : string) (ds : list EventDefinition) : option EventDefinition :=
  last (base.filter (fun d => ed_name d = name) ds).

Lemma registry_new_snoc ds d :
  index (registry_new (ds ++ [d])) = <[ed_name d := length ds]> (index (registry_new ds)).
Proof.
  unfold registry_new. simpl. rewrite imap_app, foldl_app. simpl.
  unfold index_insert at 1. simpl. by rewrite Nat.add_0_r.
Qed.

Lemma index_bound ds name i : index (registry_new ds) !! name = Some i -> (i < length ds)%nat.
Proof.
  induction ds as [|d ds IH] using rev_ind; [done|]. rewrite registry_new_snoc, length_app. simpl.
  destruct (decide (name = ed_name d)) as [->|].
  - rewrite lookup_insert_eq. intros [= <-]. lia.
  - rewrite lookup_insert_ne by done. intros H%IH. lia.
Qed.

Lemma defs_new ds : defs (registry_new ds) = ds.
Proof. done. Qed.

Lemma registry_get_named ds name : registry_get (registry_new ds) name = last_named name ds.
Proof.
  unfold registry_get, last_named.
  induction ds as [|d ds IH] using rev_ind; [done|].
  rewrite registry_new_snoc, filter_app, !defs_new in *. destruct (decide (name = ed_name d)) as [->|Hne].
  - rewrite lookup_insert_eq, filter_cons_True, filter_nil, last_snoc by done. simpl.
    by rewrite list_lookup_middle.
  - rewrite lookup_insert_ne, filter_cons_False, filter_nil, app_nil_r by done.
    rewrite <- IH. destruct (index (registry_new ds) !! name) as [i|] eqn:E; [|done].
    apply index_bound in E. simpl. by rewrite lookup_app_l.
Qed.

(** The definition found has the name and is one of those given. *)
Lemma registry_get_Some ds name d :
  registry_get (registry_new ds) name = Some d -> ed_name d = name /\ d ∈ ds.
Proof.
  rewrite registry_get_named. unfold last_named. intros H%last_Some_elem_of.
  by apply list_elem_of_filter in H.
Qed.

Lemma registry_get_is_Some ds name :
  name ∈ ed_name <$> ds -> is_Some (registry_get (registry_new ds) name).
Proof.
  intros (d & -> & Hd)%list_elem_of_fmap. rewrite registry_get_named. unfold last_named.
  apply last_is_Some. intros E. assert (d ∈ base.filter (fun x => ed_name x = ed_name d) ds) as H
    by by apply list_elem_of_filter. rewrite E in H. by apply elem_of_nil in H.
Qed.

(** Lookup by name: the registry lists the definitions in the given order
    and finds the last definition of a name, and nothing for any other name. *)
Theorem registry_get_last ds name :
  registry_list (registry_new ds) = ds /\
  registry_get (registry_new ds) name = last_named name ds /\
  (registry_get (registry_new ds) name = None <-> name ∉ ed_name <$> ds).
Proof.
  pose proof (registry_get_named ds name) as Hget.
  split_and!; [done|done|]. rewrite Hget. unfold last_named. rewrite last_None.
  rewrite list_elem_of_fmap. split.
  - intros Hnil (d & -> & Hd). assert (d ∈ base.filter (fun x => ed_name x = ed_name d) ds) as H
      by by apply list_elem_of_filter. rewrite Hnil in H. by apply elem_of_nil in H.
  - intros H. apply filter_none, Forall_forall. intros d Hd E. apply H. by exists d.
Qed.
End registry.
