(* ===== verification/Store.v ===== *)
(** * The webhook subscription store (crates/mcp-events-engine/src/store.rs).

    Every method locks the state for its whole body: one transition each.
    [HashMap]s are finite maps; where the source iterates over one, the model
    takes the order of [map_to_list] and the theorems do not depend on it.
    The clock of [upsert] is an argument. *)
From S2P Require Import Prelude RustStd Lib Json Canon Wire Buffer.

Module error_category.
Definition CONNECTION_REFUSED : string := "connection_refused".
Definition TIMEOUT : string := "timeout".
Definition TLS_ERROR : string := "tls_error".
Definition HTTP_4XX : string := "http_4xx".
Definition HTTP_5XX : string := "http_5xx".
Definition CHALLENGE_FAILED : string := "challenge_failed".
End error_category.

Record SubKey := {
  principal : string;
  url : string;
  name : string;
  params_canonical : string
}.

#[export] Instance SubKey_eq_dec : EqDecision SubKey.
Proof. solve_decision. Defined.

(** [&s[..n]]. *)
Fixpoint str_take (n : nat) (s : string) : string :=
  match n, s with
  | S n', String c s' => String c (str_take n' s')
  | _, _ => ""
  end.

Section store.
Context {J : JsonLib} {C : Chrono} {Y : Crypto}.

(** What [derive_sub_id] feeds to the digest. *)
Definition id_preimage (k : SubKey) : string :=
  principal k +:+ String "010" (url k +:+ String "010" (name k +:+ String "010" (params_canonical k))).

Definition derive_sub_id (k : SubKey) : string :=
  "sub_" +:+ str_take 16 (hex_encode (sha256 (id_preimage k))).

Record WebhookSub := {
  ws_id : string;
  ws_key : SubKey;
  ws_params : Value;
  ws_secret : string;
  ws_refresh_before : option Z;
  ws_cursor : option string;
  ws_active : bool;
  ws_last_delivery_at : option Z;
  ws_last_error : option string;
  ws_failed_since : option Z;
  ws_verified : bool
}.

#[export] Instance WebhookSub_eq_dec : EqDecision WebhookSub.
Proof. solve_decision. Defined.

Definition is_lapsed (s : WebhookSub) (now : Z) : bool :=
  match ws_refresh_before s with Some t => t <=? now | None => false end.

Definition delivery_status (s : WebhookSub) : DeliveryStatus :=
  {| dv_active := ws_active s;
     dv_last_delivery_at := iso8601 <$> ws_last_delivery_at s;
     dv_last_error := ws_last_error s;
     dv_failed_since := iso8601 <$> ws_failed_since s |}.

Inductive UpsertOutcome : Type := Created (s : WebhookSub) | Refreshed (s : WebhookSub).

Definition outcome_sub (o : UpsertOutcome) : WebhookSub :=
  match o with Created s | Refreshed s => s end.

Definition is_created (o : UpsertOutcome) : bool :=
  match o with Created _ => true | Refreshed _ => false end.

Inductive StoreError : Type := QuotaExceeded (max : Z).

Record Store := {
  max_per_principal : Z;
  subs : gmap string WebhookSub;
  failures : gmap string Z;
  verified : gset (string * string)
}.

Definition store_new (max : Z) : Store :=
  {| max_per_principal := max; subs := ∅; failures := ∅; verified := ∅ |}.

Definition with_subs (st : Store) (m : gmap string WebhookSub) : Store :=
  {| max_per_principal := max_per_principal st; subs := m; failures := failures st;
     verified := verified st |}.

Definition with_failures (st : Store) (f : gmap string Z) : Store :=
  {| max_per_principal := max_per_principal st; subs := subs st; failures := f;
     verified := verified st |}.

Definition sub_values (st : Store) : list WebhookSub := (map_to_list (subs st)).*2.

(** ** upsert *)

(** The refresh of a live record. *)
Definition refresh_sub (s : WebhookSub) (params : Value) (secret : string)
    (refresh_before : option Z) (is_ver : bool) : WebhookSub :=
  {| ws_id := ws_id s; ws_key := ws_key s; ws_params := params; ws_secret := secret;
     ws_refresh_before := refresh_before; ws_cursor := ws_cursor s; ws_active := true;
     ws_last_delivery_at := ws_last_delivery_at s; ws_last_error := ws_last_error s;
     ws_failed_since := ws_failed_since s; ws_verified := is_ver |}.

Definition set_active (s : WebhookSub) (b : bool) : WebhookSub :=
  {| ws_id := ws_id s; ws_key := ws_key s; ws_params := ws_params s; ws_secret := ws_secret s;
     ws_refresh_before := ws_refresh_before s; ws_cursor := ws_cursor s; ws_active := b;
     ws_last_delivery_at := ws_last_delivery_at s; ws_last_error := ws_last_error s;
     ws_failed_since := ws_failed_since s; ws_verified := ws_verified s |}.

Definition new_sub (id : string) (k : SubKey) (params : Value) (secret : string)
    (refresh_before : option Z) (cursor : option string) (is_ver : bool) : WebhookSub :=
  {| ws_id := id; ws_key := k; ws_params := params; ws_secret := secret;
     ws_refresh_before := refresh_before; ws_cursor := cursor; ws_active := true;
     ws_last_delivery_at := None; ws_last_error := None; ws_failed_since := None;
     ws_verified := is_ver |}.

(** The records that count against the quota of a create of [id]. *)
Definition counts (k : SubKey) (id : string) (now : Z) (s : WebhookSub) : bool :=
  bool_decide (principal (ws_key s) = principal k) && negb (bool_decide (ws_id s = id))
  && negb (is_lapsed s now).

Definition in_use (st : Store) (k : SubKey) (id : string) (now : Z) : Z :=
  Z.of_nat (length (base.filter (fun s => counts k id now s = true) (sub_values st))).

(** A fresh create, which also replaces a lapsed record in place. *)
Definition upsert_create (st : Store) (now : Z) (k : SubKey) (params : Value) (secret : string)
    (refresh_before : option Z) (cursor : option string) : Store * result StoreError UpsertOutcome :=
  let id := derive_sub_id k in
  let is_ver := bool_decide ((principal k, url k) ∈ verified st) in
  if max_per_principal st <=? in_use st k id now then
    (st, Err (QuotaExceeded (max_per_principal st)))
  else
    let s := new_sub id k params secret refresh_before cursor is_ver in
    (with_subs (with_failures st (<[id := 0]> (failures st))) (<[id := s]> (subs st)), Ok (Created s)).

Definition upsert (st : Store) (now : Z) (k : SubKey) (params : Value) (secret : string)
    (refresh_before : option Z) (cursor : option string) : Store * result StoreError UpsertOutcome :=
  let id := derive_sub_id k in
  let is_ver := bool_decide ((principal k, url k) ∈ verified st) in
  match subs st !! id with
  | Some existing =>
      if negb (is_lapsed existing now) then
        let s := refresh_sub existing params secret refresh_before is_ver in
        (with_subs (with_failures st (<[id := 0]> (failures st))) (<[id := s]> (subs st)),
         Ok (Refreshed (set_active s (ws_active existing))))
      else upsert_create st now k params secret refresh_before cursor
  | None => upsert_create st now k params secret refresh_before cursor
  end.

(** ** The other operations *)
Definition remove (st : Store) (k : SubKey) : Store * option WebhookSub :=
  let id := derive_sub_id k in
  (with_subs (with_failures st (delete id (failures st))) (delete id (subs st)), subs st !! id).

Definition get (st : Store) (k : SubKey) : option WebhookSub := subs st !! derive_sub_id k.

Definition list_for_event (st : Store) (n : string) : list WebhookSub :=
  base.filter (fun s => name (ws_key s) = n) (sub_values st).

(** The loop of [expire_lapsed] over the ids found lapsed. *)
Fixpoint expire_ids (st : Store) (ids : list string) (removed : list WebhookSub)
    : Store * list WebhookSub :=
  match ids with
  | [] => (st, removed)
  | id :: ids' =>
      let st1 := with_failures st (delete id (failures st)) in
      match subs st1 !! id with
      | Some s => expire_ids (with_subs st1 (delete id (subs st1))) ids' (removed ++ [s])
      | None => expire_ids st1 ids' removed
      end
  end.

Definition lapsed_ids (st : Store) (now : Z) : list string :=
  ws_id <$> base.filter (fun s => is_lapsed s now = true) (sub_values st).

Definition expire_lapsed (st : Store) (now : Z) : Store * list WebhookSub :=
  expire_ids st (lapsed_ids st now) [].

Definition delivered (s : WebhookSub) (at_ : Z) : WebhookSub :=
  {| ws_id := ws_id s; ws_key := ws_key s; ws_params := ws_params s; ws_secret := ws_secret s;
     ws_refresh_before := ws_refresh_before s; ws_cursor := ws_cursor s; ws_active := ws_active s;
     ws_last_delivery_at := Some at_; ws_last_error := None; ws_failed_since := None;
     ws_verified := ws_verified s |}.

Definition mark_delivery_ok (st : Store) (id : string) (at_ : Z) : Store :=
  let st := with_failures st (<[id := 0]> (failures st)) in
  match subs st !! id with
  | Some s => with_subs st (<[id := delivered s at_]> (subs st))
  | None => st
  end.

Definition failed (s : WebhookSub) (category : string) (at_ : Z) (active : bool) : WebhookSub :=
  {| ws_id := ws_id s; ws_key := ws_key s; ws_params := ws_params s; ws_secret := ws_secret s;
     ws_refresh_before := ws_refresh_before s; ws_cursor := ws_cursor s; ws_active := active;
     ws_last_delivery_at := ws_last_delivery_at s; ws_last_error := Some category;
     ws_failed_since := match ws_failed_since s with None => Some at_ | t => t end;
     ws_verified := ws_verified s |}.

Definition mark_delivery_failed (st : Store) (id category : string) (at_ suspend_after : Z) : Store :=
  match subs st !! id with
  | Some s =>
      let count := u32_add (default 0 (failures st !! id)) 1 in
      let suspend := (0 <? suspend_after) && (suspend_after <=? count) && ws_active s in
      let active := if suspend then false else ws_active s in
      with_subs (with_failures st (<[id := count]> (failures st)))
        (<[id := failed s category at_ active]> (subs st))
  | None => st
  end.

Definition verify_sub (p u : string) (s : WebhookSub) : WebhookSub :=
  if bool_decide (principal (ws_key s) = p) && bool_decide (url (ws_key s) = u) then
    {| ws_id := ws_id s; ws_key := ws_key s; ws_params := ws_params s; ws_secret := ws_secret s;
       ws_refresh_before := ws_refresh_before s; ws_cursor := ws_cursor s; ws_active := ws_active s;
       ws_last_delivery_at := ws_last_delivery_at s; ws_last_error := ws_last_error s;
       ws_failed_since := ws_failed_since s; ws_verified := true |}
  else s.

Definition set_verified (st : Store) (p u : string) : Store :=
  {| max_per_principal := max_per_principal st;
     subs := verify_sub p u <$> subs st;
     failures := failures st;
     verified := {[(p, u)]} ∪ verified st |}.

Definition is_verified (st : Store) (p u : string) : bool := bool_decide ((p, u) ∈ verified st).

Definition reactivate (st : Store) (id : string) : Store :=
  let st := with_failures st (<[id := 0]> (failures st)) in
  match subs st !! id with
  | Some s => with_subs st (<[id := set_active s true]> (subs st))
  | None => st
  end.

Definition set_cursor (s : WebhookSub) (c : option string) : WebhookSub :=
  {| ws_id := ws_id s; ws_key := ws_key s; ws_params := ws_params s; ws_secret := ws_secret s;
     ws_refresh_before := ws_refresh_before s; ws_cursor := c; ws_active := ws_active s;
     ws_last_delivery_at := ws_last_delivery_at s; ws_last_error := ws_last_error s;
     ws_failed_since := ws_failed_since s; ws_verified := ws_verified s |}.

Definition update_cursor (st : Store) (id : string) (c : option string) : Store :=
  match subs st !! id with
  | Some s => with_subs st (<[id := set_cursor s c]> (subs st))
  | None => st
  end.

(** ** The store as a state machine *)
Inductive StoreOp : Type :=
| OpUpsert (now : Z) (k : SubKey) (params : Value) (secret : string) (rb : option Z) (c : option string)
| OpRemove (k : SubKey)
| OpExpire (now : Z)
| OpDeliveryOk (id : string) (at_ : Z)
| OpDeliveryFailed (id category : string) (at_ suspend_after : Z)
| OpSetVerified (p u : string)
| OpReactivate (id : string)
| OpUpdateCursor (id : string) (c : option string).

Definition store_step (st : Store) (o : StoreOp) : Store :=
  match o with
  | OpUpsert now k params secret rb c => (upsert st now k params secret rb c).1
  | OpRemove k => (remove st k).1
  | OpExpire now => (expire_lapsed st now).1
  | OpDeliveryOk id at_ => mark_delivery_ok st id at_
  | OpDeliveryFailed id category at_ n => mark_delivery_failed st id category at_ n
  | OpSetVerified p u => set_verified st p u
  | OpReactivate id => reactivate st id
  | OpUpdateCursor id c => update_cursor st id c
  end.

Definition store_run (st : Store) (ops : list StoreOp) : Store := foldl store_step st ops.

(** ** The invariant *)
Record store_ok (st : Store) : Prop := {
  so_id id s : subs st !! id = Some s -> ws_id s = id /\ derive_sub_id (ws_key s) = id;
  so_failures id s : subs st !! id = Some s -> is_Some (failures st !! id);
  so_streak id s : subs st !! id = Some s -> (ws_failed_since s = None <-> ws_last_error s = None);
  so_count id n : failures st !! id = Some n -> 0 <= n <= u32_max
}.

(** What an operation that only updates or drops records does to them. *)
Definition evolves (st st' : Store) : Prop :=
  forall id s', subs st' !! id = Some s' ->
    exists s, subs st !! id = Some s /\ ws_id s' = ws_id s /\ ws_key s' = ws_key s /\
      ws_refresh_before s' = ws_refresh_before s.

Lemma u32_add_range a b : 0 <= u32_add a b <= u32_max.
Proof. unfold u32_add, u32_max. pose proof (Z.mod_pos_bound (a + b) (2 ^ 32)). lia. Qed.

(** Replacing one record and setting its failure count. *)
Lemma store_ok_put st id s n :
  store_ok st -> ws_id s = id -> derive_sub_id (ws_key s) = id ->
  (ws_failed_since s = None <-> ws_last_error s = None) -> 0 <= n <= u32_max ->
  store_ok (with_subs (with_failures st (<[id := n]> (failures st))) (<[id := s]> (subs st))).
Proof.
  intros [H1 H2 H3 H4] Hid Hkey Hs Hn. split; simpl.
  - intros id' s'. rewrite lookup_insert_Some. naive_solver.
  - intros id' s' [[<- _]|[? Hl]]%lookup_insert_Some.
    + rewrite lookup_insert_eq. done.
    + rewrite lookup_insert_ne by done. eauto.
  - intros id' s'. rewrite lookup_insert_Some. naive_solver.
  - intros id' n'. rewrite lookup_insert_Some. naive_solver.
Qed.

Lemma with_failures_same st id n :
  failures st !! id = Some n -> with_failures st (<[id := n]> (failures st)) = st.
Proof. intros H. unfold with_failures. rewrite insert_id by done. by destruct st. Qed.

(** Replacing one record, the counts as they are. *)
Lemma store_ok_update st id s s' :
  store_ok st -> subs st !! id = Some s ->
  ws_id s' = ws_id s -> ws_key s' = ws_key s ->
  (ws_failed_since s' = None <-> ws_last_error s' = None) ->
  store_ok (with_subs st (<[id := s']> (subs st))).
Proof.
  intros Hok Hs Hid Hkey Hst. destruct (so_failures _ Hok _ _ Hs) as [n Hn].
  destruct (so_id _ Hok _ _ Hs) as [E1 E2].
  pose proof (store_ok_put st id s' n Hok) as H. rewrite (with_failures_same _ _ _ Hn) in H.
  apply H; [congruence..|done|]. by eapply so_count.
Qed.

Lemma store_ok_failures st id n :
  store_ok st -> 0 <= n <= u32_max -> store_ok (with_failures st (<[id := n]> (failures st))).
Proof.
  intros [H1 H2 H3 H4] Hn. split; simpl; [exact H1| |exact H3|].
  - intros id' s' Hs. apply lookup_insert_is_Some. destruct (decide (id = id')); [by left|right]. eauto.
  - intros id' n'. rewrite lookup_insert_Some. naive_solver.
Qed.

Lemma store_ok_delete st id :
  store_ok st -> store_ok (with_subs (with_failures st (delete id (failures st))) (delete id (subs st))).
Proof.
  intros [H1 H2 H3 H4]. split; simpl.
  - intros id' s' [_ ?]%lookup_delete_Some. eauto.
  - intros id' s' [? ?]%lookup_delete_Some. rewrite lookup_delete_ne by done. eauto.
  - intros id' s' [_ ?]%lookup_delete_Some. eauto.
  - intros id' n' [_ ?]%lookup_delete_Some. eauto.
Qed.

(** ** Every operation keeps the invariant *)
Lemma upsert_ok st now k params secret rb c :
  store_ok st -> store_ok (upsert st now k params secret rb c).1.
Proof.
  intros Hok. unfold upsert.
  assert (store_ok (upsert_create st now k params secret rb c).1) as Hcreate.
  { unfold upsert_create. destruct (_ <=? _); [done|]. by apply store_ok_put. }
  destruct (subs st !! derive_sub_id k) as [s|] eqn:Hs; [|apply Hcreate].
  destruct (negb _); [|apply Hcreate]. simpl.
  destruct (so_id _ Hok _ _ Hs). apply store_ok_put; try done. exact (so_streak _ Hok _ _ Hs).
Qed.

Lemma mark_delivery_ok_ok st id at_ : store_ok st -> store_ok (mark_delivery_ok st id at_).
Proof.
  intros Hok. unfold mark_delivery_ok. simpl.
  destruct (subs st !! id) as [s|] eqn:Hs; [|by apply store_ok_failures].
  destruct (so_id _ Hok _ _ Hs). by apply store_ok_put.
Qed.

Lemma reactivate_ok st id : store_ok st -> store_ok (reactivate st id).
Proof.
  intros Hok. unfold reactivate. simpl.
  destruct (subs st !! id) as [s|] eqn:Hs; [|by apply store_ok_failures].
  destruct (so_id _ Hok _ _ Hs). apply store_ok_put; try done. exact (so_streak _ Hok _ _ Hs).
Qed.

Lemma mark_delivery_failed_ok st id cat at_ n :
  store_ok st -> store_ok (mark_delivery_failed st id cat at_ n).
Proof.
  intros Hok. unfold mark_delivery_failed. destruct (subs st !! id) as [s|] eqn:Hs; [|done].
  destruct (so_id _ Hok _ _ Hs). apply store_ok_put; try done; [|apply u32_add_range].
  simpl. split; [by destruct (ws_failed_since s)|done].
Qed.

Lemma set_verified_ok st p u : store_ok st -> store_ok (set_verified st p u).
Proof.
  intros [H1 H2 H3 H4].
  assert (forall s, ws_id (verify_sub p u s) = ws_id s /\ ws_key (verify_sub p u s) = ws_key s /\
    ws_failed_since (verify_sub p u s) = ws_failed_since s /\
    ws_last_error (verify_sub p u s) = ws_last_error s) as Hv.
  { intros s. unfold verify_sub. by case_match. }
  split; simpl; [| |..|exact H4].
  - intros id s'. rewrite lookup_fmap, fmap_Some. intros (s & Hs & ->).
    destruct (Hv s) as (-> & -> & _). eauto.
  - intros id s'. rewrite lookup_fmap, fmap_Some. intros (s & Hs & _). eauto.
  - intros id s'. rewrite lookup_fmap, fmap_Some. intros (s & Hs & ->).
    destruct (Hv s) as (_ & _ & -> & ->). eauto.
Qed.

Lemma update_cursor_ok st id c : store_ok st -> store_ok (update_cursor st id c).
Proof.
  intros Hok. unfold update_cursor. destruct (subs st !! id) as [s|] eqn:Hs; [|done].
  apply (store_ok_update _ _ s); try done. exact (so_streak _ Hok _ _ Hs).
Qed.

(** ** expire_lapsed *)
Lemma elem_of_values st s : s ∈ sub_values st <-> exists id, subs st !! id = Some s.
Proof.
  unfold sub_values. rewrite list_elem_of_fmap. split.
  - intros ([id s'] & -> & H%elem_of_map_to_list). by exists id.
  - intros [id H]. exists (id, s). split; [done|]. by apply elem_of_map_to_list.
Qed.

Lemma values_ids st : store_ok st -> ws_id <$> sub_values st = (map_to_list (subs st)).*1.
Proof.
  intros Hok. unfold sub_values. rewrite <- list_fmap_compose. apply list_fmap_ext.
  intros i [id s] Hi. apply list_elem_of_lookup_2, elem_of_map_to_list in Hi.
  by destruct (so_id _ Hok _ _ Hi).
Qed.

Lemma values_ids_NoDup st : store_ok st -> NoDup (ws_id <$> sub_values st).
Proof. intros Hok. rewrite values_ids by done. apply NoDup_fst_map_to_list. Qed.

Lemma NoDup_fmap_filter {A B} (f : A -> B) (P : A -> Prop) `{!forall x, Decision (P x)} l :
  NoDup (f <$> l) -> NoDup (f <$> base.filter P l).
Proof.
  intros Hnd. eapply sublist_NoDup; [exact Hnd|]. apply fmap_sublist, sublist_filter.
Qed.

Lemma lapsed_ids_NoDup st now : store_ok st -> NoDup (lapsed_ids st now).
Proof. intros Hok. by apply NoDup_fmap_filter, values_ids_NoDup. Qed.

Lemma elem_of_lapsed_ids st now id :
  store_ok st ->
  id ∈ lapsed_ids st now <-> exists s, subs st !! id = Some s /\ is_lapsed s now = true.
Proof.
  intros Hok. unfold lapsed_ids. rewrite list_elem_of_fmap. split.
  - intros (s & -> & [Hl [id' Hs]%elem_of_values]%list_elem_of_filter).
    destruct (so_id _ Hok _ _ Hs) as [-> _]. by exists s.
  - intros (s & Hs & Hl). exists s. destruct (so_id _ Hok _ _ Hs) as [E _]. split; [done|].
    apply list_elem_of_filter. split; [done|]. apply elem_of_values. by exists id.
Qed.

Lemma expire_ids_spec st ids removed :
  NoDup ids ->
  let st' := (expire_ids st ids removed).1 in
  (forall id, subs st' !! id = if decide (id ∈ ids) then None else subs st !! id) /\
  (forall id, failures st' !! id = if decide (id ∈ ids) then None else failures st !! id) /\
  verified st' = verified st /\ max_per_principal st' = max_per_principal st /\
  (expire_ids st ids removed).2 = removed ++ omap (fun id => subs st !! id) ids.
Proof.
  revert st removed. induction ids as [|x ids IH]; intros st removed.
  { intros _. simpl. by rewrite app_nil_r. }
  intros [Hx Hnd]%NoDup_cons. simpl. destruct (subs st !! x) as [s|] eqn:Hs.
  - match goal with |- context [expire_ids ?a ids ?r] =>
      destruct (IH a r Hnd) as (H1 & H2 & H3 & H4 & H5) end.
    split_and!; [..|exact H3|exact H4|].
    + intros id. rewrite H1. simpl. destruct (decide (id = x)) as [->|Hne].
      * rewrite decide_False by done. rewrite decide_True by set_solver. by rewrite lookup_delete_eq.
      * rewrite lookup_delete_ne by done. repeat case_decide; set_solver.
    + intros id. rewrite H2. simpl. destruct (decide (id = x)) as [->|Hne].
      * rewrite decide_False by done. rewrite decide_True by set_solver. by rewrite lookup_delete_eq.
      * rewrite lookup_delete_ne by done. repeat case_decide; set_solver.
    + rewrite H5, <- (assoc_L (++)). f_equal. simpl. f_equal. apply list_omap_ext_in.
      intros id Hid. rewrite lookup_delete_ne by set_solver. done.
  - match goal with |- context [expire_ids ?a ids ?r] =>
      destruct (IH a r Hnd) as (H1 & H2 & H3 & H4 & H5) end.
    split_and!; [..|exact H3|exact H4|exact H5].
    + intros id. rewrite H1. simpl. destruct (decide (id = x)) as [->|Hne].
      * rewrite decide_False by done. by rewrite decide_True by set_solver.
      * repeat case_decide; set_solver.
    + intros id. rewrite H2. simpl. destruct (decide (id = x)) as [->|Hne].
      * rewrite decide_False by done. rewrite decide_True by set_solver. by rewrite lookup_delete_eq.
      * rewrite lookup_delete_ne by done. repeat case_decide; set_solver.
Qed.

(** ** Reachable stores *)
Lemma expire_lookup st now id :
  store_ok st ->
  subs (expire_lapsed st now).1 !! id =
    match subs st !! id with
    | Some s => if is_lapsed s now then None else Some s
    | None => None
    end.
Proof.
  intros Hok. unfold expire_lapsed.
  destruct (expire_ids_spec st _ [] (lapsed_ids_NoDup st now Hok)) as (H & _). rewrite H.
  case_decide as Hid; rewrite (elem_of_lapsed_ids st now id Hok) in Hid.
  - destruct Hid as (s & -> & ->). done.
  - destruct (subs st !! id) as [s|] eqn:Hs; [|done].
    destruct (is_lapsed s now) eqn:Hl; [|done]. exfalso. eauto.
Qed.

Lemma expire_lapsed_ok st now : store_ok st -> store_ok (expire_lapsed st now).1.
Proof.
  intros Hok. unfold expire_lapsed.
  destruct (expire_ids_spec st _ [] (lapsed_ids_NoDup st now Hok)) as (H1 & H2 & _).
  destruct Hok as [O1 O2 O3 O4]. split; intros id s; rewrite ?H1, ?H2; case_decide; try done; eauto.
Qed.

Lemma store_step_ok st o : store_ok st -> store_ok (store_step st o).
Proof.
  intros Hok. destruct o; simpl.
  - by apply upsert_ok.
  - by apply store_ok_delete.
  - by apply expire_lapsed_ok.
  - by apply mark_delivery_ok_ok.
  - by apply mark_delivery_failed_ok.
  - by apply set_verified_ok.
  - by apply reactivate_ok.
  - by apply update_cursor_ok.
Qed.

Lemma store_run_ok max ops : store_ok (store_run (store_new max) ops).
Proof.
  induction ops as [|o ops IH] using rev_ind; [by split|].
  unfold store_run. rewrite foldl_snoc. by apply store_step_ok.
Qed.

(** ** Which operations touch what *)
Lemma evolves_refl st st' : subs st' = subs st -> evolves st st'.
Proof. intros E id s. rewrite E. eauto 10. Qed.

Lemma evolves_update st id s s' f :
  subs st !! id = Some s -> ws_id s' = ws_id s -> ws_key s' = ws_key s ->
  ws_refresh_before s' = ws_refresh_before s ->
  evolves st (with_subs (with_failures st f) (<[id := s']> (subs st))).
Proof.
  intros Hs E1 E2 E3 id' s1. simpl. intros [[<- <-]|[_ H]]%lookup_insert_Some; eauto 10.
Qed.

(** Every operation but [upsert] only updates or drops records. *)
Lemma step_evolves st o :
  store_ok st -> (forall now k p x rb c, o <> OpUpsert now k p x rb c) -> evolves st (store_step st o).
Proof.
  intros Hok Ho. destruct o as [|k|now|id a|id c a n|p u|id|id c]; simpl; [by edestruct Ho|..].
  - intros id s. simpl. intros [_ H]%lookup_delete_Some. eauto 10.
  - intros id s. rewrite expire_lookup by done. intros H. repeat case_match; simplify_eq. eauto 10.
  - unfold mark_delivery_ok. simpl. destruct (subs st !! id) as [s|] eqn:Hs; [|by apply evolves_refl].
    by eapply evolves_update.
  - unfold mark_delivery_failed. destruct (subs st !! id) as [s|] eqn:Hs; [|by apply evolves_refl].
    by eapply evolves_update.
  - intros id s. simpl. rewrite lookup_fmap, fmap_Some. intros (s0 & Hs & ->). exists s0.
    unfold verify_sub. by case_match.
  - unfold reactivate. simpl. destruct (subs st !! id) as [s|] eqn:Hs; [|by apply evolves_refl].
    by eapply evolves_update.
  - unfold update_cursor. destruct (subs st !! id) as [s|] eqn:Hs; [|by apply evolves_refl].
    pose proof (evolves_update st id s (set_cursor s c) (failures st) Hs) as H. by apply H.
Qed.

Lemma step_max st o : store_ok st -> max_per_principal (store_step st o) = max_per_principal st.
Proof.
  intros Hok. destruct o; simpl.
  - unfold upsert, upsert_create. by repeat case_match.
  - done.
  - unfold expire_lapsed.
    by destruct (expire_ids_spec st _ [] (lapsed_ids_NoDup st now Hok)) as (_ & _ & _ & H & _).
  - unfold mark_delivery_ok. by case_match.
  - unfold mark_delivery_failed. by case_match.
  - done.
  - unfold reactivate. by case_match.
  - unfold update_cursor. by case_match.
Qed.

Lemma store_run_max max ops : max_per_principal (store_run (store_new max) ops) = max.
Proof.
  induction ops as [|o ops IH] using rev_ind; [done|].
  unfold store_run. rewrite foldl_snoc. rewrite step_max; [exact IH|]. apply store_run_ok.
Qed.

(** ** The quota *)

(** A live subscription of a principal. *)
Definition live_of (p : string) (t : Z) (s : WebhookSub) : bool :=
  bool_decide (principal (ws_key s) = p) && negb (is_lapsed s t).

Definition live_count (st : Store) (p : string) (t : Z) : Z :=
  Z.of_nat (length (base.filter (fun s => live_of p t s = true) (sub_values st))).

(** Upserts read the clock in order. *)
Fixpoint clock_ok (t : Z) (ops : list StoreOp) : Prop :=
  match ops with
  | [] => True
  | OpUpsert now _ _ _ _ _ :: ops' => t <= now /\ clock_ok now ops'
  | _ :: ops' => clock_ok t ops'
  end.

Fixpoint clock_end (t : Z) (ops : list StoreOp) : Z :=
  match ops with
  | [] => t
  | OpUpsert now _ _ _ _ _ :: ops' => clock_end now ops'
  | _ :: ops' => clock_end t ops'
  end.

(** Counting records by their ids: if each record counted in [st'] is one of
    [extra] or was counted in [st], the counts compare. *)
Lemma count_bound st st' (P Q : WebhookSub -> bool) extra :
  store_ok st -> store_ok st' ->
  (forall id s', subs st' !! id = Some s' -> P s' = true ->
     id ∈ extra \/ exists s, subs st !! id = Some s /\ Q s = true) ->
  (length (base.filter (fun s => P s = true) (sub_values st')) <=
   length extra + length (base.filter (fun s => Q s = true) (sub_values st)))%nat.
Proof.
  intros Hok Hok' H.
  rewrite <- (length_fmap ws_id (base.filter (fun s => P s = true) _)).
  rewrite <- (length_fmap ws_id (base.filter (fun s => Q s = true) _)), <- length_app.
  apply submseteq_length, NoDup_submseteq; [by apply NoDup_fmap_filter, values_ids_NoDup|].
  intros id (s' & -> & [HP [id' Hs']%elem_of_values]%list_elem_of_filter)%list_elem_of_fmap.
  destruct (so_id _ Hok' _ _ Hs') as [-> _]. apply elem_of_app.
  destruct (H _ _ Hs' HP) as [?|(s & Hs & HQ)]; [by left|right].
  apply list_elem_of_fmap. exists s. destruct (so_id _ Hok _ _ Hs) as [-> _]. split; [done|].
  apply list_elem_of_filter. split; [done|]. apply elem_of_values. eauto.
Qed.

Lemma is_lapsed_mono s t t' : t <= t' -> is_lapsed s t = true -> is_lapsed s t' = true.
Proof. unfold is_lapsed. destruct (ws_refresh_before s); [|done]. rewrite !Z.leb_le. lia. Qed.

Lemma live_of_mono p t t' s : t <= t' -> live_of p t' s = true -> live_of p t s = true.
Proof.
  unfold live_of. intros Ht [Hp Hl]%andb_true_iff. rewrite Hp. simpl. bsimp. apply negb_true_iff.
  destruct (is_lapsed s t) eqn:E; [|done]. apply (is_lapsed_mono _ _ _ Ht) in E. congruence.
Qed.

Lemma live_count_mono st p t t' :
  store_ok st -> t <= t' -> live_count st p t' <= live_count st p t.
Proof.
  intros Hok Ht. apply inj_le. apply (count_bound st st _ _ [] Hok Hok).
  intros id s Hs Hl. right. exists s. split; [done|]. by eapply live_of_mono.
Qed.

Lemma live_of_evolves s s' p t :
  ws_key s' = ws_key s -> ws_refresh_before s' = ws_refresh_before s ->
  live_of p t s' = live_of p t s.
Proof. intros E1 E2. unfold live_of, is_lapsed. by rewrite E1, E2. Qed.

Lemma quota_evolves st st' p t :
  store_ok st -> store_ok st' -> evolves st st' -> live_count st' p t <= live_count st p t.
Proof.
  intros Hok Hok' H. apply inj_le. apply (count_bound st st' _ _ [] Hok Hok').
  intros id s' Hs' Hl. right. destruct (H _ _ Hs') as (s & Hs & _ & Hk & Hr). exists s.
  split; [done|]. by rewrite <- (live_of_evolves _ _ _ _ Hk Hr).
Qed.

(** A record that is created leaves its principal within the quota at the time
    of the check, whatever the store held. *)
Lemma quota_created st now k params secret rb c s :
  store_ok st -> (upsert_create st now k params secret rb c).2 = Ok s ->
  live_count (upsert_create st now k params secret rb c).1 (principal k) now <= max_per_principal st.
Proof.
  intros Hok. unfold upsert_create. destruct (_ <=? _) eqn:Hin; [done|]. bsimp. intros _. cbn [fst].
  match goal with |- live_count ?x _ _ <= _ => set (st' := x) end.
  assert (store_ok st') as Hok' by by apply store_ok_put.
  etrans; [|apply Z.le_succ_l, Hin]. unfold in_use, live_count. rewrite <- Nat2Z.inj_succ.
  apply inj_le. apply (count_bound st st' _ _ [derive_sub_id k] Hok Hok').
  intros id x. simpl. intros [[<- <-]|[Hne Hs]]%lookup_insert_Some Hl; [left; by left|].
  right. exists x. split; [done|]. unfold live_of in Hl. apply andb_true_iff in Hl as [H1 H2].
  unfold counts. rewrite H1, H2, andb_true_r. simpl. apply negb_true_iff, bool_decide_eq_false.
  destruct (so_id _ Hok _ _ Hs) as [-> _]. congruence.
Qed.

Lemma quota_create st now k params secret rb c p :
  store_ok st -> live_count st p now <= max_per_principal st ->
  live_count (upsert_create st now k params secret rb c).1 p now <= max_per_principal st.
Proof.
  intros Hok Hq. pose proof (fun s => quota_created st now k params secret rb c s Hok) as Hc.
  unfold upsert_create in *. destruct (_ <=? _) eqn:Hin; [done|]. bsimp. cbn [fst snd] in *.
  destruct (decide (p = principal k)) as [->|Hp]; [by eapply Hc|].
  match goal with |- live_count ?x _ _ <= _ => set (st' := x) end.
  assert (store_ok st') as Hok' by by apply store_ok_put.
  etrans; [|exact Hq]. apply inj_le. apply (count_bound st st' _ _ [] Hok Hok').
  intros id s. simpl. intros [[<- <-]|[Hne Hs]]%lookup_insert_Some Hl; [|eauto].
  unfold live_of in Hl. simpl in Hl. by rewrite bool_decide_eq_false_2 in Hl by congruence.
Qed.

Lemma quota_upsert st now k params secret rb c p :
  store_ok st -> live_count st p now <= max_per_principal st ->
  live_count (upsert st now k params secret rb c).1 p now <= max_per_principal st.
Proof.
  intros Hok Hq. pose proof (upsert_ok st now k params secret rb c Hok) as Hok'.
  unfold upsert in *. destruct (subs st !! derive_sub_id k) as [s|] eqn:Hs; [|by apply quota_create].
  destruct (negb _) eqn:Hl; [|by apply quota_create]. bsimp. cbn [fst] in *.
  etrans; [|exact Hq]. apply inj_le. apply (count_bound st _ _ _ [] Hok Hok').
  intros id s'. simpl. intros [[<- <-]|[_ ?]]%lookup_insert_Some Hl'; [|eauto].
  right. exists s. split; [done|]. unfold live_of in *. simpl in Hl'.
  apply andb_true_iff in Hl' as [-> _]. by rewrite Hl.
Qed.

Lemma op_cases o :
  (exists now k x y rb c, o = OpUpsert now k x y rb c) \/
  (forall now k x y rb c, o <> OpUpsert now k x y rb c).
Proof. destruct o; [left; eauto 10|right; discriminate..]. Qed.

Lemma quota_in_order max ops t0 p t :
  0 <= max -> clock_ok t0 ops -> clock_end t0 ops <= t ->
  live_count (store_run (store_new max) ops) p t <= max.
Proof.
  intros Hmax Hc0 He0.
  assert (forall st t0, store_ok st -> (forall q, live_count st q t0 <= max_per_principal st) ->
    clock_ok t0 ops -> clock_end t0 ops <= t -> live_count (store_run st ops) p t <= max_per_principal st)
    as H; [|apply (H (store_new max) t0); [by split|done..]].
  clear t0 Hmax Hc0 He0. induction ops as [|o ops IH]; intros st t0 Hok Hq Hc He.
  { simpl in *. etrans; [by apply live_count_mono|]. apply Hq. }
  change (store_run st (o :: ops)) with (store_run (store_step st o) ops).
  rewrite <- (step_max st o Hok). pose proof (store_step_ok st o Hok) as Hok1.
  destruct (op_cases o) as [(now & k & x & y & rb & c & ->)|Hno].
  - destruct Hc as [Hnow Hc]. apply (IH _ now); [done| |done|done].
    intros q. rewrite step_max by done. simpl. apply quota_upsert; [done|].
    etrans; [by apply live_count_mono|]. apply Hq.
  - apply (IH _ t0); [done| |by destruct o; [edestruct Hno|..]|by destruct o; [edestruct Hno|..]].
    intros q. rewrite step_max by done.
    etrans; [by apply quota_evolves, step_evolves|]. apply Hq.
Qed.

(** C16. Quota, whatever operations the store has served.  An upsert that
    creates a record leaves its principal with at most [max_per_principal]
    subscriptions that have not lapsed at the time the upsert read; one that
    the quota refuses changes nothing and finds that many others.  And as long
    as upserts take the lock in the order in which they read the clock (the
    code reads it before it takes the lock), no principal has more at any
    later time; without that order a refresh can exceed the quota
    ([quota_overtaken]). *)
Theorem quota_respected max ops :
  0 <= max ->
  let st := store_run (store_new max) ops in
  (forall now k params secret rb c,
     match (upsert st now k params secret rb c).2 with
     | Ok (Created s) =>
         s.(ws_key) = k /\ live_count (upsert st now k params secret rb c).1 (principal k) now <= max
     | Ok (Refreshed s) => exists old, subs st !! derive_sub_id k = Some old /\ is_lapsed old now = false
     | Err (QuotaExceeded m) =>
         m = max /\ (upsert st now k params secret rb c).1 = st /\ max <= live_count st (principal k) now
     end) /\
  (forall t0 p t, clock_ok t0 ops -> clock_end t0 ops <= t -> live_count st p t <= max).
Proof.
  intros Hmax st. split; [|intros t0 p t; by apply quota_in_order].
  intros now k params secret rb c. pose proof (store_run_ok max ops) as Hok. fold st in Hok.
  pose proof (store_run_max max ops) as Em. fold st in Em.
  pose proof (fun s => quota_created st now k params secret rb c s Hok) as Hc. rewrite Em in Hc.
  assert (match (upsert_create st now k params secret rb c).2 with
          | Ok (Created s) => s.(ws_key) = k /\ live_count (upsert_create st now k params secret rb c).1 (principal k) now <= max
          | Ok (Refreshed _) => False
          | Err (QuotaExceeded m) =>
              m = max /\ (upsert_create st now k params secret rb c).1 = st /\ max <= live_count st (principal k) now
          end) as Hcreate.
  { unfold upsert_create in *. destruct (_ <=? _) eqn:Hin; cbn [fst snd] in *; [|split; [done|by eapply Hc]].
    bsimp. rewrite Em in *. split_and!; [done|done|]. etrans; [exact Hin|]. unfold in_use, live_count.
    apply inj_le, (count_bound st st _ _ [] Hok Hok). intros id s Hs Hl. right. exists s. split; [done|].
    unfold counts, live_of in *. rewrite !andb_true_iff in *. tauto. }
  unfold upsert. destruct (subs st !! derive_sub_id k) as [old|] eqn:Hs; [destruct (negb _) eqn:Hl|].
  - exists old. split; [done|]. by apply negb_true_iff.
  - by destruct (upsert_create st now k params secret rb c).2 as [[|]|[]].
  - by destruct (upsert_create st now k params secret rb c).2 as [[|]|[]].
Qed.

(** ** upsert *)

(** A refresh: an upsert of a key whose record is live keeps the id, the
    watermark cursor and the delivery bookkeeping whatever cursor is supplied,
    replaces parameters, secret and grant, lifts a suspension, resets the
    failure streak, reports the state of the delivery from before, touches no
    other record and cannot fail on the quota; repeating it while it is live
    changes nothing more. *)
Theorem upsert_refresh max ops now k params secret rb c s :
  let st := store_run (store_new max) ops in
  let id := derive_sub_id k in
  subs st !! id = Some s -> is_lapsed s now = false ->
  exists s', let st' := (upsert st now k params secret rb c).1 in
    subs st' = <[id := s']> (subs st) /\
    (ws_id s', ws_key s', ws_cursor s') = (id, ws_key s, ws_cursor s) /\
    (ws_last_delivery_at s', ws_last_error s', ws_failed_since s') =
      (ws_last_delivery_at s, ws_last_error s, ws_failed_since s) /\
    (ws_params s', ws_secret s', ws_refresh_before s', ws_active s') = (params, secret, rb, true) /\
    failures st' = <[id := 0]> (failures st) /\
    (upsert st now k params secret rb c).2 = Ok (Refreshed (set_active s' (ws_active s))) /\
    (forall now' c', is_lapsed s' now' = false ->
       (upsert st' now' k params secret rb c').1 = st').
Proof.
  intros st id Hs Hl. pose proof (store_run_ok max ops) as Hok. fold st in Hok.
  unfold upsert at 1 2 3. fold id. rewrite Hs, Hl. simpl.
  eexists. split_and!; [done|simpl|done|done|done|done|].
  - by destruct (so_id _ Hok _ _ Hs) as [-> _].
  - intros now' c' Hl'. unfold upsert. simpl. fold id. rewrite lookup_insert_eq, Hl'. simpl.
    unfold with_subs, with_failures, refresh_sub. simpl. by rewrite !insert_insert_eq.
Qed.

(** A create: an upsert of a key with no live record is refused exactly
    when the principal already has [max] other live subscriptions, and then
    changes nothing; otherwise the record starts afresh at the supplied
    cursor, active, with no delivery history and no failures, and every other
    record is untouched. *)
Theorem upsert_fresh max ops now k params secret rb c :
  let st := store_run (store_new max) ops in
  let id := derive_sub_id k in
  let st' := (upsert st now k params secret rb c).1 in
  (forall s, subs st !! id = Some s -> is_lapsed s now = true) ->
  match (upsert st now k params secret rb c).2 with
  | Err (QuotaExceeded m) => m = max /\ st' = st /\ max <= live_count st (principal k) now
  | Ok (Refreshed _) => False
  | Ok (Created s) =>
      live_count st (principal k) now < max /\
      subs st' = <[id := s]> (subs st) /\ failures st' = <[id := 0]> (failures st) /\
      s = new_sub id k params secret rb c (is_verified st (principal k) (url k))
  end.
Proof.
  intros st id st' Hl. pose proof (store_run_ok max ops) as Hok. fold st in Hok.
  pose proof (store_run_max max ops) as Hm. fold st in Hm.
  assert (upsert st now k params secret rb c = upsert_create st now k params secret rb c) as E.
  { unfold upsert. fold id. destruct (subs st !! id) as [s|] eqn:Hs; [|done].
    by rewrite (Hl s eq_refl). }
  unfold st'. rewrite E. unfold upsert_create. fold id. rewrite Hm.
  assert (in_use st k id now = live_count st (principal k) now) as Hu.
  { unfold in_use, live_count. f_equal. f_equal. apply list_filter_ext_in.
    intros s [id' Hs]%elem_of_values. unfold counts, live_of. destruct (so_id _ Hok _ _ Hs) as [-> _].
    destruct (bool_decide_reflect (id' = id)) as [->|]; simpl; rewrite ?andb_true_r; [|done].
    rewrite (Hl s Hs). simpl. by rewrite !andb_false_r. }
  rewrite Hu. destruct (max <=? _) eqn:Hq; bsimp; simpl; [done|]. split_and!; [lia|done..].
Qed.

(** ** Suspension *)

(** A run of failed deliveries, each with its category and time. *)
Definition fail_run (st : Store) (id : string) (l : list (string * Z)) (n : Z) : Store :=
  foldl (fun st f => mark_delivery_failed st id f.1 f.2 n) st l.

Lemma mark_failed_lookup st id cat at_ n s k :
  subs st !! id = Some s -> failures st !! id = Some k -> 0 <= k < u32_max ->
  let st' := mark_delivery_failed st id cat at_ n in
  subs st' !! id =
    Some (failed s cat at_ (if (0 <? n) && (n <=? k + 1) && ws_active s then false else ws_active s)) /\
  failures st' !! id = Some (k + 1).
Proof.
  intros Hs Hk Hb. unfold mark_delivery_failed. rewrite Hs, Hk. simpl.
  rewrite !lookup_insert_eq, u32_add_small by lia. done.
Qed.

(** C29. Suspension: of an active subscription with no failures on record,
    after a run of consecutive failed deliveries the streak counts them,
    [failedSince] is the time of the first and [lastError] the category of the
    last, and delivery is suspended exactly when the limit is positive and
    reached.  One successful delivery clears the streak and both fields, and
    does not by itself lift a suspension. *)
Theorem suspension st id s f l n at_ok :
  subs st !! id = Some s -> failures st !! id = Some 0 ->
  ws_active s = true -> ws_failed_since s = None ->
  Z.of_nat (length (f :: l)) <= u32_max ->
  let st1 := fail_run st id (f :: l) n in
  let st2 := mark_delivery_ok st1 id at_ok in
  let active := negb ((0 <? n) && (n <=? Z.of_nat (length (f :: l)))) in
  failures st1 !! id = Some (Z.of_nat (length (f :: l))) /\
  (exists s1, subs st1 !! id = Some s1 /\ ws_active s1 = active /\
     ws_failed_since s1 = Some f.2 /\ ws_last_error s1 = fst <$> last (f :: l) /\
     (ws_id s1, ws_key s1, ws_cursor s1, ws_last_delivery_at s1) =
       (ws_id s, ws_key s, ws_cursor s, ws_last_delivery_at s)) /\
  failures st2 !! id = Some 0 /\
  (exists s2, subs st2 !! id = Some s2 /\ ws_active s2 = active /\
     ws_failed_since s2 = None /\ ws_last_error s2 = None /\ ws_last_delivery_at s2 = Some at_ok).
Proof.
  intros Hs Hf Ha Hsince Hlen st1 st2 active.
  assert (failures st1 !! id = Some (Z.of_nat (length (f :: l))) /\
    exists s1, subs st1 !! id = Some s1 /\ ws_active s1 = active /\
      ws_failed_since s1 = Some f.2 /\ ws_last_error s1 = fst <$> last (f :: l) /\
      (ws_id s1, ws_key s1, ws_cursor s1, ws_last_delivery_at s1) =
       (ws_id s, ws_key s, ws_cursor s, ws_last_delivery_at s)) as [Hk (s1 & Hs1 & Ha1 & Hr)].
  { unfold st1, active. clear st1 st2 active.
    induction l as [|g l IH] using rev_ind.
    - destruct (mark_failed_lookup st id f.1 f.2 n s 0 Hs Hf) as [H1 H2]; [unfold u32_max; lia|].
      simpl. split; [exact H2|]. eexists. split; [exact H1|]. simpl. rewrite Ha, Hsince, andb_true_r.
      by split_and!; try done; destruct (_ && _).
    - change (f :: l ++ [g]) with ((f :: l) ++ [g]) in *. rewrite length_app in *. simpl length in *.
      destruct IH as [Hk (s1 & Hs1 & Ha1 & Hsi & He & Hr)]; [lia|].
      unfold fail_run in *. rewrite foldl_snoc.
      destruct (mark_failed_lookup _ id g.1 g.2 n s1 _ Hs1 Hk) as [H1 H2]; [lia|].
      split; [rewrite H2; f_equal; lia|]. eexists. split; [exact H1|]. rewrite last_snoc. simpl. rewrite Hsi.
      split_and!; try done. rewrite Ha1.
      replace (Z.of_nat (S (length l + 1))) with (Z.of_nat (S (length l)) + 1) by lia.
      destruct (0 <? n); [|done]. simpl.
      destruct (n <=? Z.of_nat (S (length l))) eqn:E1, (n <=? Z.of_nat (S (length l)) + 1) eqn:E2;
        bsimp; simpl; done || lia. }
  split; [done|]. split; [eauto|]. unfold st2, mark_delivery_ok. simpl. rewrite Hs1. simpl.
  rewrite !lookup_insert_eq. split; [done|]. eexists. by split_and!.
Qed.

(** Sweeping: [expire_lapsed] removes exactly the subscriptions whose
    grant has lapsed, with their failure counts, returns each of them once,
    and leaves the others, and the verification cache, as they were. *)
Theorem expire_lapsed_spec max ops now :
  let st := store_run (store_new max) ops in
  let st' := (expire_lapsed st now).1 in
  (expire_lapsed st now).2 ≡ₚ base.filter (fun s => is_lapsed s now = true) (sub_values st) /\
  (forall id, subs st' !! id =
     match subs st !! id with
     | Some s => if is_lapsed s now then None else Some s
     | None => None
     end) /\
  (forall id, failures st' !! id =
     match subs st !! id with
     | Some s => if is_lapsed s now then None else failures st !! id
     | None => failures st !! id
     end) /\
  verified st' = verified st.
Proof.
  intros st st'. pose proof (store_run_ok max ops) as Hok. fold st in Hok.
  destruct (expire_ids_spec st _ [] (lapsed_ids_NoDup st now Hok)) as (_ & H2 & H3 & _ & H5).
  split_and!; [|intros id; by apply expire_lookup| |exact H3].
  - unfold expire_lapsed. rewrite H5. simpl. unfold lapsed_ids.
    assert (forall l : list WebhookSub, (forall s, s ∈ l -> s ∈ sub_values st) ->
      omap (fun id => subs st !! id) (ws_id <$> l) = l) as Hl; [|rewrite Hl; [done|]].
    + induction l as [|s l IH]; intros Hin; [done|]. csimpl.
      destruct (proj1 (elem_of_values st s) (Hin s ltac:(by left))) as [id Hs].
      destruct (so_id _ Hok _ _ Hs) as [-> _]. rewrite Hs, IH; [done|]. intros x Hx. apply Hin. by right.
    + intros s [_ ?]%list_elem_of_filter. done.
  - intros id. unfold st', expire_lapsed. rewrite H2.
    case_decide as Hid; rewrite (elem_of_lapsed_ids st now id Hok) in Hid.
    + destruct Hid as (s & -> & ->). done.
    + destruct (subs st !! id) as [s|] eqn:Hs; [|done].
      destruct (is_lapsed s now) eqn:Hl; [|done]. exfalso. eauto.
Qed.

(** ** Verification flags *)
Definition upsert_keys (ops : list StoreOp) : list SubKey :=
  omap (fun o => match o with OpUpsert _ k _ _ _ _ => Some k | _ => None end) ops.

(** No two keys in use have the same derived id. *)
Definition no_collision (keys : list SubKey) : Prop :=
  forall k1 k2, k1 ∈ keys -> k2 ∈ keys -> derive_sub_id k1 = derive_sub_id k2 -> k1 = k2.

Lemma no_collision_pair k1 k2 : derive_sub_id k1 <> derive_sub_id k2 -> no_collision [k1; k2].
Proof. intros H a b. rewrite !elem_of_cons. by intros [->|[->|[]%elem_of_nil]] [->|[->|[]%elem_of_nil]]. Qed.

Definition flags_ok (keys : list SubKey) (st : Store) : Prop :=
  forall id s, subs st !! id = Some s ->
    ws_key s ∈ keys /\ ws_verified s = is_verified st (principal (ws_key s)) (url (ws_key s)).

(** Updating a record without touching its key or flag. *)
Lemma flags_update keys st f id s s' :
  flags_ok keys st -> subs st !! id = Some s -> ws_key s' = ws_key s -> ws_verified s' = ws_verified s ->
  flags_ok keys (with_subs (with_failures st f) (<[id := s']> (subs st))).
Proof.
  intros H Hs E1 E2 id' s1. simpl. unfold is_verified. simpl.
  intros [[<- <-]|[_ ?]]%lookup_insert_Some; [rewrite E1, E2|]; eauto.
Qed.

Lemma flags_failures keys st f : flags_ok keys st -> flags_ok keys (with_failures st f).
Proof. done. Qed.

Lemma flags_upsert keys st now k params secret rb c :
  store_ok st -> no_collision keys -> k ∈ keys -> flags_ok keys st ->
  flags_ok keys (upsert st now k params secret rb c).1.
Proof.
  intros Hok Hc Hk H.
  assert (flags_ok keys (upsert_create st now k params secret rb c).1) as Hcreate.
  { unfold upsert_create. destruct (_ <=? _); [done|]. intros id s. simpl.
    intros [[<- <-]|[_ ?]]%lookup_insert_Some; [done|by apply (H id)]. }
  unfold upsert. destruct (subs st !! derive_sub_id k) as [s|] eqn:Hs; [|done].
  destruct (negb _); [|done]. intros id s'. simpl.
  intros [[<- <-]|[_ ?]]%lookup_insert_Some; [|by apply (H id)]. simpl.
  destruct (H _ _ Hs) as [Hin _]. destruct (so_id _ Hok _ _ Hs) as [_ E].
  rewrite (Hc _ _ Hin Hk E). done.
Qed.

Lemma flags_step keys st o :
  store_ok st -> no_collision keys -> (forall k, k ∈ upsert_keys [o] -> k ∈ keys) ->
  flags_ok keys st -> flags_ok keys (store_step st o).
Proof.
  intros Hok Hc Hk H. destruct o as [now k x y rb c|k|now|id a|id cat a n|p u|id|id c]; simpl.
  - apply flags_upsert; [done..| |done]. apply Hk. by left.
  - intros id s. simpl. intros [_ ?]%lookup_delete_Some. by apply (H id).
  - intros id s Hs. assert (verified (expire_lapsed st now).1 = verified st) as Ev.
    { unfold expire_lapsed.
      by destruct (expire_ids_spec st _ [] (lapsed_ids_NoDup st now Hok)) as (_ & _ & ? & _). }
    rewrite expire_lookup in Hs by done. unfold is_verified. rewrite Ev.
    repeat case_match; simplify_eq. by apply (H id).
  - unfold mark_delivery_ok. simpl. destruct (subs st !! id) as [s|] eqn:Hs; [|done].
    by eapply flags_update.
  - unfold mark_delivery_failed. destruct (subs st !! id) as [s|] eqn:Hs; [|done].
    by eapply flags_update.
  - intros id s'. simpl. rewrite lookup_fmap, fmap_Some. intros (s & Hs & ->).
    destruct (H _ _ Hs) as [Hin Hv]. unfold verify_sub, is_verified in *. simpl.
    destruct (bool_decide_reflect (principal (ws_key s) = p)), (bool_decide_reflect (url (ws_key s) = u));
      subst; simpl; (split; [done|]); rewrite ?Hv.
    + symmetry. apply bool_decide_eq_true. set_solver.
    + apply bool_decide_ext. set_solver.
    + apply bool_decide_ext. set_solver.
    + apply bool_decide_ext. set_solver.
  - unfold reactivate. simpl. destruct (subs st !! id) as [s|] eqn:Hs; [|done].
    by eapply flags_update.
  - unfold update_cursor. destruct (subs st !! id) as [s|] eqn:Hs; [|done].
    by apply (flags_update keys st (failures st) id s).
Qed.

(** C17. Well-formedness of the store and its verification flags, in every
    reachable state: records sit under the id derived from their key, each
    with a failure streak in [u32], [failedSince] and [lastError] set
    together; and, as long as the keys in use have distinct derived ids, a
    record is flagged verified exactly when its (principal, url) passed
    endpoint verification. *)
Theorem store_invariant max ops :
  let st := store_run (store_new max) ops in
  store_ok st /\ max_per_principal st = max /\
  (no_collision (upsert_keys ops) ->
   forall id s, subs st !! id = Some s ->
     ws_key s ∈ upsert_keys ops /\
     ws_verified s = is_verified st (principal (ws_key s)) (url (ws_key s))).
Proof.
  intros st. split_and!; [apply store_run_ok|apply store_run_max|].
  intros Hc. change (flags_ok (upsert_keys ops) st). unfold st.
  assert (forall k, k ∈ upsert_keys ops -> k ∈ upsert_keys ops) as Hsub by done.
  revert Hsub Hc. generalize (upsert_keys ops) at 2 3 4 as keys. intros keys Hsub Hc.
  clear st. induction ops as [|o ops IH] using rev_ind; [done|].
  unfold store_run. rewrite foldl_snoc. unfold upsert_keys in *. rewrite omap_app in Hsub.
  apply flags_step; [apply store_run_ok|done|set_solver|]. apply IH. set_solver.
Qed.

(** ** Identity *)
Lemma app_sep_inj_r sep a b s t :
  str_has sep s = false -> str_has sep t = false ->
  a +:+ String sep s = b +:+ String sep t -> a = b /\ s = t.
Proof.
  intros Hs Ht. revert b. induction a as [|x a IH]; intros [|y b]; rewrite ?app_cons.
  - intros E. rewrite !app_nil_l' in E. by injection E.
  - intros E. rewrite app_nil_l' in E. injection E as -> E. subst. exfalso.
    rewrite str_has_app, str_has_cons, bool_decide_eq_true_2 in Hs by done.
    by rewrite orb_true_r in Hs.
  - intros E. rewrite app_nil_l' in E. injection E as -> E. subst. exfalso.
    rewrite str_has_app, str_has_cons, bool_decide_eq_true_2 in Ht by done.
    by rewrite orb_true_r in Ht.
  - intros [= -> E]. by destruct (IH _ E) as [-> ->].
Qed.

Lemma app_regroup a x b t : a +:+ String x (b +:+ t) = (a +:+ String x b) +:+ t.
Proof. by rewrite app_assoc', app_cons. Qed.

(** Subscription identity: for keys whose principal, event name and
    canonical parameters have no line feed (canonical text never has one), the
    text that is hashed determines the key, whatever the url; so two keys get
    one id exactly when they are the same key, unless the 16-digit digest
    prefixes of two different texts collide. *)
Theorem sub_identity {JL : JsonLaws J} (p1 u1 n1 p2 u2 n2 : string) (v1 v2 : Value) :
  let k1 := {| principal := p1; url := u1; name := n1; params_canonical := canonical_json v1 |} in
  let k2 := {| principal := p2; url := u2; name := n2; params_canonical := canonical_json v2 |} in
  let digest k := str_take 16 (hex_encode (sha256 (id_preimage k))) in
  Forall (fun s => str_has "010" s = false) [p1; n1; p2; n2] ->
  keys_distinct v1 ->
  (id_preimage k1 = id_preimage k2 <-> k1 = k2) /\
  (k1 = k2 <-> p1 = p2 /\ u1 = u2 /\ n1 = n2 /\ json_equiv v1 v2) /\
  ((digest k1 = digest k2 -> id_preimage k1 = id_preimage k2) ->
   derive_sub_id k1 = derive_sub_id k2 <-> k1 = k2).
Proof.
  intros k1 k2 digest Hn Hv1. rewrite !Forall_cons in Hn. destruct Hn as (Hp1 & Hn1 & Hp2 & Hn2 & _).
  assert (id_preimage k1 = id_preimage k2 -> k1 = k2) as Hpre.
  { unfold id_preimage, k1, k2. simpl. intros [-> E]%app_sep_inj; [|done..].
    rewrite !app_regroup in E.
    apply app_sep_inj_r in E as [E Ec]; [|by apply canonical_json_line..].
    apply app_sep_inj_r in E as [-> ->]; [|done..]. by rewrite Ec. }
  split_and!.
  - split; [done|by intros ->].
  - unfold k1, k2. split.
    + intros [= -> -> -> E]. auto using canonical_json_inv.
    + intros (-> & -> & -> & E). by rewrite (canonical_json_equiv _ _ Hv1 E).
  - intros Hcol. split; [|by intros ->]. unfold derive_sub_id. intros E%app_inj_l. auto.
Qed.
End store.

(** ** Examples *)
Definition ex_key (p : string) : SubKey :=
  {| principal := p; url := "https://h/hook"; name := "t.changed"; params_canonical := "{}" |}.

(** Two principals, one subscription lapsing at 10 s. *)
Definition ex_store_ops : list StoreOp :=
  [OpUpsert (seconds 1) (ex_key "p1") JNull "secret" (Some (seconds 10)) (Some "7:0");
   OpSetVerified "p1" "https://h/hook";
   OpUpsert (seconds 2) (ex_key "p2") JNull "secret" None None].

Definition ex_store : Store := store_run (store_new 1) ex_store_ops.

Lemma quota_respected_witness : live_count ex_store "p1" (seconds 3) <= 1.
Proof.
  destruct (quota_respected 1 ex_store_ops ltac:(lia)) as [_ H]. apply (H (seconds 0)); vm_compute; intuition discriminate.
Defined.

(** Two requests of one principal, the quota being one: the refresh of the
    first subscription reads the clock before it lapses and takes the lock
    after the second one was created. *)
Example quota_overtaken :
  let k u := {| principal := "p1"; url := u; name := "t.changed"; params_canonical := "{}" |} in
  let st := store_run (store_new 1)
    [OpUpsert (seconds 1) (k "a") JNull "secret" (Some (seconds 15)) None;
     OpUpsert (seconds 20) (k "b") JNull "secret" (Some (seconds 100)) None;
     OpUpsert (seconds 12) (k "a") JNull "secret" (Some (seconds 50)) None] in
  live_count st "p1" (seconds 20) = 2.
Proof. vm_compute. reflexivity. Qed.

Definition ex_sub : WebhookSub :=
  {| ws_id := derive_sub_id (ex_key "p1"); ws_key := ex_key "p1"; ws_params := JNull;
     ws_secret := "secret"; ws_refresh_before := Some (seconds 10); ws_cursor := Some "7:0";
     ws_active := true; ws_last_delivery_at := None; ws_last_error := None;
     ws_failed_since := None; ws_verified := true |}.

Lemma ex_lookup : subs ex_store !! derive_sub_id (ex_key "p1") = Some ex_sub.
Proof. decide_closed. Qed.

Lemma upsert_refresh_witness :
  exists s', subs (upsert ex_store (seconds 5) (ex_key "p1") JNull "new" None (Some "7:9")).1
      = <[derive_sub_id (ex_key "p1") := s']> (subs ex_store) /\ ws_cursor s' = Some "7:0".
Proof.
  destruct (upsert_refresh 1 ex_store_ops (seconds 5) (ex_key "p1") JNull "new" None (Some "7:9")
    ex_sub ex_lookup eq_refl) as (s' & H1 & H2 & _).
  exists s'. split; [exact H1|]. by injection H2.
Defined.

Lemma upsert_fresh_witness :
  match (upsert ex_store (seconds 11) (ex_key "p1") JNull "new" None (Some "7:9")).2 with
  | Ok (Created s) => ws_cursor s = Some "7:9"
  | Ok (Refreshed _) => False
  | Err (QuotaExceeded m) => m = 1
  end.
Proof.
  pose proof (upsert_fresh 1 ex_store_ops (seconds 11) (ex_key "p1") JNull "new" None (Some "7:9")) as H.
  fold ex_store in H. cbv zeta in H.
  assert (forall s, subs ex_store !! derive_sub_id (ex_key "p1") = Some s ->
    is_lapsed s (seconds 11) = true) as Hl.
  { intros s. rewrite ex_lookup. by intros [= <-]. }
  specialize (H Hl).
  destruct ((upsert ex_store (seconds 11) (ex_key "p1") JNull "new" None (Some "7:9")).2) as [[s|s]|[m]].
  - by destruct H as (_ & _ & _ & ->).
  - done.
  - apply H.
Defined.

Lemma suspension_witness :
  let id := derive_sub_id (ex_key "p1") in
  failures (fail_run ex_store id [("timeout", 1); ("http_5xx", 2)] 2) !! id = Some 2.
Proof.
  assert (failures ex_store !! derive_sub_id (ex_key "p1") = Some 0) as Hf by decide_closed.
  apply (suspension ex_store _ ex_sub ("timeout", 1) [("http_5xx", 2)] 2 0 ex_lookup Hf); try done.
Defined.

Lemma expire_lapsed_spec_witness :
  subs (expire_lapsed ex_store (seconds 10)).1 !! derive_sub_id (ex_key "p1") = None.
Proof.
  destruct (expire_lapsed_spec 1 ex_store_ops (seconds 10)) as (_ & H & _).
  rewrite H. fold ex_store. by rewrite ex_lookup.
Defined.

Lemma store_invariant_witness : no_collision (upsert_keys ex_store_ops) /\ store_ok ex_store.
Proof.
  assert (no_collision (upsert_keys ex_store_ops)) as Hc.
  { intros k1 k2 H1 H2. cbn in H1, H2. set_unfold in H1. set_unfold in H2.
    destruct H1 as [->|[->|[]]], H2 as [->|[->|[]]]; intros E; first [done | by vm_compute in E]. }
  split; [exact Hc|]. apply (store_invariant 1 ex_store_ops).
Defined.

Lemma sub_identity_witness :
  id_preimage (ex_key "p1") <> id_preimage (ex_key "p2").
Proof.
  intros E. destruct (sub_identity "p1" "https://h/hook" "t.changed" "p2" "https://h/hook" "t.changed"
    (JObject []) (JObject [])) as [[H _] _].
  - by repeat constructor.
  - by repeat constructor.
  - apply H in E. discriminate E.
Defined.

(** A delivery result recorded after its subscription was removed leaves a
    failure count behind that nothing removes: counts are only dropped with
    the record of their id. *)
Example failures_leak :
  let id := derive_sub_id (ex_key "p1") in
  let st := mark_delivery_ok (remove ex_store (ex_key "p1")).1 id (seconds 3) in
  subs st !! id = None /\ failures st !! id = Some 0.
Proof. split; decide_closed. Qed.
