(* ===== verification/Signing.v ===== *)
(** * Standard Webhooks secrets and signatures
    (crates/mcp-events-wire/src/webhook.rs,
    crates/mcp-events-server/src/webhook/signer.rs).

    HMAC-SHA256, base64 and the uuid of a control message id are parameters;
    the constant-time comparison is equality. *)
From S2P Require Import Prelude RustStd Lib Json Wire.

Definition WHSEC_PREFIX : string := "whsec_".
Definition WHSEC_MIN_BYTES : Z := 24.
Definition WHSEC_MAX_BYTES : Z := 64.
Definition SIGNATURE_VERSION_PREFIX : string := "v1,".

Inductive WhsecError : Type :=
| MissingPrefix
| InvalidBase64 (message : string)
| BadLength (n : Z).

#[export] Instance WhsecError_eq_dec : EqDecision WhsecError.
Proof. solve_decision. Defined.

(** [Display] of the error. *)
Definition whsec_error_text (e : WhsecError) : string :=
  match e with
  | MissingPrefix => "secret must start with " +:+ String "034" "whsec_" +:+ String "034" ""
  | InvalidBase64 m => "secret is not valid base64: " +:+ m
  | BadLength n => "decoded secret must be 24..=64 bytes, got " +:+ u64_to_string n
  end.

Definition byte_len (s : string) : Z := Z.of_nat (String.length s).

Section signing.
Context {Y : Crypto}.

Definition parse_whsec (s : string) : result WhsecError string :=
  match strip_prefix WHSEC_PREFIX s with
  | None => Err MissingPrefix
  | Some b64 =>
      match base64_decode b64 with
      | None => Err (InvalidBase64 (base64_error b64))
      | Some bytes =>
          if negb ((WHSEC_MIN_BYTES <=? byte_len bytes) && (byte_len bytes <=? WHSEC_MAX_BYTES))
          then Err (BadLength (byte_len bytes))
          else Ok bytes
      end
  end.

(** The text the updates of [mac] add up to. *)
Definition signed_content (msg_id : string) (timestamp_secs : Z) (body : string) : string :=
  msg_id +:+ "." +:+ i64_to_string timestamp_secs +:+ "." +:+ body.

Definition hmac_tag (secret msg_id : string) (timestamp_secs : Z) (body : string) : string :=
  hmac_sha256 secret (signed_content msg_id timestamp_secs body).

Definition sign_standard_webhooks (secret msg_id : string) (timestamp_secs : Z) (body : string) : string :=
  SIGNATURE_VERSION_PREFIX +:+ base64_encode (hmac_tag secret msg_id timestamp_secs body).

(** One pass of the loop: both [continue]s leave [ok] as it is. *)
Definition verify_token (expected : string) (ok : bool) (token : string) : bool :=
  match strip_prefix SIGNATURE_VERSION_PREFIX token with
  | None => ok
  | Some b64 =>
      match base64_decode b64 with
      | None => ok
      | Some candidate => ok || bool_decide (candidate = expected)
      end
  end.

Definition verify_standard_webhooks (secret msg_id : string) (timestamp_secs : Z)
    (body signature_header : string) : bool :=
  let expected := hmac_tag secret msg_id timestamp_secs body in
  foldl (verify_token expected) false (split_whitespace signature_header).

(** signer.rs; [uuid] is [Uuid::new_v4().simple()]. *)
Definition control_msg_id (kind uuid : string) : string := "msg_" +:+ kind +:+ "_" +:+ uuid.

Record SignedPost := {
  po_url : string;
  po_headers : list (string * string);
  po_body : string
}.

(** [now_secs] is [Utc::now().timestamp()]. *)
Definition signed_post (now_secs : Z) (url sub_id msg_id secret body : string) : SignedPost :=
  let signature := sign_standard_webhooks secret msg_id now_secs body in
  {| po_url := url;
     po_headers :=
       [("content-type", "application/json");
        (consts.HEADER_WEBHOOK_ID, msg_id);
        (consts.HEADER_WEBHOOK_TIMESTAMP, i64_to_string now_secs);
        (consts.HEADER_WEBHOOK_SIGNATURE, signature);
        (consts.HEADER_MCP_SUBSCRIPTION_ID, sub_id)];
     po_body := body |}.

Fixpoint header_of (k : string) (l : list (string * string)) : option string :=
  match l with
  | [] => None
  | (k', v) :: l' => if bool_decide (k = k') then Some v else header_of k l'
  end.

(** ** Lemmas *)

(** A candidate of a signature header. *)
Definition candidate (token tag : string) : Prop :=
  exists b64, token = SIGNATURE_VERSION_PREFIX +:+ b64 /\ base64_decode b64 = Some tag.

Lemma verify_fold expected ok tokens :
  foldl (verify_token expected) ok tokens = true <->
  ok = true \/ exists token, token ∈ tokens /\ candidate token expected.
Proof.
  revert ok. induction tokens as [|t tokens IH]; intros ok; simpl.
  - split; [by left|]. intros [?|(t & H & _)]; [done|by apply elem_of_nil in H].
  - rewrite IH. unfold verify_token. setoid_rewrite elem_of_cons.
    destruct (strip_prefix SIGNATURE_VERSION_PREFIX t) as [b|] eqn:Ep.
    + apply strip_prefix_Some in Ep. destruct (base64_decode b) as [tag|] eqn:Ed.
      * rewrite orb_true_iff, bool_decide_eq_true. split.
        -- intros [[?| ->]|(t' & ? & ?)]; [by left| |]; right; [|by eauto].
           exists t. split; [by left|]. by exists b.
        -- intros [?|(t' & [->|?] & Hc)]; [by left; left| |]; [|by right; eauto].
           destruct Hc as (b' & Hb & Hd). rewrite Hb in Ep. apply app_inj_l in Ep as ->.
           left. right. congruence.
      * split; [intros [?|(t' & ? & ?)]; [by left|right; eauto]|].
        intros [?|(t' & [->|?] & Hc)]; [by left| |]; [|by right; eauto].
        destruct Hc as (b' & Hb & Hd). rewrite Hb in Ep. apply app_inj_l in Ep as ->. congruence.
    + split; [intros [?|(t' & ? & ?)]; [by left|right; eauto]|].
      intros [?|(t' & [->|?] & Hc)]; [by left| |]; [|by right; eauto].
      destruct Hc as (b' & Hb & Hd). rewrite Hb, strip_prefix_app in Ep. done.
Qed.

(** ASCII text without white space is one token. *)
Definition plain (c : ascii) : bool := negb (ws1 c) && (N_of_ascii c <? 128)%N.

Lemma plain_ws c : plain c = true ->
  ws1 c = false /\ (forall b, ws2 c b = false) /\ (forall b d, ws3 c b d = false).
Proof.
  unfold plain. intros [Hw Hc]%andb_true_iff. apply negb_true_iff in Hw. apply N.ltb_lt in Hc.
  unfold ws2, ws3. split; [done|].
  assert (forall n, (128 <= n)%N -> (N_of_ascii c =? n)%N = false) as H.
  { intros n ?. apply N.eqb_neq. lia. }
  split; intros; rewrite !H by lia; done.
Qed.

Lemma split_ws_plain cur t s :
  str_forall plain t = true -> split_ws_aux cur (t +:+ s) = split_ws_aux (cur +:+ t) s.
Proof.
  revert cur. induction t as [|c t IH]; intros cur; simpl; [by rewrite app_nil_r'|].
  intros [Hc Ht]%andb_true_iff. apply plain_ws in Hc as (H1 & H2 & H3).
  transitivity (split_ws_aux (cur +:+ String c "") (t +:+ s)).
  - rewrite H1. destruct (t +:+ s) as [|b [|d r]]; [done|by rewrite H2|].
    by rewrite H2, H3.
  - rewrite IH by done. by rewrite app_assoc'.
Qed.

(** Tokens joined with spaces are read back. *)
Lemma split_ws_join tokens :
  Forall (fun t => str_forall plain t = true /\ t <> "") tokens ->
  split_whitespace (str_join " " tokens) = tokens.
Proof.
  unfold split_whitespace. induction 1 as [|t tokens [Ht Hne] Hts IH]; [done|].
  destruct tokens as [|u tokens].
  - simpl. rewrite <- (app_nil_r' t) at 1. rewrite split_ws_plain by done. by destruct t.
  - change (str_join " " (t :: u :: tokens)) with (t +:+ String " " (str_join " " (u :: tokens))).
    rewrite split_ws_plain by done. rewrite app_nil_l'. cbn [split_ws_aux ws1]. simpl (ws1 " ").
    cbn iota. rewrite IH. by destruct t.
Qed.

Context {YL : CryptoLaws Y}.

Lemma signature_plain secret msg_id ts body :
  str_forall plain (sign_standard_webhooks secret msg_id ts body) = true.
Proof.
  unfold sign_standard_webhooks, SIGNATURE_VERSION_PREFIX. rewrite str_forall_app. simpl.
  eapply str_forall_impl; [|apply base64_visible]. intros c [Hl Hu]%andb_true_iff.
  apply N.ltb_lt in Hl, Hu. unfold plain, ws1. rewrite (proj2 (N.ltb_lt _ 128)) by lia.
  rewrite andb_true_r, negb_true_iff. repeat rewrite orb_false_iff.
  repeat first [split | apply andb_false_iff; right; apply N.leb_gt; lia | apply N.eqb_neq; lia].
Qed.

Lemma verify_signature_list secret msg_id ts body secrets :
  verify_standard_webhooks secret msg_id ts body
     (str_join " " ((fun k => sign_standard_webhooks k msg_id ts body) <$> secrets)) = true <->
  exists k, k ∈ secrets /\ hmac_tag k msg_id ts body = hmac_tag secret msg_id ts body.
Proof.
  unfold verify_standard_webhooks. rewrite split_ws_join.
  - rewrite verify_fold. split.
    + intros [?|(t & (k & -> & Hk)%list_elem_of_fmap & (b & Hb & Hd))]; [done|].
      exists k. split; [done|]. apply app_inj_l in Hb as <-. rewrite base64_roundtrip in Hd. congruence.
    + intros (k & Hk & E). right. exists (sign_standard_webhooks k msg_id ts body).
      split; [apply list_elem_of_fmap; eauto|]. eexists. split; [done|].
      by rewrite base64_roundtrip, E.
  - apply Forall_fmap, Forall_forall. intros k _. split; [apply signature_plain|done].
Qed.

(** C28. Signatures: what [sign] produces [verify] accepts, alone or among the
    space-separated signatures of other secrets (rotation); and [verify]
    accepts a header exactly when one of its white-space separated entries is
    a [v1] entry whose base64 decodes to the HMAC of this very message id,
    timestamp and body under this secret. *)
Theorem signature_verifies secret msg_id ts body header secrets :
  (verify_standard_webhooks secret msg_id ts body header = true <->
     exists token, token ∈ split_whitespace header /\
       candidate token (hmac_tag secret msg_id ts body)) /\
  (verify_standard_webhooks secret msg_id ts body
     (str_join " " ((fun k => sign_standard_webhooks k msg_id ts body) <$> secrets)) = true <->
   exists k, k ∈ secrets /\ hmac_tag k msg_id ts body = hmac_tag secret msg_id ts body).
Proof.
  split; [|apply verify_signature_list]. unfold verify_standard_webhooks.
  rewrite verify_fold. split; [intros [?|?]; done|by right].
Qed.

(** A delivery verifies at its receiver: reading the message id, the
    timestamp and the signature from the headers of a signed POST, and its
    body as sent, [verify] accepts under the same secret, and under another
    secret exactly when the two HMACs agree. *)
Theorem signed_post_verifies now_secs url sub_id msg_id secret body :
  i64_min <= now_secs <= i64_max ->
  let p := signed_post now_secs url sub_id msg_id secret body in
  exists id ts_text ts sig,
    header_of consts.HEADER_WEBHOOK_ID (po_headers p) = Some id /\
    header_of consts.HEADER_WEBHOOK_TIMESTAMP (po_headers p) = Some ts_text /\
    i64_from_str ts_text = Some ts /\
    header_of consts.HEADER_WEBHOOK_SIGNATURE (po_headers p) = Some sig /\
    verify_standard_webhooks secret id ts (po_body p) sig = true /\
    (forall other, verify_standard_webhooks other id ts (po_body p) sig = true <->
       hmac_tag secret msg_id now_secs body = hmac_tag other msg_id now_secs body).
Proof.
  intros Hnow p. exists msg_id, (i64_to_string now_secs), now_secs,
    (sign_standard_webhooks secret msg_id now_secs body).
  assert (forall other, verify_standard_webhooks other msg_id now_secs body
      (sign_standard_webhooks secret msg_id now_secs body) = true <->
    hmac_tag secret msg_id now_secs body = hmac_tag other msg_id now_secs body) as H.
  { intros other. rewrite verify_signature_list with (secrets := [secret]).
    split; [intros (k & ->%list_elem_of_singleton & E); done|].
    intros E. exists secret. split; [by apply list_elem_of_singleton|done]. }
  split_and!; try done; [by apply i64_from_to_string|by apply H].
Qed.

(** Secrets: [parse_whsec] accepts exactly the texts [whsec_] followed by
    a base64 encoding of 24 to 64 bytes, and returns those bytes; it tells a
    missing prefix, bad base64 and a bad length apart. *)
Theorem parse_whsec_spec s :
  (forall bytes, parse_whsec s = Ok bytes <->
     (exists b64, s = WHSEC_PREFIX +:+ b64 /\ base64_decode b64 = Some bytes) /\
     24 <= byte_len bytes <= 64) /\
  (parse_whsec s = Err MissingPrefix <-> starts_with WHSEC_PREFIX s = false) /\
  (forall bytes, 24 <= byte_len bytes <= 64 ->
     parse_whsec (WHSEC_PREFIX +:+ base64_encode bytes) = Ok bytes).
Proof.
  assert (forall t bytes, parse_whsec t = Ok bytes <->
     (exists b64, t = WHSEC_PREFIX +:+ b64 /\ base64_decode b64 = Some bytes) /\
     24 <= byte_len bytes <= 64) as H.
  { intros t bytes. unfold parse_whsec, WHSEC_MIN_BYTES, WHSEC_MAX_BYTES. split.
    - destruct (strip_prefix _ t) as [b|] eqn:Ep; [|done]. apply strip_prefix_Some in Ep as ->.
      destruct (base64_decode b) as [x|] eqn:Ed; [|done].
      destruct (negb _) eqn:El; [done|]. intros [= <-]. bsimp. split; [eauto|lia].
    - intros [(b & -> & Hd) Hl]. rewrite strip_prefix_app, Hd.
      by rewrite (proj2 (Z.leb_le _ _)), (proj2 (Z.leb_le _ _)) by lia. }
  split_and!; [apply H| |].
  - unfold parse_whsec, starts_with. rewrite bool_decide_eq_false, <- eq_None_not_Some.
    destruct (strip_prefix _ s); [|done]. repeat case_match; done.
  - intros bytes Hl. apply H. split; [|done]. eexists. split; [done|]. apply base64_roundtrip.
Qed.

End signing.

Lemma parse_whsec_spec_witness :
  parse_whsec (WHSEC_PREFIX +:+ base64_encode "abcdefghijklmnopqrstuvwx") = Ok "abcdefghijklmnopqrstuvwx".
Proof. apply (parse_whsec_spec ""). vm_compute. split; discriminate. Defined.

Lemma signed_post_verifies_witness :
  let p := signed_post 1700000000 "https://h/x" "sub_1" "evt-1" "key" "{}" in
  exists sig, header_of consts.HEADER_WEBHOOK_SIGNATURE (po_headers p) = Some sig /\
    verify_standard_webhooks "key" "evt-1" 1700000000 "{}" sig = true.
Proof.
  destruct (signed_post_verifies 1700000000 "https://h/x" "sub_1" "evt-1" "key" "{}")
    as (id & tt & ts & sig & H1 & H2 & H3 & H4 & H5 & _); [unfold i64_min, i64_max; lia|].
  exists sig. split; [exact H4|]. injection H1 as <-. injection H2 as <-.
  vm_compute in H3. injection H3 as <-. exact H5.
Defined.

Lemma signature_verifies_witness :
  let sign k := sign_standard_webhooks k "msg_1" 1700000000 "{}" in
  verify_standard_webhooks "new" "msg_1" 1700000000 "{}" (str_join " " [sign "old"; sign "new"]) = true.
Proof.
  apply (signature_verifies "new" "msg_1" 1700000000 "{}" "" ["old"; "new"]).
  exists "new". split; [right; left|reflexivity].
Defined.
