(* ===== verification/Ssrf.v ===== *)
(** * SSRF hardening of webhook egress
    (crates/mcp-events-server/src/webhook/ssrf.rs).

    Addresses are their octets and segments; the [Ipv4Addr]/[Ipv6Addr]
    predicates of the standard library are modelled by their documentation.
    The parsed URL's host and port, name resolution and the building of a
    client are inputs.  What matters of a client is where it connects:
    the shared client resolves the host itself, a pinned one connects to the
    address it was built with. *)
From S2P Require Import Prelude RustStd Store.

Record Ipv4Addr := { oct0 : Z; oct1 : Z; oct2 : Z; oct3 : Z }.

Record Ipv6Addr := {
  seg0 : Z; seg1 : Z; seg2 : Z; seg3 : Z; seg4 : Z; seg5 : Z; seg6 : Z; seg7 : Z
}.

Inductive IpAddr : Type := V4 (ip : Ipv4Addr) | V6 (ip : Ipv6Addr).

#[export] Instance Ipv4Addr_eq_dec : EqDecision Ipv4Addr.
Proof. solve_decision. Defined.
#[export] Instance Ipv6Addr_eq_dec : EqDecision Ipv6Addr.
Proof. solve_decision. Defined.
#[export] Instance IpAddr_eq_dec : EqDecision IpAddr.
Proof. solve_decision. Defined.

(** ** std::net *)
Definition is_unspecified (ip : Ipv4Addr) : bool :=
  (oct0 ip =? 0) && (oct1 ip =? 0) && (oct2 ip =? 0) && (oct3 ip =? 0).
Definition is_loopback (ip : Ipv4Addr) : bool := oct0 ip =? 127.
Definition is_private (ip : Ipv4Addr) : bool :=
  (oct0 ip =? 10) || ((oct0 ip =? 172) && (16 <=? oct1 ip) && (oct1 ip <=? 31))
  || ((oct0 ip =? 192) && (oct1 ip =? 168)).
Definition is_link_local (ip : Ipv4Addr) : bool := (oct0 ip =? 169) && (oct1 ip =? 254).
Definition is_broadcast (ip : Ipv4Addr) : bool :=
  (oct0 ip =? 255) && (oct1 ip =? 255) && (oct2 ip =? 255) && (oct3 ip =? 255).
Definition is_multicast (ip : Ipv4Addr) : bool := (224 <=? oct0 ip) && (oct0 ip <=? 239).
Definition is_documentation (ip : Ipv4Addr) : bool :=
  ((oct0 ip =? 192) && (oct1 ip =? 0) && (oct2 ip =? 2))
  || ((oct0 ip =? 198) && (oct1 ip =? 51) && (oct2 ip =? 100))
  || ((oct0 ip =? 203) && (oct1 ip =? 0) && (oct2 ip =? 113)).

Definition is_unspecified6 (ip : Ipv6Addr) : bool :=
  bool_decide (ip = Build_Ipv6Addr 0 0 0 0 0 0 0 0).
Definition is_loopback6 (ip : Ipv6Addr) : bool :=
  bool_decide (ip = Build_Ipv6Addr 0 0 0 0 0 0 0 1).
Definition is_multicast6 (ip : Ipv6Addr) : bool := Z.land (seg0 ip) 0xff00 =? 0xff00.

(** [to_ipv4_mapped]: ::ffff:a.b.c.d. *)
Definition to_ipv4_mapped (ip : Ipv6Addr) : option Ipv4Addr :=
  if (seg0 ip =? 0) && (seg1 ip =? 0) && (seg2 ip =? 0) && (seg3 ip =? 0) && (seg4 ip =? 0)
     && (seg5 ip =? 0xffff)
  then Some {| oct0 := seg6 ip / 256; oct1 := seg6 ip mod 256;
               oct2 := seg7 ip / 256; oct3 := seg7 ip mod 256 |}
  else None.

(** ** The classification *)
Definition ipv4_is_global (ip : Ipv4Addr) : bool :=
  negb (is_unspecified ip
        || (oct0 ip =? 0)
        || is_loopback ip
        || is_private ip
        || is_link_local ip
        || is_broadcast ip
        || is_multicast ip
        || is_documentation ip
        || ((oct0 ip =? 100) && (Z.land (oct1 ip) 0xc0 =? 64))
        || ((oct0 ip =? 192) && (oct1 ip =? 0) && (oct2 ip =? 0))
        || ((oct0 ip =? 198) && (Z.land (oct1 ip) 0xfe =? 18))
        || (240 <=? oct0 ip)).

Definition ipv6_is_global (ip : Ipv6Addr) : bool :=
  match to_ipv4_mapped ip with
  | Some v4 => ipv4_is_global v4
  | None =>
      negb (is_unspecified6 ip
            || is_loopback6 ip
            || is_multicast6 ip
            || (Z.land (seg0 ip) 0xfe00 =? 0xfc00)
            || (Z.land (seg0 ip) 0xffc0 =? 0xfe80)
            || ((seg0 ip =? 0x2001) && (seg1 ip =? 0xdb8)))
  end.

Definition ip_is_global (ip : IpAddr) : bool :=
  match ip with V4 v4 => ipv4_is_global v4 | V6 v6 => ipv6_is_global v6 end.

(** ** client_for *)
Inductive Host : Type := HostIpv4 (ip : Ipv4Addr) | HostIpv6 (ip : Ipv6Addr) | HostDomain (d : string).

Inductive SsrfError : Type :=
| NotGlobal (ip : IpAddr)
| NoAddress
| Resolve
| BadUrl
| ClientErr.

(** [SsrfError::category]. *)
Definition ssrf_category (e : SsrfError) : string := error_category.CONNECTION_REFUSED.

Record SocketAddr := { sa_ip : IpAddr; sa_port : Z }.

Inductive HttpClient : Type :=
| SharedClient
| PinnedClient (domain : string) (a : SocketAddr).

(** [lookup] is [lookup_host((domain, port))], [builds] whether the builder
    succeeds. *)
Definition client_for (allow_insecure : bool) (port : option Z) (host : option Host)
    (lookup : string -> Z -> option (list SocketAddr)) (builds : bool) : result SsrfError HttpClient :=
  if allow_insecure then Ok SharedClient
  else
    match port with
    | None => Err BadUrl
    | Some port =>
        match host with
        | None => Err BadUrl
        | Some (HostIpv4 ip) => if ipv4_is_global ip then Ok SharedClient else Err (NotGlobal (V4 ip))
        | Some (HostIpv6 ip) => if ipv6_is_global ip then Ok SharedClient else Err (NotGlobal (V6 ip))
        | Some (HostDomain domain) =>
            match lookup domain port with
            | None => Err Resolve
            | Some [] => Err NoAddress
            | Some ((a0 :: _) as addrs) =>
                match list_find (fun a => ip_is_global (sa_ip a) = true) addrs with
                | None => Err (NotGlobal (sa_ip a0))
                | Some (_, pinned) => if builds then Ok (PinnedClient domain pinned) else Err ClientErr
                end
            end
        end
    end.

(** ** classify_send_error: a reqwest error and its source chain *)
Inductive IoKind : Type := ConnectionRefused | TimedOut | OtherKind.

Record ErrSource := { es_io : option IoKind; es_text : string }.

Fixpoint classify_sources (l : list ErrSource) : string :=
  match l with
  | [] => error_category.CONNECTION_REFUSED
  | s :: l' =>
      let scan :=
        let text := to_ascii_lowercase (es_text s) in
        if str_contains "tls" text || str_contains "certificate" text || str_contains "handshake" text
        then error_category.TLS_ERROR
        else classify_sources l' in
      match es_io s with
      | Some ConnectionRefused => error_category.CONNECTION_REFUSED
      | Some TimedOut => error_category.TIMEOUT
      | _ => scan
      end
  end.

Definition classify_send_error (is_timeout : bool) (sources : list ErrSource) : string :=
  if is_timeout then error_category.TIMEOUT else classify_sources sources.

(** ** The address blocks *)
Definition octet (z : Z) : Prop := 0 <= z < 256.
Definition segment (z : Z) : Prop := 0 <= z < 65536.

Definition v4_wf (ip : Ipv4Addr) : Prop := octet (oct0 ip) /\ octet (oct1 ip) /\ octet (oct2 ip) /\ octet (oct3 ip).
Definition v6_wf (ip : Ipv6Addr) : Prop :=
  segment (seg0 ip) /\ segment (seg1 ip) /\ segment (seg2 ip) /\ segment (seg3 ip) /\
  segment (seg4 ip) /\ segment (seg5 ip) /\ segment (seg6 ip) /\ segment (seg7 ip).

Definition v4_num (ip : Ipv4Addr) : Z :=
  oct0 ip * 2 ^ 24 + oct1 ip * 2 ^ 16 + oct2 ip * 2 ^ 8 + oct3 ip.

Definition v6_num (ip : Ipv6Addr) : Z :=
  seg0 ip * 2 ^ 112 + seg1 ip * 2 ^ 96 + seg2 ip * 2 ^ 80 + seg3 ip * 2 ^ 64
  + seg4 ip * 2 ^ 48 + seg5 ip * 2 ^ 32 + seg6 ip * 2 ^ 16 + seg7 ip.

Definition v4 (a b c d : Z) : Ipv4Addr := {| oct0 := a; oct1 := b; oct2 := c; oct3 := d |}.

(** The block [base/len]: [base] is its lowest address. *)
Definition in_v4 (ip : Ipv4Addr) (block : Ipv4Addr * Z) : Prop :=
  v4_num block.1 <= v4_num ip < v4_num block.1 + 2 ^ (32 - block.2).

Definition in_v6 (ip : Ipv6Addr) (block : Ipv6Addr * Z) : Prop :=
  v6_num block.1 <= v6_num ip < v6_num block.1 + 2 ^ (128 - block.2).

(** The IPv4 special-purpose registry's blocks that are not globally
    reachable, and multicast. *)
Definition special_v4 : list (Ipv4Addr * Z) :=
  [(v4 0 0 0 0, 8); (v4 10 0 0 0, 8); (v4 100 64 0 0, 10); (v4 127 0 0 0, 8);
   (v4 169 254 0 0, 16); (v4 172 16 0 0, 12); (v4 192 0 0 0, 24); (v4 192 0 2 0, 24);
   (v4 192 168 0 0, 16); (v4 198 18 0 0, 15); (v4 198 51 100 0, 24); (v4 203 0 113 0, 24);
   (v4 224 0 0 0, 4); (v4 240 0 0 0, 4); (v4 255 255 255 255, 32)].

Definition v6 (a b : Z) (h : Z) : Ipv6Addr :=
  {| seg0 := a; seg1 := b; seg2 := 0; seg3 := 0; seg4 := 0; seg5 := 0; seg6 := 0; seg7 := h |}.

(** The IPv6 blocks the code excludes. *)
Definition special_v6 : list (Ipv6Addr * Z) :=
  [(v6 0 0 0, 128); (v6 0 0 1, 128); (v6 0xff00 0 0, 8); (v6 0xfc00 0 0, 7);
   (v6 0xfe80 0 0, 10); (v6 0x2001 0xdb8 0, 32)].

Definition mapped_block : Ipv6Addr * Z :=
  ({| seg0 := 0; seg1 := 0; seg2 := 0; seg3 := 0; seg4 := 0; seg5 := 0xffff; seg6 := 0; seg7 := 0 |}, 96).

(** ** Masks as intervals, by evaluation over the range of the octet *)
Lemma Zrange_forall (p : Z -> bool) n z :
  forallb p (Z.of_nat <$> seq 0 n) = true -> 0 <= z < Z.of_nat n -> p z = true.
Proof.
  intros H Hz. rewrite forallb_forall in H. apply H, list_elem_of_In, list_elem_of_fmap.
  exists (Z.to_nat z). split; [lia|]. apply elem_of_seq. lia.
Qed.

Lemma mask_cgnat z : octet z -> (Z.land z 0xc0 =? 64) = ((64 <=? z) && (z <? 128)).
Proof.
  intros Hz. apply eqb_prop. revert Hz.
  apply (Zrange_forall (fun z => eqb (Z.land z 0xc0 =? 64) ((64 <=? z) && (z <? 128))) 256).
  vm_compute. done.
Qed.

Lemma mask_bench z : octet z -> (Z.land z 0xfe =? 18) = ((18 <=? z) && (z <? 20)).
Proof.
  intros Hz. apply eqb_prop. revert Hz.
  apply (Zrange_forall (fun z => eqb (Z.land z 0xfe =? 18) ((18 <=? z) && (z <? 20))) 256).
  vm_compute. done.
Qed.

(** A mask of the high bits of a segment selects an interval. *)
Lemma mask_high z k m :
  segment z -> 0 <= k <= 16 -> 0 <= m ->
  (Z.land z (Z.shiftl (Z.ones (16 - k)) k) =? Z.shiftl m k) =
  ((m * 2 ^ k <=? z) && (z <? (m + 1) * 2 ^ k)).
Proof.
  intros Hz Hk Hm. assert (Z.land z (Z.shiftl (Z.ones (16 - k)) k) = Z.shiftl (Z.shiftr z k) k) as ->.
  { apply Z.bits_inj'. intros i Hi. rewrite Z.land_spec, !Z.shiftl_spec by done.
    destruct (decide (i < k)).
    - rewrite (Z.testbit_neg_r _ (i - k)), (Z.testbit_neg_r _ (i - k)), andb_false_r by lia. done.
    - rewrite Z.shiftr_spec by lia. replace (i - k + k) with i by lia.
      destruct (decide (i < 16)).
      + rewrite Z.ones_spec_low by lia. by rewrite andb_true_r.
      + rewrite Z.ones_spec_high by lia. rewrite andb_false_r. symmetry.
        unfold segment in Hz. destruct (decide (z = 0)) as [->|]; [by rewrite Z.bits_0|].
        apply Z.bits_above_log2; [lia|]. apply Z.log2_lt_pow2; [lia|].
        eapply Z.lt_le_trans; [apply Hz|]. change 65536 with (2 ^ 16). apply Z.pow_le_mono_r; lia. }
  rewrite !Z.shiftl_mul_pow2, Z.shiftr_div_pow2 by lia.
  assert (0 < 2 ^ k) as Hp by (apply Z.pow_pos_nonneg; lia).
  pose proof (Z.mod_pos_bound z (2 ^ k) Hp). pose proof (Z.div_mod z (2 ^ k) ltac:(lia)).
  apply eq_bool_prop_intro. rewrite !Is_true_true, andb_true_iff, Z.eqb_eq, Z.leb_le, Z.ltb_lt.
  split; [nia|]. intros [? ?]. f_equal. nia.
Qed.

Ltac props :=
  rewrite ?negb_true_iff, ?negb_false_iff, ?orb_false_iff, ?andb_false_iff,
    ?Z.eqb_neq, ?Z.leb_gt, ?Z.ltb_ge in *.

(** A comparison of the octets from one fact about them. *)
#[local] Ltac octets H :=
  repeat match goal with X : ?P |- _ => lazymatch P with 0 <= _ < _ => fail | _ => lazymatch X with H => fail | _ => clear X end end end; lia.

Lemma v4_cases ip :
  v4_wf ip -> ipv4_is_global ip = true <-> Forall (fun b => ~ in_v4 ip b) special_v4.
Proof.
  destruct ip as [a b c d]. intros (Ha & Hb & Hc & Hd). simpl in *.
  unfold ipv4_is_global, is_unspecified, is_loopback, is_private, is_link_local, is_broadcast,
    is_multicast, is_documentation. simpl.
  rewrite mask_cgnat, mask_bench by done. props.
  unfold special_v4. rewrite !Forall_cons, Forall_nil. unfold in_v4, v4_num. simpl.
  unfold octet in *. split.
  - intros (((((((((((Hu & H0) & Hl) & Hp) & Hll) & Hb') & Hm) & Hdoc) & Hcg) & Hi) & Hbm) & H240).
    split_and!; try done;
      [octets H0|octets Hp|octets Hcg|octets Hl|octets Hll|octets Hp|octets Hi|octets Hdoc|octets Hp|octets Hbm|octets Hdoc
      |octets Hdoc|octets Hm|octets H240|octets H240].
  - intros (H0 & H10 & Hcg & Hl & Hll & H172 & Hi & Hd1 & H192 & Hbm & Hd2 & Hd3 & Hm & H240 & _ & _).
    split_and!;
      [octets H0|octets H0|octets Hl|octets H10|octets H172|octets H192|octets Hll|octets H240|octets Hm|octets Hd1|octets Hd2
      |octets Hd3|octets Hcg|octets Hi|octets Hbm|octets H240].
Qed.

Lemma v6_cases ip :
  v6_wf ip -> to_ipv4_mapped ip = None ->
  ipv6_is_global ip = true <-> Forall (fun b => ~ in_v6 ip b) special_v6.
Proof.
  intros Hwf Hm. unfold ipv6_is_global. rewrite Hm.
  destruct ip as [a b c d e f g h]. destruct Hwf as (Ha & Hb & Hc & Hd & He & Hf & Hg & Hh). simpl in *.
  unfold is_unspecified6, is_loopback6, is_multicast6. simpl.
  change 0xff00 with (Z.shiftl (Z.ones (16 - 8)) 8) at 1. change 0xff00 with (Z.shiftl 0xff 8) at 1.
  change 0xfe00 with (Z.shiftl (Z.ones (16 - 9)) 9). change 0xfc00 with (Z.shiftl 0x7e 9).
  change 0xffc0 with (Z.shiftl (Z.ones (16 - 6)) 6). change 0xfe80 with (Z.shiftl 0x3fa 6).
  rewrite !mask_high by (assumption || lia). props. rewrite !bool_decide_eq_false.
  unfold special_v6. rewrite !Forall_cons, Forall_nil. unfold in_v6, v6_num. simpl.
  assert (forall x, Build_Ipv6Addr a b c d e f g h <> Build_Ipv6Addr 0 0 0 0 0 0 0 x <->
    a <> 0 \/ b <> 0 \/ c <> 0 \/ d <> 0 \/ e <> 0 \/ f <> 0 \/ g <> 0 \/ h <> x) as Hne.
  { intros x. split; [|intros H [= -> -> -> -> -> -> -> ->]; lia].
    intros H. destruct (decide (a = 0 /\ b = 0 /\ c = 0 /\ d = 0 /\ e = 0 /\ f = 0 /\ g = 0 /\ h = x))
      as [(-> & -> & -> & -> & -> & -> & -> & ->)|?]; [by destruct H|lia]. }
  rewrite !Hne. unfold segment in *. clear Hne Hm. split.
  - intros (((((Hu & Hl) & Hmc) & Hula) & Hll) & Hdoc). split_and!; [..|done].
    + clear -Hu Ha Hb Hc Hd He Hf Hg Hh. lia.
    + clear -Hl Ha Hb Hc Hd He Hf Hg Hh. lia.
    + clear -Hmc Ha Hb Hc Hd He Hf Hg Hh. lia.
    + clear -Hula Ha Hb Hc Hd He Hf Hg Hh. lia.
    + clear -Hll Ha Hb Hc Hd He Hf Hg Hh. lia.
    + clear -Hdoc Ha Hb Hc Hd He Hf Hg Hh. lia.
  - intros (Hu & Hl & Hmc & Hula & Hll & Hdoc & _). split_and!.
    + clear -Hu Ha Hb Hc Hd He Hf Hg Hh. lia.
    + clear -Hl Ha Hb Hc Hd He Hf Hg Hh. lia.
    + clear -Hmc Ha Hb Hc Hd He Hf Hg Hh. lia.
    + clear -Hula Ha Hb Hc Hd He Hf Hg Hh. lia.
    + clear -Hll Ha Hb Hc Hd He Hf Hg Hh. lia.
    + clear -Hdoc Ha Hb Hc Hd He Hf Hg Hh. lia.
Qed.

(** C31. The address policy: an IPv4 address is accepted exactly when it lies
    in none of the special-purpose and multicast blocks; an IPv4-mapped IPv6
    address is judged as the IPv4 address it maps, and any other IPv6 address
    is accepted exactly when it lies in none of the excluded IPv6 blocks. *)
Theorem ip_policy ip4 ip6 :
  v4_wf ip4 -> v6_wf ip6 ->
  (ip_is_global (V4 ip4) = true <-> Forall (fun b => ~ in_v4 ip4 b) special_v4) /\
  (in_v6 ip6 mapped_block ->
     exists ip, to_ipv4_mapped ip6 = Some ip /\ v4_wf ip /\
       v4_num ip = v6_num ip6 - v6_num mapped_block.1 /\ ip_is_global (V6 ip6) = ip_is_global (V4 ip)) /\
  (~ in_v6 ip6 mapped_block ->
     ip_is_global (V6 ip6) = true <-> Forall (fun b => ~ in_v6 ip6 b) special_v6).
Proof.
  intros H4 H6. split; [by apply v4_cases|]. split.
  - intros Hm. destruct ip6 as [a b c d e f g h]. destruct H6 as (Ha & Hb & Hc & Hd & He & Hf & Hg & Hh).
    unfold in_v6, v6_num, segment in *. simpl in *.
    assert (a = 0 /\ b = 0 /\ c = 0 /\ d = 0 /\ e = 0 /\ f = 65535) as (-> & -> & -> & -> & -> & ->) by lia.
    eexists. split; [done|]. unfold v4_wf, v4_num, octet. simpl.
    pose proof (Z.div_mod g 256 ltac:(lia)). pose proof (Z.mod_pos_bound g 256 ltac:(lia)).
    pose proof (Z.div_mod h 256 ltac:(lia)). pose proof (Z.mod_pos_bound h 256 ltac:(lia)).
    split; [|split; [|done]]; [split_and!|]; lia.
  - intros Hm. apply v6_cases; [done|]. unfold to_ipv4_mapped. destruct (_ && _) eqn:E; [|done].
    exfalso. apply Hm. repeat (apply andb_true_iff in E as [E ?]). bsimp.
    destruct ip6. simpl in *. subst. destruct H6 as (_ & _ & _ & _ & _ & _ & Hg & Hh).
    unfold in_v6, v6_num, segment in *. simpl in *. lia.
Qed.

(** What a client connects to for a host: the shared client to an address
    literal, or to whatever the name resolves to at that moment; a pinned one
    to its address. *)
Definition may_connect (c : HttpClient) (host : Host) (resolves_to ip : IpAddr) : Prop :=
  match c, host with
  | PinnedClient _ a, _ => ip = sa_ip a
  | SharedClient, HostIpv4 v4 => ip = V4 v4
  | SharedClient, HostIpv6 v6 => ip = V6 v6
  | SharedClient, HostDomain _ => ip = resolves_to
  end.

(** C30. No request leaves for a non-global address: without
    [allowInsecureUrls], whatever the name service answers at validation time
    and whatever it answers later (DNS rebinding), a client is only handed out
    if every address it may connect to passed the policy; for a domain it is
    pinned to the first global address the lookup returned, and there is
    none exactly when the lookup failed or returned no global address (or the
    client could not be built). *)
Theorem client_for_safe port host lookup builds :
  match client_for false port host lookup builds with
  | Ok c => exists h, host = Some h /\
      (forall later ip, may_connect c h later ip -> ip_is_global ip = true) /\
      (forall d, h = HostDomain d -> exists p addrs i a,
         port = Some p /\ lookup d p = Some addrs /\ c = PinnedClient d a /\ addrs !! i = Some a /\
         forall j b, (j < i)%nat -> addrs !! j = Some b -> ip_is_global (sa_ip b) = false)
  | Err e =>
      ssrf_category e = error_category.CONNECTION_REFUSED /\
      (port = None \/ host = None \/ e = ClientErr \/
       (exists v4, host = Some (HostIpv4 v4) /\ ipv4_is_global v4 = false) \/
       (exists v6, host = Some (HostIpv6 v6) /\ ipv6_is_global v6 = false) \/
       exists d p, host = Some (HostDomain d) /\ port = Some p /\
         forall addrs, lookup d p = Some addrs -> Forall (fun a => ip_is_global (sa_ip a) = false) addrs)
  end.
Proof.
  unfold client_for. destruct port as [p|]; [|by auto 10].
  destruct host as [[v4|v6|d]|]; [..|by auto 10].
  - destruct (ipv4_is_global v4) eqn:E; [|by eauto 10].
    eexists. split; [done|]. split; [by intros later ip ->|done].
  - destruct (ipv6_is_global v6) eqn:E; [|by eauto 10].
    eexists. split; [done|]. split; [by intros later ip ->|done].
  - destruct (lookup d p) as [[|a0 l]|] eqn:El.
    + split; [done|]. do 5 right. exists d, p. split_and!; try done. intros addrs. rewrite El. by intros [= <-].
    + destruct (list_find (fun a => ip_is_global (sa_ip a) = true) (a0 :: l)) as [[i a]|] eqn:Ef.
      * apply list_find_Some in Ef as (Ha & Hg & Hfirst). destruct builds; [|by auto 10].
        eexists. split; [done|]. split; [by intros later ip ->|].
        intros ? [= <-]. exists p, (a0 :: l), i, a. split_and!; try done.
        intros j b Hj Hb. apply not_true_iff_false. by eapply Hfirst.
      * split; [done|]. do 5 right. exists d, p. split_and!; try done. intros addrs. rewrite El. intros [= <-].
        apply list_find_None in Ef. eapply Forall_impl; [exact Ef|]. intros x. apply not_true_iff_false.
    + split; [done|]. do 5 right. exists d, p. split_and!; try done. intros addrs. by rewrite El.
Qed.

(** The category recorded for a failed request is one of the documented
    ones, never endpoint output: [timeout] when reqwest says so, otherwise
    decided by the first source in the chain that is a refused or timed-out
    connection or mentions TLS, and [connection_refused] when none does. *)
Theorem classify_send_error_category is_timeout sources :
  classify_send_error is_timeout sources ∈
    [error_category.CONNECTION_REFUSED; error_category.TIMEOUT; error_category.TLS_ERROR] /\
  classify_send_error true sources = error_category.TIMEOUT /\
  (forall pre s post, sources = pre ++ s :: post ->
     Forall (fun x => es_io x = None /\ classify_sources [x] = error_category.CONNECTION_REFUSED) pre ->
     classify_send_error false sources = classify_sources (s :: post)).
Proof.
  assert (forall l, classify_sources l ∈
    [error_category.CONNECTION_REFUSED; error_category.TIMEOUT; error_category.TLS_ERROR]) as H.
  { intros l. induction l as [|s l IH]; [set_solver|]. simpl. repeat case_match; set_solver. }
  split_and!; [|done|].
  - unfold classify_send_error. destruct is_timeout; [set_solver|apply H].
  - intros pre s post -> Hpre. unfold classify_send_error.
    induction Hpre as [|x pre [Hio Hx] _ IH]; [done|]. simpl in *. rewrite Hio in *.
    destruct (_ || _); [done|]. exact IH.
Qed.

Lemma ip_policy_witness :
  ip_is_global (V4 (v4 8 8 8 8)) = true /\ ip_is_global (V4 (v4 172 31 0 1)) = false /\
  Forall (fun b => ~ in_v4 (v4 8 8 8 8) b) special_v4.
Proof.
  split; [reflexivity|]. split; [reflexivity|].
  apply (ip_policy (v4 8 8 8 8) (v6 0 0 1)); [| |reflexivity].
  - by repeat split.
  - by repeat split.
Defined.

(** Blocks the IPv6 registry lists as not globally reachable that the code
    lets through: discard-only, local-use NAT64, benchmarking, documentation
    (3fff::/20) and segment-routing SIDs; and 6to4 and NAT64 addresses that
    embed a private IPv4 address. *)
Example ipv6_registry_gaps :
  forallb (fun ip => ip_is_global (V6 ip))
    [v6 0x100 0 1; v6 0x64 0xff9b 1;
     {| seg0 := 0x64; seg1 := 0xff9b; seg2 := 1; seg3 := 0; seg4 := 0; seg5 := 0; seg6 := 0x0a00; seg7 := 1 |};
     v6 0x2001 0x2 1; v6 0x3fff 0 1; v6 0x5f00 0 1; v6 0x2002 0x0a00 1] = true.
Proof. vm_compute. reflexivity. Qed.
