(* ===== verification/Feed.v ===== *)
(** * Feed events (crates/drasi-feed/src/lib.rs). *)
From S2P Require Import Prelude RustStd Json.

Inductive ChangeType : Type := Added | Updated | Deleted.

#[export] Instance ChangeType_eq_dec : EqDecision ChangeType.
Proof. solve_decision. Defined.

Section feed.
Context {J : JsonLib}.

Record FeedEvent := {
  fe_query_id : string;
  fe_change : ChangeType;
  fe_before : option Value;
  fe_after : option Value;
  fe_timestamp : option Z;
  fe_upstream_id : option string
}.

#[export] Instance FeedEvent_eq_dec : EqDecision FeedEvent.
Proof. solve_decision. Defined.
End feed.
