(* ===== verification/Config.v ===== *)
(** * Server configuration (crates/mcp-events-server/src/config.rs): the
    settings, their defaults, validation and token lookup.  Reading the YAML
    file is serde_yaml's. *)
From S2P Require Import Prelude RustStd Json.

Inductive EventModeling : Type := Single | PerChange.
Inductive FeedKind : Type := MockKind | DrasiSse.

#[export] Instance EventModeling_eq_dec : EqDecision EventModeling.
Proof. solve_decision. Defined.
#[export] Instance FeedKind_eq_dec : EqDecision FeedKind.
Proof. solve_decision. Defined.

Record AuthToken := { at_token : string; at_principal : string }.

Record BufferSettings := { bs_max_events_per_type : Z; bs_max_age_ms : option Z }.

Record FeedSettings := {
  fs_kind : FeedKind;
  fs_query_id : option string;
  fs_interval_ms : option Z;
  fs_url : option string
}.

Record PushSettings := { heartbeat_interval_ms : Z }.
Record PollSettings := { next_poll_ms : Z }.

Record ToolsSettings := { postgres_url : string }.

Record WebhookSettings := {
  wh_enabled : bool;
  wh_ttl_cap_ms : Z;
  wh_min_ttl_ms : Z;
  wh_max_subscriptions_per_principal : Z;
  wh_allow_insecure_urls : bool;
  wh_suspend_after_failures : Z
}.

Definition default_host : string := "127.0.0.1".
Definition default_port : Z := 8090.
Definition default_max_events_per_type : Z := 10000.
Definition default_max_age_ms : option Z := Some 600000.
Definition default_heartbeat_interval_ms : Z := 15000.
Definition default_next_poll_ms : Z := 2000.
Definition default_ttl_cap_ms : Z := 1800000.
Definition default_min_ttl_ms : Z := 10000.
Definition default_max_subscriptions_per_principal : Z := 16.
Definition default_suspend_after_failures : Z := 5.

Definition default_tools_postgres_url : string :=
  "host=localhost port=5433 user=demo password=demo dbname=demo".

Definition ToolsSettings_default : ToolsSettings := {| postgres_url := default_tools_postgres_url |}.
Definition BufferSettings_default : BufferSettings :=
  {| bs_max_events_per_type := default_max_events_per_type; bs_max_age_ms := default_max_age_ms |}.
Definition PushSettings_default : PushSettings :=
  {| heartbeat_interval_ms := default_heartbeat_interval_ms |}.
Definition PollSettings_default : PollSettings := {| next_poll_ms := default_next_poll_ms |}.
Definition WebhookSettings_default : WebhookSettings :=
  {| wh_enabled := false; wh_ttl_cap_ms := default_ttl_cap_ms; wh_min_ttl_ms := default_min_ttl_ms;
     wh_max_subscriptions_per_principal := default_max_subscriptions_per_principal;
     wh_allow_insecure_urls := false; wh_suspend_after_failures := default_suspend_after_failures |}.

(** What [validate] can report. *)
Inductive ConfigError : Type :=
| InjectedCollision (n : string)
| NoQueries
| DrasiNeedsUrl.

#[export] Instance ConfigError_eq_dec : EqDecision ConfigError.
Proof. solve_decision. Defined.

Section config.
Context {J : JsonLib}.

Record InjectedEventType := {
  in_name : string;
  in_description : string;
  in_input_schema : option Value;
  in_payload_schema : option Value
}.

Record QueryConfig := {
  q_id : string;
  q_description : option string;
  q_payload_schema : option Value
}.

Record ServerConfig := {
  c_host : string;
  c_port : Z;
  c_auth_tokens : list AuthToken;
  c_event_modeling : EventModeling;
  c_buffer : BufferSettings;
  c_feed : FeedSettings;
  c_queries : list QueryConfig;
  c_push : PushSettings;
  c_poll : PollSettings;
  c_webhook : WebhookSettings;
  c_tools : ToolsSettings;
  c_injected : list InjectedEventType
}.

(** The event type names a query gives rise to. *)
Definition derived_names (mode : EventModeling) (q : QueryConfig) : list string :=
  match mode with
  | Single => [q_id q +:+ ".changed"]
  | PerChange => (fun s => q_id q +:+ "." +:+ s) <$> ["added"; "updated"; "deleted"]
  end.

(** The first [ensure!] that fails in the loop over injected types. *)
Fixpoint check_injected (derived : list string) (l : list InjectedEventType) : result ConfigError unit :=
  match l with
  | [] => Ok ()
  | i :: l' =>
      if bool_decide (in_name i ∈ derived) then Err (InjectedCollision (in_name i))
      else check_injected derived l'
  end.

Definition validate (c : ServerConfig) : result ConfigError unit :=
  let derived := c_queries c ≫= derived_names (c_event_modeling c) in
  _ ← check_injected derived (c_injected c);
  if bool_decide (c_queries c = []) then Err NoQueries
  else if bool_decide (fs_kind (c_feed c) = DrasiSse) && bool_decide (fs_url (c_feed c) = None)
  then Err DrasiNeedsUrl
  else Ok ().

Definition principal_for_token (c : ServerConfig) (token : string) : option string :=
  at_principal <$> (snd <$> list_find (fun t => at_token t = token) (c_auth_tokens c)).

Lemma check_injected_Ok derived l :
  check_injected derived l = Ok () <-> Forall (fun i => in_name i ∉ derived) l.
Proof.
  induction l as [|i l IH]; simpl; [by split|].
  rewrite Forall_cons. case_bool_decide; naive_solver.
Qed.

(** Validation accepts a configuration exactly when no injected event
    type has the name of a query-derived one, there is a query, and a
    Drasi feed has a url. *)
Theorem validate_spec c :
  validate c = Ok () <->
  (forall i q, i ∈ c_injected c -> q ∈ c_queries c ->
     in_name i ∉ derived_names (c_event_modeling c) q) /\
  c_queries c <> [] /\
  (fs_kind (c_feed c) = DrasiSse -> is_Some (fs_url (c_feed c))).
Proof.
  unfold validate. rewrite bind_Ok. split.
  - intros ([] & Hi & H). apply check_injected_Ok in Hi. rewrite Forall_forall in Hi.
    case_bool_decide as Hq; [done|]. destruct (_ && _) eqn:E; [done|]. split_and!; [|done|].
    + intros i q Hin Hqin Hn. apply (Hi i Hin). apply list_elem_of_bind. eauto.
    + intros Hk. apply andb_false_iff in E as [E|E]; bsimp; [done|].
      by destruct (fs_url (c_feed c)).
  - intros (Hi & Hq & Hu). exists (). split.
    + apply check_injected_Ok, Forall_forall. intros i Hin (q & Hn & Hqin)%list_elem_of_bind.
      by eapply Hi.
    + rewrite bool_decide_eq_false_2 by done. case_bool_decide as Hk; [|done].
      destruct (Hu Hk) as [u ->]. done.
Qed.
End config.
