(* ===== verification/ConfigDecode.v ===== *)
(** * The configuration file (crates/mcp-events-server/src/config.rs).

    The decoders that serde derives from the structs of the file: names in
    camel case, fields with and without a default, and, by
    [deny_unknown_fields], no other names.  serde_yaml, which turns the text
    into a document, is a library: the document is a [Value] here, and a
    struct is read from a mapping. *)
From S2P Require Import Prelude RustStd Json Wire Config.

Section decode.
Context {J : JsonLib}.

(** A mapping whose keys are all among the fields ([deny_unknown_fields]). *)
Definition strict_view (fields : list string) (v : Value) : option (string -> option Value) :=
  match v with
  | JObject m =>
      if bool_decide (Forall (fun k => k ∈ fields) m.*1) then Some (fun k => map_get k m) else None
  | _ => None
  end.

Definition dec_u16 (v : Value) : option Z := z ← as_u64 v; if z <=? 65535 then Some z else None.

(** A unit variant, by its name. *)
Definition dec_EventModeling (v : Value) : option EventModeling :=
  s ← as_str v;
  if bool_decide (s = "single") then Some Single
  else if bool_decide (s = "perChange") then Some PerChange else None.

Definition dec_FeedKind (v : Value) : option FeedKind :=
  s ← as_str v;
  if bool_decide (s = "mock") then Some MockKind
  else if bool_decide (s = "drasiSse") then Some DrasiSse else None.

Definition dec_InjectedEventType (v : Value) : option InjectedEventType :=
  f ← strict_view ["name"; "description"; "inputSchema"; "payloadSchema"] v;
  name ← req dec_string (f "name");
  description ← req dec_string (f "description");
  input_schema ← opt_field dec_value (f "inputSchema");
  payload_schema ← opt_field dec_value (f "payloadSchema");
  Some {| in_name := name; in_description := description; in_input_schema := input_schema;
          in_payload_schema := payload_schema |}.

Definition dec_ToolsSettings (v : Value) : option ToolsSettings :=
  f ← strict_view ["postgresUrl"] v;
  url ← dflt default_tools_postgres_url dec_string (f "postgresUrl");
  Some {| postgres_url := url |}.

Definition dec_AuthToken (v : Value) : option AuthToken :=
  f ← strict_view ["token"; "principal"] v;
  token ← req dec_string (f "token");
  principal ← req dec_string (f "principal");
  Some {| at_token := token; at_principal := principal |}.

Definition dec_BufferSettings (v : Value) : option BufferSettings :=
  f ← strict_view ["maxEventsPerType"; "maxAgeMs"] v;
  max_events ← dflt default_max_events_per_type dec_u64 (f "maxEventsPerType");
  max_age ← dflt default_max_age_ms (dec_option dec_u64) (f "maxAgeMs");
  Some {| bs_max_events_per_type := max_events; bs_max_age_ms := max_age |}.

Definition dec_FeedSettings (v : Value) : option FeedSettings :=
  f ← strict_view ["kind"; "queryId"; "intervalMs"; "url"] v;
  kind ← req dec_FeedKind (f "kind");
  query_id ← opt_field dec_string (f "queryId");
  interval_ms ← opt_field dec_u64 (f "intervalMs");
  url ← opt_field dec_string (f "url");
  Some {| fs_kind := kind; fs_query_id := query_id; fs_interval_ms := interval_ms; fs_url := url |}.

Definition dec_QueryConfig (v : Value) : option QueryConfig :=
  f ← strict_view ["id"; "description"; "payloadSchema"] v;
  id ← req dec_string (f "id");
  description ← opt_field dec_string (f "description");
  payload_schema ← opt_field dec_value (f "payloadSchema");
  Some {| q_id := id; q_description := description; q_payload_schema := payload_schema |}.

Definition dec_PushSettings (v : Value) : option PushSettings :=
  f ← strict_view ["heartbeatIntervalMs"] v;
  ms ← dflt default_heartbeat_interval_ms dec_u64 (f "heartbeatIntervalMs");
  Some {| heartbeat_interval_ms := ms |}.

Definition dec_PollSettings (v : Value) : option PollSettings :=
  f ← strict_view ["nextPollMs"] v;
  ms ← dflt default_next_poll_ms dec_u64 (f "nextPollMs");
  Some {| next_poll_ms := ms |}.

Definition dec_WebhookSettings (v : Value) : option WebhookSettings :=
  f ← strict_view ["enabled"; "ttlCapMs"; "minTtlMs"; "maxSubscriptionsPerPrincipal";
                   "allowInsecureUrls"; "suspendAfterFailures"] v;
  enabled ← dflt false dec_bool (f "enabled");
  ttl_cap ← dflt default_ttl_cap_ms dec_u64 (f "ttlCapMs");
  min_ttl ← dflt default_min_ttl_ms dec_u64 (f "minTtlMs");
  max_subs ← dflt default_max_subscriptions_per_principal dec_u64 (f "maxSubscriptionsPerPrincipal");
  insecure ← dflt false dec_bool (f "allowInsecureUrls");
  suspend ← dflt default_suspend_after_failures dec_u32 (f "suspendAfterFailures");
  Some {| wh_enabled := enabled; wh_ttl_cap_ms := ttl_cap; wh_min_ttl_ms := min_ttl;
          wh_max_subscriptions_per_principal := max_subs; wh_allow_insecure_urls := insecure;
          wh_suspend_after_failures := suspend |}.

Definition config_fields : list string :=
  ["host"; "port"; "authTokens"; "eventModeling"; "buffer"; "feed"; "queries"; "push"; "poll"; "webhook";
   "tools"; "injected"].

Definition dec_ServerConfig (v : Value) : option ServerConfig :=
  f ← strict_view config_fields v;
  host ← dflt default_host dec_string (f "host");
  port ← dflt default_port dec_u16 (f "port");
  auth_tokens ← dflt [] (dec_list dec_AuthToken) (f "authTokens");
  event_modeling ← dflt Single dec_EventModeling (f "eventModeling");
  buffer ← dflt BufferSettings_default dec_BufferSettings (f "buffer");
  feed ← req dec_FeedSettings (f "feed");
  queries ← req (dec_list dec_QueryConfig) (f "queries");
  push ← dflt PushSettings_default dec_PushSettings (f "push");
  poll ← dflt PollSettings_default dec_PollSettings (f "poll");
  webhook ← dflt WebhookSettings_default dec_WebhookSettings (f "webhook");
  tools ← dflt ToolsSettings_default dec_ToolsSettings (f "tools");
  injected ← dflt [] (dec_list dec_InjectedEventType) (f "injected");
  Some {| c_host := host; c_port := port; c_auth_tokens := auth_tokens; c_event_modeling := event_modeling;
          c_buffer := buffer; c_feed := feed; c_queries := queries; c_push := push; c_poll := poll;
          c_webhook := webhook; c_tools := tools; c_injected := injected |}.

(** ** What a decoded configuration is *)

(** The numbers are in the range of their types. *)
Record config_in_range (c : ServerConfig) : Prop := {
  cr_port : 0 <= c_port c <= 65535;
  cr_max_events : 0 <= bs_max_events_per_type (c_buffer c) <= u64_max;
  cr_max_age ms : bs_max_age_ms (c_buffer c) = Some ms -> 0 <= ms <= u64_max;
  cr_interval ms : fs_interval_ms (c_feed c) = Some ms -> 0 <= ms <= u64_max;
  cr_heartbeat : 0 <= heartbeat_interval_ms (c_push c) <= u64_max;
  cr_next_poll : 0 <= next_poll_ms (c_poll c) <= u64_max;
  cr_ttl_cap : 0 <= wh_ttl_cap_ms (c_webhook c) <= u64_max;
  cr_min_ttl : 0 <= wh_min_ttl_ms (c_webhook c) <= u64_max;
  cr_quota : 0 <= wh_max_subscriptions_per_principal (c_webhook c) <= u64_max;
  cr_suspend : 0 <= wh_suspend_after_failures (c_webhook c) <= u32_max
}.

Lemma dflt_Some {A} (P : A -> Prop) (d : A) dec o a :
  dflt d dec o = Some a -> P d -> (forall v a, dec v = Some a -> P a) -> P a.
Proof. destruct o as [v|]; simpl; [eauto|by intros [= <-]]. Qed.

Lemma dec_option_Some {A} (P : A -> Prop) (dec : Value -> option A) v o a :
  (forall v a, dec v = Some a -> P a) -> dec_option dec v = Some o -> o = Some a -> P a.
Proof.
  intros Hd H ->. destruct v; simpl in H; try done;
    match type of H with _ <$> dec ?w = _ => destruct (dec w) eqn:E end; simpl in H; try done;
    injection H as ->; eapply Hd, E.
Qed.

Lemma strict_view_known fields v f k x :
  strict_view fields v = Some f -> f k = Some x -> k ∈ fields.
Proof.
  destruct v as [| | | | |m]; try done. unfold strict_view. case_bool_decide as Hall; [|done].
  intros [= <-] Hk. rewrite Forall_forall in Hall. apply Hall. clear Hall.
  induction m as [|[k' y] m IH]; [done|]. simpl in *. case_decide; set_solver.
Qed.

(** [as_u64] gives [u64]s, as the type of serde_json's [Number::as_u64] says. *)
Context (Hu64 : forall n z, num_as_u64 n = Some z -> 0 <= z <= u64_max).

Lemma dec_u64_range v z : dec_u64 v = Some z -> 0 <= z <= u64_max.
Proof using Hu64. destruct v; try done. exact (Hu64 _ z). Qed.

Lemma dec_u32_range v z : dec_u32 v = Some z -> 0 <= z <= u32_max.
Proof using Hu64.
  unfold dec_u32. intros (z' & H%dec_u64_range & E)%bind_Some. destruct (z' <=? u32_max) eqn:El; [|done].
  injection E as <-. bsimp. lia.
Qed.

Lemma dec_u16_range v z : dec_u16 v = Some z -> 0 <= z <= 65535.
Proof using Hu64.
  unfold dec_u16. intros (z' & H%dec_u64_range & E)%bind_Some. destruct (z' <=? 65535) eqn:El; [|done].
  injection E as <-. bsimp. lia.
Qed.

(** A field with a default is in range if the default is and what decodes is. *)
Ltac field_range :=
  match goal with
  | H : dflt _ _ _ = Some ?x |- _ <= ?x <= _ =>
      apply (dflt_Some (fun z => _ <= z <= _) _ _ _ _ H);
      [by vm_compute|eauto using dec_u64_range, dec_u32_range, dec_u16_range]
  end.

(** The steps of a struct's decoder that succeeded. *)
Ltac decoded :=
  repeat match goal with H : mbind _ _ = Some _ |- _ => apply bind_Some in H as (? & ? & H) end;
  repeat match goal with H : Some _ = Some _ |- _ => injection H as <- end; cbn.

Definition opt_u64 (o : option Z) : Prop := forall ms, o = Some ms -> 0 <= ms <= u64_max.

Lemma dec_opt_u64 v o : dec_option dec_u64 v = Some o -> opt_u64 o.
Proof using Hu64. intros H ms. by apply (dec_option_Some _ _ _ _ _ dec_u64_range H). Qed.

Definition buffer_ok (b : BufferSettings) : Prop :=
  0 <= bs_max_events_per_type b <= u64_max /\ opt_u64 (bs_max_age_ms b).

Lemma dec_BufferSettings_ok v b : dec_BufferSettings v = Some b -> buffer_ok b.
Proof using Hu64.
  unfold dec_BufferSettings. intros H. decoded. split; cbn; [field_range|].
  eapply (dflt_Some opt_u64); [eassumption|by intros ? [= <-]|exact dec_opt_u64].
Qed.

Lemma dec_FeedSettings_ok v b : dec_FeedSettings v = Some b -> opt_u64 (fs_interval_ms b).
Proof using Hu64.
  unfold dec_FeedSettings. intros H. decoded.
  match goal with H : opt_field dec_u64 _ = Some ?x |- opt_u64 ?x =>
    by apply (dflt_Some opt_u64 _ _ _ _ H ltac:(done) dec_opt_u64) end.
Qed.

Lemma dec_PushSettings_ok v b : dec_PushSettings v = Some b -> 0 <= heartbeat_interval_ms b <= u64_max.
Proof using Hu64. unfold dec_PushSettings. intros H. decoded. field_range. Qed.

Lemma dec_PollSettings_ok v b : dec_PollSettings v = Some b -> 0 <= next_poll_ms b <= u64_max.
Proof using Hu64. unfold dec_PollSettings. intros H. decoded. field_range. Qed.

Definition webhook_ok (b : WebhookSettings) : Prop :=
  0 <= wh_ttl_cap_ms b <= u64_max /\ 0 <= wh_min_ttl_ms b <= u64_max /\
  0 <= wh_max_subscriptions_per_principal b <= u64_max /\ 0 <= wh_suspend_after_failures b <= u32_max.

Lemma dec_WebhookSettings_ok v b : dec_WebhookSettings v = Some b -> webhook_ok b.
Proof using Hu64. unfold dec_WebhookSettings. intros H. decoded. split; [|split; [|split]]; cbn; field_range. Qed.

(** A decoded configuration is in range, has no field the program does not
    know, and gives a feed and queries. *)
Theorem decoded_config v c :
  dec_ServerConfig v = Some c ->
  config_in_range c /\
  (forall k x, value_get k v = Some x -> k ∈ config_fields) /\
  is_Some (value_get "feed" v) /\ is_Some (value_get "queries" v).
Proof using Hu64.
  unfold dec_ServerConfig.
  intros (f & Hf & (host & _ & (port & Hport & (auth & _ & (mode & _ & (buffer & Hb & (feed &
    Hfeed & (queries & Hq & (push & Hpu & (poll & Hpo & (webhook & Hw & (tools & _ & (injected & _ &
    [= <-])%bind_Some)%bind_Some)%bind_Some)%bind_Some)%bind_Some)%bind_Some)%bind_Some)%bind_Some)
    %bind_Some)%bind_Some)%bind_Some)%bind_Some)%bind_Some.
  assert (Hv : forall k, f k = value_get k v).
  { revert Hf. unfold strict_view. destruct v; try done. case_bool_decide; [|done]. by intros [= <-]. }
  split; [|split_and!].
  - apply (dflt_Some buffer_ok) in Hb as [? ?]; [|by split; [vm_compute|intros ? [= <-]]|exact dec_BufferSettings_ok].
    apply (dflt_Some webhook_ok) in Hw as (? & ? & ? & ?); [|by vm_compute|exact dec_WebhookSettings_ok].
    apply bind_Some in Hfeed as (w & _ & Hfeed%dec_FeedSettings_ok).
    apply (dflt_Some (fun b => 0 <= heartbeat_interval_ms b <= u64_max)) in Hpu;
      [|by vm_compute|exact dec_PushSettings_ok].
    apply (dflt_Some (fun b => 0 <= next_poll_ms b <= u64_max)) in Hpo; [|by vm_compute|exact dec_PollSettings_ok].
    split; cbn; eauto. field_range.
  - intros k x. rewrite <- Hv. by apply (strict_view_known _ v).
  - rewrite <- Hv. by apply bind_Some in Hfeed as (w & -> & _).
  - rewrite <- Hv. by apply bind_Some in Hq as (w & -> & _).
Qed.
End decode.

(** ** The examples' numbers are [u64]s where they say so. *)
Lemma ZJson_u64 (n : Num (JsonLib := ZJson)) z : num_as_u64 n = Some z -> 0 <= z <= u64_max.
Proof. cbn. destruct (is_u64 n) eqn:E; [|done]. intros [= <-]. by apply is_u64_spec. Qed.

Lemma decoded_config_witness :
  exists c,
    dec_ServerConfig (J := ZJson) (json_obj [("feed", json_obj [("kind", JString "mock")]);
      ("queries", JArray [json_obj [("id", JString "q1")]])]) = Some c /\
    config_in_range c /\ c_port c = 8090.
Proof.
  eexists. split; [reflexivity|]. split; [|reflexivity].
  apply (decoded_config (J := ZJson) ZJson_u64
    (json_obj [("feed", json_obj [("kind", JString "mock")]);
      ("queries", JArray [json_obj [("id", JString "q1")]])])). reflexivity.
Defined.
