(* ===== verification/Mapping.v ===== *)
(** * Event modelling (crates/mcp-events-server/src/mapping.rs): the event
    types and filters a configuration gives rise to, the mapping of feed
    changes to events, and the validation of subscription parameters.

    A fresh uuid and the clock are arguments of [map_feed_event]. *)
From S2P Require Import Prelude RustStd Lib Json Wire Buffer Registry Feed Config.

Definition CHANGE_TYPES : list string := ["added"; "updated"; "deleted"].

Definition change_type_str (c : ChangeType) : string :=
  match c with Added => "added" | Updated => "updated" | Deleted => "deleted" end.

Section mapping.
Context {J : JsonLib}.

Definition change_types_json : Value := JArray (JString <$> CHANGE_TYPES).

Definition change_type_input_schema : Value :=
  json_obj [("type", JString "object");
            ("properties", json_obj
               [("changeType", json_obj
                  [("type", JString "string");
                   ("enum", change_types_json);
                   ("description", JString "Only deliver result-set changes of this type")])])].

(** ** The filters *)
Definition diff_filter : ParamFilter := fun params data =>
  match value_get "changeType" params with
  | None | Some JNull => true
  | Some (JString want) =>
      match value_get "changeType" data ≫= as_str with
      | Some got => bool_decide (got = want)
      | None => false
      end
  | Some _ => false
  end.

Definition known_keys (i : InjectedEventType) : list string :=
  match (in_input_schema i ≫= value_get "properties") ≫= as_object with
  | Some props => props.*1
  | None => []
  end.

Definition injected_filter (keys : list string) : ParamFilter := fun params data =>
  match as_object params with
  | None => true
  | Some obj =>
      forallb (fun kv => bool_decide (value_get kv.1 data = Some kv.2))
        (base.filter (fun kv => kv.1 ∈ keys /\ is_null kv.2 = false) obj)
  end.

(** ** build_event_model *)
Record EventModel := {
  m_defs : list EventDefinition;
  m_filters : gmap string ParamFilter;
  m_diff_names : gset string
}.

Definition delivery_modes (c : ServerConfig) : list DeliveryMode :=
  [Poll; Push] ++ (if wh_enabled (c_webhook c) then [Webhook] else []).

Definition row_schema (q : QueryConfig) : Value :=
  default (json_obj [("type", JString "object")]) (q_payload_schema q).

Definition single_def (c : ServerConfig) (q : QueryConfig) : EventDefinition :=
  let row := row_schema q in
  {| ed_name := q_id q +:+ ".changed";
     ed_description := Some (default
       ("Rows entering/leaving/changing in the `" +:+ q_id q +:+ "` continuous query") (q_description q));
     ed_delivery := delivery_modes c;
     ed_input_schema := Some change_type_input_schema;
     ed_payload_schema := Some (json_obj
       [("type", JString "object");
        ("properties", json_obj
           [("changeType", json_obj [("type", JString "string"); ("enum", change_types_json)]);
            ("before", row); ("after", row)]);
        ("required", JArray [JString "changeType"])]);
     ed_meta := None |}.

Definition per_change_variants (q : QueryConfig) : list (string * string * Value) :=
  let row := row_schema q in
  [("added", "Row entered the `" +:+ q_id q +:+ "` result set", row);
   ("updated", "Row in the `" +:+ q_id q +:+ "` result set changed",
      json_obj [("type", JString "object");
                ("properties", json_obj [("before", row); ("after", row)]);
                ("required", JArray [JString "after"])]);
   ("deleted", "Row left the `" +:+ q_id q +:+ "` result set", row)].

Definition per_change_def (c : ServerConfig) (q : QueryConfig) (v : string * string * Value) : EventDefinition :=
  let '(suffix, desc, payload) := v in
  {| ed_name := q_id q +:+ "." +:+ suffix;
     ed_description := Some (match q_description q with
                             | Some d => d +:+ " (" +:+ suffix +:+ ")"
                             | None => desc
                             end);
     ed_delivery := delivery_modes c;
     ed_input_schema := None;
     ed_payload_schema := Some payload;
     ed_meta := None |}.

(** One pass of the loop over the queries. *)
Definition add_query (c : ServerConfig) (m : EventModel) (q : QueryConfig) : EventModel :=
  match c_event_modeling c with
  | Single =>
      let d := single_def c q in
      {| m_defs := m_defs m ++ [d];
         m_filters := <[ed_name d := diff_filter]> (m_filters m);
         m_diff_names := {[ed_name d]} ∪ m_diff_names m |}
  | PerChange =>
      {| m_defs := m_defs m ++ (per_change_def c q <$> per_change_variants q);
         m_filters := m_filters m;
         m_diff_names := m_diff_names m |}
  end.

Definition injected_def (c : ServerConfig) (i : InjectedEventType) : EventDefinition :=
  {| ed_name := in_name i; ed_description := Some (in_description i);
     ed_delivery := delivery_modes c; ed_input_schema := in_input_schema i;
     ed_payload_schema := in_payload_schema i; ed_meta := None |}.

Definition add_injected (c : ServerConfig) (m : EventModel) (i : InjectedEventType) : EventModel :=
  {| m_defs := m_defs m ++ [injected_def c i];
     m_filters := <[in_name i := injected_filter (known_keys i)]> (m_filters m);
     m_diff_names := m_diff_names m |}.

Definition build_event_model (c : ServerConfig) : EventModel :=
  foldl (add_injected c)
    (foldl (add_query c) {| m_defs := []; m_filters := ∅; m_diff_names := ∅ |} (c_queries c))
    (c_injected c).

(** ** map_feed_event *)
Definition insert_opt (k : string) (o : option Value) (m : Map) : Map :=
  match o with Some v => map_insert k v m | None => m end.

Definition map_feed_event (mode : EventModeling) (uuid : string) (now : Z) (ev : FeedEvent)
    : option EmittedEvent :=
  let event_id := default uuid (fe_upstream_id ev) in
  let timestamp := default now (fe_timestamp ev) in
  '(name, data) ←
    match mode with
    | Single =>
        let data := map_insert "changeType" (JString (change_type_str (fe_change ev))) [] in
        let data := insert_opt "before" (fe_before ev) data in
        let data := insert_opt "after" (fe_after ev) data in
        Some (fe_query_id ev +:+ ".changed", JObject data)
    | PerChange =>
        match fe_change ev with
        | Added => after ← fe_after ev; Some (fe_query_id ev +:+ ".added", after)
        | Updated =>
            after ← fe_after ev;
            Some (fe_query_id ev +:+ ".updated",
                  JObject (map_insert "after" after (insert_opt "before" (fe_before ev) [])))
        | Deleted => before ← fe_before ev; Some (fe_query_id ev +:+ ".deleted", before)
        end
    end;
  Some {| em_name := name; em_event_id := event_id; em_timestamp := timestamp; em_data := data |}.

(** ** validate_event_params *)
Definition validate_event_params (diff_names : gset string) (name : string) (params : option Value)
    : result JsonRpcError unit :=
  match params with
  | None | Some JNull => Ok ()
  | Some p =>
      match as_object p with
      | None => Err (invalid_params "params must be an object")
      | Some obj =>
          if bool_decide (name ∈ diff_names) then
            match map_get "changeType" obj with
            | Some ct =>
                if is_null ct || match as_str ct with
                                 | Some s => bool_decide (s ∈ CHANGE_TYPES)
                                 | None => false
                                 end
                then Ok ()
                else Err (invalid_params ("params.changeType must be one of " +:+ String "034" "added"
                  +:+ String "034" ", " +:+ String "034" "updated" +:+ String "034" ", "
                  +:+ String "034" "deleted" +:+ String "034" ""))
            | None => Ok ()
            end
          else Ok ()
      end
  end.

(** The forwarding loop of [spawn_feed_pipeline], one event of the feed. *)
Definition pipeline_step {C : Chrono} (mode : EventModeling) (r : Registry) (b : EventBuffer)
    (uuid : string) (map_now emit_now : Z) (ev : FeedEvent) : EventBuffer :=
  match map_feed_event mode uuid map_now ev with
  | None => b
  | Some em =>
      match registry_get r (em_name em) with
      | Some _ => (emit b emit_now em).1
      | None => b
      end
  end.

(** ** What the model of a configuration holds *)
Definition query_defs (c : ServerConfig) (q : QueryConfig) : list EventDefinition :=
  match c_event_modeling c with
  | Single => [single_def c q]
  | PerChange => per_change_def c q <$> per_change_variants q
  end.

Lemma query_defs_names c q : ed_name <$> query_defs c q = derived_names (c_event_modeling c) q.
Proof. unfold query_defs. by destruct (c_event_modeling c). Qed.

Lemma foldl_add_query_defs c m qs :
  m_defs (foldl (add_query c) m qs) = m_defs m ++ (qs ≫= query_defs c).
Proof.
  revert m. induction qs as [|q qs IH]; intros m; csimpl; [by rewrite app_nil_r|].
  rewrite IH. unfold add_query, query_defs.
  destruct (c_event_modeling c); simpl; by rewrite <- (assoc_L (++)).
Qed.

Lemma foldl_add_injected_defs c m l :
  m_defs (foldl (add_injected c) m l) = m_defs m ++ (injected_def c <$> l).
Proof.
  revert m. induction l as [|i l IH]; intros m; csimpl; [by rewrite app_nil_r|].
  rewrite IH. simpl. by rewrite <- (assoc_L (++)).
Qed.

Lemma model_defs c :
  m_defs (build_event_model c) = (c_queries c ≫= query_defs c) ++ (injected_def c <$> c_injected c).
Proof. unfold build_event_model. by rewrite foldl_add_injected_defs, foldl_add_query_defs. Qed.

Lemma model_delivery c d : d ∈ m_defs (build_event_model c) -> ed_delivery d = delivery_modes c.
Proof.
  rewrite model_defs. intros [(q & Hd & _)%list_elem_of_bind|(i & -> & _)%list_elem_of_fmap]%elem_of_app;
    [|done].
  unfold query_defs, per_change_variants in Hd. destruct (c_event_modeling c); set_unfold in Hd.
  - destruct Hd as [->|[]]. done.
  - destruct Hd as ([[? ?] ?] & -> & _). done.
Qed.

(** ** The names and filters *)
Lemma foldl_add_injected_diff c m l : m_diff_names (foldl (add_injected c) m l) = m_diff_names m.
Proof. revert m. induction l as [|i l IH]; intros m; [done|]. simpl. by rewrite IH. Qed.

Lemma foldl_add_query_diff c m qs n :
  c_event_modeling c = Single ->
  n ∈ m_diff_names (foldl (add_query c) m qs) <->
  n ∈ m_diff_names m \/ n ∈ qs ≫= derived_names Single.
Proof.
  intros Hm. revert m. induction qs as [|q qs IH]; intros m; csimpl; [set_solver|].
  rewrite IH. unfold add_query. rewrite Hm. simpl. set_solver.
Qed.

Lemma foldl_add_query_per_change c m qs :
  c_event_modeling c = PerChange ->
  m_diff_names (foldl (add_query c) m qs) = m_diff_names m /\
  m_filters (foldl (add_query c) m qs) = m_filters m.
Proof.
  intros Hm. revert m. induction qs as [|q qs IH]; intros m; [done|]. simpl.
  destruct (IH (add_query c m q)) as [-> ->]. unfold add_query. by rewrite Hm.
Qed.

Lemma foldl_add_query_filters c m qs n :
  c_event_modeling c = Single -> n ∈ qs ≫= derived_names Single ->
  m_filters (foldl (add_query c) m qs) !! n = Some diff_filter.
Proof.
  intros Hm. revert m. induction qs as [|q qs IH] using rev_ind; intros m; [set_solver|].
  rewrite bind_app, foldl_snoc. unfold add_query at 1. rewrite Hm. simpl.
  intros Hn. destruct (decide (n = q_id q +:+ ".changed")) as [->|Hne].
  - by rewrite lookup_insert_eq.
  - rewrite lookup_insert_ne by done. apply IH. set_solver.
Qed.

Lemma foldl_add_injected_other c m l n :
  n ∉ in_name <$> l -> m_filters (foldl (add_injected c) m l) !! n = m_filters m !! n.
Proof.
  revert m. induction l as [|i l IH]; intros m Hn; [done|]. simpl. rewrite IH by set_solver.
  simpl. rewrite lookup_insert_ne; [done|]. set_solver.
Qed.

(** The last injected type of a name. *)
Definition last_injected (n : string) (l : list InjectedEventType) : option InjectedEventType :=
  last (base.filter (fun i => in_name i = n) l).

Lemma foldl_add_injected_filter c m l n i :
  last_injected n l = Some i ->
  m_filters (foldl (add_injected c) m l) !! n = Some (injected_filter (known_keys i)).
Proof.
  unfold last_injected. induction l as [|j l IH] using rev_ind; [done|].
  rewrite filter_app, foldl_snoc. simpl. destruct (decide (in_name j = n)) as [<-|Hne].
  - rewrite filter_cons_True, filter_nil, last_snoc by done. intros [= ->]. by rewrite lookup_insert_eq.
  - rewrite filter_cons_False, filter_nil, app_nil_r, lookup_insert_ne by done. exact IH.
Qed.

Lemma model_diff_names c n :
  n ∈ m_diff_names (build_event_model c) <->
  c_event_modeling c = Single /\ n ∈ c_queries c ≫= derived_names Single.
Proof.
  unfold build_event_model. rewrite foldl_add_injected_diff.
  destruct (c_event_modeling c) eqn:Hm.
  - rewrite foldl_add_query_diff by done. simpl. set_solver.
  - rewrite (proj1 (foldl_add_query_per_change c _ _ Hm)). simpl. set_solver.
Qed.

Lemma validate_disjoint c n :
  validate c = Ok () -> n ∈ c_queries c ≫= derived_names (c_event_modeling c) ->
  n ∉ in_name <$> c_injected c.
Proof.
  unfold validate. rewrite bind_Ok. intros ([] & Hi & _) Hn (i & -> & Hin)%list_elem_of_fmap.
  rewrite check_injected_Ok, Forall_forall in Hi. by apply (Hi i Hin).
Qed.

(** The registry of a configuration. *)
Definition model_registry (c : ServerConfig) : Registry := registry_new (m_defs (build_event_model c)).

(** The side of a change its mode requires. *)
Definition has_required_side (mode : EventModeling) (ev : FeedEvent) : Prop :=
  match mode, fe_change ev with
  | Single, _ => True
  | PerChange, (Added | Updated) => is_Some (fe_after ev)
  | PerChange, Deleted => is_Some (fe_before ev)
  end.

Lemma map_feed_event_name mode uuid now ev em :
  map_feed_event mode uuid now ev = Some em ->
  em_name em = fe_query_id ev +:+
    match mode with Single => ".changed" | PerChange => "." +:+ change_type_str (fe_change ev) end.
Proof.
  unfold map_feed_event. destruct mode; [by intros [= <-]|].
  destruct (fe_change ev), (fe_after ev), (fe_before ev); simpl; by intros [= <-].
Qed.

Lemma map_feed_event_registered c q uuid now ev em :
  q ∈ c_queries c -> fe_query_id ev = q_id q ->
  map_feed_event (c_event_modeling c) uuid now ev = Some em ->
  em_name em ∈ derived_names (c_event_modeling c) q /\
  em_name em ∈ ed_name <$> m_defs (build_event_model c).
Proof.
  intros Hq Hid H. apply map_feed_event_name in H.
  assert (em_name em ∈ derived_names (c_event_modeling c) q) as Hn.
  { rewrite H, Hid. unfold derived_names. destruct (c_event_modeling c); [set_solver|].
    destruct (fe_change ev); set_solver. }
  split; [done|]. rewrite model_defs, fmap_app. apply elem_of_app. left.
  rewrite <- query_defs_names in Hn. apply list_elem_of_fmap in Hn as (d & E & Hd).
  apply list_elem_of_fmap. exists d. split; [done|]. apply list_elem_of_bind. eauto.
Qed.

(** Nothing the feed reports about a configured query is lost on the way
    to the buffer: the pipeline emits exactly one event for it, under a
    registered event type that offers poll and push delivery (and webhook
    delivery exactly when that is enabled), with the id and time of the feed
    when it gave them; the only changes dropped are those that lack the row
    image their mode requires. *)
Theorem pipeline_complete {C : Chrono} c q b uuid map_now emit_now ev :
  q ∈ c_queries c -> fe_query_id ev = q_id q ->
  let b' := pipeline_step (c_event_modeling c) (model_registry c) b uuid map_now emit_now ev in
  if bool_decide (map_feed_event (c_event_modeling c) uuid map_now ev = None)
  then b' = b /\ ~ has_required_side (c_event_modeling c) ev
  else exists em d,
    b' = (emit b emit_now em).1 /\
    em_name em ∈ derived_names (c_event_modeling c) q /\
    registry_get (model_registry c) (em_name em) = Some d /\ ed_name d = em_name em /\
    Poll ∈ ed_delivery d /\ Push ∈ ed_delivery d /\
    (Webhook ∈ ed_delivery d <-> wh_enabled (c_webhook c) = true) /\
    em_event_id em = default uuid (fe_upstream_id ev) /\
    em_timestamp em = default map_now (fe_timestamp ev).
Proof.
  intros Hq Hid b'. unfold b', pipeline_step. clear b'. case_bool_decide as Hm.
  - rewrite Hm. split; [done|]. unfold map_feed_event in Hm. unfold has_required_side.
    destruct (c_event_modeling c); [done|].
    destruct (fe_change ev), (fe_after ev), (fe_before ev); try done; by intros [? ?].
  - destruct (map_feed_event _ _ _ _) as [em|] eqn:E; [|done].
    destruct (map_feed_event_registered c q _ _ _ _ Hq Hid E) as [Hn Hr].
    destruct (registry_get_is_Some _ _ Hr) as [d Hd]. pose proof (registry_get_Some _ _ _ Hd) as [Hdn Hin].
    pose proof (model_delivery c d Hin) as Hdel. exists em, d. unfold model_registry. rewrite Hd, Hdel.
    unfold delivery_modes. split_and!; try done.
    + set_solver.
    + set_solver.
    + destruct (wh_enabled (c_webhook c)); set_solver.
    + clear -E. unfold map_feed_event in E. destruct (c_event_modeling c); [by injection E as <-|].
      destruct (fe_change ev), (fe_after ev), (fe_before ev); simpl in E; by simplify_eq.
    + clear -E. unfold map_feed_event in E. destruct (c_event_modeling c); [by injection E as <-|].
      destruct (fe_change ev), (fe_after ev), (fe_before ev); simpl in E; by simplify_eq.
Qed.

(** What a subscription to a diff type asks for. *)
Definition requested_change (p : Value) : option string := value_get "changeType" p ≫= as_str.

Lemma mapped_change_type uuid now ev em :
  map_feed_event Single uuid now ev = Some em ->
  value_get "changeType" (em_data em) = Some (JString (change_type_str (fe_change ev))).
Proof.
  intros [= <-]. simpl. unfold insert_opt.
  destruct (fe_before ev), (fe_after ev); rewrite ?map_get_insert; simpl;
    rewrite ?map_get_insert; simpl; by rewrite ?map_get_insert.
Qed.

(** Filtering of diff types: in a valid configuration modelling one event
    type per query, the filter of a query's type survives the injected types,
    and for parameters that pass validation it lets exactly the changes of the
    requested kind through, or all of them when none is requested. *)
Theorem diff_filter_selects c q uuid now ev em p :
  validate c = Ok () -> c_event_modeling c = Single -> q ∈ c_queries c -> fe_query_id ev = q_id q ->
  map_feed_event Single uuid now ev = Some em ->
  let m := build_event_model c in
  validate_event_params (m_diff_names m) (em_name em) (Some p) = Ok () ->
  exists f, m_filters m !! em_name em = Some f /\
    (f p (em_data em) = true <->
     match requested_change p with
     | None => True
     | Some kind => kind = change_type_str (fe_change ev)
     end) /\
    match requested_change p with None => True | Some kind => kind ∈ CHANGE_TYPES end.
Proof.
  intros Hv Hm Hq Hid Hmap m Hp. pose proof (map_feed_event_name _ _ _ _ _ Hmap) as Hn.
  assert (em_name em ∈ c_queries c ≫= derived_names Single) as Hin.
  { apply list_elem_of_bind. exists q. split; [|done]. rewrite Hn, Hid. unfold derived_names. set_solver. }
  exists diff_filter. split; [|].
  - unfold m, build_event_model. rewrite foldl_add_injected_other.
    + by apply foldl_add_query_filters.
    + apply validate_disjoint; [done|by rewrite Hm].
  - assert (em_name em ∈ m_diff_names m) as Hd by (apply model_diff_names; done).
    unfold diff_filter, requested_change. rewrite (mapped_change_type _ _ _ _ Hmap).
    destruct p as [| | | | |o]; try done. unfold validate_event_params in Hp. simpl in *.
    rewrite bool_decide_eq_true_2 in Hp by done.
    destruct (map_get "changeType" o) as [[| | |s| |]|]; simpl in *; try done.
    rewrite bool_decide_eq_true. destruct (bool_decide (s ∈ CHANGE_TYPES)) eqn:E; [|done]. bsimp.
    split; [|done]. split; congruence.
Qed.

(** Filtering of injected types: in a valid configuration the definition
    a subscriber finds under an injected name and the filter applied to it
    come from the same entry, the last of that name; the filter passes an
    occurrence exactly when every non-null parameter the entry's input schema
    declares equals the occurrence's field, and the name is not subject to
    the [changeType] check. *)
Theorem injected_filter_selects c i obj data :
  validate c = Ok () -> last_injected (in_name i) (c_injected c) = Some i ->
  let m := build_event_model c in
  registry_get (model_registry c) (in_name i) = Some (injected_def c i) /\
  ~ (in_name i ∈ m_diff_names m) /\
  exists f, m_filters m !! in_name i = Some f /\
    (f (JObject obj) data = true <->
     forall k v, (k, v) ∈ obj -> k ∈ known_keys i -> v <> JNull -> value_get k data = Some v).
Proof.
  intros Hv Hl m.
  assert (in_name i ∈ in_name <$> c_injected c) as Hin.
  { apply list_elem_of_fmap. exists i. split; [done|].
    apply last_Some_elem_of, list_elem_of_filter in Hl. by destruct Hl. }
  split_and!.
  - unfold model_registry. rewrite registry_get_named, model_defs. unfold last_named.
    rewrite filter_app, last_app.
    assert (forall l : list InjectedEventType, base.filter (fun d => ed_name d = in_name i) (injected_def c <$> l)
      = injected_def c <$> base.filter (fun j => in_name j = in_name i) l) as Hf.
    { intros l. induction l as [|j l IH]; [done|]. csimpl. rewrite !filter_cons. simpl.
      case_decide; csimpl; by rewrite IH. }
    rewrite Hf, fmap_last. unfold last_injected in Hl. by rewrite Hl.
  - intros [Hm Hd]%model_diff_names. rewrite <- Hm in Hd. by apply (validate_disjoint c _ Hv) in Hd.
  - eexists. split; [by apply foldl_add_injected_filter|]. unfold injected_filter. simpl.
    rewrite forallb_forall. setoid_rewrite <- list_elem_of_In. setoid_rewrite bool_decide_eq_true. split.
    + intros H k v Hkv Hk Hnn. apply (H (k, v)). apply list_elem_of_filter. split; [|done].
      simpl. split; [done|]. by destruct v.
    + intros H [k v] [[Hk Hnn] Hkv]%list_elem_of_filter. simpl in *. apply H; [done..|]. by intros ->.
Qed.
End mapping.

(** ** Examples *)
Definition ex_config_of (mode : EventModeling) : ServerConfig :=
  {| c_host := default_host; c_port := default_port; c_auth_tokens := [];
     c_event_modeling := mode; c_buffer := BufferSettings_default;
     c_feed := {| fs_kind := MockKind; fs_query_id := None; fs_interval_ms := None; fs_url := None |};
     c_queries := [{| q_id := "orders"; q_description := None; q_payload_schema := None |}];
     c_push := PushSettings_default; c_poll := PollSettings_default;
     c_webhook := WebhookSettings_default; c_tools := ToolsSettings_default;
     c_injected := [{| in_name := "incident"; in_description := "d"; in_payload_schema := None;
       in_input_schema := Some (json_obj [("properties", json_obj [("priority", JNull)])]) |}] |}.

Definition ex_change : FeedEvent :=
  {| fe_query_id := "orders"; fe_change := Added; fe_before := None; fe_after := Some (json_int 1);
     fe_timestamp := Some 5; fe_upstream_id := Some "u-1" |}.

Definition ex_added : Value := json_obj [("changeType", JString "added")].

Lemma pipeline_complete_witness :
  exists em, pipeline_step Single (model_registry (ex_config_of Single)) (buffer_new Buffer.ex_config 7)
      "uuid" 0 9 ex_change = (emit (buffer_new Buffer.ex_config 7) 9 em).1 /\ em_event_id em = "u-1".
Proof.
  pose proof (pipeline_complete (ex_config_of Single)
    {| q_id := "orders"; q_description := None; q_payload_schema := None |}
    (buffer_new Buffer.ex_config 7) "uuid" 0 9 ex_change ltac:(by left) eq_refl) as H.
  case_bool_decide as Hm; [discriminate Hm|].
  destruct H as (em & d & Hb & _ & _ & _ & _ & _ & _ & Hid & _). exists em. by split.
Defined.

Lemma diff_filter_selects_witness :
  exists em f, map_feed_event Single "uuid" 0 ex_change = Some em /\
    m_filters (build_event_model (ex_config_of Single)) !! em_name em = Some f /\
    f ex_added (em_data em) = true.
Proof.
  destruct (map_feed_event Single "uuid" 0 ex_change) as [em|] eqn:E; [|discriminate E].
  destruct (diff_filter_selects (ex_config_of Single)
    {| q_id := "orders"; q_description := None; q_payload_schema := None |} "uuid" 0 ex_change em ex_added)
    as (f & Hf & Hsel & _); [|done|by left|done|done| |].
  - decide_closed.
  - injection E as <-. reflexivity.
  - exists em, f. split; [done|]. split; [exact Hf|]. apply Hsel. reflexivity.
Defined.

Lemma injected_filter_selects_witness :
  exists f, m_filters (build_event_model (ex_config_of PerChange)) !! "incident" = Some f /\
    (f (JObject [("priority", JString "P1")]) (json_obj [("priority", JString "P2")]) = true -> False).
Proof.
  destruct (injected_filter_selects (ex_config_of PerChange)
    {| in_name := "incident"; in_description := "d"; in_payload_schema := None;
       in_input_schema := Some (json_obj [("properties", json_obj [("priority", JNull)])]) |}
    [("priority", JString "P1")] (json_obj [("priority", JString "P2")])) as (_ & _ & f & Hf & Hsel).
  - decide_closed.
  - reflexivity.
  - exists f. split; [exact Hf|]. rewrite Hsel. intros H.
    assert (value_get "priority" (json_obj [("priority", JString "P2")]) = Some (JString "P1")) as E.
    { apply H; [by left|by left|done]. }
    discriminate E.
Defined.
