(* ===== verification/State.v ===== *)
(** * Application state and the programs that run on it
    (crates/mcp-events-server/src/state.rs).

    A handler is a [Prog]: a sequence of atomic steps on the shared state,
    each a method call that holds one lock, with requests to the outside world
    in between ([Ask]: an HTTP exchange, a name lookup).  [exec] runs a
    program while other tasks change the state between its steps. *)
From S2P Require Import Prelude RustStd Lib Json Wire Buffer Registry Store Config Mapping.

(** ** serde_json's parser and the texts of its errors, as parameters *)
Class SerdeLib {J : JsonLib} := {
  json_from_str : string -> option Value;
  json_error : string -> string;
  decode_error : string -> Value -> string   (* type name, value *)
}.

Class SerdeLaws {J : JsonLib} (S : SerdeLib) : Prop := {
  json_from_text v : json_from_str (value_to_string v) = Some (normal v);
  json_from_str_wf s v : json_from_str s = Some v -> wf_value v
}.

Section laws.
Context {J : JsonLib} {S : SerdeLib} {SL : SerdeLaws S}.

Lemma json_from_to v : wf_value v -> json_from_str (value_to_string v) = Some v.
Proof. intros Hv. by rewrite json_from_text, normal_wf. Qed.

(** A struct's text, fields in any order, reads as its value. *)
Lemma json_from_struct l :
  Forall (fun kv => from_option wf_value True kv.2) l -> json_from_str (struct_text l) = Some (json_struct l).
Proof. intros Hl. unfold struct_text. by rewrite json_from_text, normal_struct. Qed.
End laws.

(** [serde_json::to_string_pretty] *)
Class PrettyJson (J : JsonLib) := { to_string_pretty : Value -> string }.

Section state.
Context {J : JsonLib} {C : Chrono} {Y : Crypto}.

Record AppState := {
  a_config : ServerConfig;
  a_registry : Registry;
  a_buffer : EventBuffer;
  a_subs : Store;
  a_filters : gmap string ParamFilter;
  a_injected_names : gset string;
  a_diff_names : gset string
}.

Inductive AppError : Type := BadConfig (e : ConfigError) | HttpClientError.

(** [AppState::new]; [rnd] is the buffer's epoch, [http_ok] whether the
    outbound client could be built. *)
Definition app_new (config : ServerConfig) (rnd : Z) (http_ok : bool) : result AppError AppState :=
  _ ← map_err BadConfig (validate config);
  let m := build_event_model config in
  let max_age := (fun ms => milliseconds (i64_try_from_or_max ms)) <$> bs_max_age_ms (c_buffer config) in
  if http_ok then
    Ok {| a_config := config;
          a_registry := registry_new (m_defs m);
          a_buffer := buffer_new {| max_events_per_type := bs_max_events_per_type (c_buffer config);
                                    max_age := max_age |} rnd;
          a_subs := store_new (wh_max_subscriptions_per_principal (c_webhook config));
          a_filters := m_filters m;
          a_injected_names := list_to_set (in_name <$> c_injected config);
          a_diff_names := m_diff_names m |}
  else Err HttpClientError.

Definition with_buffer (s : AppState) (b : EventBuffer) : AppState :=
  {| a_config := a_config s; a_registry := a_registry s; a_buffer := b; a_subs := a_subs s;
     a_filters := a_filters s; a_injected_names := a_injected_names s; a_diff_names := a_diff_names s |}.

Definition with_store (s : AppState) (st : Store) : AppState :=
  {| a_config := a_config s; a_registry := a_registry s; a_buffer := a_buffer s; a_subs := st;
     a_filters := a_filters s; a_injected_names := a_injected_names s; a_diff_names := a_diff_names s |}.

(** The atomic steps tasks take on the shared state. *)
Inductive AppStep : AppState -> AppState -> Prop :=
| StepBuffer s o : AppStep s (with_buffer s (buf_step (a_buffer s) o))
| StepStore s o : AppStep s (with_store s (store_step (a_subs s) o)).

Inductive AppSteps : AppState -> AppState -> Prop :=
| StepsRefl s : AppSteps s s
| StepsCons s1 s2 s3 : AppStep s1 s2 -> AppSteps s2 s3 -> AppSteps s1 s3.

(** ** Programs *)
Inductive Prog (Q R A : Type) : Type :=
| Ret (a : A)
| Atomic (X : Type) (f : AppState -> AppState * X) (k : X -> Prog Q R A)
| Ask (q : Q) (k : R -> Prog Q R A).
#[global] Arguments Ret {Q R A} a.
#[global] Arguments Atomic {Q R A X} f k.
#[global] Arguments Ask {Q R A} q k.

(** A run: between any two steps other tasks take any number of theirs, and
    the outside world gives any answer. *)
Fixpoint exec {Q R A} (p : Prog Q R A) (s : AppState) (a : A) (s' : AppState) : Prop :=
  match p with
  | Ret x => a = x /\ s' = s
  | Atomic f k => exists s1, AppSteps (f s).1 s1 /\ exec (k (f s).2) s1 a s'
  | Ask q k => exists r s1, AppSteps s s1 /\ exec (k r) s1 a s'
  end.

(** A run alone, the answers given by [env]. *)
Fixpoint run {Q R A} (env : Q -> R) (p : Prog Q R A) (s : AppState) : A * AppState :=
  match p with
  | Ret a => (a, s)
  | Atomic f k => run env (k (f s).2) (f s).1
  | Ask q k => run env (k (env q)) s
  end.

Lemma run_exec {Q R A} (env : Q -> R) (p : Prog Q R A) s :
  exec p s (run env p s).1 (run env p s).2.
Proof.
  revert s. induction p as [a|X f k IH|q k IH]; intros s; simpl.
  - done.
  - eexists. split; [constructor|]. apply IH.
  - eexists _, _. split; [constructor|]. apply IH.
Qed.

(** A run with what it did: its own steps, each with the states before and
    after, and its questions with their answers. *)
Inductive Moment (Q R : Type) : Type :=
| Did (pre post : AppState)
| Asked (q : Q) (r : R).
#[global] Arguments Did {Q R} pre post.
#[global] Arguments Asked {Q R} q r.

Fixpoint exec_seen {Q R A} (p : Prog Q R A) (s : AppState) (a : A) (s' : AppState) (l : list (Moment Q R)) : Prop :=
  match p with
  | Ret x => a = x /\ s' = s /\ l = []
  | Atomic f k => exists s1 l1, l = Did s (f s).1 :: l1 /\ AppSteps (f s).1 s1 /\ exec_seen (k (f s).2) s1 a s' l1
  | Ask q k => exists r s1 l1, l = Asked q r :: l1 /\ AppSteps s s1 /\ exec_seen (k r) s1 a s' l1
  end.

Lemma exec_exec_seen {Q R A} (p : Prog Q R A) s a s' : exec p s a s' <-> exists l, exec_seen p s a s' l.
Proof.
  revert s. induction p as [x|X f k IH|q k IH]; intros s; simpl.
  - split; [intros [-> ->]; by exists []|by intros (l & -> & -> & _)].
  - setoid_rewrite IH. split.
    + intros (s1 & H & l & Hl). exists (Did s (f s).1 :: l), s1, l. done.
    + intros (l & s1 & l1 & _ & H & Hl). eauto.
  - setoid_rewrite IH. split.
    + intros (r & s1 & H & l & Hl). exists (Asked q r :: l), r, s1, l. done.
    + intros (l & r & s1 & l1 & _ & H & Hl). eauto.
Qed.

(** What a run alone does. *)
Fixpoint run_seen {Q R A} (env : Q -> R) (p : Prog Q R A) (s : AppState) : list (Moment Q R) :=
  match p with
  | Ret a => []
  | Atomic f k => Did s (f s).1 :: run_seen env (k (f s).2) (f s).1
  | Ask q k => Asked q (env q) :: run_seen env (k (env q)) s
  end.

Lemma run_exec_seen {Q R A} (env : Q -> R) (p : Prog Q R A) s :
  exec_seen p s (run env p s).1 (run env p s).2 (run_seen env p s).
Proof.
  revert s. induction p as [a|X f k IH|q k IH]; intros s; simpl; [done|..].
  - eexists _, _. split; [done|]. split; [constructor|]. apply IH.
  - eexists _, _, _. split; [done|]. split; [constructor|]. apply IH.
Qed.

(** Sequencing. *)
Fixpoint prog_bind {Q R A B} (p : Prog Q R A) (k : A -> Prog Q R B) : Prog Q R B :=
  match p with
  | Ret a => k a
  | Atomic f k' => Atomic f (fun x => prog_bind (k' x) k)
  | Ask q k' => Ask q (fun r => prog_bind (k' r) k)
  end.

Lemma exec_bind {Q R A B} (p : Prog Q R A) (k : A -> Prog Q R B) s b s' :
  exec (prog_bind p k) s b s' <-> exists a s1, exec p s a s1 /\ exec (k a) s1 b s'.
Proof.
  revert s. induction p as [a|X f k' IH|q k' IH]; intros s; simpl.
  - naive_solver.
  - setoid_rewrite IH. naive_solver.
  - setoid_rewrite IH. naive_solver.
Qed.

Lemma run_bind {Q R A B} (env : Q -> R) (p : Prog Q R A) (k : A -> Prog Q R B) s :
  run env (prog_bind p k) s = run env (k (run env p s).1) (run env p s).2.
Proof. revert s. induction p as [a|X f k' IH|q k' IH]; intros s; simpl; auto. Qed.

(** A program of one step from [s]. *)
Definition single_step {Q R A} (p : Prog Q R A) (s : AppState) : Prop :=
  match p with
  | Atomic f k => match k (f s).2 with Ret _ => True | _ => False end
  | _ => False
  end.

Lemma run_seen_single {Q R A} (env : Q -> R) (p : Prog Q R A) s :
  single_step p s -> Did s (run env p s).2 ∈ run_seen env p s.
Proof. destruct p as [|X f k|]; simpl; [done| |done]. destruct (k (f s).2); [by left|done..]. Qed.

(** Every step of a program, whatever it is given, relates its two states. *)
Fixpoint steps_in {Q R A} (P : AppState -> AppState -> Prop) (p : Prog Q R A) : Prop :=
  match p with
  | Ret _ => True
  | Atomic f k => (forall s, P s (f s).1) /\ forall x, steps_in P (k x)
  | Ask q k => forall r, steps_in P (k r)
  end.

Lemma steps_in_seen {Q R A} P (p : Prog Q R A) s a s' l :
  steps_in P p -> exec_seen p s a s' l -> forall pre post, Did pre post ∈ l -> P pre post.
Proof.
  revert s l. induction p as [x|X f k IH|q k IH]; intros s l; simpl.
  - intros _ (_ & _ & ->) pre post []%elem_of_nil.
  - intros [Hf Hk] (s1 & l1 & -> & _ & H) pre post [[= -> ->]|Hin]%elem_of_cons; [apply Hf|eauto].
  - intros Hk (r & s1 & l1 & -> & _ & H) pre post [?|Hin]%elem_of_cons; [done|eauto].
Qed.

Lemma steps_in_bind {Q R A B} P (p : Prog Q R A) (k : A -> Prog Q R B) :
  steps_in P p -> (forall a, steps_in P (k a)) -> steps_in P (prog_bind p k).
Proof. intros H Hk. induction p as [x|X f k' IH|q k' IH]; simpl in *; naive_solver. Qed.

(** ** What interference cannot change *)

(** The parts of the state that are fixed at start-up. *)
Record same_setup (s s' : AppState) : Prop := {
  ss_config : a_config s' = a_config s;
  ss_registry : a_registry s' = a_registry s;
  ss_filters : a_filters s' = a_filters s;
  ss_injected : a_injected_names s' = a_injected_names s;
  ss_diff : a_diff_names s' = a_diff_names s
}.

#[export] Instance same_setup_preorder : PreOrder same_setup.
Proof. split; [by intros s; split|]. intros s1 s2 s3 [] []. split; congruence. Qed.

Lemma store_step_verified (st : Store) o x : x ∈ verified st -> x ∈ verified (store_step st o).
Proof.
  intros H. destruct o as [now k x0 y rb c|k|now|id a|id cat a n|p u|id|id c]; simpl.
  - unfold upsert, upsert_create. by repeat case_match.
  - done.
  - unfold expire_lapsed. assert (forall ids r st, verified (expire_ids st ids r).1 = verified st) as E.
    { intros ids. induction ids as [|i ids IH]; intros r st'; [done|]. simpl.
      destruct (subs st' !! i); by rewrite IH. }
    by rewrite E.
  - unfold mark_delivery_ok. by case_match.
  - unfold mark_delivery_failed. by case_match.
  - set_solver.
  - unfold reactivate. by case_match.
  - unfold update_cursor. by case_match.
Qed.

Lemma app_steps_setup s s' : AppSteps s s' -> same_setup s s'.
Proof.
  induction 1 as [s|s1 s2 s3 H _ IH]; [reflexivity|]. etrans; [|exact IH].
  by destruct H; split.
Qed.

Lemma app_steps_verified s s' x :
  AppSteps s s' -> x ∈ verified (a_subs s) -> x ∈ verified (a_subs s').
Proof.
  induction 1 as [s|s1 s2 s3 H _ IH]; [done|]. intros Hx. apply IH.
  destruct H as [s o|s o]; [done|]. by apply store_step_verified.
Qed.
End state.
#[global] Hint Constructors AppSteps : mcp.

(** ** Examples *)

(** A reader of one kind of body only: the bare nonce. *)
Definition EchoSerde : SerdeLib := {|
  json_from_str s := Some (JObject [("challenge", JString s)]);
  json_error _ := "invalid";
  decode_error t _ := "invalid " +:+ t
|}.

Definition ex_server : ServerConfig :=
  let c := ex_config_of Single in
  {| c_host := c_host c; c_port := c_port c; c_auth_tokens := [];
     c_event_modeling := Single; c_buffer := c_buffer c; c_feed := c_feed c; c_queries := c_queries c;
     c_push := c_push c; c_poll := c_poll c;
     c_webhook := {| wh_enabled := true; wh_ttl_cap_ms := default_ttl_cap_ms;
       wh_min_ttl_ms := default_min_ttl_ms; wh_max_subscriptions_per_principal := 2;
       wh_allow_insecure_urls := true; wh_suspend_after_failures := default_suspend_after_failures |};
     c_tools := c_tools c; c_injected := c_injected c |}.

Definition ex_model : EventModel := build_event_model ex_server.

Definition ex_app : AppState :=
  {| a_config := ex_server; a_registry := registry_new (m_defs ex_model);
     a_buffer := buffer_new {| max_events_per_type := default_max_events_per_type;
       max_age := (fun ms => milliseconds (i64_try_from_or_max ms)) <$> default_max_age_ms |} 7;
     a_subs := store_new 2; a_filters := m_filters ex_model;
     a_injected_names := {["incident"]}; a_diff_names := m_diff_names ex_model |}.

Example app_new_ex : app_new ex_server 7 true = Ok ex_app.
Proof. reflexivity. Qed.
