(* ===== verification/Handlers.v ===== *)
(** * The events/list and events/poll handlers
    (crates/mcp-events-server/src/handlers: mod.rs, list.rs, poll.rs).

    Serializing a result cannot fail (the wire structs have string keys), so
    the [map_err] on [to_value] has no branch here. *)
From S2P Require Import Prelude RustStd Lib Json Wire Buffer Registry Store Config Mapping State.

Section handlers.
Context {J : JsonLib} {C : Chrono} {Y : Crypto} {S : SerdeLib}.

Definition parse_params {T} (tname : string) (dec : Value -> option T) (params : option Value)
    : result JsonRpcError T :=
  let value := match params with None | Some JNull => JObject [] | Some v => v end in
  match dec value with
  | Some t => Ok t
  | None => Err (invalid_params ("invalid params: " +:+ decode_error tname value))
  end.

Definition list_handle (s : AppState) (params : option Value) : result JsonRpcError Value :=
  _ ← parse_params "ListEventsParams" dec_ListEventsParams params;
  Ok (enc_ListEventsResult {| lr_events := registry_list (a_registry s); lr_next_cursor := None |}).

Definition unknown_event (n : string) : JsonRpcError :=
  not_found "event" ("unknown event type " +:+ String "034" (n +:+ String "034" "")).

(** The guards shared by the methods that read one event type: it exists,
    offers the delivery mode, and the parameters are valid for it. *)
Definition check_event (s : AppState) (mode : DeliveryMode) (n : string) (params : option Value)
    : result JsonRpcError EventDefinition :=
  def ← ok_or (unknown_event n) (registry_get (a_registry s) n);
  if bool_decide (mode ∈ ed_delivery def) then
    _ ← validate_event_params (a_diff_names s) n params; Ok def
  else Err (unsupported "deliveryMode" (mode_name mode)).

Definition poll_handle (s : AppState) (now : Z) (params : option Value)
    : AppState * result JsonRpcError Value :=
  match parse_params "PollEventsParams" dec_PollEventsParams params with
  | Err e => (s, Err e)
  | Ok p =>
      match check_event s Poll (pp_name p) (pp_params p) with
      | Err e => (s, Err e)
      | Ok _ =>
          let filter := a_filters s !! pp_name p in
          let '(b, r) := read (a_buffer s) now (pp_name p) (pp_cursor p) (pp_max_age_ms p)
                           (pp_max_events p) (pp_params p) filter in
          (with_buffer s b,
           Ok (enc_PollEventsResult
                 {| pr_events := rr_events r; pr_cursor := Some (rr_cursor r);
                    pr_truncated := rr_truncated r; pr_has_more := rr_has_more r;
                    pr_next_poll_ms := next_poll_ms (c_poll (a_config s)) |}))
      end
  end.

Lemma check_event_Ok s mode n params d :
  check_event s mode n params = Ok d <->
  registry_get (a_registry s) n = Some d /\ mode ∈ ed_delivery d /\
  validate_event_params (a_diff_names s) n params = Ok ().
Proof.
  unfold check_event. rewrite bind_Ok. setoid_rewrite ok_or_Ok. split.
  - intros (d' & Hd & H). case_bool_decide; [|done]. apply bind_Ok in H as ([] & Hv & [= ->]). done.
  - intros (Hd & Hm & Hv). exists d. split; [done|]. rewrite bool_decide_eq_true_2 by done.
    by rewrite Hv.
Qed.

Lemma validate_event_params_Err names n params e :
  validate_event_params names n params = Err e -> err_code e = INVALID_PARAMS.
Proof. unfold validate_event_params. repeat case_match; naive_solver. Qed.

Lemma check_event_Err s mode n params e :
  check_event s mode n params = Err e ->
  (registry_get (a_registry s) n = None /\ e = unknown_event n) \/
  (exists d, registry_get (a_registry s) n = Some d /\ ~ (mode ∈ ed_delivery d) /\
     e = unsupported "deliveryMode" (mode_name mode)) \/
  (exists d, registry_get (a_registry s) n = Some d /\ mode ∈ ed_delivery d /\
     err_code e = INVALID_PARAMS).
Proof.
  unfold check_event. destruct (registry_get (a_registry s) n) as [d|]; simpl; [|intros [= <-]; by left].
  case_bool_decide; [|intros [= <-]; right; left; eauto].
  destruct (validate_event_params _ _ _) as [[]|e'] eqn:E; [done|]. intros [= <-].
  right. right. exists d. split_and!; [done|done|]. by eapply validate_event_params_Err.
Qed.

(** events/poll: a request is answered with events exactly when its
    parameters decode, the event type is registered, offers polling and
    accepts the parameters; the answer carries, unchanged, what the buffer's
    read gives for the request's cursor, bounds and the type's filter, and
    every event in it is of the requested type and passes that filter.  Any
    error leaves the state alone and says which of the three guards failed. *)
Theorem poll_handle_spec s now params :
  match poll_handle s now params with
  | (s', Ok v) => exists p d r,
      dec_PollEventsParams (default (JObject []) (params ≫= fun v => if is_null v then None else Some v)) = Some p /\
      registry_get (a_registry s) (pp_name p) = Some d /\ Poll ∈ ed_delivery d /\
      read (a_buffer s) now (pp_name p) (pp_cursor p) (pp_max_age_ms p) (pp_max_events p)
        (pp_params p) (a_filters s !! pp_name p) = (a_buffer s', r) /\
      s' = with_buffer s (a_buffer s') /\
      value_get "cursor" v = Some (JString (rr_cursor r)) /\
      value_get "truncated" v = Some (JBool (rr_truncated r)) /\
      value_get "hasMore" v = Some (JBool (rr_has_more r)) /\
      value_get "events" v = Some (JArray (enc_EventOccurrence <$> rr_events r)) /\
      Forall (fun o => eo_name o = pp_name p /\
        forall q (f : ParamFilter), pp_params p = Some q -> a_filters s !! pp_name p = Some f ->
          f q (eo_data o) = true) (rr_events r)
  | (s', Err e) => s' = s /\
      (err_code e = INVALID_PARAMS \/ err_code e = NOT_FOUND \/ err_code e = UNSUPPORTED) /\
      (err_code e = NOT_FOUND -> exists n, registry_get (a_registry s) n = None)
  end.
Proof.
  unfold poll_handle, parse_params.
  assert ((match params with None | Some JNull => JObject [] | Some v => v end) =
    default (JObject []) (params ≫= fun v => if is_null v then None else Some v)) as ->
    by by destruct params as [[]|].
  destruct (dec_PollEventsParams _) as [p|] eqn:Ep; [|by split_and!; [|left|]].
  destruct (check_event s Poll (pp_name p) (pp_params p)) as [d|e] eqn:Ec.
  - apply check_event_Ok in Ec as (Hd & Hm & _).
    destruct (read _ _ _ _ _ _ _ _) as [b r] eqn:Er. exists p, d, r. split_and!; try done.
    apply (f_equal snd) in Er. simpl in Er. rewrite <- Er. unfold read_state.
    destruct (pp_cursor p) as [c|]; [|by constructor].
    destruct (read_start _ _ c) as [sa tr]. simpl.
    match goal with |- context [read_loop ?n ?fl ?q ?f ?cap ?l ?s0] =>
      destruct (read_loop_spec n fl q f cap l s0) as (l1 & l2 & _ & -> & _) end.
    simpl. unfold deliver. apply Forall_fmap, Forall_forall. intros x [Hx _]%list_elem_of_filter.
    split; [done|]. intros q f Hq Hf. unfold wanted, passes in Hx. rewrite Hq, Hf in Hx.
    by apply andb_true_iff in Hx as [_ ?].
  - split; [done|]. destruct (check_event_Err _ _ _ _ _ Ec) as [[Hr ->]|[(d & _ & _ & ->)|(d & _ & _ & ->)]].
    + split; [by right; left|]. eauto.
    + split; [by right; right|done].
    + split; [by left|done].
Qed.
End handlers.
