(* ===== verification/Subscribe.v ===== *)
(** * events/subscribe and events/unsubscribe
    (crates/mcp-events-server/src/webhook: handlers.rs, challenge.rs).

    The endpoint verification is a request to the outside world: the lookup
    behind [client_for], the nonce and the HTTP exchange are its answer, and
    [verify_endpoint] is the code's verdict on it.  The url crate is a
    parameter. *)
From S2P Require Import Prelude RustStd Lib Json Canon Wire Buffer Registry Store Signing Ssrf.
From S2P Require Import Config Mapping State Handlers.

(** What the code uses of the url crate. *)
Class UrlLib := {
  Url : Type;
  url_parse : string -> result string Url;   (* the error's text *)
  url_scheme : Url -> string;
  url_host : Url -> option Host;
  url_port_or_known_default : Url -> option Z;
  url_as_str : Url -> string
}.

Section subscribe.
Context {J : JsonLib} {C : Chrono} {Y : Crypto} {S : SerdeLib} {U : UrlLib}.

(** ** challenge.rs *)
Definition MAX_ECHO_BYTES : Z := 64 * 1024.

(** An HTTP exchange: an error of the transport, or a status and the body (if
    it could be read). *)
Inductive HttpOutcome : Type :=
| SendError (is_timeout : bool) (sources : list ErrSource)
| HttpResponse (status : Z) (body : option string).

Definition is_success (status : Z) : bool := (200 <=? status) && (status <=? 299).
Definition is_server_error (status : Z) : bool := (500 <=? status) && (status <=? 599).

(** What the outside contributes to one verification. *)
Record VerifyWorld := {
  vw_lookup : string -> Z -> option (list SocketAddr);
  vw_builds : bool;
  vw_nonce : string;
  vw_uuid : string;        (* of the message id *)
  vw_now_secs : Z;
  vw_respond : SignedPost -> HttpOutcome
}.

Record VerifyRequest := { vr_url : Url; vr_sub_id : string; vr_secret : string }.

Definition check_echo (nonce : string) (o : HttpOutcome) : result string unit :=
  match o with
  | SendError t l => Err (classify_send_error t l)
  | HttpResponse status body =>
      if negb (is_success status) then
        Err (if is_server_error status then error_category.HTTP_5XX else error_category.HTTP_4XX)
      else
        match body with
        | None => Err error_category.CHALLENGE_FAILED
        | Some bytes =>
            if MAX_ECHO_BYTES <? byte_len bytes then Err error_category.CHALLENGE_FAILED
            else
              match (json_from_str bytes ≫= value_get "challenge") ≫= as_str with
              | Some e => if bool_decide (e = nonce) then Ok () else Err error_category.CHALLENGE_FAILED
              | None => Err error_category.CHALLENGE_FAILED
              end
        end
  end.

(** The signed [verification] envelope. *)
Definition verification_post (url : Url) (sub_id secret : string) (w : VerifyWorld) : SignedPost :=
  let body := struct_text (control_fields (Verification (vw_nonce w))) in
  let msg_id := control_msg_id "verification" (vw_uuid w) in
  signed_post (vw_now_secs w) (url_as_str url) sub_id msg_id secret body.

Definition verify_endpoint (allow_insecure : bool) (url : Url) (sub_id secret : string) (w : VerifyWorld)
    : result string unit :=
  match client_for allow_insecure (url_port_or_known_default url) (url_host url) (vw_lookup w) (vw_builds w) with
  | Err e => Err (ssrf_category e)
  | Ok _ => check_echo (vw_nonce w) (vw_respond w (verification_post url sub_id secret w))
  end.

(** ** handlers.rs *)
Definition grant_ttl_ms (cfg : WebhookSettings) (ttl_ms : option (option Z)) : Z :=
  let cap := wh_ttl_cap_ms cfg in
  let floor := Z.min (wh_min_ttl_ms cfg) cap in
  match ttl_ms with
  | None | Some None => cap
  | Some (Some v) => if v <? floor then floor else if cap <? v then cap else v
  end.

Definition parse_callback_url (raw : string) (allow_insecure : bool) : result JsonRpcError Url :=
  match url_parse raw with
  | Err e => Err (invalid_params ("delivery.url: " +:+ e))
  | Ok url =>
      let https := bool_decide (url_scheme url = "https") in
      let http := bool_decide (url_scheme url = "http") && allow_insecure in
      if negb (https || http) then
        Err (invalid_params ("delivery.url must use https (got " +:+ String "034"
          (url_scheme url +:+ String "034" ")")))
      else
        match url_host url with
        | None => Err (invalid_params "delivery.url must include a host")
        | Some _ => Ok url
        end
  end.

Definition sub_key (principal n u : string) (params : Value) : SubKey :=
  {| principal := principal; url := u; name := n; params_canonical := canonical_json params |}.

(** The guards before any state changes: what a valid request provides. *)
Record Checked := {
  ck_principal : string;
  ck_url : Url;
  ck_secret : string
}.

Definition check_subscribe (s : AppState) (principal : option String.string) (p : SubscribeParams)
    : result JsonRpcError Checked :=
  pr ← ok_or (forbidden "events/subscribe requires an authenticated principal") principal;
  let d := sb_delivery p in
  if bool_decide (ds_mode d = "") then
    Err (invalid_params ("delivery.mode is required on events/subscribe and must be "
      +:+ String "034" ("webhook" +:+ String "034" "")))
  else if negb (bool_decide (ds_mode d = "webhook")) then Err (unsupported "deliveryMode" (ds_mode d))
  else if negb (wh_enabled (c_webhook (a_config s))) then Err (unsupported "deliveryMode" "webhook")
  else
    _ ← check_event s Webhook (sb_name p) (sb_params p);
    u ← parse_callback_url (ds_url d) (wh_allow_insecure_urls (c_webhook (a_config s)));
    sv ← ok_or (invalid_params "delivery.secret is required for webhook subscriptions") (ds_secret d);
    secret ← map_err (fun e => invalid_params ("delivery.secret: " +:+ whsec_error_text e)) (parse_whsec sv);
    Ok {| ck_principal := pr; ck_url := u; ck_secret := secret |}.

(** [now + delta] on dates, which panics out of chrono's range. *)
Definition date_add (now delta : Z) : option Z := if is_dt (now + delta) then Some (now + delta) else None.

(** How a handler can end. *)
Inductive Ended (A : Type) : Type := Returned (a : A) | Panicked.
#[global] Arguments Returned {A} a.
#[global] Arguments Panicked {A}.

Definition subscribe_result (o : UpsertOutcome) (refresh_at : Z) (read : ReadResult) : SubscribeResult :=
  match o with
  | Created sub =>
      {| sr_id := ws_id sub; sr_refresh_before := Some (iso8601 refresh_at);
         sr_cursor := Some (rr_cursor read); sr_truncated := rr_truncated read;
         sr_delivery_status := None |}
  | Refreshed snap =>
      {| sr_id := ws_id snap; sr_refresh_before := Some (iso8601 refresh_at);
         sr_cursor := Some (default (rr_cursor read) (ws_cursor snap)); sr_truncated := false;
         sr_delivery_status := Some (delivery_status snap) |}
  end.

(** The clock readings of one call, in order. *)
Record Clock3 := { t_grant : Z; t_read : Z; t_upsert : Z }.

Definition HProg A : Type := Prog VerifyRequest VerifyWorld A.

Definition read_step (n : string) (now : Z) (cursor : option string) (age cap : option Z)
    (params : option Value) (s : AppState) : AppState * ReadResult :=
  let '(b, r) := read (a_buffer s) now n cursor age cap params (a_filters s !! n) in
  (with_buffer s b, r).

Definition upsert_step (now : Z) (k : SubKey) (params : Value) (secret : string) (rb : option Z)
    (c : option string) (s : AppState) : AppState * result StoreError UpsertOutcome :=
  let '(st, r) := upsert (a_subs s) now k params secret rb c in (with_store s st, r).

Definition remove_step (k : SubKey) (s : AppState) : AppState * option WebhookSub :=
  let '(st, r) := remove (a_subs s) k in (with_store s st, r).

Definition set_verified_step (p u : string) (s : AppState) : AppState * unit :=
  (with_store s (set_verified (a_subs s) p u), ()).

Definition handle_subscribe (s0 : AppState) (t : Clock3) (principal : option string)
    (p : SubscribeParams) : HProg (Ended (result JsonRpcError SubscribeResult)) :=
  match check_subscribe s0 principal p with
  | Err e => Ret (Returned (Err e))
  | Ok ck =>
      let granted_ms := grant_ttl_ms (c_webhook (a_config s0)) (sb_ttl_ms p) in
      match date_add (t_grant t) (milliseconds (i64_try_from_or_max granted_ms)) with
      | None => Ret Panicked
      | Some refresh_at =>
          Atomic (read_step (sb_name p) (t_read t) (sb_cursor p) (sb_max_age_ms p) (Some 0) (sb_params p))
            (fun read =>
          let params_value := default JNull (sb_params p) in
          let key := sub_key (ck_principal ck) (sb_name p) (ds_url (sb_delivery p)) params_value in
          Atomic (upsert_step (t_upsert t) key params_value (ck_secret ck) (Some refresh_at)
                    (Some (rr_cursor read)))
            (fun outcome =>
          match outcome with
          | Err (QuotaExceeded max) =>
              Ret (Returned (Err (resource_exhausted "subscriptions" (Some max))))
          | Ok outcome =>
              let result := subscribe_result outcome refresh_at read in
              Atomic (fun s => (s, is_verified (a_subs s) (ck_principal ck) (ds_url (sb_delivery p))))
                (fun verified =>
              if verified then Ret (Returned (Ok result))
              else
                Ask {| vr_url := ck_url ck; vr_sub_id := ws_id (outcome_sub outcome);
                       vr_secret := ck_secret ck |}
                  (fun w =>
                match verify_endpoint (wh_allow_insecure_urls (c_webhook (a_config s0))) (ck_url ck)
                        (ws_id (outcome_sub outcome)) (ck_secret ck) w with
                | Err reason =>
                    Atomic (remove_step key)
                      (fun _ => Ret (Returned (Err (callback_endpoint_error reason))))
                | Ok _ =>
                    Atomic (set_verified_step (ck_principal ck) (ds_url (sb_delivery p)))
                      (fun _ => Ret (Returned (Ok result)))
                end))
          end))
      end
  end.

Definition handle_unsubscribe (s : AppState) (principal : option string) (p : UnsubscribeParams)
    : AppState * result JsonRpcError Value :=
  match principal with
  | None => (s, Err (forbidden "events/unsubscribe requires an authenticated principal"))
  | Some pr =>
      match registry_get (a_registry s) (un_name p) with
      | None => (s, Err (unknown_event (un_name p)))
      | Some _ =>
          let params_value := default JNull (un_params p) in
          let key := sub_key pr (un_name p) (ds_url (un_delivery p)) params_value in
          match remove_step key s with
          | (s', Some _) => (s', Ok (JObject []))
          | (s', None) =>
              (s', Err (not_found "subscription"
                 "no subscription matches the supplied (principal, url, name, params) key"))
          end
      end
  end.

(** ** The guards *)
Record subscribe_allowed (s : AppState) (principal : option string) (p : SubscribeParams) (ck : Checked)
    : Prop := {
  sa_principal : principal = Some (ck_principal ck);
  sa_mode : ds_mode (sb_delivery p) = "webhook";
  sa_enabled : wh_enabled (c_webhook (a_config s)) = true;
  sa_event : exists d, registry_get (a_registry s) (sb_name p) = Some d /\ Webhook ∈ ed_delivery d;
  sa_params : validate_event_params (a_diff_names s) (sb_name p) (sb_params p) = Ok ();
  sa_url : url_parse (ds_url (sb_delivery p)) = Ok (ck_url ck);
  sa_scheme : url_scheme (ck_url ck) = "https" \/
    (url_scheme (ck_url ck) = "http" /\ wh_allow_insecure_urls (c_webhook (a_config s)) = true);
  sa_host : is_Some (url_host (ck_url ck));
  sa_secret : exists text, ds_secret (sb_delivery p) = Some text /\ parse_whsec text = Ok (ck_secret ck)
}.

Lemma parse_callback_url_Ok raw insecure u :
  parse_callback_url raw insecure = Ok u <->
  url_parse raw = Ok u /\
  (url_scheme u = "https" \/ (url_scheme u = "http" /\ insecure = true)) /\ is_Some (url_host u).
Proof.
  unfold parse_callback_url. destruct (url_parse raw) as [u'|e]; [|naive_solver].
  destruct (negb _) eqn:E; bsimp.
  - split; [done|]. intros ([= ->] & [Hs|[Hs ->]] & _); [by rewrite bool_decide_eq_false_2 in * by congruence|].
    by rewrite andb_true_r in *; bsimp.
  - assert (url_scheme u' = "https" \/ (url_scheme u' = "http" /\ insecure = true)) as H.
    { apply orb_true_iff in E as [E|E]; bsimp; auto. }
    destruct (url_host u') as [h|] eqn:Eh.
    + split; [intros [= ->]; eauto|]. by intros ([= ->] & _).
    + split; [done|]. intros ([= ->] & _ & [h Hh]). congruence.
Qed.

Lemma check_subscribe_Ok s principal p ck :
  check_subscribe s principal p = Ok ck <-> subscribe_allowed s principal p ck.
Proof.
  unfold check_subscribe. split.
  - intros (pr & Hp%ok_or_Ok & H)%bind_Ok.
    case_bool_decide as Hm; [done|]. case_bool_decide as Hw; [|done]. simpl in H.
    destruct (wh_enabled _) eqn:He; [|done]. simpl in H.
    apply bind_Ok in H as (d & (Hd & Hwm & Hv)%check_event_Ok & H).
    apply bind_Ok in H as (u & (Hu & Hsc & Hh)%parse_callback_url_Ok & H).
    apply bind_Ok in H as (sv & Hsv%ok_or_Ok & H).
    apply bind_Ok in H as (sec & Hsec & [= <-]).
    destruct (parse_whsec sv) as [x|] eqn:Ew; [|done]. injection Hsec as ->.
    split; simpl; eauto.
  - intros [Hp Hm He (d & Hd & Hwm) Hv Hu Hsc Hh (text & Ht & Hw)].
    rewrite Hp. simpl. rewrite Hm. simpl. rewrite He. simpl.
    assert (check_event s Webhook (sb_name p) (sb_params p) = Ok d) as ->
      by by apply check_event_Ok. simpl.
    assert (parse_callback_url (ds_url (sb_delivery p)) (wh_allow_insecure_urls (c_webhook (a_config s)))
      = Ok (ck_url ck)) as -> by by apply parse_callback_url_Ok. simpl.
    rewrite Ht. simpl. rewrite Hw. simpl. by destruct ck.
Qed.

Lemma grant_bounds cfg ttl :
  Z.min (wh_min_ttl_ms cfg) (wh_ttl_cap_ms cfg) <= grant_ttl_ms cfg ttl <= wh_ttl_cap_ms cfg.
Proof. unfold grant_ttl_ms. destruct ttl as [[v|]|]; [|lia..]. repeat case_match; bsimp; lia. Qed.

Lemma read_step_setup n now c age cap p s : same_setup s (read_step n now c age cap p s).1.
Proof. done. Qed.

Lemma upsert_step_setup now k x y rb c s : same_setup s (upsert_step now k x y rb c s).1.
Proof. unfold upsert_step. by destruct (upsert _ _ _ _ _ _ _). Qed.

Lemma set_verified_step_setup p u s : same_setup s (set_verified_step p u s).1.
Proof. done. Qed.

(** The endpoint has proved that it wants the subscription: the address policy
    handed out a client, and the endpoint answered the signed envelope with a
    2xx whose body, of at most 64 KiB, is JSON that echoes the nonce. *)
Definition endpoint_proved (insecure : bool) (url : Url) (sub_id secret : string) (w : VerifyWorld) : Prop :=
  is_ok (client_for insecure (url_port_or_known_default url) (url_host url) (vw_lookup w) (vw_builds w)) = true /\
  exists status bytes v,
    vw_respond w (verification_post url sub_id secret w) = HttpResponse status (Some bytes) /\ 200 <= status <= 299 /\
    byte_len bytes <= MAX_ECHO_BYTES /\ json_from_str bytes = Some v /\
    value_get "challenge" v = Some (JString (vw_nonce w)).

(** The verification handshake succeeds exactly then; every failure is one of
    the documented categories. *)
Theorem verify_endpoint_spec insecure url sub_id secret w :
  (verify_endpoint insecure url sub_id secret w = Ok () <-> endpoint_proved insecure url sub_id secret w) /\
  (forall e, verify_endpoint insecure url sub_id secret w = Err e ->
     e ∈ [error_category.CONNECTION_REFUSED; error_category.TIMEOUT; error_category.TLS_ERROR;
          error_category.HTTP_4XX; error_category.HTTP_5XX; error_category.CHALLENGE_FAILED]).
Proof.
  unfold verify_endpoint, endpoint_proved. destruct (client_for _ _ _ _ _) as [c|e]; cbn [is_ok].
  - unfold check_echo. destruct (vw_respond w _) as [to l|status body].
    + split; [split; [done|by intros (_ & ? & ? & ? & ? & _)]|]. intros e [= <-].
      unfold classify_send_error. destruct to; [set_solver|].
      induction l as [|x l IH]; simpl; [set_solver|]. repeat case_match; set_solver.
    + unfold is_success. destruct (negb _) eqn:Es; bsimp.
      { split; [|intros e [= <-]; case_match; set_solver].
        split; [done|]. intros (_ & st & bytes & v & [= <- ->] & ? & _). exfalso.
        apply andb_false_iff in Es as [?|?]; bsimp; lia. }
      destruct body as [bytes|].
      2: { split; [|intros e [= <-]; set_solver].
           split; [done|by intros (_ & ? & ? & ? & [=] & _)]. }
      destruct (MAX_ECHO_BYTES <? _) eqn:El; bsimp.
      { split; [|intros e [= <-]; set_solver].
        split; [done|]. intros (_ & ? & ? & ? & [= <- <-] & _ & ? & _). lia. }
      destruct (json_from_str bytes) as [v|] eqn:Ej; simpl.
      2: { split; [|intros e [= <-]; set_solver].
           split; [done|]. intros (_ & ? & ? & ? & [= <- <-] & _ & _ & ? & _). congruence. }
      destruct (value_get "challenge" v) as [[| | |e| |]|] eqn:Ec; simpl;
        try (split; [split; [done|]|intros ? [= <-]; set_solver];
          intros (_ & ? & ? & ? & [= <- <-] & _ & _ & ? & ?); congruence).
      case_bool_decide as He.
      * split; [|done]. split; [|done]. intros _. split; [done|].
        exists status, bytes, v. rewrite Ec, He. done.
      * split; [split; [done|]|intros ? [= <-]; set_solver].
        intros (_ & ? & ? & ? & [= <- <-] & _ & _ & ? & ?). congruence.
  - split; [|intros ? [= <-]; set_solver]. split; [done|by intros [? _]].
Qed.

Lemma upsert_verified st now k x y rb c : verified (upsert st now k x y rb c).1 = verified st.
Proof. unfold upsert, upsert_create. by repeat case_match. Qed.

Lemma check_subscribe_Err s pr p e :
  check_subscribe s pr p = Err e -> err_code e <> CALLBACK_ENDPOINT_ERROR.
Proof.
  unfold check_subscribe. destruct pr as [pr|]; simpl; [|by intros [= <-]].
  case_bool_decide; [by intros [= <-]|]. case_bool_decide; [|by intros [= <-]]. simpl.
  destruct (wh_enabled _); [|by intros [= <-]]. simpl.
  destruct (check_event _ _ _ _) as [d|e'] eqn:E; simpl.
  - unfold parse_callback_url. destruct (url_parse _) as [u|x]; [|by intros [= <-]].
    destruct (negb _); [by intros [= <-]|]. destruct (url_host u); [|by intros [= <-]]. simpl.
    destruct (ds_secret _); [|by intros [= <-]]. simpl.
    by destruct (parse_whsec _); [|intros [= <-]].
  - intros [= <-]. destruct (check_event_Err _ _ _ _ _ E) as [[_ ->]|[(? & _ & _ & ->)|(? & _ & _ & ->)]];
      [done|done|by vm_compute].
Qed.

(** The principal and url whose verification a request is about, proved by an
    answer among what it did. *)
Definition proved_in (l : list (Moment VerifyRequest VerifyWorld)) (insecure : bool) (p : SubscribeParams) (ck : Checked)
    (x : string * string) : Prop :=
  x = (ck_principal ck, ds_url (sb_delivery p)) /\
  exists id w, Asked {| vr_url := ck_url ck; vr_sub_id := id; vr_secret := ck_secret ck |} w ∈ l /\
    endpoint_proved insecure (ck_url ck) id (ck_secret ck) w.

(** What the steps of a request verify. *)
Definition verifies (P : string * string -> Prop) (l : list (Moment VerifyRequest VerifyWorld)) : Prop :=
  forall pre post x, Did pre post ∈ l -> x ∈ verified (a_subs post) -> x ∈ verified (a_subs pre) \/ P x.

Lemma verifies_did P pre post l :
  (forall x, x ∈ verified (a_subs post) -> x ∈ verified (a_subs pre) \/ P x) -> verifies P l -> verifies P (Did pre post :: l).
Proof. intros H Hl pre' post' x [[= -> ->]|Hin]%elem_of_cons; [apply H|by apply Hl]. Qed.

Lemma verifies_asked P q r l : verifies P l -> verifies P (Asked q r :: l).
Proof. intros Hl pre post x [?|Hin]%elem_of_cons; [done|by apply Hl]. Qed.

Lemma verifies_nil P : verifies P [].
Proof. by intros ? ? ? ?%elem_of_nil. Qed.

Lemma allowed_setup s s1 pr p ck : subscribe_allowed s pr p ck -> same_setup s s1 -> subscribe_allowed s1 pr p ck.
Proof. intros [] [E1 E2 E3 E4 E5]. split; rewrite ?E1, ?E2, ?E5; auto. Qed.

Lemma upsert_step_verified now k x y rb c s v :
  v ∈ verified (a_subs (upsert_step now k x y rb c s).1) -> v ∈ verified (a_subs s).
Proof.
  unfold upsert_step. pose proof (upsert_verified (a_subs s) now k x y rb c) as E.
  destruct (upsert _ _ _ _ _ _ _) as [st r]. simpl in *. by rewrite E.
Qed.

Lemma verifies_mono (P Q : string * string -> Prop) l : (forall x, P x -> Q x) -> verifies P l -> verifies Q l.
Proof. intros HPQ H pre post x Hin Hx. destruct (H pre post x Hin Hx); auto. Qed.

(** The part of the handler that challenges the endpoint. *)
Lemma challenge_seen s0 u id secret key pr url (res : SubscribeResult) s
  (r : Ended (result JsonRpcError SubscribeResult)) s' l :
  let insecure := wh_allow_insecure_urls (c_webhook (a_config s0)) in
  let q := {| vr_url := u; vr_sub_id := id; vr_secret := secret |} in
  same_setup s0 s ->
  exec_seen (Ask q (fun w : VerifyWorld =>
    match verify_endpoint insecure u id secret w with
    | Err reason => Atomic (remove_step key) (fun _ => Ret (Returned (Err (callback_endpoint_error reason))))
    | Ok _ => Atomic (set_verified_step pr url) (fun _ => Ret (Returned (Ok res)))
    end)) s r s' l ->
  same_setup s0 s' /\ exists w, Asked q w ∈ l /\
  if bool_decide (verify_endpoint insecure u id secret w = Ok ())
  then endpoint_proved insecure u id secret w /\ r = Returned (Ok res) /\ (pr, url) ∈ verified (a_subs s') /\
       verifies (fun x => x = (pr, url)) l
  else ~ endpoint_proved insecure u id secret w /\ (exists reason, r = Returned (Err (callback_endpoint_error reason))) /\
       verifies (fun _ => False) l.
Proof.
  intros insecure q Hs (w & s4 & l4 & -> & H4 & H). pose proof (app_steps_setup _ _ H4) as Hs4.
  destruct (verify_endpoint_spec insecure u id secret w) as [Hproved _]. fold insecure in H.
  destruct (verify_endpoint insecure u id secret w) as [[]|reason] eqn:Ev; cbn [exec_seen] in H;
    destruct H as (s5 & l5 & -> & H5 & -> & -> & ->); pose proof (app_steps_setup _ _ H5) as Hs5.
  - split; [etrans; [exact Hs|]; etrans; [exact Hs4|]; etrans; [apply set_verified_step_setup|exact Hs5]|].
    exists w. split; [by left|]. rewrite Ev, bool_decide_eq_true_2 by done. split_and!; [by apply Hproved|done| |].
    + eapply app_steps_verified; [exact H5|]. simpl. set_solver.
    + apply verifies_asked, verifies_did; [|apply verifies_nil]. simpl. intros x [->%elem_of_singleton|Hx]%elem_of_union; auto.
  - split; [etrans; [exact Hs|]; etrans; [exact Hs4|]; etrans; [|exact Hs5]; by split|].
    exists w. split; [by left|]. rewrite Ev, bool_decide_eq_false_2 by done. split_and!; [by intros ?%Hproved|by eexists|].
    apply verifies_asked, verifies_did; [by left|apply verifies_nil].
Qed.

(** C12. What events/subscribe guarantees, whatever other requests and
    deliveries run between its steps.  A step of it marks an endpoint verified
    only for the caller and the url of the request, and only if in this run
    the endpoint was reached under the address policy and answered the signed
    challenge, with the nonce, in time and size ([endpoint_proved]).  It
    succeeds only if the caller is an authenticated principal, webhook delivery
    is enabled and offered by a registered event type whose parameter check
    passed, the callback url parses to an https url with a host (http only
    under [allowInsecureUrls]), the secret is a valid [whsec_] secret, and the
    endpoint is verified for this principal when the answer is given; the grant
    ends within the configured bounds of the time it was made.  An error that
    blames the endpoint is given only if it failed its challenge.  The handler
    panics only if the end of the grant is not a date. *)
Theorem subscribe_safe s0 t principal p s s' r l :
  same_setup s0 s ->
  exec_seen (handle_subscribe s0 t principal p) s r s' l ->
  let insecure := wh_allow_insecure_urls (c_webhook (a_config s')) in
  verifies (fun x => exists ck, subscribe_allowed s' principal p ck /\ proved_in l insecure p ck x) l /\
  match r with
  | Returned (Ok res) => exists ck granted,
      subscribe_allowed s' principal p ck /\
      is_verified (a_subs s') (ck_principal ck) (ds_url (sb_delivery p)) = true /\
      Z.min (wh_min_ttl_ms (c_webhook (a_config s'))) (wh_ttl_cap_ms (c_webhook (a_config s')))
        <= granted <= wh_ttl_cap_ms (c_webhook (a_config s')) /\
      sr_refresh_before res =
        Some (iso8601 (t_grant t + milliseconds (i64_try_from_or_max granted)))
  | Returned (Err e) =>
      err_code e = CALLBACK_ENDPOINT_ERROR -> exists ck q w,
        subscribe_allowed s' principal p ck /\ Asked q w ∈ l /\
        ~ endpoint_proved insecure (ck_url ck) (vr_sub_id q) (ck_secret ck) w
  | Panicked => exists granted,
      granted <= wh_ttl_cap_ms (c_webhook (a_config s')) /\
      ~ (MIN_UTC <= t_grant t + milliseconds (i64_try_from_or_max granted) <= MAX_UTC)
  end.
Proof.
  intros Hsame H insecure. unfold handle_subscribe in H.
  destruct (check_subscribe s0 principal p) as [ck|e] eqn:Eck.
  2: { destruct H as (-> & -> & ->). split; [apply verifies_nil|]. intros He. by destruct (check_subscribe_Err _ _ _ _ Eck). }
  apply check_subscribe_Ok in Eck. pose proof (grant_bounds (c_webhook (a_config s0)) (sb_ttl_ms p)) as Hg.
  set (granted := grant_ttl_ms (c_webhook (a_config s0)) (sb_ttl_ms p)) in *.
  assert (forall s1, same_setup s0 s1 -> subscribe_allowed s1 principal p ck) as Hallow by (intros s1; by apply allowed_setup).
  unfold date_add in H. destruct (is_dt _) eqn:Edt; cbn [exec_seen] in H.
  2: { destruct H as (-> & -> & ->). split; [apply verifies_nil|]. exists granted. rewrite (ss_config _ _ Hsame). split; [lia|].
       unfold is_dt in Edt. apply andb_false_iff in Edt as [?|?]; bsimp; lia. }
  destruct H as (s1 & l1 & El & H1 & s2 & l2 & El1 & H2 & H).
  assert (same_setup s0 s2) as Hs2.
  { etrans; [exact Hsame|]. etrans; [apply read_step_setup|]. etrans; [apply (app_steps_setup _ _ H1)|].
    etrans; [apply upsert_step_setup|]. apply (app_steps_setup _ _ H2). }
  set (P := fun x => exists ck, subscribe_allowed s' principal p ck /\ proved_in l insecure p ck x).
  assert (verifies P l2 -> verifies P l) as Hl.
  { intros Hl2. subst l l1. apply verifies_did; [auto|]. apply verifies_did; [|done].
    intros x Hx. left. by apply upsert_step_verified in Hx. }
  match type of H with context [match ?x with Ok _ => _ | Err _ => _ end] => destruct x as [o|[max]] eqn:Eo end.
  2: { destruct H as (-> & -> & ->). split; [apply Hl, verifies_nil|]. by intros [=]. }
  assert (forall o read, sr_refresh_before (subscribe_result o
      (t_grant t + milliseconds (i64_try_from_or_max granted)) read) =
    Some (iso8601 (t_grant t + milliseconds (i64_try_from_or_max granted)))) as Hrb by by intros [].
  cbn [exec_seen fst snd] in H. destruct H as (s3 & l3 & El2 & H3 & H). pose proof (app_steps_setup _ _ H3) as Hs3.
  assert (same_setup s0 s3) as Hs03 by by etrans.
  assert (verifies P l3 -> verifies P l) as Hl' by (intros Hl3; apply Hl; subst l2; apply verifies_did; auto).
  destruct (is_verified (a_subs s2) _ _) eqn:Ev; cbn [exec_seen] in H.
  - destruct H as (-> & -> & ->). split; [apply Hl', verifies_nil|]. exists ck, granted.
    rewrite (ss_config _ _ Hs03). split_and!; [by apply Hallow| |lia|lia|apply Hrb].
    unfold is_verified in *. bsimp. apply bool_decide_eq_true. by eapply app_steps_verified.
  - destruct (challenge_seen s0 _ _ _ _ _ _ _ _ _ _ _ Hs03 H) as (Hs05 & w & Hin & Hw).
    assert (insecure = wh_allow_insecure_urls (c_webhook (a_config s0))) as Ei by (unfold insecure; by rewrite (ss_config _ _ Hs05)).
    rewrite <- Ei in Hw. match type of Hin with Asked ?q w ∈ _ => assert (Asked q w ∈ l) as Hin' by (subst; rewrite !elem_of_cons; auto) end.
    case_bool_decide; destruct Hw as (Hpr & Hr & Hw).
    + destruct Hw as [Hver Hl3]. subst r. split.
      * apply Hl'. apply (verifies_mono _ _ _ (fun x (E : x = _) => ex_intro _ ck (conj (Hallow s' Hs05) (conj E
          (ex_intro _ (ws_id (outcome_sub o)) (ex_intro _ w (conj Hin' Hpr))))))). exact Hl3.
      * exists ck, granted. rewrite (ss_config _ _ Hs05). split_and!; [by apply Hallow| |lia|lia|apply Hrb].
        by apply bool_decide_eq_true.
    + destruct Hr as [reason ->]. split; [by apply Hl'; eapply verifies_mono; [|exact Hw]|]. intros _. exists ck. eauto 6.
Qed.

(** ** A subscription and its end, run alone *)
Lemma upsert_Ok st now k x y rb c o :
  store_ok st -> (upsert st now k x y rb c).2 = Ok o ->
  ws_id (outcome_sub o) = derive_sub_id k /\
  exists sub, subs (upsert st now k x y rb c).1 !! derive_sub_id k = Some sub /\
    (ws_id sub, ws_secret sub, ws_refresh_before sub, ws_active sub, ws_verified sub) =
    (derive_sub_id k, y, rb, true, is_verified st (principal k) (url k)) /\
    (is_created o = true -> ws_key sub = k /\ ws_cursor sub = c).
Proof.
  intros Hok.
  assert ((upsert_create st now k x y rb c).2 = Ok o ->
    ws_id (outcome_sub o) = derive_sub_id k /\
    exists sub, subs (upsert_create st now k x y rb c).1 !! derive_sub_id k = Some sub /\
    (ws_id sub, ws_secret sub, ws_refresh_before sub, ws_active sub, ws_verified sub) =
    (derive_sub_id k, y, rb, true, is_verified st (principal k) (url k)) /\
    (is_created o = true -> ws_key sub = k /\ ws_cursor sub = c)) as Hc.
  { unfold upsert_create. destruct (_ <=? _); [done|]. intros [= <-]. split; [done|].
    eexists. simpl. rewrite lookup_insert_eq. done. }
  unfold upsert. destruct (subs st !! derive_sub_id k) as [s|] eqn:Hs; [|done].
  destruct (negb _); [|done]. intros [= <-]. destruct (so_id _ Hok _ _ Hs) as [Hid _].
  simpl in *. split; [congruence|]. eexists. rewrite lookup_insert_eq. split; [done|]. split; [|done].
  simpl. unfold is_verified. congruence.
Qed.

Lemma upsert_Err st now k x y rb c e : (upsert st now k x y rb c).2 = Err e -> (upsert st now k x y rb c).1 = st.
Proof. unfold upsert, upsert_create. repeat case_match; done. Qed.

Lemma set_verified_lookup st p u id sub :
  subs st !! id = Some sub -> exists sub', subs (set_verified st p u) !! id = Some sub' /\
    (ws_id sub', ws_secret sub', ws_refresh_before sub', ws_active sub', ws_cursor sub', ws_key sub') =
    (ws_id sub, ws_secret sub, ws_refresh_before sub, ws_active sub, ws_cursor sub, ws_key sub) /\
    (principal (ws_key sub) = p -> url (ws_key sub) = u -> ws_verified sub' = true).
Proof.
  intros Hs. simpl. rewrite lookup_fmap, Hs. eexists. split; [done|]. unfold verify_sub. split.
  - by case_match.
  - intros -> ->. by rewrite !bool_decide_eq_true_2.
Qed.

Lemma unsubscribe_found s pr p sub :
  is_Some (registry_get (a_registry s) (un_name p)) ->
  let key := sub_key pr (un_name p) (ds_url (un_delivery p)) (default JNull (un_params p)) in
  get (a_subs s) key = Some sub ->
  (handle_unsubscribe s (Some pr) p).2 = Ok (JObject []) /\
  get (a_subs (handle_unsubscribe s (Some pr) p).1) key = None.
Proof.
  intros [d Hd] key Hs. unfold handle_unsubscribe. rewrite Hd. unfold get in *. fold key.
  unfold remove_step, remove. rewrite Hs. split; [done|]. simpl. apply lookup_delete_eq.
Qed.

(** The state [f] a successful subscription leaves, and what unsubscribing
    from it does. *)
Definition subscribed (p : SubscribeParams) (pr : string) (res : SubscribeResult)
    (f : AppState) : Prop :=
  let key := sub_key pr (sb_name p) (ds_url (sb_delivery p)) (default JNull (sb_params p)) in
  let un := {| un_name := sb_name p; un_params := sb_params p; un_delivery := sb_delivery p |} in
  exists sub,
    get (a_subs f) key = Some sub /\ ws_id sub = sr_id res /\ ws_active sub = true /\
    ds_secret (sb_delivery p) ≫= (fun x => ok_opt (parse_whsec x)) = Some (ws_secret sub) /\
    iso8601 <$> ws_refresh_before sub = sr_refresh_before res /\
    (sr_delivery_status res = None -> ws_verified sub = true /\ ws_cursor sub = sr_cursor res) /\
    (handle_unsubscribe f (Some pr) un).2 = Ok (JObject []) /\
    get (a_subs (handle_unsubscribe f (Some pr) un).1) key = None.

(** C26. Lifecycle of one subscription, run alone against any endpoint: after
    success the key's record is active, holds the secret and the grant and
    answers to the returned id (a fresh one is verified and starts at the
    returned cursor), and unsubscribing with the same principal, url, name and
    parameters then succeeds and removes it; after an endpoint that fails its
    verification the key has no record; any other error leaves every
    subscription as it was. *)
Theorem subscribe_unsubscribe s t pr p env :
  store_ok (a_subs s) ->
  let key := sub_key pr (sb_name p) (ds_url (sb_delivery p)) (default JNull (sb_params p)) in
  let out := run env (handle_subscribe s t (Some pr) p) s in
  match out.1 with
  | Returned (Ok res) => subscribed p pr res out.2
  | Returned (Err e) =>
      if bool_decide (err_code e = CALLBACK_ENDPOINT_ERROR)
      then get (a_subs out.2) key = None
      else a_subs out.2 = a_subs s
  | Panicked => out.2 = s
  end.
Proof.
  intros Hok key out. unfold out, handle_subscribe.
  set (un := {| un_name := sb_name p; un_params := sb_params p; un_delivery := sb_delivery p |}).
  destruct (check_subscribe s (Some pr) p) as [ck|e] eqn:Eck.
  2: { simpl. by rewrite bool_decide_eq_false_2 by by eapply check_subscribe_Err. }
  apply check_subscribe_Ok in Eck as [Hpr _ _ (d & Hd & _) _ _ _ _ (text & Ht & Hw)].
  injection Hpr as Hpr. rewrite <- Hpr.
  destruct (date_add _ _) as [rb|]; [|done].
  cbn [run fst snd]. set (rd := read_step _ _ _ _ _ _ s).
  assert (a_subs rd.1 = a_subs s) as Es by done. assert (a_registry rd.1 = a_registry s) as Er by done.
  clearbody rd.
  fold key. unfold upsert_step. rewrite Es.
  destruct (upsert (a_subs s) (t_upsert t) key (default JNull (sb_params p)) (ck_secret ck) (Some rb)
    (Some (rr_cursor rd.2))) as [st [o|[max]]] eqn:Eu; cbn [run fst snd].
  2: { pose proof (upsert_Err (a_subs s) (t_upsert t) key (default JNull (sb_params p)) (ck_secret ck)
         (Some rb) (Some (rr_cursor rd.2)) (QuotaExceeded max)) as E. rewrite Eu in E. simpl. by rewrite <- E. }
  pose proof (upsert_Ok (a_subs s) (t_upsert t) key (default JNull (sb_params p)) (ck_secret ck)
    (Some rb) (Some (rr_cursor rd.2)) o Hok) as Hup. rewrite Eu in Hup.
  destruct (Hup eq_refl) as (Hid & sub & Hsub & [= Hwi Hws Hwr Hwa Hwv] & Hcr). simpl in Hsub. clear Hup.
  assert (is_verified st pr (ds_url (sb_delivery p)) = is_verified (a_subs s) pr (ds_url (sb_delivery p))) as Hv.
  { unfold is_verified. pose proof (upsert_verified (a_subs s) (t_upsert t) key (default JNull (sb_params p))
      (ck_secret ck) (Some rb) (Some (rr_cursor rd.2))) as E. rewrite Eu in E. simpl in E. by rewrite E. }
  assert (forall f sub', a_registry f = a_registry s -> get (a_subs f) key = Some sub' ->
    (ws_id sub', ws_secret sub', ws_refresh_before sub', ws_active sub', ws_cursor sub') =
    (ws_id sub, ws_secret sub, ws_refresh_before sub, ws_active sub, ws_cursor sub) ->
    (is_created o = true -> ws_verified sub' = true) ->
    subscribed p pr (subscribe_result o rb rd.2) f) as Hfin.
  { intros f sub' Hr Hg [= E1 E2 E3 E4 E5] Hver. unfold subscribed. exists sub'. fold key un.
    split; [exact Hg|]. rewrite Ht. simpl. rewrite Hw. simpl.
    split; [by destruct o; simpl in *; congruence|]. split; [congruence|]. split; [congruence|].
    split; [by rewrite E3, Hwr; destruct o|]. split.
    - destruct o as [c|c]; simpl; [|done]. intros _. destruct (Hcr eq_refl) as [_ Hcu]. split; [by apply Hver|]. by rewrite E5, Hcu.
    - apply (unsubscribe_found _ _ un sub'); [rewrite Hr; by eexists|exact Hg]. }
  simpl a_subs. rewrite Hv. destruct (is_verified _ _ _) eqn:Ev; cbn [run fst snd].
  { by apply (Hfin _ sub). }
  destruct (verify_endpoint _ _ _ _ _) as [[]|reason]; cbn [run fst snd]; [|by apply lookup_delete_eq].
  destruct (set_verified_lookup st pr (ds_url (sb_delivery p)) _ _ Hsub)
    as (sub' & Hsub' & [= E1 E2 E3 E4 E5 E6] & Hver).
  apply (Hfin _ sub'); [done|exact Hsub'|congruence|]. intros Hc. destruct (Hcr Hc) as [Hk _].
  apply Hver; by rewrite Hk.
Qed.
End subscribe.

(** ** Examples *)
Definition HttpsUrl : UrlLib := {|
  Url := string;   (* the host of an https url *)
  url_parse s := match strip_prefix "https://" s with Some h => Ok h | None => Err "relative URL" end;
  url_scheme _ := "https";
  url_host h := Some (HostDomain h);
  url_port_or_known_default _ := Some 443;
  url_as_str h := "https://" +:+ h
|}.

Definition ex_subscribe : SubscribeParams :=
  {| sb_name := "orders.changed"; sb_params := None;
     sb_delivery := {| ds_mode := "webhook"; ds_url := "https://hook";
       ds_secret := Some (WHSEC_PREFIX +:+ hex_text "abcdefghijklmnopqrstuvwx") |};
     sb_cursor := None; sb_max_age_ms := None; sb_ttl_ms := Some (Some 1) |}.

Definition ex_clock : Clock3 := {| t_grant := seconds 100; t_read := seconds 101; t_upsert := seconds 102 |}.

(** An endpoint at a public address that echoes the nonce. *)
Definition ex_world {U : UrlLib} (_ : VerifyRequest) : VerifyWorld :=
  {| vw_lookup _ _ := Some [{| sa_ip := V4 (Build_Ipv4Addr 93 184 215 14); sa_port := 443 |}];
     vw_builds := true; vw_nonce := "n0nce"; vw_uuid := "u"; vw_now_secs := 100;
     vw_respond _ := HttpResponse 200 (Some "n0nce") |}.

Definition ex_subscribed : Ended (result JsonRpcError SubscribeResult) * AppState :=
  run (ex_world (U := HttpsUrl))
    (handle_subscribe (S := EchoSerde) (U := HttpsUrl) ex_app ex_clock (Some "alice") ex_subscribe) ex_app.

Definition ex_seen : list (Moment VerifyRequest VerifyWorld) :=
  run_seen (ex_world (U := HttpsUrl))
    (handle_subscribe (S := EchoSerde) (U := HttpsUrl) ex_app ex_clock (Some "alice") ex_subscribe) ex_app.

(** The answers of the examples are compared without their state. *)
Definition answered (r : Ended (result JsonRpcError SubscribeResult)) : option (string * option string) :=
  match r with Returned (Ok res) => Some (sr_id res, sr_refresh_before res) | _ => None end.

Example ex_subscribed_ok : snd <$> answered ex_subscribed.1 = Some (Some "110000").
Proof. vm_compute. reflexivity. Qed.

Lemma subscribe_safe_witness :
  exists ck, subscribe_allowed (U := HttpsUrl) ex_subscribed.2 (Some "alice") ex_subscribe ck /\
    is_verified (a_subs ex_subscribed.2) (ck_principal ck) "https://hook" = true.
Proof.
  assert (is_Some (answered ex_subscribed.1)) as Ha by (vm_compute; by eexists).
  pose proof (subscribe_safe (S := EchoSerde) (U := HttpsUrl) ex_app ex_clock (Some "alice") ex_subscribe ex_app
    ex_subscribed.2 ex_subscribed.1 ex_seen (reflexivity ex_app)
    (run_exec_seen (ex_world (U := HttpsUrl)) _ ex_app)) as [_ H].
  destruct ex_subscribed.1 as [[res|e]|]; [|by destruct Ha..].
  destruct H as (ck & g & Hall & Hver & _). exists ck. by split.
Defined.

Lemma subscribe_unsubscribe_witness :
  exists res, subscribed ex_subscribe "alice" res ex_subscribed.2.
Proof.
  assert (is_Some (answered ex_subscribed.1)) as Ha by (vm_compute; by eexists).
  assert (store_ok (a_subs ex_app)) as Hok by by split.
  pose proof (subscribe_unsubscribe (S := EchoSerde) (U := HttpsUrl) ex_app ex_clock "alice" ex_subscribe
    (ex_world (U := HttpsUrl)) Hok) as H.
  cbv zeta in H. change (run _ _ _) with ex_subscribed in H.
  destruct ex_subscribed as [[[res|e]|] f]; [|by destruct Ha..].
  exists res. exact H.
Defined.
