(* ===== verification/Stream.v ===== *)
(** * events/stream (crates/mcp-events-server/src/handlers/stream.rs).

    The async stream is a state machine: each transition runs the generator
    up to its next shared-state access or suspension, and other tasks may
    operate on the buffer between any two of them.  A broadcast receiver
    (tokio) is a position in the log of its channel: it yields the values in
    order, may be told that it [Lagged] past some of them, and ends after the
    last value once the sender is gone.  The vector of frames that a select
    arm collects is flushed before anything else is yielded, so frames are
    listed when they are built. *)
From S2P Require Import Prelude RustStd Lib Json Wire Buffer History Registry Config Mapping State Handlers.

Section stream.
Context {J : JsonLib} {C : Chrono}.

(** ** Frames *)
Inductive Frame : Type :=
| ActiveFrame (p : EventsActiveParams)
| EventFrame (o : EventOccurrence)
| HeartbeatFrame (p : EventsHeartbeatParams)
| FinalFrame (r : JsonRpcResponse).

Definition notif (method : string) (params : Value) : JsonRpcRequest := notification method (Some params).

(** The message a frame's [data:] line carries. *)
Definition frame_message (f : Frame) : JsonRpcRequest + JsonRpcResponse :=
  match f with
  | ActiveFrame p => inl (notif consts.NOTIF_EVENTS_ACTIVE (enc_EventsActiveParams p))
  | EventFrame o => inl (notif consts.NOTIF_EVENTS_EVENT (enc_EventOccurrence o))
  | HeartbeatFrame p => inl (notif consts.NOTIF_EVENTS_HEARTBEAT (enc_EventsHeartbeatParams p))
  | FinalFrame r => inr r
  end.

Definition seq_of (cursor : string) : Z :=
  default 0 ('(_, s) ← split_once ":" cursor; u64_from_str s).

(** ** The generator *)
Record StreamCfg := {
  sc_id : RequestId;
  sc_params : StreamEventsParams;
  sc_filter : option ParamFilter
}.

Inductive Phase : Type := Opening | Probing | Replaying | Tailing | Resyncing | Finished.

#[export] Instance Phase_eq_dec : EqDecision Phase.
Proof. solve_decision. Defined.

(** The locals: the receiver's position, [cur] and [last_seq]. *)
Record StreamState := {
  s_phase : Phase;
  s_rx : nat;
  s_cur : string;
  s_last : Z
}.

Inductive Recv : Type := Received | Lagged (skipped : nat) | Closed.

Inductive Input : Type :=
| InOther (o : BufOp)   (* another task *)
| InSubscribe
| InRead (now : Z)
| InRecv (r : Recv)
| InTick.

(** What a transition yields, and the [truncated] of a read of the replay or
    resync loop, which the code drops. *)
Record Output := { out_frames : list Frame; out_truncated : bool }.

Definition yields (l : list Frame) : Output := {| out_frames := l; out_truncated := false |}.

Definition stream_meta (c : StreamCfg) : Value :=
  json_obj [(consts.META_SUBSCRIPTION_ID, enc_RequestId (sc_id c))].

Definition active_frame (c : StreamCfg) (cur : string) (truncated : bool) : Frame :=
  ActiveFrame {| ea_cursor := Some cur; ea_truncated := truncated; ea_meta := stream_meta c |}.

Definition with_cursor_meta (o : EventOccurrence) (cur : string) (meta : Value) : EventOccurrence :=
  {| eo_event_id := eo_event_id o; eo_name := eo_name o; eo_timestamp := eo_timestamp o;
     eo_data := eo_data o; eo_cursor := Some (Some cur); eo_meta := Some meta |}.

Definition with_meta (o : EventOccurrence) (meta : Value) : EventOccurrence :=
  {| eo_event_id := eo_event_id o; eo_name := eo_name o; eo_timestamp := eo_timestamp o;
     eo_data := eo_data o; eo_cursor := eo_cursor o; eo_meta := Some meta |}.

Definition stream_new : StreamState := {| s_phase := Opening; s_rx := 0; s_cur := ""; s_last := 0 |}.

(** Leaving the replay loop. *)
Definition start_tail (rx : nat) (cur : string) : StreamState :=
  {| s_phase := Tailing; s_rx := rx; s_cur := cur; s_last := seq_of cur |}.

(** The probe. *)
Definition probe (c : StreamCfg) (s : StreamState) (b : EventBuffer) (now : Z)
    : StreamState * EventBuffer * Output :=
  let p := sc_params c in
  let '(b, r) := read b now (sp_name p) (sp_cursor p) (sp_max_age_ms p) (Some 0) (sp_params p) (sc_filter c) in
  let s' := if rr_has_more r
            then {| s_phase := Replaying; s_rx := s_rx s; s_cur := rr_cursor r; s_last := s_last s |}
            else start_tail (s_rx s) (rr_cursor r) in
  (s', b, yields [active_frame c (rr_cursor r) (rr_truncated r)]).

(** One pass of a one-event-per-read loop: the next position, the frame, and
    whether the loop goes on. *)
Definition read_one (c : StreamCfg) (cur : string) (age : option Z) (b : EventBuffer) (now : Z)
    : EventBuffer * string * bool * Output :=
  let p := sc_params c in
  let '(b, r) := read b now (sp_name p) (Some cur) age (Some 1) (sp_params p) (sc_filter c) in
  match rr_events r with
  | [] => (b, rr_cursor r, false, {| out_frames := []; out_truncated := rr_truncated r |})
  | occ :: _ =>
      (b, rr_cursor r, rr_has_more r,
       {| out_frames := [EventFrame (with_cursor_meta occ (rr_cursor r) (stream_meta c))];
          out_truncated := rr_truncated r |})
  end.

Definition replay (c : StreamCfg) (s : StreamState) (b : EventBuffer) (now : Z)
    : StreamState * EventBuffer * Output :=
  let '(b, cur, more, out) := read_one c (s_cur s) (sp_max_age_ms (sc_params c)) b now in
  (if more then {| s_phase := Replaying; s_rx := s_rx s; s_cur := cur; s_last := s_last s |}
   else start_tail (s_rx s) cur, b, out).

Definition resync (c : StreamCfg) (s : StreamState) (b : EventBuffer) (now : Z)
    : StreamState * EventBuffer * Output :=
  let '(b, cur, more, out) := read_one c (s_cur s) None b now in
  (if more then {| s_phase := Resyncing; s_rx := s_rx s; s_cur := cur; s_last := s_last s |}
   else {| s_phase := Tailing; s_rx := s_rx s; s_cur := cur; s_last := Z.max (s_last s) (seq_of cur) |},
   b, out).

(** A live event. *)
Definition receive (c : StreamCfg) (s : StreamState) (le : LiveEvent) : StreamState * list Frame :=
  let s1 := {| s_phase := Tailing; s_rx := S (s_rx s); s_cur := s_cur s; s_last := s_last s |} in
  if s_last s <? le_seq le then
    let occ := le_occurrence le in
    let cur := match eo_cursor occ with Some (Some x) => x | _ => s_cur s end in
    let deliver := match sp_params (sc_params c), sc_filter c with
                   | Some p, Some f => f p (eo_data occ)
                   | _, _ => true
                   end in
    ({| s_phase := Tailing; s_rx := S (s_rx s); s_cur := cur; s_last := le_seq le |},
     if deliver then [EventFrame (with_meta occ (stream_meta c))] else [])
  else (s1, []).

(** One transition; [None] when the input is not possible in this state. *)
Definition stream_step (c : StreamCfg) (s : StreamState) (b : EventBuffer) (i : Input)
    : option (StreamState * EventBuffer * Output) :=
  let log := tx (type_state b (sp_name (sc_params c))) in
  match i, s_phase s with
  | InOther o, _ => Some (s, buf_step b o, yields [])
  | InSubscribe, Opening =>
      let '(b, rx) := live b (sp_name (sc_params c)) in
      Some ({| s_phase := Probing; s_rx := rx; s_cur := s_cur s; s_last := s_last s |}, b, yields [])
  | InRead now, Probing => Some (probe c s b now)
  | InRead now, Replaying => Some (replay c s b now)
  | InRead now, Resyncing => Some (resync c s b now)
  | InRecv Received, Tailing =>
      match log !! s_rx s with
      | Some le => let '(s', fs) := receive c s le in Some (s', b, yields fs)
      | None => None
      end
  | InRecv (Lagged k), Tailing =>
      if bool_decide (0 < k /\ s_rx s + k <= length log)%nat then
        Some ({| s_phase := Resyncing; s_rx := s_rx s + k; s_cur := s_cur s; s_last := s_last s |}, b,
              yields [active_frame c (s_cur s) true])
      else None
  | InRecv Closed, Tailing =>
      if bool_decide (s_rx s = length log) then
        Some ({| s_phase := Finished; s_rx := s_rx s; s_cur := s_cur s; s_last := s_last s |}, b,
              yields [FinalFrame (success (sc_id c) (json_obj [("_meta", JObject [])]))])
      else None
  | InTick, Tailing =>
      Some (s, b, yields [HeartbeatFrame {| eh_cursor := Some (s_cur s); eh_meta := stream_meta c |}])
  | _, _ => None
  end.

Fixpoint stream_run (c : StreamCfg) (s : StreamState) (b : EventBuffer) (l : list Input)
    : option (StreamState * EventBuffer * list Output) :=
  match l with
  | [] => Some (s, b, [])
  | i :: l' =>
      '(s1, b1, o) ← stream_step c s b i;
      '(s2, b2, os) ← stream_run c s1 b1 l';
      Some (s2, b2, o :: os)
  end.

(** The validation before a stream is opened, and the heartbeat's period. *)
Definition stream_handle {S : SerdeLib} (s : AppState) (id : RequestId) (params : option Value)
    : result JsonRpcError StreamCfg :=
  p ← parse_params "StreamEventsParams" dec_StreamEventsParams params;
  _ ← check_event s Push (sp_name p) (sp_params p);
  Ok {| sc_id := id; sc_params := p; sc_filter := a_filters s !! sp_name p |}.

Definition heartbeat_period_ms (s : AppState) : Z :=
  Z.max (heartbeat_interval_ms (c_push (a_config s))) 1.

(** ** What a run does to the buffer, and what it delivered *)
Definition input_ops (n : string) (i : Input) : list BufOp :=
  match i with
  | InOther o => [o]
  | InSubscribe => [OpLive n]
  | InRead now => [OpRead now n]
  | _ => []
  end.

Definition run_ops (n : string) (l : list Input) : list BufOp := l ≫= input_ops n.

Definition frames (l : list Output) : list Frame := l ≫= out_frames.

Definition occurrences (l : list Frame) : list EventOccurrence :=
  omap (fun f => match f with EventFrame o => Some o | _ => None end) l.

(** The events of a history between two positions that the filter passes. *)
#[local] Abbreviation passing c := (History.passing (sp_params (sc_params c)) (sc_filter c)).

(** [o] delivers [e], with a cursor at or past [e]; [clean] runs return one
    before the next event that passes the filter. *)
Definition delivers (c : StreamCfg) (rnd : Z) (h : list Stored) (clean : Prop)
    (o : EventOccurrence) (e : Stored) : Prop :=
  exists pos, st_seq e <= pos <= Z.of_nat (length h) /\
    (clean -> passing c (st_seq e) pos h = []) /\
    o = with_cursor_meta (poll_occurrence (sp_name (sc_params c)) e) (cursor_text rnd pos) (stream_meta c).

(** What a stream that moved from [start] to [pos] delivered. *)
Definition delivered (c : StreamCfg) (rnd : Z) (h : list Stored) (clean : Prop) (start pos : Z)
    (os : list EventOccurrence) : Prop :=
  exists es, Forall2 (delivers c rnd h clean) os es /\
    es `sublist_of` passing c start pos h /\ (clean -> es = passing c start pos h).

(** No read of the replay or resync loop reported a gap. *)
Definition clean_run (l : list Output) : Prop := Forall (fun o => out_truncated o = false) l.

(** ** Lemmas on windows of a growing history *)

Lemma delivered_grow c rnd h k (cl : Prop) start pos os :
  consecutive 1 (h ++ k) -> pos <= Z.of_nat (length h) ->
  delivered c rnd h cl start pos os -> delivered c rnd (h ++ k) cl start pos os.
Proof.
  intros Hh Hp (es & H1 & H2 & H3). exists es. rewrite (passing_grow _ _ start pos) by done.
  split; [|done]. eapply Forall2_impl; [exact H1|]. intros o e (q & Hq & Hn & ->).
  exists q. rewrite length_app. split; [lia|]. split; [|done].
  intros Hc. by rewrite passing_grow by (done || lia); apply Hn.
Qed.

Lemma delivered_nil c rnd h cl start : delivered c rnd h cl start start [].
Proof. exists []. rewrite passing_empty. by split_and!. Qed.

Lemma delivered_extend c rnd h (cl cl' : Prop) start mid pos os os' :
  consecutive 1 h -> 0 <= start <= mid -> mid <= pos <= Z.of_nat (length h) -> (cl' -> cl) ->
  delivered c rnd h cl start mid os -> delivered c rnd h cl' mid pos os' ->
  delivered c rnd h cl' start pos (os ++ os').
Proof.
  intros Hh Hs Hp Hcl (es & H1 & H2 & H3) (es' & H1' & H2' & H3').
  exists (es ++ es'). rewrite (passing_app _ _ start mid pos h) by done. split_and!.
  - apply Forall2_app; [|done]. eapply Forall2_impl; [exact H1|].
    intros o e (q & Hq & Hn & ->). exists q. by split_and!; [lia..|auto|].
  - by apply sublist_app.
  - intros Hc. by rewrite H3, H3' by auto.
Qed.

(** ** One read, one received event *)
Section runs.
Context (c : StreamCfg) (bc : BufferConfig) (rnd : Z).
Context (Hmax : 0 <= max_events_per_type bc) (Hrnd : 0 <= rnd <= u64_max).
#[local] Abbreviation name := (sp_name (sc_params c)).

Lemma seq_of_text pos : 0 <= pos <= u64_max -> seq_of (cursor_text rnd pos) = pos.
Proof.
  intros Hp. unfold seq_of, cursor_text.
  change (":" +:+ u64_to_string pos) with (String ":" (u64_to_string pos)).
  rewrite split_once_app by by apply u64_to_string_no. simpl. by rewrite u64_from_to_string.
Qed.

(** A position of this process is read from where it stands, unless it was
    evicted, which is reported. *)
Lemma start_spec_cursor low last pos :
  0 <= pos <= last -> last < u64_max -> 0 <= low ->
  exists sa t, start_spec rnd low last (cursor_text rnd pos) = (sa, t) /\ pos <= sa /\ (t = false -> sa = pos).
Proof.
  intros Hp Hl Hlow. unfold start_spec. rewrite parse_cursor_text by lia. rewrite decide_True by done.
  rewrite decide_False by lia. case_decide; eexists _, _; (split; [done|]); split; (lia || done).
Qed.

(** The events of a read are among those the filter passes; without a floor
    that hides any, from the position on, they are all of them. *)
Lemma wanted_sublist fl sa pos pos' h :
  pos <= sa ->
  base.filter (fun e => wanted fl (sp_params (sc_params c)) (sc_filter c) e = true) (window sa pos' h) `sublist_of` passing c pos pos' h.
Proof.
  intros Hsa. unfold passing, window. rewrite !list_filter_filter. apply filter_impl_sublist.
  intros e [Hw Hx]. unfold wanted in Hw. apply andb_true_iff in Hw as [_ ?]. split; [done|lia].
Qed.

Lemma wanted_all fl pos pos' h :
  existsb (below_floor fl) (window pos pos' h) = false ->
  base.filter (fun e => wanted fl (sp_params (sc_params c)) (sc_filter c) e = true) (window pos pos' h) = passing c pos pos' h.
Proof.
  intros Hfl. unfold passing. apply list_filter_ext_in. intros e Hin. unfold wanted. by rewrite (existsb_false_elem _ _ _ Hfl Hin).
Qed.

Lemma read_one_spec ops b cur pos age now b' cur' more out :
  buf_ok bc rnd ops b -> Z.of_nat (length ops) < u64_max ->
  cur = cursor_text rnd pos -> 0 <= pos <= Z.of_nat (length (history name ops)) ->
  read_one c cur age b now = (b', cur', more, out) ->
  let h := history name ops in
  b' = buf_step b (OpRead now name) /\
  exists pos', cur' = cursor_text rnd pos' /\ pos <= pos' <= Z.of_nat (length h) /\
    (more = false -> pos' = Z.of_nat (length h)) /\
    delivered c rnd h (out_truncated out = false) pos pos' (occurrences (out_frames out)) /\
    out_frames out = EventFrame <$> occurrences (out_frames out).
Proof.
  intros (He & Hc & Hty) Hops -> Hpos Hrd h. rewrite history_length in Hpos.
  destruct (Hty name) as [Hok _]. pose proof (type_ok_prune bc _ _ _ now Hok) as Hok'.
  pose proof (emits_length name ops) as Hel.
  pose proof (ok_last _ _ _ Hok') as Hl. pose proof (low_bounds Hok') as Hlow.
  rewrite <- He in Hok'. pose proof (read_state_spec b _ _ now name (cursor_text rnd pos) age (Some 1)
    (sp_params (sc_params c)) (sc_filter c) Hok' ltac:(lia)) as Hspec.
  unfold read_one, read in Hrd. rewrite Hc in Hrd.
  set (r := read_state b (prune bc (type_state b name) now) now name (Some (cursor_text rnd pos)) age (Some 1)
    (sp_params (sc_params c)) (sc_filter c)) in *.
  assert (Z.of_nat (length (rr_events r)) <= 1) as Hone.
  { unfold r, read_state. destruct (read_start _ _ _). apply read_loop_cap. simpl. lia. }
  destruct Hspec as (pos' & Hp & Hcur & Hev & Htr & Hmore).
  destruct (start_spec_cursor (low (prune bc (type_state b name) now)) (last_seq (prune bc (type_state b name) now)) pos)
    as (sa & t & Es & Hsa & Ht); [lia..|]. rewrite <- He in Es at 1.
  rewrite Es in *. cbn [fst snd] in *. unfold cursor_str in Hcur. rewrite He in Hcur.
  fold (history name ops) in Hev, Htr, Hmore. fold h in Hev, Htr, Hmore.
  assert (last_seq (prune bc (type_state b name) now) = Z.of_nat (length h)) as Hn
    by (unfold h; rewrite history_length; lia).
  set (es := base.filter (fun e => wanted (floor_from_max_age_ms now <$> age) (sp_params (sc_params c))
    (sc_filter c) e = true) (window sa pos' h)) in *.
  assert (rr_events r = poll_occurrence name <$> es) as Hes by done.
  assert (es `sublist_of` passing c pos pos' h) as Hsub by by apply wanted_sublist.
  assert (rr_truncated r = false -> es = passing c pos pos' h) as Heq.
  { intros E. rewrite E in Htr. symmetry in Htr. apply orb_false_iff in Htr as [Htf Hfl].
    rewrite <- (Ht Htf) in *. by apply wanted_all. }
  assert (rr_has_more r = false -> pos' = Z.of_nat (length h)) as Hhm by (intros E; rewrite E in Hmore; lia).
  clearbody es r. rewrite Hes in *. destruct es as [|e [|e' es]]; csimpl in *; [..|lia].
  - injection Hrd as <- <- <- <-. split; [simpl; by rewrite Hc|]. exists pos'. split_and!; try done; try lia.
    + intros _. apply Hhm. destruct (rr_has_more r); [|done].
      destruct Hmore as (? & _ & _ & Hcap). simpl in Hcap. done.
    + exists []. split_and!; [constructor|done|apply Heq].
  - injection Hrd as <- <- <- <-. split; [simpl; by rewrite Hc|]. exists pos'. split_and!; try done; try lia.
    exists [e]. split_and!; [|done|apply Heq]. constructor; [|constructor].
    exists pos'.
    assert (e ∈ passing c pos pos' h) as Hin by (eapply elem_of_sublist; [left|exact Hsub]).
    unfold passing, window in Hin. rewrite !list_elem_of_filter in Hin. destruct Hin as (_ & ? & _).
    split; [lia|]. split; [|by rewrite Hcur].
    cbn [out_truncated]. intros E. eapply (passing_singleton _ _ pos pos');
      [apply history_consecutive|fold h; lia|by apply Heq].
Qed.

(** What a receiver at position [rx] of the channel gets. *)
Lemma receive_spec ops b s le s' fs pos :
  buf_ok bc rnd ops b -> Z.of_nat (length ops) < u64_max ->
  tx (type_state b name) !! s_rx s = Some le -> receive c s le = (s', fs) ->
  s_cur s = cursor_text rnd pos -> s_last s = pos -> Z.of_nat (s_rx s) <= pos ->
  let h := history name ops in
  pos <= Z.of_nat (length h) ->
  exists pos', s_cur s' = cursor_text rnd pos' /\ s_last s' = pos' /\ s_phase s' = Tailing /\
    s_rx s' = S (s_rx s) /\ pos <= pos' <= Z.of_nat (length h) /\ Z.of_nat (s_rx s') <= pos' /\
    delivered c rnd h True pos pos' (occurrences fs) /\ fs = EventFrame <$> occurrences fs.
Proof.
  intros (_ & _ & Hty) Hops Hle Hrec Hcur Hlast Hrx h Hpos. destruct (Hty name) as [[_ _ Htx] _].
  rewrite Htx in Hle. unfold live_log in Hle. rewrite list_lookup_imap in Hle.
  apply fmap_Some in Hle as (ev & Hev & ->). pose proof (emits_named _ _ _ _ Hev) as Hname.
  assert (h !! s_rx s = Some (stored_of (1 + Z.of_nat (s_rx s)) ev)) as Hh
    by (unfold h, history; by rewrite number_lookup, Hev).
  pose proof (lookup_lt_Some _ _ _ Hh) as Hlt. unfold receive in Hrec. simpl in Hrec.
  destruct (s_last s <? 1 + Z.of_nat (s_rx s)) eqn:E; bsimp.
  - assert (Z.of_nat (s_rx s) = pos) as Ep by lia. injection Hrec as <- <-. rewrite Ep in *.
    replace (1 + pos) with (pos + 1) in * by lia. set (e := stored_of (pos + 1) ev) in *.
    assert (window pos (pos + 1) h = [e]) as Hw.
    { apply window_next; [apply history_consecutive| |lia]. by rewrite <- Ep, Nat2Z.id. }
    assert (passing c pos (pos + 1) h =
      if passes (sp_params (sc_params c)) (sc_filter c) e then [e] else []) as Hp.
    { unfold passing. rewrite Hw, filter_cons, filter_nil. by destruct (passes _ _ _). }
    exists (pos + 1). simpl. split_and!; try (done || lia); [|by repeat case_match].
    exists (passing c pos (pos + 1) h). split_and!; [|done|done]. rewrite Hp. unfold passes. simpl.
    destruct (match sp_params _ with Some _ => _ | None => _ end); [|constructor].
    constructor; [|constructor]. exists (pos + 1). simpl. split; [lia|]. split.
    + intros _. apply passing_empty.
    + unfold with_meta, with_cursor_meta. simpl. by rewrite Hname.
  - injection Hrec as <- <-. exists pos. simpl. split_and!; try (done || lia). apply delivered_nil.
Qed.

(** ** The invariant of a run *)

(** The first frame: [active], with a position at or past [start]; unless it
    says [truncated], [start] is where the client asked to resume. *)
Definition opened (outs : list Output) (start : Z) (fs : list Frame) : Prop :=
  exists act tr, frames outs = active_frame c (cursor_text rnd act) tr :: fs /\ start <= act /\
    (tr = false -> forall cu, sp_cursor (sc_params c) = Some cu -> parse_cursor cu = Some (rnd, start)).

Definition phase_inv (h : list Stored) (s : StreamState) (outs : list Output) : Prop :=
  match s_phase s with
  | Opening => frames outs = []
  | Probing => frames outs = [] /\ (s_rx s <= length h)%nat
  | ph => exists start pos fs,
      opened outs start fs /\
      s_cur s = cursor_text rnd pos /\ 0 <= start <= pos /\ pos <= Z.of_nat (length h) /\
      (s_rx s <= length h)%nat /\
      delivered c rnd h (clean_run outs) start pos (occurrences fs) /\
      match ph with
      | Tailing | Finished => s_last s = pos /\ Z.of_nat (s_rx s) <= pos
      | Resyncing => s_last s <= pos
      | _ => True
      end
  end.

Lemma frames_snoc l o : frames (l ++ [o]) = frames l ++ out_frames o.
Proof. unfold frames. by rewrite bind_app, bind_singleton. Qed.

Lemma opened_snoc outs o start fs : opened outs start fs -> opened (outs ++ [o]) start (fs ++ out_frames o).
Proof. intros (act & tr & Hf & ?). exists act, tr. rewrite frames_snoc, Hf. done. Qed.

Lemma occurrences_app l k : occurrences (l ++ k) = occurrences l ++ occurrences k.
Proof. unfold occurrences. by rewrite omap_app. Qed.

Lemma clean_run_snoc l o : clean_run (l ++ [o]) <-> clean_run l /\ out_truncated o = false.
Proof. unfold clean_run. by rewrite Forall_app, Forall_singleton. Qed.

(** The other tasks only add to the history. *)
Lemma phase_inv_grow h k s outs :
  consecutive 1 (h ++ k) -> phase_inv h s outs -> phase_inv (h ++ k) s outs.
Proof.
  intros Hc H. unfold phase_inv in *. rewrite length_app.
  destruct (s_phase s); [done|by destruct H; split; [|lia]|..];
    destruct H as (start & pos & fs & Hf & Hcur & Hs & Hp & Hrx & Hd & Hl);
    exists start, pos, fs; split_and!; try (done || lia); by apply delivered_grow.
Qed.

(** A transition that moves on from a position and yields frames. *)
Lemma phase_inv_step h (s' : StreamState) outs o start pos fs pos' (cl : Prop) :
  consecutive 1 h -> opened outs start fs ->
  s_cur s' = cursor_text rnd pos' -> 0 <= start <= pos -> pos <= pos' <= Z.of_nat (length h) ->
  (s_rx s' <= length h)%nat -> (out_truncated o = false -> cl) ->
  delivered c rnd h (clean_run outs) start pos (occurrences fs) ->
  delivered c rnd h cl pos pos' (occurrences (out_frames o)) ->
  match s_phase s' with
  | Opening | Probing => False
  | Tailing | Finished => s_last s' = pos' /\ Z.of_nat (s_rx s') <= pos'
  | Resyncing => s_last s' <= pos'
  | Replaying => True
  end ->
  phase_inv h s' (outs ++ [o]).
Proof.
  intros Hc Hf Hcur Hs Hp Hrx Hcl Hd Hd' Hl. unfold phase_inv.
  assert (delivered c rnd h (clean_run (outs ++ [o])) start pos' (occurrences (fs ++ out_frames o))) as Hall.
  { rewrite occurrences_app. apply (delivered_extend _ _ _ (clean_run outs) _ start pos pos'); try done.
    - by intros [? _]%clean_run_snoc.
    - destruct Hd' as (es & H1 & H2 & H3). exists es. split; [|split; [done|]].
      + eapply Forall2_impl; [exact H1|]. intros x e (q & ? & Hq & ?). exists q.
        split; [done|]. split; [|done]. intros [_ ?]%clean_run_snoc. auto.
      + intros [_ ?]%clean_run_snoc. auto. }
  pose proof (opened_snoc _ o _ _ Hf) as Hf'.
  destruct (s_phase s'); try done; exists start, pos', (fs ++ out_frames o); split_and!; (done || lia).
Qed.

(** Frames that deliver nothing leave the position alone. *)
Lemma delivered_none h cl pos fs : occurrences fs = [] -> delivered c rnd h cl pos pos (occurrences fs).
Proof. intros ->. apply delivered_nil. Qed.

Definition stream_inv (ops : list BufOp) (s : StreamState) (b : EventBuffer) (outs : list Output) : Prop :=
  buf_ok bc rnd ops b /\ phase_inv (history name ops) s outs.

(** The probe of a stream that resumes at a cursor. *)
Lemma probe_read ops st b now cu :
  let h := history name ops in
  let r := read_state b st now name (Some cu) (sp_max_age_ms (sc_params c)) (Some 0)
             (sp_params (sc_params c)) (sc_filter c) in
  epoch b = rnd -> Z.of_nat (length ops) < u64_max -> type_ok (epoch b) (emits name ops) st ->
  exists start pos, rr_cursor r = cursor_text rnd pos /\ 0 <= start <= pos /\ pos <= Z.of_nat (length h) /\
    (rr_has_more r = false -> pos = Z.of_nat (length h)) /\
    (rr_truncated r = false -> forall cu', Some cu = Some cu' -> parse_cursor cu' = Some (rnd, start)) /\
    passing c start pos h = [].
Proof.
  intros h r He Hops Hok. pose proof (low_bounds Hok) as Hlow. pose proof (ok_last _ _ _ Hok) as Hl.
  pose proof (emits_length name ops) as Hel. pose proof (history_length ops name) as Hn. fold h in Hn.
  destruct (read_state_spec b _ st now name cu (sp_max_age_ms (sc_params c)) (Some 0)
    (sp_params (sc_params c)) (sc_filter c) Hok ltac:(lia)) as (pos & Hp & Hcur & Hev & Htr & Hm).
  fold r in Hcur, Hev, Htr, Hm. fold (history name ops) in Hev, Htr, Hm. fold h in Hev, Htr, Hm.
  pose proof (start_spec_bounds (epoch b) _ _ cu Hlow) as Hsb. unfold cursor_str in Hcur. rewrite He in *.
  assert (rr_events r = []) as Hnil.
  { assert (Z.of_nat (length (rr_events r)) <= 0) as Hz.
    { unfold r, read_state. destruct (read_start _ _ _). apply read_loop_cap. simpl. lia. }
    destruct (rr_events r); [done|simpl in Hz; lia]. }
  assert (rr_has_more r = false -> pos = Z.of_nat (length h)) as Hmore by (intros E; rewrite E in Hm; lia).
  destruct (rr_truncated r) eqn:Et.
  - exists pos, pos. split_and!; try (done || lia). apply passing_empty.
  - symmetry in Htr. apply orb_false_iff in Htr as [Hs Hfl].
    pose proof (proj1 (start_spec_servable _ _ _ _) Hs) as (s0 & Hp0 & Hs0).
    rewrite (start_spec_at _ _ _ _ s0 Hp0 Hs0) in *. cbn [fst] in *. exists s0, pos.
    split_and!; try (done || lia); [by intros _ ? [= <-]|].
    rewrite Hnil in Hev. symmetry in Hev. apply fmap_nil_inv in Hev. rewrite <- Hev at 1.
    apply list_filter_ext_in. intros e Hin. unfold wanted. by rewrite (existsb_false_elem _ _ _ Hfl Hin).
Qed.

Lemma probe_inv h ops s b now s' b' o outs :
  buf_ok bc rnd ops b -> Z.of_nat (length ops) < u64_max -> h = history name ops ->
  phase_inv h s outs -> s_phase s = Probing -> probe c s b now = (s', b', o) ->
  b' = buf_step b (OpRead now name) /\ phase_inv h s' (outs ++ [o]).
Proof.
  intros (He & Hc & Hty) Hops -> Hinv Hph Hpr. unfold phase_inv in Hinv. rewrite Hph in Hinv.
  destruct Hinv as [Hf Hrx]. destruct (Hty name) as [Hok _].
  pose proof (type_ok_prune bc _ _ _ now Hok) as Hok'. pose proof (emits_length name ops) as Hel.
  pose proof (ok_last _ _ _ Hok') as Hl. pose proof (low_bounds Hok') as Hlow.
  pose proof (history_length ops name) as Hn.
  unfold probe, read in Hpr. rewrite Hc in Hpr.
  match type of Hpr with context [read_state ?x ?y ?z ?w ?v ?u ?t ?p ?f] => set (r := read_state x y z w v u t p f) in * end.
  assert (exists start pos, rr_cursor r = cursor_text rnd pos /\ 0 <= start <= pos /\
    pos <= Z.of_nat (length (history name ops)) /\
    (rr_has_more r = false -> pos = Z.of_nat (length (history name ops))) /\
    (rr_truncated r = false -> forall cu, sp_cursor (sc_params c) = Some cu -> parse_cursor cu = Some (rnd, start)) /\
    passing c start pos (history name ops) = []) as (start & pos & Hcur & Hs & Hpos & Hmore & Htr & Hnone).
  { destruct (sp_cursor (sc_params c)) as [cu|].
    - rewrite <- He in Hok'. by apply (probe_read ops _ b now cu).
    - exists (Z.of_nat (length (history name ops))), (Z.of_nat (length (history name ops))).
      unfold r, read_state, cursor_str. simpl. rewrite He, Hl, Hn.
      split_and!; try (done || lia). apply passing_empty. }
  clearbody r. injection Hpr as <- <- <-. split; [simpl; by rewrite Hc|].
  assert (opened (outs ++ [yields [active_frame c (rr_cursor r) (rr_truncated r)]]) start []) as Hop.
  { exists pos, (rr_truncated r). rewrite frames_snoc, Hf, Hcur. split; [done|]. split; [lia|done]. }
  assert (forall cl, delivered c rnd (history name ops) cl start pos []) as Hd.
  { intros cl. exists []. rewrite Hnone. by split_and!. }
  unfold phase_inv. destruct (rr_has_more r); simpl; rewrite Hcur in *; exists start, pos, [].
  - split_and!; (done || lia).
  - rewrite seq_of_text by lia. specialize (Hmore eq_refl). split_and!; (done || lia).
Qed.

Lemma replay_inv h ops s b now s' b' o outs :
  buf_ok bc rnd ops b -> Z.of_nat (length ops) < u64_max -> h = history name ops ->
  phase_inv h s outs -> (s_phase s = Replaying /\ replay c s b now = (s', b', o) \/
                         s_phase s = Resyncing /\ resync c s b now = (s', b', o)) ->
  b' = buf_step b (OpRead now name) /\ phase_inv h s' (outs ++ [o]).
Proof.
  intros Hok Hops -> Hinv Hrun. pose proof (emits_length name ops) as Hel.
  pose proof (history_length ops name) as Hn.
  assert (exists age cur' more, read_one c (s_cur s) age b now = (b', cur', more, o) /\ s_cur s' = cur' /\
    s_rx s' = s_rx s /\
    ((s_phase s = Replaying /\ s' = (if more then {| s_phase := Replaying; s_rx := s_rx s; s_cur := cur'; s_last := s_last s |}
       else start_tail (s_rx s) cur')) \/
     (s_phase s = Resyncing /\ s' = (if more then {| s_phase := Resyncing; s_rx := s_rx s; s_cur := cur'; s_last := s_last s |}
       else {| s_phase := Tailing; s_rx := s_rx s; s_cur := cur'; s_last := Z.max (s_last s) (seq_of cur') |}))))
    as (age & cur' & more & Hone & Hc' & Hrx' & Hs').
  { destruct Hrun as [[Hph Hr]|[Hph Hr]]; [unfold replay in Hr|unfold resync in Hr];
      destruct (read_one _ _ _ _ _) as [[[b1 cur1] more] o1] eqn:E; injection Hr as <- <- <-;
      eexists _, cur1, more; (split; [exact E|]); destruct more; auto. }
  assert (exists start pos fs, opened outs start fs /\
      s_cur s = cursor_text rnd pos /\ 0 <= start <= pos /\ pos <= Z.of_nat (length (history name ops)) /\
      (s_rx s <= length (history name ops))%nat /\
      delivered c rnd (history name ops) (clean_run outs) start pos (occurrences fs) /\
      (s_phase s = Resyncing -> s_last s <= pos)) as (start & pos & fs & Hf & Hcur & Hs & Hp & Hrx & Hd & Hl).
  { unfold phase_inv in Hinv. destruct Hs' as [[Hph _]|[Hph _]]; rewrite Hph in Hinv |- *;
      destruct Hinv as (start & pos & fs & ? & ? & ? & ? & ? & ? & ?);
      exists start, pos, fs; split_and!; (done || lia). }
  destruct (read_one_spec ops b _ pos _ _ _ _ _ _ Hok Hops Hcur ltac:(lia) Hone)
    as (-> & pos' & Hcu & Hp' & Hmore & Hdel & _).
  split; [done|]. eapply (phase_inv_step _ _ outs o start pos fs pos' (out_truncated o = false)); try done.
  - apply history_consecutive.
  - congruence.
  - by rewrite Hrx'.
  - assert (seq_of cur' = pos') as Hseq by (rewrite Hcu; apply seq_of_text; lia).
    destruct Hs' as [[Hph ->]|[Hph ->]]; destruct more; simpl; try done.
    + split; [done|]. specialize (Hmore eq_refl). lia.
    + specialize (Hl Hph). lia.
    + specialize (Hl Hph). specialize (Hmore eq_refl). lia.
Qed.

(** Tailing: a received event, a lag, a heartbeat, the end. *)
Lemma tail_inv ops s b i s' b' o outs :
  buf_ok bc rnd ops b -> Z.of_nat (length ops) < u64_max ->
  phase_inv (history name ops) s outs -> s_phase s = Tailing ->
  match i with InRecv _ | InTick => True | _ => False end ->
  stream_step c s b i = Some (s', b', o) -> b' = b /\ phase_inv (history name ops) s' (outs ++ [o]).
Proof.
  intros Hok Hops Hinv Hph Hi Hst. pose proof Hinv as Hinv0. unfold phase_inv in Hinv. rewrite Hph in Hinv.
  destruct Hinv as (start & pos & fs & Hf & Hcur & Hs & Hp & Hrx & Hd & Hl & Hr).
  pose proof (history_length ops name) as Hn. destruct Hok as (He & Hc & Hty).
  destruct (Hty name) as [[_ _ Htx] _].
  assert (length (tx (type_state b name)) = length (history name ops)) as Htl.
  { rewrite Htx. unfold live_log. rewrite length_imap. lia. }
  assert (forall s' o, s_cur s' = s_cur s -> (s_rx s' <= length (history name ops))%nat ->
    s_last s' = s_last s -> out_truncated o = false -> occurrences (out_frames o) = [] ->
    (s_phase s' = Resyncing \/ Z.of_nat (s_rx s') <= pos /\ (s_phase s' = Tailing \/ s_phase s' = Finished)) ->
    phase_inv (history name ops) s' (outs ++ [o])) as Hquiet.
  { intros s1 o1 Hc1 Hr1 Hl1 Ht1 Ho1 Hp1.
    apply (phase_inv_step _ s1 outs o1 start pos fs pos True);
      try (done || lia); [apply history_consecutive|congruence|by apply delivered_none|].
    destruct Hp1 as [-> |[? [-> | ->]]]; lia. }
  unfold stream_step in Hst. rewrite Hph in Hst. destruct i as [| | |[|k|]|]; try done.
  - destruct (tx _ !! s_rx s) as [le|] eqn:Hle; [|done].
    destruct (receive c s le) as [s1 fs1] eqn:Hrec. injection Hst as <- <- <-. split; [done|].
    destruct (receive_spec ops b s le s1 fs1 pos) as (pos' & Hc1 & Hl1 & Hp1 & Hrx1 & Hpp & Hrp & Hd1 & _);
      try (done || lia).
    apply lookup_lt_Some in Hle.
    apply (phase_inv_step _ s1 outs _ start pos fs pos' True);
      try (done || lia); [apply history_consecutive|]. by rewrite Hp1.
  - case_bool_decide as Hk; [|done]. injection Hst as <- <- <-. split; [done|].
    apply Hquiet; simpl; try done; [lia|by left].
  - case_bool_decide as Hk; [|done]. injection Hst as <- <- <-. split; [done|].
    apply Hquiet; simpl; try done. auto.
  - injection Hst as <- <- <-. split; [done|]. apply Hquiet; simpl; try done. auto.
Qed.

Lemma phase_inv_quiet h s outs : phase_inv h s outs -> phase_inv h s (outs ++ [yields []]).
Proof.
  unfold phase_inv, opened. rewrite frames_snoc, app_nil_r.
  assert (clean_run (outs ++ [yields []]) <-> clean_run outs) as E by (rewrite clean_run_snoc; naive_solver).
  destruct (s_phase s); [done|done|..]; intros (start & pos & fs & ? & ? & ? & ? & ? & Hd & ?);
    exists start, pos, fs; (split_and!; try (done || lia)); destruct Hd as (es & F1 & F2 & F3);
    exists es; (split_and!; [|done|by rewrite E]); (eapply Forall2_impl; [exact F1|]);
    intros x e (q & ? & Hq & ?); exists q; by rewrite E.
Qed.

Lemma stream_step_inv ops s b i s' b' o outs :
  Z.of_nat (length (ops ++ input_ops name i)) < u64_max ->
  stream_inv ops s b outs -> stream_step c s b i = Some (s', b', o) ->
  stream_inv (ops ++ input_ops name i) s' b' (outs ++ [o]).
Proof.
  intros Hb [Hok Hinv] Hst. rewrite length_app in Hb. assert (Z.of_nat (length ops) < u64_max) as Hb' by lia.
  assert (forall o, input_ops name i = [o] -> buf_ok bc rnd (ops ++ [o]) (buf_step b o)) as Hstep.
  { intros o1 E. rewrite E in Hb. apply buf_step_ok; [done| |done]. rewrite length_app. simpl in *. lia. }
  destruct i as [bo| |now|r|].
  - injection Hst as <- <- <-. split; [by apply Hstep|]. simpl. rewrite history_snoc.
    apply phase_inv_quiet, phase_inv_grow; [|done]. rewrite <- history_snoc. apply history_consecutive.
  - unfold stream_step in Hst. destruct (s_phase s) eqn:Hph; try done. injection Hst as <- <- <-.
    split; [by apply (Hstep (OpLive name))|]. simpl. rewrite history_quiet by done.
    unfold phase_inv in *. rewrite Hph in Hinv. simpl. rewrite frames_snoc, Hinv. split; [done|].
    destruct Hok as (_ & _ & Hty). destruct (Hty name) as [[_ _ ->] _]. unfold live_log, history.
    by rewrite length_imap, number_length.
  - cbn [input_ops] in *. assert (history name (ops ++ [OpRead now name]) = history name ops) as Eh
      by by apply history_quiet.
    assert (b' = buf_step b (OpRead now name) /\ phase_inv (history name ops) s' (outs ++ [o])) as [-> Hp].
    { unfold stream_step in Hst. destruct (s_phase s) eqn:Hph; try done; apply (inj Some) in Hst.
      - by apply (probe_inv _ ops s b).
      - apply (replay_inv _ ops s b now); auto.
      - apply (replay_inv _ ops s b now); auto. }
    split; [by apply Hstep|]. by rewrite Eh.
  - simpl. rewrite app_nil_r. unfold stream_inv.
    assert (s_phase s = Tailing) as Hph by (unfold stream_step in Hst; by destruct r, (s_phase s)).
    by destruct (tail_inv ops s b (InRecv r) s' b' o outs) as [-> ?].
  - simpl. rewrite app_nil_r. unfold stream_inv.
    assert (s_phase s = Tailing) as Hph by (unfold stream_step in Hst; by destruct (s_phase s)).
    by destruct (tail_inv ops s b InTick s' b' o outs) as [-> ?].
Qed.

Lemma stream_run_inv l ops s b s' b' outs outs0 :
  Z.of_nat (length (ops ++ run_ops name l)) < u64_max ->
  stream_inv ops s b outs0 -> stream_run c s b l = Some (s', b', outs) ->
  stream_inv (ops ++ run_ops name l) s' b' (outs0 ++ outs).
Proof.
  revert ops s b outs0 outs. induction l as [|i l IH]; intros ops s b outs0 outs Hb Hinv Hrun.
  - injection Hrun as <- <- <-. simpl. by rewrite !app_nil_r.
  - simpl in Hrun. apply bind_Some in Hrun as ([[s1 b1] o] & Hst & Hrun).
    apply bind_Some in Hrun as ([[s2 b2] os] & Hrun & [= <- <- <-]).
    change (run_ops name (i :: l)) with (input_ops name i ++ run_ops name l) in *.
    rewrite (assoc_L (++)) in *.
    replace (outs0 ++ o :: os) with ((outs0 ++ [o]) ++ os) by by rewrite <- (assoc_L (++)).
    eapply IH; [done| |done]. eapply stream_step_inv; [|done|done].
    rewrite length_app in Hb. lia.
Qed.

Lemma stream_inv_start ops :
  Z.of_nat (length ops) < u64_max -> stream_inv ops stream_new (buf_run (buffer_new bc rnd) ops) [].
Proof. intros Hb. split; [|done]. apply buf_run_ok; [done|lia]. Qed.

(** C10. Exactly once, in order, through replay, live tail and any number of
    lags, whatever other tasks do to the buffer in between: a stream's first
    frame is [active]; it moves from the position the client asked to resume
    at (unless [active] says [truncated]) to the position of its current
    cursor, and its event frames deliver, each once and in order, only events
    of the type between the two that the filter passes; all of them, when
    no read of the replay or resync loop reported a gap.  The cursor a frame
    carries is then a position at which the client can resume without loss
    or repetition.  Once the receiver has drained its channel, the position
    is the head of the type. *)
Theorem stream_exact ops l s b outs :
  Z.of_nat (length (ops ++ run_ops name l)) < u64_max ->
  stream_run c stream_new (buf_run (buffer_new bc rnd) ops) l = Some (s, b, outs) ->
  s_phase s <> Opening -> s_phase s <> Probing ->
  let h := history name (ops ++ run_ops name l) in
  exists start pos fs,
    opened outs start fs /\ s_cur s = cursor_text rnd pos /\
    0 <= start <= pos /\ pos <= Z.of_nat (length h) /\
    delivered c rnd h (clean_run outs) start pos (occurrences fs) /\
    (s_phase s = Tailing -> s_rx s = length (tx (type_state b name)) -> pos = Z.of_nat (length h)).
Proof.
  intros Hb Hrun Ho Hp h. rewrite length_app in Hb.
  destruct (stream_run_inv l ops stream_new (buf_run (buffer_new bc rnd) ops) s b outs []) as [(_ & _ & Hty) Hinv];
    [by rewrite length_app|apply stream_inv_start; lia|done|]. fold h in Hinv.
  destruct (Hty name) as [[_ _ Htx] _].
  assert (length (tx (type_state b name)) = length h) as Htl.
  { rewrite Htx. unfold live_log, h, history. by rewrite length_imap, number_length. }
  unfold phase_inv in Hinv. destruct (s_phase s); [done|done|..];
    destruct Hinv as (start & pos & fs & Hop & Hcur & Hs & Hpos & Hrx & Hd & Hl);
    exists start, pos, fs; (split_and!; try (done || lia)).
Qed.
End runs.
End stream.

(** ** Examples *)
Definition ex_stream (cursor : string) : StreamCfg :=
  {| sc_id := Num_ 1; sc_filter := None;
     sc_params := {| sp_name := "t.changed"; sp_params := None; sp_cursor := Some cursor;
                     sp_max_age_ms := None |} |}.

(** What a client sees of a frame: the ids of events, the flag of [active]. *)
Definition seen (f : Frame) : option (string + bool) :=
  match f with
  | ActiveFrame p => Some (inr (ea_truncated p))
  | EventFrame o => Some (inl (eo_event_id o))
  | _ => None
  end.

Definition ex_run (l : list Input) : option (StreamState * EventBuffer * list Output) :=
  stream_run (ex_stream "7:1") stream_new (buf_run (buffer_new ex_config 7) ex_ops) l.

(** Resuming after "a" of the ring that holds "b" and "c"; "d" arrives while
    the backlog is replayed, "e" and "f" later; then a lag. *)
Definition ex_inputs : list Input :=
  let emit id n := InOther (OpEmit (seconds n) (ex_event id n)) in
  [InSubscribe; InRead 0; InRead 0; InRead 0; emit "d" 4; InRecv Received; InTick;
   emit "e" 5; emit "f" 6; InRecv (Lagged 1); InRead 0; InRead 0; InRecv Received].

Example stream_example :
  (fun r => (s_phase r.1.1, s_cur r.1.1, omap seen (frames r.2))) <$> ex_run ex_inputs =
  Some (Tailing, "7:6", [inr false; inl "b"; inl "c"; inl "d"; inr true; inl "e"; inl "f"]).
Proof. vm_compute. reflexivity. Qed.

(** When the ring evicts events between two reads of the replay, they are
    lost although the client was told [truncated: false]: here "b" and "c". *)
Example replay_gap :
  (fun r => omap seen (frames r.2)) <$>
    ex_run [InSubscribe; InRead 0; InOther (OpEmit 0 (ex_event "d" 4)); InOther (OpEmit 0 (ex_event "e" 5));
            InRead 0; InRead 0; InRecv Received; InRecv Received] =
  Some [inr false; inl "d"; inl "e"].
Proof. vm_compute. reflexivity. Qed.

Lemma stream_exact_witness :
  match stream_run (ex_stream "7:1") stream_new (buf_run (buffer_new ex_config 7) ex_ops) ex_inputs with
  | Some (s, b, outs) => exists start pos fs,
      opened (ex_stream "7:1") 7 outs start fs /\ s_cur s = cursor_text 7 pos /\
      delivered (ex_stream "7:1") 7
        (history (sp_name (sc_params (ex_stream "7:1"))) (ex_ops ++ run_ops (sp_name (sc_params (ex_stream "7:1"))) ex_inputs))
        (clean_run outs) start pos (occurrences fs)
  | None => False
  end.
Proof.
  assert ((fun r => s_phase r.1.1) <$> stream_run (ex_stream "7:1") stream_new
    (buf_run (buffer_new ex_config 7) ex_ops) ex_inputs = Some Tailing) as Hs by (vm_compute; reflexivity).
  destruct (stream_run _ _ _ _) as [[[s b] outs]|] eqn:E; [|discriminate Hs].
  injection Hs as Hph.
  pose proof (stream_exact (ex_stream "7:1") ex_config 7 ltac:(discriminate) ltac:(split; discriminate)
    ex_ops ex_inputs s b outs) as H. rewrite Hph in H.
  destruct H as (start & pos & fs & H1 & H2 & _ & _ & H3 & _); [vm_compute; reflexivity|exact E|discriminate..|].
  exists start, pos, fs. split_and!; [exact H1|exact H2|exact H3].
Defined.
