(* ===== verification/Dispatch.v ===== *)
(** * The HTTP surface (crates/mcp-events-server/src/dispatch.rs).

    A request is what the handlers read of it: its method, its header texts
    ([headers.get(name)?.to_str().ok()]; header names are case-insensitive)
    and its body, [None] when it could not be buffered.  Requests for the SDK
    (rmcp) are [Forwarded]; what the SDK answers is outside the model.  The
    Debug rendering of a string, whose escapes depend on the Unicode tables,
    is a parameter. *)
From S2P Require Import Prelude RustStd Lib Json Canon Wire Buffer Registry Store Signing Ssrf.
From S2P Require Import Config Mapping State Handlers Subscribe Stream.

Class DebugLib := { debug_str : string -> string }.

Record HttpRequest := {
  hr_method : string;
  hr_header : string -> option string;
  hr_body : option string
}.

Section dispatch.
Context {J : JsonLib} {C : Chrono} {Y : Crypto} {S : SerdeLib} {U : UrlLib} {D : DebugLib}.

Inductive Response : Type :=
| Json (status : Z) (body : JsonRpcResponse)
| JsonValue (status : Z) (body : Value)
| AcceptedEmpty                      (* 202, no body *)
| Sse (c : StreamCfg)                (* 200 text/event-stream *)
| Forwarded (r : HttpRequest)        (* the SDK's answer *)
| Aborted.                           (* the handler panicked *)

(** ** POST /inject *)
Record InjectRequest := {
  ir_name : string;
  ir_data : Value;
  ir_event_id : option string
}.

Definition handle_inject (s : AppState) (now emit_now : Z) (uuid : string) (r : InjectRequest)
    : AppState * Response :=
  if negb (bool_decide (ir_name r ∈ a_injected_names s)) then
    (s, JsonValue 404 (json_obj [("error", JString (debug_str (ir_name r) +:+ " is not an injected event type"))]))
  else
    let event_id := default uuid (ir_event_id r) in
    let '(b, seq) := emit (a_buffer s) emit_now
      {| em_name := ir_name r; em_event_id := event_id; em_timestamp := now; em_data := ir_data r |} in
    (with_buffer s b, JsonValue 200 (json_obj [("eventId", JString event_id); ("seq", json_int seq)])).

(** ** The events methods *)
Definition respond_success (id : RequestId) (result : Value) : Response := Json 200 (success id result).

Definition respond_failure (id : RequestId) (e : JsonRpcError) : Response := Json 200 (failure (Some id) e).

Definition respond (id : RequestId) (outcome : result JsonRpcError Value) : Response :=
  match outcome with
  | Ok (JObject m) =>
      respond_success id (JObject (map_entry_or_insert "resultType" (JString "complete") m))
  | Ok v => respond_success id v
  | Err e => respond_failure id e
  end.

Definition principal_from_headers (c : ServerConfig) (header : string -> option string) : option string :=
  raw ← header "authorization";
  '(scheme, token) ← split_once " " raw;
  if eq_ignore_ascii_case scheme "bearer" then principal_for_token c (trim token) else None.

Definition MAX_BODY_BYTES : Z := 4 * 1024 * 1024.
Definition HEADER_MISMATCH : Z := -32020.

(** The clock readings of one request. *)
Record RpcClock := { rc_poll : Z; rc_subscribe : Clock3 }.

Definition header_mismatch (header method : string) : JsonRpcError :=
  new_error HEADER_MISMATCH
    ("Mcp-Method header " +:+ debug_str header +:+ " does not match body method " +:+ debug_str method) None.

(** The method table. *)
Definition dispatch (s0 : AppState) (t : RpcClock) (principal : option string) (id : RequestId)
    (method : string) (params : option Value) : HProg Response :=
  if bool_decide (method = consts.METHOD_EVENTS_LIST) then Ret (respond id (list_handle s0 params))
  else if bool_decide (method = consts.METHOD_EVENTS_POLL) then
    Atomic (fun s => poll_handle s (rc_poll t) params) (fun r => Ret (respond id r))
  else if bool_decide (method = consts.METHOD_EVENTS_STREAM) then
    match stream_handle s0 id params with
    | Ok c => Ret (Sse c)
    | Err e => Ret (respond_failure id e)
    end
  else if bool_decide (method = consts.METHOD_EVENTS_SUBSCRIBE) then
    match parse_params "SubscribeParams" dec_SubscribeParams params with
    | Err e => Ret (respond_failure id e)
    | Ok p =>
        prog_bind (handle_subscribe s0 (rc_subscribe t) principal p) (fun r =>
          match r with
          | Returned (Ok result) => Ret (respond id (Ok (enc_SubscribeResult result)))
          | Returned (Err e) => Ret (respond_failure id e)
          | Panicked => Ret Aborted
          end)
    end
  else if bool_decide (method = consts.METHOD_EVENTS_UNSUBSCRIBE) then
    match parse_params "UnsubscribeParams" dec_UnsubscribeParams params with
    | Err e => Ret (respond_failure id e)
    | Ok p => Atomic (fun s => handle_unsubscribe s principal p) (fun r => Ret (respond id r))
    end
  else Ret (respond_failure id (method_not_found method)).

Definition handle_events_rpc (s0 : AppState) (t : RpcClock) (header : string -> option string)
    (header_method : option string) (body : string) : HProg Response :=
  let principal := principal_from_headers (a_config s0) header in
  match json_from_str body with
  | None => Ret (Json 400 (failure None (parse_error ("invalid JSON: " +:+ json_error body))))
  | Some value =>
      match dec_JsonRpcRequest value with
      | None =>
          let id := value_get "id" value ≫= dec_RequestId in
          Ret (Json 200 (failure id
            (invalid_request ("not a JSON-RPC request: " +:+ decode_error "JsonRpcRequest" value))))
      | Some req =>
          match rq_id req with
          | None => Ret AcceptedEmpty
          | Some id =>
              match header_method with
              | Some h =>
                  if negb (bool_decide (h = rq_method req)) then
                    Ret (Json 400 (failure (Some id) (header_mismatch h (rq_method req))))
                  else dispatch s0 t principal id (rq_method req) (rq_params req)
              | None => dispatch s0 t principal id (rq_method req) (rq_params req)
              end
          end
      end
  end.

(** ** POST /mcp *)
Definition sniff_method (header : string -> option string) (body : string) : option string :=
  match header "mcp-method" with
  | Some m => Some m
  | None => (json_from_str body ≫= value_get "method") ≫= as_str
  end.

Definition handle_hybrid (s0 : AppState) (t : RpcClock) (req : HttpRequest) : HProg Response :=
  if negb (bool_decide (hr_method req = "POST")) then Ret (Forwarded req)
  else
    match hr_body req with
    | None =>
        Ret (Json 413 (failure None (invalid_request ("request body exceeds "
          +:+ u64_to_string MAX_BODY_BYTES +:+ " bytes or could not be read"))))
    | Some bytes =>
        match sniff_method (hr_header req) bytes with
        | Some m =>
            if starts_with "events/" m then
              handle_events_rpc s0 t (hr_header req) (hr_header req "mcp-method") bytes
            else Ret (Forwarded req)
        | None => Ret (Forwarded req)
        end
    end.

(** ** Answers *)

(** The answer to a request with an id: a JSON-RPC response to that id with
    exactly one of a result, stamped with its type, and an error; or the
    stream or the abort of the methods that have them. *)
Definition answers (id : RequestId) (method : string) (r : Response) : Prop :=
  match r with
  | Json st b => st = 200 /\ rs_id b = Some id /\
      ((exists m, rs_result b = Some (JObject m) /\ is_Some (map_get "resultType" m) /\ rs_error b = None) \/
       (rs_result b = None /\ is_Some (rs_error b)))
  | Sse c => method = consts.METHOD_EVENTS_STREAM /\ sc_id c = id
  | Aborted => method = consts.METHOD_EVENTS_SUBSCRIBE
  | _ => False
  end.

Definition EVENTS_METHODS : list string :=
  [consts.METHOD_EVENTS_LIST; consts.METHOD_EVENTS_POLL; consts.METHOD_EVENTS_STREAM;
   consts.METHOD_EVENTS_SUBSCRIBE; consts.METHOD_EVENTS_UNSUBSCRIBE].

Lemma respond_object id method r :
  (forall v, r = Ok v -> exists m, v = JObject m) -> answers id method (respond id r).
Proof.
  intros H. destruct r as [v|e]; simpl.
  - destruct (H v eq_refl) as [m ->]. split_and!; [done..|]. left. eexists. split_and!; [done| |done].
    unfold map_entry_or_insert. destruct (map_get "resultType" m) eqn:E; [by rewrite E|].
    rewrite map_get_insert, decide_True by done. eauto.
  - split_and!; [done..|]. right. eauto.
Qed.

Lemma failure_answers id method e : answers id method (respond_failure id e).
Proof. split_and!; [done..|]. right. simpl. eauto. Qed.

Lemma poll_handle_object s now params v :
  (poll_handle s now params).2 = Ok v -> exists m, v = JObject m.
Proof.
  unfold poll_handle. destruct (parse_params _ _ _) as [p|]; [|done].
  destruct (check_event _ _ _ _); [|done]. destruct (read _ _ _ _ _ _ _ _) as [b r].
  intros [= <-]. by eexists.
Qed.

Lemma unsubscribe_object s principal p v :
  (handle_unsubscribe s principal p).2 = Ok v -> exists m, v = JObject m.
Proof.
  unfold handle_unsubscribe. destruct principal; [|done]. destruct (registry_get _ _); [|done].
  destruct (remove_step _ s) as [s' [x|]]; [|done]. intros [= <-]. by eexists.
Qed.

Lemma stream_handle_id s id params c : stream_handle s id params = Ok c -> sc_id c = id.
Proof. unfold stream_handle. by intros (p & _ & (d & _ & [= <-])%bind_Ok)%bind_Ok. Qed.

Lemma dispatch_answers s0 t principal id method params s r s' :
  exec (dispatch s0 t principal id method params) s r s' ->
  answers id method r /\
  (method ∉ EVENTS_METHODS -> r = respond_failure id (method_not_found method)).
Proof.
  unfold dispatch, EVENTS_METHODS. intros H.
  repeat (case_bool_decide; [subst method; split; [|rewrite !elem_of_cons; intros Hn; exfalso; apply Hn; tauto]|]).
  - destruct H as [-> _]. apply respond_object. unfold list_handle. intros v.
    destruct (parse_params _ _ _); [|done]. intros [= <-]. by eexists.
  - destruct H as (s1 & _ & -> & _). apply respond_object, poll_handle_object.
  - destruct (stream_handle s0 id params) as [c|e] eqn:E; destruct H as [-> _].
    + split; [done|]. by eapply stream_handle_id.
    + apply failure_answers.
  - destruct (parse_params _ _ _) as [p|e]; [|destruct H as [-> _]; apply failure_answers].
    apply exec_bind in H as ([[res|e]|] & s1 & _ & H); destruct H as [-> _].
    + apply respond_object. intros v [= <-]. by eexists.
    + apply failure_answers.
    + done.
  - destruct (parse_params _ _ _) as [p|e]; [|destruct H as [-> _]; apply failure_answers].
    destruct H as (s1 & _ & -> & _). apply respond_object, unsubscribe_object.
  - destruct H as [-> _]. split; [apply failure_answers|done].
Qed.

(** Every request to POST /mcp is answered as its envelope demands,
    whatever other tasks do meanwhile: a request is forwarded to the SDK,
    unchanged, unless it is a POST whose [Mcp-Method] header, or without one
    its body, names a method under [events/]; of the rest, an unreadable body,
    bad JSON and a body that is no request get their JSON-RPC error, a
    notification an empty 202, a header that contradicts the body a 400, an
    unknown method [MethodNotFound], and any other request an answer to its
    own id with exactly one of result and error. *)
Theorem hybrid_answers s0 t req s r s' :
  exec (handle_hybrid s0 t req) s r s' ->
  match hr_body req with
  | Some body =>
      match json_from_str body ≫= dec_JsonRpcRequest with
      | Some rq =>
          match sniff_method (hr_header req) body with
          | Some m =>
              if bool_decide (hr_method req = "POST") && starts_with "events/" m then
                match rq_id rq with
                | None => r = AcceptedEmpty
                | Some id =>
                    if bool_decide (default (rq_method rq) (hr_header req "mcp-method") = rq_method rq)
                    then answers id (rq_method rq) r /\
                      (rq_method rq ∉ EVENTS_METHODS ->
                       r = Json 200 (failure (Some id) (method_not_found (rq_method rq))))
                    else exists e, r = Json 400 (failure (Some id) e) /\ err_code e = HEADER_MISMATCH
                end
              else r = Forwarded req
          | None => r = Forwarded req
          end
      | None =>
          r = Forwarded req \/
          (json_from_str body = None /\
           exists e, r = Json 400 (failure None e) /\ err_code e = PARSE_ERROR) \/
          exists v e, json_from_str body = Some v /\
            r = Json 200 (failure (value_get "id" v ≫= dec_RequestId) e) /\ err_code e = INVALID_REQUEST
      end
  | None =>
      r = if bool_decide (hr_method req = "POST")
          then Json 413 (failure None (invalid_request "request body exceeds 4194304 bytes or could not be read"))
          else Forwarded req
  end.
Proof.
  unfold handle_hybrid. intros H. case_bool_decide as Hpost; cbn [negb andb] in *.
  2: { destruct H as [-> _]. destruct (hr_body req) as [body|]; [|done].
       destruct (json_from_str body ≫= _); [by case_match|by left]. }
  destruct (hr_body req) as [body|]; [|by destruct H as [-> _]].
  destruct (sniff_method (hr_header req) body) as [m|].
  2: { destruct H as [-> _]. destruct (json_from_str body ≫= _); [done|by left]. }
  destruct (starts_with "events/" m).
  2: { destruct H as [-> _]. destruct (json_from_str body ≫= _); [done|by left]. }
  unfold handle_events_rpc in H. destruct (json_from_str body) as [v|] eqn:Ej; simpl.
  2: { destruct H as [-> _]. right. left. eauto. }
  destruct (dec_JsonRpcRequest v) as [rq|]; [|destruct H as [-> _]; right; right; eauto 6].
  destruct (rq_id rq) as [id|]; [|by destruct H as [-> _]].
  destruct (hr_header req "mcp-method") as [h|]; simpl.
  - case_bool_decide; cbn [negb] in H; [by eapply dispatch_answers|]. destruct H as [-> _]. by eexists.
  - rewrite bool_decide_eq_true_2 by done. by eapply dispatch_answers.
Qed.

(** ** Isolation of principals *)

(** The subscription a request names: subscribe and unsubscribe name the one
    of the caller with the name, url and parameters of their body. *)
Definition request_key (s : AppState) (req : HttpRequest) : option SubKey :=
  caller ← principal_from_headers (a_config s) (hr_header req);
  rq ← (hr_body req ≫= json_from_str) ≫= dec_JsonRpcRequest;
  params ← rq_params rq;
  if bool_decide (rq_method rq = consts.METHOD_EVENTS_SUBSCRIBE) then
    p ← dec_SubscribeParams params;
    Some {| principal := caller; url := ds_url (sb_delivery p); name := sb_name p;
            params_canonical := canonical_json (default JNull (sb_params p)) |}
  else if bool_decide (rq_method rq = consts.METHOD_EVENTS_UNSUBSCRIBE) then
    p ← dec_UnsubscribeParams params;
    Some {| principal := caller; url := ds_url (un_delivery p); name := un_name p;
            params_canonical := canonical_json (default JNull (un_params p)) |}
  else None.

(** A step of caller [p] that only touches the record named [k]. *)
Record isolated (p : option string) (k : option SubKey) (s s' : AppState) : Prop := {
  iso_setup : same_setup s s';
  iso_anonymous : p = None -> a_subs s' = a_subs s;
  iso_others : forall id sub, subs (a_subs s) !! id = Some sub -> Some (principal (ws_key sub)) <> p ->
    (forall k', k = Some k' -> derive_sub_id k' <> id) -> subs (a_subs s') !! id = Some sub
}.

Lemma isolated_same p k s s' : same_setup s s' -> a_subs s' = a_subs s -> isolated p k s s'.
Proof. intros Hs E. split; [done..|]. intros id sub. by rewrite E. Qed.

Lemma upsert_others st now k x y rb c id :
  id <> derive_sub_id k -> subs (upsert st now k x y rb c).1 !! id = subs st !! id.
Proof.
  intros H. unfold upsert, upsert_create. repeat case_match; simpl; try done; by rewrite lookup_insert_ne.
Qed.

Lemma upsert_step_isolated now k x y rb c s pr :
  isolated (Some pr) (Some k) s (upsert_step now k x y rb c s).1.
Proof.
  split; [apply upsert_step_setup|done|]. intros id sub Hs _ Hk. unfold upsert_step.
  pose proof (upsert_others (a_subs s) now k x y rb c id (fun E => Hk k eq_refl (eq_sym E))) as E.
  destruct (upsert _ _ _ _ _ _ _) as [st r]. simpl in *. by rewrite E.
Qed.

Lemma remove_step_isolated k s pr : isolated (Some pr) (Some k) s (remove_step k s).1.
Proof.
  split; [by split|done|]. intros id sub Hs _ Hk. unfold remove_step, remove. simpl.
  rewrite lookup_delete_ne; [done|by apply Hk].
Qed.

Lemma set_verified_step_isolated p u k s : isolated (Some p) k s (set_verified_step p u s).1.
Proof.
  split; [by split|done|]. intros id sub Hs Hp _. simpl. rewrite lookup_fmap, Hs. simpl. f_equal.
  unfold verify_sub. by rewrite bool_decide_eq_false_2 by congruence.
Qed.

(** What subscribe and unsubscribe do to the record of their key. *)
Lemma subscribe_isolated s0 t pr p :
  steps_in (isolated pr ((fun c => sub_key c (sb_name p) (ds_url (sb_delivery p)) (default JNull (sb_params p))) <$> pr))
    (handle_subscribe s0 t pr p).
Proof.
  unfold handle_subscribe. destruct (check_subscribe s0 pr p) as [ck|e] eqn:Eck; [|done].
  apply check_subscribe_Ok, sa_principal in Eck. subst pr. destruct (date_add _ _) as [rb|]; [|done].
  split; [intros s; by apply isolated_same; [apply read_step_setup|]|]. intros rd.
  split; [intros s; apply upsert_step_isolated|]. intros [o|[max]]; [|done].
  split; [intros s; by apply isolated_same; [split|]|]. intros []; [done|]. intros w.
  destruct (verify_endpoint _ _ _ _ _); (split; [intros s|done]); [apply set_verified_step_isolated|apply remove_step_isolated].
Qed.

Lemma unsubscribe_isolated s pr p :
  isolated pr ((fun c => sub_key c (un_name p) (ds_url (un_delivery p)) (default JNull (un_params p))) <$> pr)
    s (handle_unsubscribe s pr p).1.
Proof.
  unfold handle_unsubscribe. destruct pr as [pr|]; [|by apply isolated_same; [split|]].
  destruct (registry_get _ _) as [d|]; [|by apply isolated_same; [split|]]. simpl fmap.
  match goal with |- context [remove_step ?k s] => pose proof (remove_step_isolated k s pr) as H end.
  by destruct (remove_step _ s) as [s' [x|]].
Qed.

Lemma poll_handle_isolated s now params pr k : isolated pr k s (poll_handle s now params).1.
Proof. apply isolated_same; unfold poll_handle; by repeat case_match. Qed.

Lemma parse_params_Some {T} n (dec : Value -> option T) params p :
  dec (JObject []) = None -> parse_params n dec params = Ok p -> params ≫= dec = Some p.
Proof. intros Hn. unfold parse_params. destruct params as [[]|]; simpl; rewrite ?Hn; by repeat case_match; intros; simplify_eq. Qed.

Lemma request_key_subscribe s req rq p :
  (hr_body req ≫= json_from_str) ≫= dec_JsonRpcRequest = Some rq ->
  rq_method rq = consts.METHOD_EVENTS_SUBSCRIBE -> rq_params rq ≫= dec_SubscribeParams = Some p ->
  request_key s req =
  (fun c => sub_key c (sb_name p) (ds_url (sb_delivery p)) (default JNull (sb_params p))) <$>
  principal_from_headers (a_config s) (hr_header req).
Proof.
  intros Hrq Hm Hp. unfold request_key. rewrite Hrq. destruct (principal_from_headers _ _); [|done]. simpl.
  rewrite Hm. destruct (rq_params rq); [|done]. simpl in Hp |- *. by rewrite Hp.
Qed.

Lemma request_key_unsubscribe s req rq p :
  (hr_body req ≫= json_from_str) ≫= dec_JsonRpcRequest = Some rq ->
  rq_method rq = consts.METHOD_EVENTS_UNSUBSCRIBE -> rq_params rq ≫= dec_UnsubscribeParams = Some p ->
  request_key s req =
  (fun c => sub_key c (un_name p) (ds_url (un_delivery p)) (default JNull (un_params p))) <$>
  principal_from_headers (a_config s) (hr_header req).
Proof.
  intros Hrq Hm Hp. unfold request_key. rewrite Hrq. destruct (principal_from_headers _ _); [|done]. simpl.
  rewrite Hm. destruct (rq_params rq); [|done]. simpl in Hp |- *. by rewrite Hp.
Qed.

Lemma dispatch_isolated s0 t req rq id :
  (hr_body req ≫= json_from_str) ≫= dec_JsonRpcRequest = Some rq ->
  let caller := principal_from_headers (a_config s0) (hr_header req) in
  steps_in (isolated caller (request_key s0 req)) (dispatch s0 t caller id (rq_method rq) (rq_params rq)).
Proof.
  intros Hrq caller. unfold dispatch.
  case_bool_decide as H1; [done|]. case_bool_decide as H2; [by split; [intros s; apply poll_handle_isolated|]|].
  case_bool_decide as H3; [by destruct (stream_handle s0 id _)|].
  case_bool_decide as H4.
  { destruct (parse_params _ _ _) as [p|e] eqn:Ep; [|done]. apply parse_params_Some in Ep; [|done].
    apply steps_in_bind; [|by intros [[]|]].
    rewrite (request_key_subscribe s0 req rq p Hrq H4 Ep). apply subscribe_isolated. }
  case_bool_decide as H5; [|done].
  destruct (parse_params _ _ _) as [p|e] eqn:Ep; [|done]. apply parse_params_Some in Ep; [|done].
  split; [|done]. intros s. rewrite (request_key_unsubscribe s0 req rq p Hrq H5 Ep). apply unsubscribe_isolated.
Qed.

(** C11. Isolation.  Whatever runs between its steps, no step of a request,
    valid or not, changes the server's set-up or the subscription of another
    principal, and no step of one without a recognised bearer token changes
    any subscription.  A record of another principal is kept unless the
    digest of the one key the request names, [request_key], collides with
    the digest of the record's key. *)
Theorem request_isolated s0 t req s r s' l pre post :
  exec_seen (handle_hybrid s0 t req) s r s' l -> Did pre post ∈ l ->
  let caller := principal_from_headers (a_config s0) (hr_header req) in
  same_setup pre post /\
  (caller = None -> a_subs post = a_subs pre) /\
  (forall sub, subs (a_subs pre) !! derive_sub_id (ws_key sub) = Some sub ->
     Some (principal (ws_key sub)) <> caller ->
     no_collision (ws_key sub :: option_list (request_key s0 req)) ->
     subs (a_subs post) !! derive_sub_id (ws_key sub) = Some sub).
Proof.
  intros H Hin caller. assert (steps_in (isolated caller (request_key s0 req)) (handle_hybrid s0 t req)) as Hsteps.
  { unfold handle_hybrid. destruct (negb _); [done|]. destruct (hr_body req) as [body|] eqn:Eb; [|done].
    destruct (sniff_method _ _) as [m|]; [|done]. destruct (starts_with _ _); [|done].
    unfold handle_events_rpc. destruct (json_from_str body) as [v|] eqn:Ev; [|done].
    destruct (dec_JsonRpcRequest v) as [rq|] eqn:Erq; [|done]. destruct (rq_id rq) as [id|]; [|done].
    assert ((hr_body req ≫= json_from_str) ≫= dec_JsonRpcRequest = Some rq) as Hrq
      by (by rewrite Eb; simpl; rewrite Ev).
    destruct (hr_header req "mcp-method") as [h|]; [destruct (negb _); [done|]|]; by apply dispatch_isolated. }
  destruct (steps_in_seen _ _ _ _ _ _ Hsteps H _ _ Hin) as [I1 I2 I3]. split_and!; [done..|].
  intros sub Hs Hp Hk. apply I3; [done|done|]. intros k Ek E. rewrite Ek in Hk.
  assert (k = ws_key sub) as -> by (apply Hk; [by right; left|by left|done]).
  unfold request_key in Ek. fold caller in Ek. destruct caller as [c|]; [|done]. simpl in Ek.
  apply Hp. destruct (_ ≫= dec_JsonRpcRequest) as [rq|]; [|done]. simpl in Ek. destruct (rq_params rq) as [v|]; [|done].
  simpl in Ek. repeat case_bool_decide; [destruct (dec_SubscribeParams v)|destruct (dec_UnsubscribeParams v)|]; simplify_eq/=;
    match goal with E : _ = ws_key sub |- _ => by rewrite <- E end.
Qed.

(** POST /inject emits exactly for the configured injected types: the
    occurrence gets the next number of its type, which is returned, is kept
    under the given or a fresh event id, and everything else stays as it is;
    for another name nothing changes.  The server's event model lists every
    type it accepts. *)
Theorem inject_spec config rnd s0 s now emit_now uuid r :
  app_new config rnd true = Ok s0 -> same_setup s0 s ->
  let s' := (handle_inject s now emit_now uuid r).1 in
  let ev := {| em_name := ir_name r; em_event_id := default uuid (ir_event_id r);
               em_timestamp := now; em_data := ir_data r |} in
  match (handle_inject s now emit_now uuid r).2 with
  | JsonValue st v =>
      (st = 200 /\ (exists i, i ∈ c_injected config /\ in_name i = ir_name r) /\
       is_Some (registry_get (a_registry s) (ir_name r)) /\
       s' = with_buffer s (emit (a_buffer s) emit_now ev).1 /\
       value_get "seq" v = Some (json_int (emit (a_buffer s) emit_now ev).2) /\
       value_get "eventId" v = Some (JString (em_event_id ev))) \/
      (st = 404 /\ s' = s /\ forall i, i ∈ c_injected config -> in_name i <> ir_name r)
  | _ => False
  end.
Proof.
  intros Hnew Hsame s' ev. unfold app_new in Hnew. apply bind_Ok in Hnew as ([] & _ & [= <-]).
  unfold s', handle_inject. rewrite (ss_injected _ _ Hsame), (ss_registry _ _ Hsame). simpl.
  case_bool_decide as Hin; simpl.
  - left. apply elem_of_list_to_set, list_elem_of_fmap in Hin as (i & Hn & Hi).
    split_and!; [done|by exists i| |done..].
    apply registry_get_is_Some. rewrite model_defs. rewrite fmap_app, elem_of_app. right.
    apply list_elem_of_fmap. exists (injected_def config i). split; [by rewrite Hn|].
    apply list_elem_of_fmap. by exists i.
  - right. split_and!; [done|done|]. intros i Hi E. apply Hin. rewrite <- E.
    apply elem_of_list_to_set, list_elem_of_fmap. by exists i.
Qed.
End dispatch.

(** ** Examples *)

(** A reader of one text. *)
Definition OneSerde (body : string) (v : Value) : SerdeLib := {|
  json_from_str s := if bool_decide (s = body) then Some v else None;
  json_error _ := "invalid";
  decode_error t _ := "invalid " +:+ t
|}.

Definition PlainDebug : DebugLib := {| debug_str s := String "034" (s +:+ String "034" "") |}.

Definition ex_request : JsonRpcRequest :=
  request (Num_ 1) consts.METHOD_EVENTS_POLL (Some (json_obj [("name", JString "orders.changed")])).

Definition ex_http : HttpRequest :=
  {| hr_method := "POST"; hr_header _ := None; hr_body := Some "request" |}.

Definition ex_rpc_clock : RpcClock := {| rc_poll := 0; rc_subscribe := ex_clock |}.

Definition ex_answer : Response * AppState :=
  run (ex_world (U := HttpsUrl))
    (handle_hybrid (S := OneSerde "request" (enc_JsonRpcRequest ex_request)) (U := HttpsUrl) (D := PlainDebug)
       ex_app ex_rpc_clock ex_http) ex_app.

Lemma hybrid_answers_witness : answers (Num_ 1) consts.METHOD_EVENTS_POLL ex_answer.1.
Proof.
  pose proof (hybrid_answers (S := OneSerde "request" (enc_JsonRpcRequest ex_request)) (U := HttpsUrl)
    (D := PlainDebug) ex_app ex_rpc_clock ex_http ex_app ex_answer.1 ex_answer.2
    (run_exec (ex_world (U := HttpsUrl)) _ ex_app)) as H.
  generalize dependent ex_answer.1. intros r H.
  assert (dec_JsonRpcRequest (enc_JsonRpcRequest ex_request) = Some ex_request) as E by reflexivity.
  assert (sniff_method (S := OneSerde "request" (enc_JsonRpcRequest ex_request)) (hr_header ex_http) "request" =
    Some consts.METHOD_EVENTS_POLL) as Em by reflexivity.
  cbn [ex_http hr_body OneSerde json_from_str] in H. rewrite bool_decide_eq_true_2 in H by reflexivity.
  cbn [mbind option_bind] in H. rewrite E in H.
  match type of H with context [sniff_method ?a ?b] => change (sniff_method a b) with
    (sniff_method (S := OneSerde "request" (enc_JsonRpcRequest ex_request)) (hr_header ex_http) "request") in H end.
  rewrite Em in H. destruct H as [H _]. exact H.
Defined.

Lemma inject_spec_witness :
  let r := {| ir_name := "incident"; ir_data := JNull; ir_event_id := Some "e1" |} in
  exists v, (handle_inject (D := PlainDebug) ex_app 0 0 "u" r).2 = JsonValue 200 v /\
    value_get "eventId" v = Some (JString "e1").
Proof.
  intros r. pose proof (inject_spec (D := PlainDebug) ex_server 7 ex_app ex_app 0 0 "u" r eq_refl (reflexivity ex_app)) as H.
  destruct (handle_inject ex_app 0 0 "u" r).2 as [| st v | | | |] eqn:E; try (by destruct H).
  destruct H as [(-> & _ & _ & _ & _ & Hid)|(-> & _)]; [|discriminate E].
  exists v. split; [reflexivity|exact Hid].
Defined.

(** The server with a token for bob. *)
Definition ex_bob : AppState :=
  let c := ex_server in
  let s := ex_subscribed.2 in
  {| a_config := {| c_host := c_host c; c_port := c_port c;
       c_auth_tokens := [{| at_token := "t0ken"; at_principal := "bob" |}];
       c_event_modeling := c_event_modeling c; c_buffer := c_buffer c; c_feed := c_feed c;
       c_queries := c_queries c; c_push := c_push c; c_poll := c_poll c; c_webhook := c_webhook c;
       c_tools := c_tools c; c_injected := c_injected c |};
     a_registry := a_registry s; a_buffer := a_buffer s; a_subs := a_subs s; a_filters := a_filters s;
     a_injected_names := a_injected_names s; a_diff_names := a_diff_names s |}.

(** Bob asks to end a subscription with the name, url and parameters of
    alice's. *)
Definition ex_end : JsonRpcRequest :=
  request (Num_ 2) consts.METHOD_EVENTS_UNSUBSCRIBE (Some (enc_UnsubscribeParams
    {| un_name := "orders.changed"; un_params := None; un_delivery := sb_delivery ex_subscribe |})).

Definition ex_bob_http : HttpRequest :=
  {| hr_method := "POST";
     hr_header n := if bool_decide (n = "authorization") then Some "Bearer t0ken" else None;
     hr_body := Some "request" |}.

Lemma request_isolated_witness :
  let caller := principal_from_headers (a_config ex_bob) (hr_header ex_bob_http) in
  let post := (run (ex_world (U := HttpsUrl))
    (handle_hybrid (S := OneSerde "request" (enc_JsonRpcRequest ex_end)) (U := HttpsUrl) (D := PlainDebug)
       ex_bob ex_rpc_clock ex_bob_http) ex_bob).2 in
  caller = Some "bob" /\
  exists sub, subs (a_subs ex_bob) !! derive_sub_id (ws_key sub) = Some sub /\
    request_key (S := OneSerde "request" (enc_JsonRpcRequest ex_end)) ex_bob ex_bob_http =
      Some {| principal := "bob"; url := url (ws_key sub); name := name (ws_key sub);
              params_canonical := params_canonical (ws_key sub) |} /\
    subs (a_subs post) !! derive_sub_id (ws_key sub) = Some sub.
Proof.
  intros caller post. split; [by vm_compute|].
  set (kb := {| principal := "bob"; url := "https://hook"; name := "orders.changed"; params_canonical := canonical_json JNull |}).
  set (ka := {| principal := "alice"; url := "https://hook"; name := "orders.changed"; params_canonical := canonical_json JNull |}).
  assert (request_key (S := OneSerde "request" (enc_JsonRpcRequest ex_end)) ex_bob ex_bob_http = Some kb) as Ek by by vm_compute.
  assert (ws_key <$> subs (a_subs ex_bob) !! derive_sub_id ka = Some ka) as (sub & Hs & Esub)%fmap_Some
    by by vm_compute.
  exists sub. rewrite <- Esub. split; [exact Hs|]. split; [exact Ek|].
  destruct (request_isolated (S := OneSerde "request" (enc_JsonRpcRequest ex_end)) (U := HttpsUrl) (D := PlainDebug)
    ex_bob ex_rpc_clock ex_bob_http ex_bob _ _ _ ex_bob post (run_exec_seen (ex_world (U := HttpsUrl)) _ ex_bob))
    as (_ & _ & H).
  { apply run_seen_single. vm_compute. exact I. }
  specialize (H sub). rewrite Ek, <- Esub in H. apply H; [exact Hs|by vm_compute|].
  apply no_collision_pair. intros E. vm_compute in E. discriminate E.
Defined.
