(* ===== verification/Utf8.v ===== *)
(** * [String::from_utf8_lossy], byte by byte.

    Every maximal prefix of a sequence that cannot be completed becomes one
    U+FFFD, as std's [Utf8Chunks] does. *)
From S2P Require Import Prelude RustStd.

Definition byte_in (lo hi : N) (c : ascii) : bool := ((lo <=? N_of_ascii c) && (N_of_ascii c <=? hi))%N.

(** The length a leading byte announces ([utf8_char_width]). *)
Definition utf8_width (a : ascii) : Z :=
  if byte_in 0 127 a then 1
  else if byte_in 194 223 a then 2
  else if byte_in 224 239 a then 3
  else if byte_in 240 244 a then 4
  else 0.

Definition is_cont (c : ascii) : bool := byte_in 128 191 c.

(** The second bytes a three- and four-byte leader admits. *)
Definition second3 (a b : ascii) : bool :=
  if byte_in 224 224 a then byte_in 160 191 b
  else if byte_in 237 237 a then byte_in 128 159 b
  else is_cont b.

Definition second4 (a b : ascii) : bool :=
  if byte_in 240 240 a then byte_in 144 191 b
  else if byte_in 244 244 a then byte_in 128 143 b
  else is_cont b.

Definition REPLACEMENT : string := String "239" (String "191" (String "189" "")).

Fixpoint utf8_lossy (s : string) : string :=
  match s with
  | EmptyString => ""
  | String a s1 =>
      let w := utf8_width a in
      if w =? 1 then String a (utf8_lossy s1)
      else if w =? 0 then REPLACEMENT +:+ utf8_lossy s1
      else
        match s1 with
        | EmptyString => REPLACEMENT
        | String b s2 =>
            if w =? 2 then
              if is_cont b then String a (String b (utf8_lossy s2)) else REPLACEMENT +:+ utf8_lossy s1
            else if negb (if w =? 3 then second3 a b else second4 a b) then
              REPLACEMENT +:+ utf8_lossy s1
            else
              match s2 with
              | EmptyString => REPLACEMENT
              | String c s3 =>
                  if negb (is_cont c) then REPLACEMENT +:+ utf8_lossy s2
                  else if w =? 3 then String a (String b (String c (utf8_lossy s3)))
                  else
                    match s3 with
                    | EmptyString => REPLACEMENT
                    | String d s4 =>
                        if is_cont d then String a (String b (String c (String d (utf8_lossy s4))))
                        else REPLACEMENT +:+ utf8_lossy s3
                    end
              end
        end
  end.

(** Well-formed text: nothing is replaced. *)
Definition is_utf8 (s : string) : bool := bool_decide (utf8_lossy s = s).

Lemma utf8_ascii s : str_forall (fun c => byte_in 0 127 c) s = true -> utf8_lossy s = s.
Proof.
  induction s as [|a s IH]; [done|]. simpl. intros [Ha Hs]%andb_true_iff.
  unfold utf8_width. rewrite Ha. simpl. by rewrite IH.
Qed.

Lemma utf8_cons_ascii a s : byte_in 0 127 a = true -> utf8_lossy (String a s) = String a (utf8_lossy s).
Proof. intros Ha. simpl. unfold utf8_width. by rewrite Ha. Qed.

Lemma utf8_app_ascii p s :
  str_forall (fun c => byte_in 0 127 c) p = true -> utf8_lossy (p +:+ s) = p +:+ utf8_lossy s.
Proof.
  induction p as [|a p IH]; [done|]. simpl. intros [Ha Hp]%andb_true_iff.
  unfold utf8_width. rewrite Ha. simpl. by rewrite IH.
Qed.

(** "é", a lone continuation byte, a cut-off three-byte sequence, a surrogate. *)
Example utf8_lossy_examples :
  utf8_lossy (String "195" (String "169" "")) = String "195" (String "169" "") /\
  utf8_lossy (String "a" (String "169" "b")) = String "a" (REPLACEMENT +:+ "b") /\
  utf8_lossy (String "226" (String "156" "x")) = REPLACEMENT +:+ "x" /\
  utf8_lossy (String "237" (String "160" (String "128" ""))) = REPLACEMENT +:+ REPLACEMENT +:+ REPLACEMENT.
Proof. by split_and!. Qed.
