(* ===== verification/SseText.v ===== *)
(** * Server-Sent Events text: what the two parsers share, and what a server
    sends (axum's [Event::data], the keep-alive comments). *)
From S2P Require Import Prelude RustStd Utf8.

Definition LF : ascii := "010".
Definition CR : ascii := "013".

(** The field and value of a line, one leading space stripped. *)
Definition field_value (line : string) : string * string :=
  match split_once ":" line with
  | Some (f, v) => (f, default v (strip_prefix " " v))
  | None => (line, "")
  end.

Definition opt_list {A} (o : option A) : list A := match o with Some x => [x] | None => [] end.

(** A block of a stream: one-line data, or a comment. *)
Inductive Block : Type := DataBlock (t : string) | CommentBlock (t : string).

Definition block_line (b : Block) : string :=
  match b with DataBlock t => "data: " +:+ t | CommentBlock t => ":" +:+ t end.

Definition block_text (b : Block) : string := block_line b +:+ String LF (String LF "").

Definition block_data (b : Block) : option string := match b with DataBlock t => Some t | CommentBlock _ => None end.

(** One line of text. *)
Definition line_ok (t : string) : Prop := str_has LF t = false /\ str_has CR t = false /\ is_utf8 t = true.

Definition block_ok (b : Block) : Prop := match b with DataBlock t | CommentBlock t => line_ok t end.

Fixpoint str_concat (l : list string) : string :=
  match l with [] => "" | s :: l' => s +:+ str_concat l' end.

Lemma str_concat_app l k : str_concat (l ++ k) = str_concat l +:+ str_concat k.
Proof. induction l as [|s l IH]; [done|]. simpl. by rewrite IH, app_assoc'. Qed.

Lemma block_line_has c b : c <> "d"%char -> c <> "a"%char -> c <> "t"%char -> c <> ":"%char -> c <> " "%char ->
  str_has c (block_line b) = match b with DataBlock t | CommentBlock t => str_has c t end.
Proof.
  intros. destruct b; unfold block_line; rewrite str_has_app; unfold str_has at 1; simpl;
    rewrite !bool_decide_eq_false_2 by congruence; done.
Qed.

Lemma block_line_utf8 b : block_ok b -> utf8_lossy (block_line b) = block_line b.
Proof.
  intros H. assert (forall t, line_ok t -> utf8_lossy t = t) as E.
  { intros t (_ & _ & Ht). by apply bool_decide_eq_true in Ht. }
  destruct b; simpl in H; unfold block_line; rewrite utf8_app_ascii by done; by rewrite E.
Qed.

(** ** Incremental line parsers

    A parser with a byte buffer, a way to find its first complete line and a
    step on a line.  The loop drains one line after another; its fuel is the
    length of the buffer, which every pass shortens. *)
Class LineParser (P Ev : Type) := {
  lp_get : P -> string;
  lp_set : P -> string -> P;
  lp_find : string -> option (string * string);   (* the line and what follows *)
  lp_step : P -> string -> P * option Ev
}.

Class LineParserLaws {P Ev : Type} (L : LineParser P Ev) : Prop := {
  lp_get_set p b : lp_get (lp_set p b) = b;
  lp_set_set p b b' : lp_set (lp_set p b) b' = lp_set p b';
  lp_set_get p : lp_set p (lp_get p) = p;
  lp_find_length b l r : lp_find b = Some (l, r) -> (String.length r < String.length b)%nat;
  (** more input does not change a line that is complete *)
  lp_find_app b l r k : lp_find b = Some (l, r) -> lp_find (b +:+ k) = Some (l, r +:+ k);
  (** lines are processed apart from the buffer *)
  lp_step_set p b l : lp_step (lp_set p b) l = (lp_set (lp_step p l).1 b, (lp_step p l).2);
  lp_step_get p l : lp_get (lp_step p l).1 = lp_get p
}.

Section drain.
Context {P Ev : Type} {L : LineParser P Ev}.

Fixpoint drain_lines (fuel : nat) (p : P) : P * list Ev :=
  match fuel with
  | O => (p, [])
  | S fuel' =>
      match lp_find (lp_get p) with
      | Some (line, rest) =>
          let '(p1, o) := lp_step (lp_set p rest) line in
          let '(p2, out) := drain_lines fuel' p1 in
          (p2, opt_list o ++ out)
      | None => (p, [])
      end
  end.

Definition drain (p : P) : P * list Ev := drain_lines (String.length (lp_get p)) p.

Context {LL : LineParserLaws L}.

Lemma drain_lines_fuel n m p :
  (String.length (lp_get p) <= n)%nat -> (String.length (lp_get p) <= m)%nat ->
  drain_lines n p = drain_lines m p.
Proof.
  assert (forall b l r, lp_find b = Some (l, r) -> (0 < String.length b)%nat) as Hpos
    by (intros b l r E%lp_find_length; lia).
  revert m p. induction n as [|n IH]; intros m p Hn Hm.
  - destruct m as [|m]; [done|]. simpl. destruct (lp_find _) as [[l r]|] eqn:E; [|done].
    apply Hpos in E. lia.
  - destruct m as [|m]; simpl; (destruct (lp_find _) as [[l r]|] eqn:E; [|done]).
    + apply Hpos in E. lia.
    + apply lp_find_length in E. rewrite lp_step_set.
      by rewrite (IH m) by (rewrite lp_get_set; lia).
Qed.

Lemma drain_step p l r :
  lp_find (lp_get p) = Some (l, r) ->
  drain p = let '(p2, out) := drain (lp_set (lp_step p l).1 r) in
            (p2, opt_list (lp_step p l).2 ++ out).
Proof.
  intros E. unfold drain. pose proof (lp_find_length _ _ _ E) as Hl. rewrite lp_get_set.
  destruct (String.length (lp_get p)) as [|n] eqn:En; [lia|]. simpl. rewrite E, lp_step_set.
  by rewrite (drain_lines_fuel n (String.length r)) by (rewrite lp_get_set; lia).
Qed.

Lemma drain_none p : lp_find (lp_get p) = None -> drain p = (p, []).
Proof. intros E. unfold drain. destruct (String.length _); [done|]. simpl. by rewrite E. Qed.

Lemma drain_drained p : lp_find (lp_get (drain p).1) = None.
Proof.
  remember (String.length (lp_get p)) as n eqn:Hn. revert p Hn.
  induction (lt_wf n) as [n _ IH]; intros p ->.
  destruct (lp_find (lp_get p)) as [[l r]|] eqn:E; [|by rewrite drain_none].
  rewrite (drain_step _ _ _ E).
  specialize (IH _ (lp_find_length _ _ _ E) (lp_set (lp_step p l).1 r)). rewrite lp_get_set in IH.
  specialize (IH eq_refl). by destruct (drain _).
Qed.

(** Draining in two steps. *)
Lemma drain_app p k :
  drain (lp_set p (lp_get p +:+ k)) =
  let '(p1, o1) := drain p in
  let '(p2, o2) := drain (lp_set p1 (lp_get p1 +:+ k)) in (p2, o1 ++ o2).
Proof.
  remember (String.length (lp_get p)) as n eqn:Hn. revert p Hn.
  induction (lt_wf n) as [n _ IH]; intros p ->.
  destruct (lp_find (lp_get p)) as [[l r]|] eqn:E; [|rewrite (drain_none p E); by destruct (drain _)].
  rewrite (drain_step p l r E).
  rewrite (drain_step (lp_set p (lp_get p +:+ k)) l (r +:+ k))
    by (rewrite lp_get_set; by apply lp_find_app).
  rewrite lp_step_set. cbn [fst snd]. rewrite lp_set_set.
  specialize (IH _ (lp_find_length _ _ _ E) (lp_set (lp_step p l).1 r)).
  rewrite lp_get_set, lp_set_set in IH. rewrite (IH eq_refl).
  destruct (drain (lp_set (lp_step p l).1 r)) as [p1 o1].
  destruct (drain (lp_set p1 _)) as [p2 o2]. by rewrite (assoc_L (++)).
Qed.
End drain.
