(* ===== verification/Dedup.v ===== *)
(** * The bounded duplicate detector
    (crates/mcp-events-client/src/dedup.rs).

    Ghost: [recency] lists the distinct keys of a history, the most recently
    used first; the detector remembers exactly its first [cap] entries. *)
From S2P Require Import Prelude RustStd.

Record LruSet := {
  cap : Z;
  set : gset string;
  order : list string
}.

(** [LruSet::new]. *)
Definition lru_new (c : Z) : LruSet := {| cap := Z.max c 1; set := ∅; order := [] |}.

Definition lru_len (s : LruSet) : Z := Z.of_nat (size (set s)).

(** The first position of a key ([iter().position]). *)
Fixpoint position (k : string) (l : list string) : option nat :=
  match l with
  | [] => None
  | x :: l' => if bool_decide (x = k) then Some 0%nat else S <$> position k l'
  end.

(** [VecDeque::remove]. *)
Definition remove_at (i : nat) (l : list string) : list string := take i l ++ drop (S i) l.

Definition promote (s : LruSet) (key : string) : LruSet :=
  match position key (order s) with
  | Some pos =>
      match order s !! pos with
      | Some k => {| cap := cap s; set := set s; order := remove_at pos (order s) ++ [k] |}
      | None => s
      end
  | None => s
  end.

Definition evict (s : LruSet) : LruSet :=
  match order s with
  | oldest :: l => {| cap := cap s; set := set s ∖ {[oldest]}; order := l |}
  | [] => s
  end.

Definition check_and_insert (s : LruSet) (key : string) : LruSet * bool :=
  if bool_decide (key ∈ set s) then (promote s key, true)
  else
    let s := if cap s <=? lru_len s then evict s else s in
    ({| cap := cap s; set := {[key]} ∪ set s; order := order s ++ [key] |}, false).

Definition lru_run (c : Z) (l : list string) : LruSet :=
  foldl (fun s k => (check_and_insert s k).1) (lru_new c) l.

Definition recency (l : list string) : list string :=
  foldl (fun r k => k :: base.filter (fun x => x <> k) r) [] l.

(** ** Lemmas *)
Lemma recency_snoc l k : recency (l ++ [k]) = k :: base.filter (fun x => x <> k) (recency l).
Proof. unfold recency. by rewrite foldl_snoc. Qed.

Lemma recency_NoDup l : NoDup (recency l).
Proof.
  induction l as [|k l IH] using rev_ind; [constructor|]. rewrite recency_snoc. constructor.
  - rewrite list_elem_of_filter. by intros [? _].
  - by apply NoDup_filter.
Qed.

Lemma elem_of_recency l k : k ∈ recency l <-> k ∈ l.
Proof.
  induction l as [|x l IH] using rev_ind; [done|].
  rewrite recency_snoc, elem_of_cons, list_elem_of_filter, elem_of_app, list_elem_of_singleton, IH.
  destruct (decide (k = x)) as [->|]; tauto.
Qed.

Lemma filter_ne_id (k : string) (l : list string) : k ∉ l -> base.filter (fun x => x <> k) l = l.
Proof. intros H. apply filter_all, Forall_forall. by intros x Hx ->. Qed.

(** Removing a key that occurs once. *)
Lemma remove_position (k : string) (l : list string) :
  NoDup l -> k ∈ l -> exists i, position k l = Some i /\ l !! i = Some k /\
    remove_at i l = base.filter (fun x => x <> k) l.
Proof.
  induction 1 as [|x l Hx Hl IH]; [by intros ?%elem_of_nil|]. intros Hk. simpl.
  case_bool_decide as E; subst.
  - exists 0%nat. split_and!; [done..|]. unfold remove_at. simpl.
    rewrite filter_cons_False by tauto. by rewrite filter_ne_id.
  - apply elem_of_cons in Hk as [->|Hk]; [done|]. destruct (IH Hk) as (i & -> & Hi & Hr).
    exists (S i). split_and!; [done|done|]. unfold remove_at in *. simpl. rewrite Hr.
    by rewrite filter_cons_True.
Qed.

(** Promotion within the remembered part. *)
Lemma take_promote n (k : string) (l : list string) :
  NoDup l -> k ∈ take n l ->
  take n (k :: base.filter (fun x => x <> k) l) = k :: base.filter (fun x => x <> k) (take n l).
Proof.
  intros Hl Hk. destruct n as [|n]; [by apply elem_of_nil in Hk|]. cbn [take]. f_equal.
  change (match l with [] => [] | y :: l0 => y :: take n l0 end) with (take (S n) l) in *.
  revert n Hk. induction Hl as [|x l Hx Hl IH]; intros n Hk; [by apply elem_of_nil in Hk|].
  cbn [take] in *. destruct (decide (x = k)) as [->|Hxk].
  - rewrite !filter_cons_False by tauto.
    rewrite !filter_ne_id; [done| |done]. intros H. apply Hx. by eapply elem_of_take in H as (? & ? & _);
      eapply list_elem_of_lookup_2.
  - rewrite !filter_cons_True by done. apply elem_of_cons in Hk as [->|Hk]; [done|].
    destruct n as [|n]; [by apply elem_of_nil in Hk|]. cbn [take]. f_equal.
    apply (IH n). exact Hk.
Qed.

(** Insertion of a forgotten or new key. *)
Lemma take_insert n (k : string) (l : list string) :
  k ∉ take (S n) l -> take (S n) (k :: base.filter (fun x => x <> k) l) = k :: take n l.
Proof.
  intros Hk. cbn [take]. f_equal. revert n Hk. induction l as [|x l IH]; intros n Hk; [done|].
  cbn [take] in Hk. apply not_elem_of_cons in Hk as [Hx Hk].
  rewrite filter_cons_True by congruence. destruct n as [|n]; [done|]. cbn [take]. f_equal. by apply IH.
Qed.

Lemma NoDup_reverse (l : list string) : NoDup (reverse l) <-> NoDup l.
Proof. by rewrite reverse_Permutation. Qed.

(** The invariant. *)
Record lru_ok (n : nat) (l : list string) (s : LruSet) : Prop := {
  lo_cap : cap s = Z.of_nat (S n);
  lo_set : set s = list_to_set (order s);
  lo_order : order s = reverse (take (S n) (recency l))
}.

Lemma lru_ok_size n l s : lru_ok n l s -> size (set s) = length (take (S n) (recency l)).
Proof.
  intros [_ Hs Ho]. rewrite Hs, size_list_to_set, Ho, length_reverse; [done|].
  rewrite Ho. apply NoDup_reverse. eapply sublist_NoDup; [apply recency_NoDup|apply sublist_take].
Qed.

Lemma lru_ok_mem n l s k : lru_ok n l s -> k ∈ set s <-> k ∈ take (S n) (recency l).
Proof. intros [_ -> ->]. by rewrite elem_of_list_to_set, elem_of_reverse. Qed.

Lemma check_and_insert_ok n l s k :
  lru_ok n l s ->
  lru_ok n (l ++ [k]) (check_and_insert s k).1 /\
  (check_and_insert s k).2 = bool_decide (k ∈ take (S n) (recency l)).
Proof.
  intros Hok. pose proof (lru_ok_mem n l s k Hok) as Hmem. pose proof (lru_ok_size n l s Hok) as Hsize.
  destruct Hok as [Hc Hs Ho]. unfold check_and_insert.
  assert (NoDup (take (S n) (recency l))) as Hnd
    by (eapply sublist_NoDup; [apply recency_NoDup|apply sublist_take]).
  case_bool_decide as Hk; [rewrite bool_decide_eq_true_2 by tauto|rewrite bool_decide_eq_false_2 by tauto];
    (split; [|done]); simpl.
  - apply Hmem in Hk. destruct (remove_position k (order s)) as (i & Hp & Hi & Hr).
    { rewrite Ho. by apply NoDup_reverse. }
    { rewrite Ho. by apply elem_of_reverse. }
    unfold promote. rewrite Hp, Hi, Hr, Ho, filter_reverse. split; simpl; [done|..].
    + rewrite Hs, Ho. apply set_eq. intros x.
      rewrite !elem_of_list_to_set, elem_of_app, list_elem_of_singleton, !elem_of_reverse, list_elem_of_filter.
      destruct (decide (x = k)) as [->|]; tauto.
    + by rewrite recency_snoc, take_promote, reverse_cons by done || apply recency_NoDup.
  - assert (k ∉ take (S n) (recency l)) as Hk' by tauto.
    assert (exists o, order (if cap s <=? lru_len s then evict s else s) = o /\
      set (if cap s <=? lru_len s then evict s else s) = list_to_set o /\
      cap (if cap s <=? lru_len s then evict s else s) = cap s /\
      o = reverse (take n (recency l))) as (o & E1 & E2 & E3 & E4).
    { eexists. split; [done|]. unfold lru_len. rewrite Hsize, Hc, length_take.
      destruct (_ <=? _) eqn:E; bsimp.
      - unfold evict. rewrite Ho in *. assert (exists y, recency l !! n = Some y) as [y Hy]
          by (apply lookup_lt_is_Some; lia).
        rewrite (take_S_r _ _ y Hy), reverse_snoc in *. simpl. split_and!; [|done|done].
        rewrite Hs. simpl. apply set_eq. intros x. apply NoDup_reverse in Hnd.
        rewrite reverse_snoc in Hnd. apply NoDup_cons in Hnd as [Hy' _].
        rewrite elem_of_difference, elem_of_union, elem_of_list_to_set, !elem_of_singleton.
        naive_solver.
      - split_and!; [done|done|]. rewrite Ho, !take_ge by lia. done. }
    split; simpl; [congruence|..].
    + rewrite E1, E2. apply set_eq. intros x.
      rewrite elem_of_union, elem_of_singleton, !elem_of_list_to_set, elem_of_app, list_elem_of_singleton. tauto.
    + by rewrite E1, E4, recency_snoc, take_insert, reverse_cons.
Qed.

Lemma lru_run_ok c l : lru_ok (Z.to_nat (Z.max c 1 - 1)) l (lru_run c l).
Proof.
  induction l as [|k l IH] using rev_ind.
  - split; [simpl; lia|done|done].
  - unfold lru_run. rewrite foldl_snoc. by apply check_and_insert_ok.
Qed.

(** C35. The detector is exact over its window: after any history of keys, a
    key is reported as a duplicate exactly when it is among the [cap] most
    recently used distinct keys (the capacity is at least one), which are
    what the detector holds, so that its memory is bounded. *)
Theorem dedup_exact c l k :
  let n := Z.max c 1 in
  let s := lru_run c l in
  let window := take (Z.to_nat n) (recency l) in
  (check_and_insert s k).2 = bool_decide (k ∈ window) /\
  order s = reverse window /\ set s = list_to_set window /\
  lru_len s <= n /\
  order (check_and_insert s k).1 = reverse (take (Z.to_nat n) (k :: base.filter (fun x => x <> k) (recency l))).
Proof.
  intros n s window. pose proof (lru_run_ok c l) as Hok. fold s in Hok.
  replace (S (Z.to_nat (Z.max c 1 - 1))) with (Z.to_nat n) in * by (unfold n; lia).
  set (m := Z.to_nat (Z.max c 1 - 1)) in *. assert (Z.to_nat n = S m) as En by (unfold n, m; lia).
  destruct (check_and_insert_ok _ _ _ k Hok) as [[_ _ Ho'] Hr].
  pose proof (lru_ok_size _ _ _ Hok) as Hsz. destruct Hok as [_ Hs Ho].
  unfold window. rewrite En. split_and!; [done|done| | |by rewrite Ho', recency_snoc].
  - rewrite Hs, Ho. apply set_eq. intros x. by rewrite !elem_of_list_to_set, elem_of_reverse.
  - unfold lru_len. rewrite Hsz, length_take. lia.
Qed.

Example dedup_example :
  ((check_and_insert (lru_run 2 ["a"; "b"; "a"; "c"]) "a").2,
   (check_and_insert (lru_run 2 ["a"; "b"; "a"; "c"]) "b").2) = (true, false).
Proof. vm_compute. reflexivity. Qed.
