(* ===== verification/ClientSse.v ===== *)
(** * The client's Server-Sent Events parser
    (crates/mcp-events-client/src/sse.rs).

    Bytes are characters of a [string].  [push] drains one line after
    another; the loop is fuelled by the length of the buffer, which every
    pass shortens. *)
From S2P Require Import Prelude RustStd Utf8 SseText.

Record SseEvent := {
  se_event : option string;
  se_data : string;
  se_id : option string
}.

Record SseParser := {
  sp_buf : string;
  sp_event : option string;
  sp_data : list string;
  sp_last_id : option string
}.

Definition sse_new : SseParser := {| sp_buf := ""; sp_event := None; sp_data := []; sp_last_id := None |}.

(** [find_line], with the line and the rest in place of their positions. *)
Fixpoint find_line (buf : string) : option (string * string) :=
  match buf with
  | EmptyString => None
  | String c s =>
      if bool_decide (c = LF) then Some ("", s)
      else if bool_decide (c = CR) then
        match s with
        | EmptyString => None
        | String d s' => if bool_decide (d = LF) then Some ("", s') else Some ("", s)
        end
      else match find_line s with
           | Some (l, r) => Some (String c l, r)
           | None => None
           end
  end.

Definition with_buf (p : SseParser) (b : string) : SseParser :=
  {| sp_buf := b; sp_event := sp_event p; sp_data := sp_data p; sp_last_id := sp_last_id p |}.

Definition sse_dispatch (p : SseParser) : SseParser * option SseEvent :=
  match sp_data p with
  | [] => ({| sp_buf := sp_buf p; sp_event := None; sp_data := []; sp_last_id := sp_last_id p |}, None)
  | d =>
      ({| sp_buf := sp_buf p; sp_event := None; sp_data := []; sp_last_id := sp_last_id p |},
       Some {| se_event := sp_event p; se_data := str_join (String LF "") d; se_id := sp_last_id p |})
  end.

Definition sse_field (p : SseParser) (line : string) : SseParser :=
  let '(field, value) := field_value line in
  if bool_decide (field = "data") then
    {| sp_buf := sp_buf p; sp_event := sp_event p; sp_data := sp_data p ++ [value]; sp_last_id := sp_last_id p |}
  else if bool_decide (field = "event") then
    {| sp_buf := sp_buf p; sp_event := Some value; sp_data := sp_data p; sp_last_id := sp_last_id p |}
  else if bool_decide (field = "id") && negb (str_has "000" value) then
    {| sp_buf := sp_buf p; sp_event := sp_event p; sp_data := sp_data p; sp_last_id := Some value |}
  else p.

Definition process_line (p : SseParser) (line : string) : SseParser * option SseEvent :=
  match line with
  | EmptyString => sse_dispatch p
  | _ =>
      let line := utf8_lossy line in
      if starts_with ":" line then (p, None) else (sse_field p line, None)
  end.

#[export] Instance client_lines : LineParser SseParser SseEvent :=
  {| lp_get := sp_buf; lp_set := with_buf; lp_find := find_line; lp_step := process_line |}.

Definition push (p : SseParser) (chunk : string) : SseParser * list SseEvent :=
  let p := with_buf p (sp_buf p +:+ chunk) in
  drain p.

(** [line.last() == Some(b'\r')] dropped. *)
Fixpoint strip_last_cr (s : string) : string :=
  match s with
  | EmptyString => ""
  | String c EmptyString => if bool_decide (c = CR) then "" else s
  | String c s' => String c (strip_last_cr s')
  end.

Definition finish (p : SseParser) : SseParser * option SseEvent :=
  if negb (bool_decide (sp_buf p = "")) then
    let line := strip_last_cr (sp_buf p) in
    let '(p1, o) := process_line (with_buf p "") line in
    match o with
    | Some ev => (p1, Some ev)
    | None => sse_dispatch p1
    end
  else sse_dispatch p.

Fixpoint push_all (p : SseParser) (chunks : list string) : SseParser * list SseEvent :=
  match chunks with
  | [] => (p, [])
  | c :: l =>
      let '(p1, o1) := push p c in
      let '(p2, o2) := push_all p1 l in
      (p2, o1 ++ o2)
  end.

(** ** The loop *)
Lemma find_line_length b l r : find_line b = Some (l, r) -> (String.length r < String.length b)%nat.
Proof.
  revert l r. induction b as [|c s IH]; intros l r; simpl; [done|].
  case_bool_decide; [intros [= <- <-]; lia|]. case_bool_decide.
  - destruct s as [|d s']; [done|]. case_bool_decide; intros [= <- <-]; simpl; lia.
  - destruct (find_line s) as [[l' r']|]; [|done]. intros [= <- <-]. specialize (IH _ _ eq_refl). lia.
Qed.

(** More input does not change a line that is complete. *)
Lemma find_line_app b l r k : find_line b = Some (l, r) -> find_line (b +:+ k) = Some (l, r +:+ k).
Proof.
  revert l r. induction b as [|c s IH]; intros l r; simpl; [done|].
  case_bool_decide; [by intros [= <- <-]|]. case_bool_decide.
  - destruct s as [|d s']; [done|]. simpl. by case_bool_decide; intros [= <- <-].
  - destruct (find_line s) as [[l' r']|]; [|done]. intros [= <- <-]. by rewrite (IH _ _ eq_refl).
Qed.

#[export] Instance client_lines_laws : LineParserLaws client_lines.
Proof.
  split; simpl.
  - done.
  - done.
  - by intros [].
  - apply find_line_length.
  - apply find_line_app.
  - intros p b [|c l]; cbn [process_line].
    + unfold sse_dispatch. simpl. by destruct (sp_data p).
    + destruct (starts_with ":" _); [done|]. unfold sse_field. destruct (field_value _) as [f v].
      by repeat case_match.
  - intros p [|c l]; cbn [process_line].
    + unfold sse_dispatch. simpl. by destruct (sp_data p).
    + destruct (starts_with ":" _); [done|]. unfold sse_field. destruct (field_value _) as [f v].
      by repeat case_match.
Qed.

Lemma push_drain p c : push p c = drain (with_buf p (sp_buf p +:+ c)).
Proof. done. Qed.

Lemma push_all_concat p chunks :
  find_line (sp_buf p) = None -> push_all p chunks = push p (str_concat chunks).
Proof.
  revert p. induction chunks as [|c l IH]; intros p Hp; simpl.
  - rewrite push_drain, app_nil_r'. change (with_buf p (sp_buf p)) with (lp_set p (lp_get p)).
    by rewrite lp_set_get, drain_none.
  - destruct (push p c) as [p1 o1] eqn:E. pose proof (drain_drained (with_buf p (sp_buf p +:+ c))) as Hd.
    rewrite <- push_drain, E in Hd. rewrite (IH p1 Hd).
    rewrite (push_drain p (c +:+ _)), <- app_assoc'.
    pose proof (drain_app (with_buf p (sp_buf p +:+ c)) (str_concat l)) as Ha.
    change (drain (with_buf p (sp_buf p +:+ c))) with (push p c) in Ha. rewrite E in Ha. exact (eq_sym Ha).
Qed.

(** ** What a server's blocks parse to *)
Lemma find_line_block l r : str_has LF l = false -> str_has CR l = false -> find_line (l +:+ String LF r) = Some (l, r).
Proof.
  induction l as [|c l IH]; [done|]. rewrite !str_has_cons. intros [Hc Hl]%orb_false_iff [Hc' Hl']%orb_false_iff.
  simpl. bsimp. rewrite !bool_decide_eq_false_2 by done. by rewrite (IH Hl Hl').
Qed.

Definition idle (p : SseParser) : Prop := sp_event p = None /\ sp_data p = [].

Definition plain_event (p : SseParser) (t : string) : SseEvent :=
  {| se_event := None; se_data := t; se_id := sp_last_id p |}.

Lemma drain_block p b k :
  idle p -> block_ok b ->
  drain (with_buf p (block_text b +:+ k)) =
  let '(p2, out) := drain (with_buf p k) in (p2, opt_list (plain_event p <$> block_data b) ++ out).
Proof.
  intros [He Hd] Hb. unfold block_text. rewrite app_assoc'. simpl.
  assert (str_has LF (block_line b) = false /\ str_has CR (block_line b) = false) as [Hlf Hcr].
  { rewrite !block_line_has by done. destruct b; by destruct Hb as (? & ? & _). }
  change (with_buf p) with (lp_set p).
  rewrite (drain_step _ (block_line b) (String LF k)) by by apply find_line_block.
  rewrite lp_step_set. cbn [fst snd lp_step lp_set client_lines].
  assert (process_line p (block_line b) =
    (match block_data b with
     | Some t => {| sp_buf := sp_buf p; sp_event := None; sp_data := [t]; sp_last_id := sp_last_id p |}
     | None => p end, None)) as ->.
  { unfold process_line. rewrite block_line_utf8 by done. destruct b as [t|t]; simpl.
    - unfold sse_field, field_value. simpl. rewrite He, Hd. done.
    - done. }
  cbn [fst snd]. rewrite (drain_step _ "" k) by done. cbn [process_line].
  destruct b as [t|t]; cbn [block_data]; unfold sse_dispatch; simpl; rewrite ?Hd.
  - destruct p as [bf ev d lid]. simpl in *. subst. by destruct (drain _).
  - destruct p as [bf ev d lid]. simpl in *. subst. by destruct (drain _).
Qed.

Lemma drain_blocks p bs :
  idle p -> Forall block_ok bs ->
  drain (with_buf p (str_concat (block_text <$> bs))) =
  (with_buf p "", plain_event p <$> omap block_data bs).
Proof.
  intros Hp. induction 1 as [|b bs Hb _ IH]; [by apply drain_none|].
  cbn [fmap list_fmap str_concat]. rewrite drain_block by done.
  change ((fix go (l : list Block) : list string := match l with [] => [] | x :: l0 => block_text x :: go l0 end) bs)
    with (block_text <$> bs). rewrite IH. cbn [omap list_omap]. by destruct (block_data b).
Qed.

(** C32. The client's SSE parser is insensitive to how the bytes arrive: for
    a stream cut into chunks at any places (within lines, CRLF pairs or
    characters), pushing the chunks one by one yields the events and the
    state that pushing all at once does; and a stream of blocks, each one
    line of JSON text or a comment, yields exactly the texts, in order, each
    as an anonymous event, and leaves the parser as new. *)
Theorem sse_chunking chunks bs :
  push_all sse_new chunks = push sse_new (str_concat chunks) /\
  (Forall block_ok bs -> str_concat chunks = str_concat (block_text <$> bs) ->
   push_all sse_new chunks = (sse_new, plain_event sse_new <$> omap block_data bs)).
Proof.
  rewrite push_all_concat by done. split; [done|]. intros Hbs ->.
  rewrite push_drain. by apply (drain_blocks sse_new).
Qed.

Lemma sse_chunking_witness :
  (push_all sse_new ["da"; "ta: {}" +:+ String LF ""; String LF ""]).2 = [plain_event sse_new "{}"].
Proof.
  destruct (sse_chunking ["da"; "ta: {}" +:+ String LF ""; String LF ""] [DataBlock "{}"]) as [_ H].
  rewrite H; [reflexivity| |reflexivity]. repeat constructor.
Defined.
