(* ===== verification/FeedSse.v ===== *)
(** * The Drasi SSE feed (crates/drasi-feed/src/sse.rs).

    The line parser, the mapping of payloads to feed events, and the reconnect
    loop as a sequence of connections.  Bytes are characters of a [string];
    the parser's loop is fuelled by the length of its buffer. *)
From S2P Require Import Prelude RustStd Lib Json Wire Buffer Registry Feed Config Mapping State Utf8 SseText.

Definition BACKOFF_MIN : Z := seconds 1.
Definition BACKOFF_MAX : Z := seconds 30.
Definition MAX_BUFFERED_BYTES : Z := 4 * 1024 * 1024.

Record SseFrame := {
  sf_data : string;
  sf_event : option string;
  sf_id : option string
}.

Record SseParser := {
  p_buf : string;
  p_data_lines : list string;
  p_event_type : option string;
  p_last_event_id : option string
}.

Definition parser_default : SseParser :=
  {| p_buf := ""; p_data_lines := []; p_event_type := None; p_last_event_id := None |}.

Definition with_buf (p : SseParser) (b : string) : SseParser :=
  {| p_buf := b; p_data_lines := p_data_lines p; p_event_type := p_event_type p;
     p_last_event_id := p_last_event_id p |}.

Definition dispatch (p : SseParser) : SseParser * option SseFrame :=
  let p' := {| p_buf := p_buf p; p_data_lines := []; p_event_type := None;
               p_last_event_id := p_last_event_id p |} in
  match p_data_lines p with
  | [] => (p', None)
  | l => (p', Some {| sf_data := str_join (String LF "") l; sf_event := p_event_type p;
                      sf_id := p_last_event_id p |})
  end.

Definition process_line (p : SseParser) (line : string) : SseParser :=
  if starts_with ":" line then p
  else
    let '(name, value) := field_value line in
    if bool_decide (name = "data") then
      {| p_buf := p_buf p; p_data_lines := p_data_lines p ++ [value]; p_event_type := p_event_type p;
         p_last_event_id := p_last_event_id p |}
    else if bool_decide (name = "event") then
      {| p_buf := p_buf p; p_data_lines := p_data_lines p; p_event_type := Some value;
         p_last_event_id := p_last_event_id p |}
    else if bool_decide (name = "id") then
      {| p_buf := p_buf p; p_data_lines := p_data_lines p; p_event_type := p_event_type p;
         p_last_event_id := Some value |}
    else p.

(** One trailing [\r] dropped. *)
Fixpoint strip_cr (s : string) : string :=
  match s with
  | EmptyString => ""
  | String c s' =>
      match s' with
      | EmptyString => if bool_decide (c = CR) then "" else s
      | _ => String c (strip_cr s')
      end
  end.

Definition take_line (p : SseParser) (raw : string) : SseParser * option SseFrame :=
  match utf8_lossy (strip_cr raw) with
  | EmptyString => dispatch p
  | line => (process_line p line, None)
  end.

#[export] Instance feed_lines : LineParser SseParser SseFrame :=
  {| lp_get := p_buf; lp_set := with_buf; lp_find := split_once LF; lp_step := take_line |}.

(** The guard against an endless line. *)
Definition overflow_guard (p : SseParser) : SseParser :=
  if MAX_BUFFERED_BYTES <? Z.of_nat (String.length (p_buf p)) then
    {| p_buf := ""; p_data_lines := []; p_event_type := None; p_last_event_id := p_last_event_id p |}
  else p.

Definition push (p : SseParser) (chunk : string) : SseParser * list SseFrame :=
  let p := with_buf p (p_buf p +:+ chunk) in
  let '(p, out) := drain p in
  (overflow_guard p, out).

Fixpoint push_all (p : SseParser) (chunks : list string) : SseParser * list SseFrame :=
  match chunks with
  | [] => (p, [])
  | c :: l =>
      let '(p1, o1) := push p c in
      let '(p2, o2) := push_all p1 l in
      (p2, o1 ++ o2)
  end.

(** ** Lemmas on lines *)
Lemma split_once_length c s l r : split_once c s = Some (l, r) -> (String.length r < String.length s)%nat.
Proof.
  revert l r. induction s as [|x s IH]; intros l r; simpl; [done|]. case_bool_decide; [intros [= <- <-]; lia|].
  destruct (split_once c s) as [[l' r']|]; [|done]. intros [= <- <-]. specialize (IH _ _ eq_refl). lia.
Qed.

Lemma split_once_more c s l r k : split_once c s = Some (l, r) -> split_once c (s +:+ k) = Some (l, r +:+ k).
Proof.
  revert l r. induction s as [|x s IH]; intros l r; simpl; [done|]. case_bool_decide; [by intros [= <- <-]|].
  destruct (split_once c s) as [[l' r']|]; [|done]. intros [= <- <-]. by rewrite (IH _ _ eq_refl).
Qed.

Lemma split_once_None c s : split_once c s = None <-> str_has c s = false.
Proof.
  induction s as [|x s IH]; simpl; [done|]. rewrite str_has_cons. case_bool_decide; [done|].
  simpl. rewrite <- IH. by destruct (split_once c s) as [[? ?]|].
Qed.

#[export] Instance feed_lines_laws : LineParserLaws feed_lines.
Proof.
  split; simpl.
  - done.
  - done.
  - by intros [].
  - apply split_once_length.
  - intros. by apply split_once_more.
  - intros p b l. unfold take_line. destruct (utf8_lossy _) as [|c s].
    + unfold dispatch. simpl. by destruct (p_data_lines p).
    + unfold process_line. destruct (starts_with ":" _); [done|]. destruct (field_value _) as [f v].
      by repeat case_match.
  - intros p l. unfold take_line. destruct (utf8_lossy _) as [|c s].
    + unfold dispatch. simpl. by destruct (p_data_lines p).
    + unfold process_line. destruct (starts_with ":" _); [done|]. destruct (field_value _) as [f v].
      by repeat case_match.
Qed.

(** What follows the last line feed. *)
Fixpoint last_line (s : string) : string :=
  match s with
  | EmptyString => ""
  | String c s' => if str_has LF s' then last_line s' else if bool_decide (c = LF) then s' else s
  end.

Lemma last_line_none s : str_has LF s = false -> last_line s = s.
Proof.
  destruct s as [|c s]; [done|]. rewrite str_has_cons. intros [Hc Hs]%orb_false_iff. bsimp. cbn [last_line].
  by rewrite Hs, bool_decide_eq_false_2.
Qed.

Lemma last_line_app l r : last_line (l +:+ String LF r) = last_line r.
Proof.
  induction l as [|c l IH]; rewrite ?app_cons, ?app_nil_l'; cbn [last_line].
  - destruct (str_has LF r) eqn:E; [done|]. rewrite bool_decide_eq_true_2 by done. by rewrite last_line_none.
  - assert (str_has LF (l +:+ String LF r) = true) as ->; [|done].
    rewrite str_has_app, str_has_cons, bool_decide_eq_true_2 by done. by rewrite orb_true_r.
Qed.

Lemma split_once_join c s l r : split_once c s = Some (l, r) -> s = l +:+ String c r.
Proof. by intros [-> _]%split_once_Some. Qed.

Lemma drain_buf (p : SseParser) : p_buf (drain p).1 = last_line (p_buf p).
Proof.
  remember (String.length (p_buf p)) as n eqn:Hn. revert p Hn.
  induction (lt_wf n) as [n _ IH]; intros p ->.
  destruct (split_once LF (p_buf p)) as [[l r]|] eqn:E.
  - rewrite (drain_step (L := feed_lines) p l r E). specialize (IH _ (split_once_length _ _ _ _ E) (lp_set (lp_step p l).1 r) eq_refl).
    rewrite (split_once_join _ _ _ _ E), last_line_app. by destruct (drain _).
  - rewrite drain_none by done. by rewrite last_line_none by by apply split_once_None.
Qed.

Lemma last_line_length s : (String.length (last_line s) <= String.length s)%nat.
Proof. induction s as [|c s IH]; [done|]. simpl. destruct (str_has LF s); [lia|]. case_bool_decide; simpl; lia. Qed.

(** No line of a stream, complete or not, outgrows the buffer. *)
Definition lines_bounded (s : string) : Prop :=
  forall x y, s = x +:+ y -> Z.of_nat (String.length (last_line x)) <= MAX_BUFFERED_BYTES.

Lemma push_bounded p c :
  Z.of_nat (String.length (last_line (p_buf p +:+ c))) <= MAX_BUFFERED_BYTES ->
  push p c = drain (lp_set p (lp_get p +:+ c)).
Proof.
  intros H. unfold push. pose proof (drain_buf (with_buf p (p_buf p +:+ c))) as Hb.
  change (lp_set p (lp_get p +:+ c)) with (with_buf p (p_buf p +:+ c)).
  destruct (drain _) as [p1 out]. simpl in Hb. unfold overflow_guard. rewrite Hb.
  by rewrite (proj2 (Z.ltb_ge _ _)) by lia.
Qed.

Lemma last_line_idemp s k : last_line (last_line s +:+ k) = last_line (s +:+ k).
Proof.
  induction s as [|c s IH]; [done|]. cbn [last_line]. destruct (str_has LF s) eqn:E.
  - rewrite IH. simpl. rewrite str_has_app, E. done.
  - case_bool_decide as Hc; [|done]. subst c. symmetry. apply (last_line_app "").
Qed.

Lemma feed_push_all_concat p chunks :
  str_has LF (p_buf p) = false -> lines_bounded (p_buf p +:+ str_concat chunks) ->
  push_all p chunks = drain (lp_set p (lp_get p +:+ str_concat chunks)).
Proof.
  revert p. induction chunks as [|c l IH]; intros p Hp Hb; simpl.
  - change (with_buf p (p_buf p +:+ "")) with (lp_set p (lp_get p +:+ "")).
    rewrite app_nil_r', lp_set_get, drain_none; [done|]. by apply split_once_None.
  - rewrite push_bounded by (apply (Hb _ (str_concat l)); simpl; by rewrite app_assoc').
    pose proof (drain_app (lp_set p (lp_get p +:+ c)) (str_concat l)) as Ha.
    rewrite lp_get_set, lp_set_set, app_assoc' in Ha.
    change (with_buf p (p_buf p +:+ c +:+ str_concat l)) with (lp_set p (lp_get p +:+ c +:+ str_concat l)).
    rewrite Ha. pose proof (drain_buf (lp_set p (lp_get p +:+ c))) as Hbuf.
    pose proof (drain_drained (lp_set p (lp_get p +:+ c))) as Hd.
    destruct (drain (lp_set p (lp_get p +:+ c))) as [p1 o1]. simpl in Hbuf, Hd.
    rewrite IH; [done|by apply split_once_None|].
    intros x y Exy. rewrite Hbuf in Exy. simpl in Hb.
    destruct (app_split (last_line (p_buf p +:+ c)) (str_concat l) x y Exy) as [(z & E & _)|(z & -> & E)].
    + (* within the pending line *)
      pose proof (Hb (p_buf p +:+ c) (str_concat l) ltac:(by rewrite app_assoc')) as H. rewrite E, length_app' in H.
      etrans; [|exact H]. pose proof (last_line_length x). lia.
    + rewrite last_line_idemp. apply (Hb _ y). rewrite E. by rewrite !app_assoc'.
Qed.

(** ** What a server's blocks parse to *)
Definition plain_frame (p : SseParser) (t : string) : SseFrame :=
  {| sf_data := t; sf_event := None; sf_id := p_last_event_id p |}.

Lemma strip_cr_id s : str_has CR s = false -> strip_cr s = s.
Proof.
  induction s as [|c s IH]; [done|]. rewrite str_has_cons. intros [Hc Hs]%orb_false_iff. bsimp.
  cbn [strip_cr]. destruct s as [|d s]; [by rewrite bool_decide_eq_false_2|]. by rewrite IH.
Qed.

Lemma feed_drain_block p b k :
  p_event_type p = None -> p_data_lines p = [] -> block_ok b ->
  drain (with_buf p (block_text b +:+ k)) =
  let '(p2, out) := drain (with_buf p k) in (p2, opt_list (plain_frame p <$> block_data b) ++ out).
Proof.
  intros He Hd Hb. unfold block_text. rewrite app_assoc', app_cons, app_cons, app_nil_l'.
  assert (str_has LF (block_line b) = false /\ str_has CR (block_line b) = false) as [Hlf Hcr].
  { rewrite !block_line_has by done. destruct b; by destruct Hb as (? & ? & _). }
  change (with_buf p) with (lp_set p).
  rewrite (drain_step (L := feed_lines) _ (block_line b) (String LF k)) by by apply split_once_app.
  rewrite lp_step_set. cbn [fst snd lp_step lp_set feed_lines].
  assert (take_line p (block_line b) =
    (match block_data b with
     | Some t => {| p_buf := p_buf p; p_data_lines := [t]; p_event_type := None;
                    p_last_event_id := p_last_event_id p |}
     | None => p end, None)) as ->.
  { unfold take_line. rewrite strip_cr_id, block_line_utf8 by done. destruct b as [t|t]; simpl; [|done].
    unfold process_line, field_value. simpl. by rewrite He, Hd. }
  cbn [fst snd]. change (with_buf ?q) with (lp_set q).
  rewrite (drain_step (L := feed_lines) _ "" k) by done. cbn [lp_step lp_set feed_lines].
  destruct p as [bf d ev lid]. simpl in *. subst.
  destruct b as [t|t]; unfold take_line, dispatch; simpl; by destruct (drain _).
Qed.

Lemma feed_drain_blocks p bs :
  p_event_type p = None -> p_data_lines p = [] -> Forall block_ok bs ->
  drain (with_buf p (str_concat (block_text <$> bs))) =
  (with_buf p "", plain_frame p <$> omap block_data bs).
Proof.
  intros He Hd. induction 1 as [|b bs Hb _ IH]; [by apply drain_none|].
  csimpl. rewrite feed_drain_block by done. rewrite IH. by destruct (block_data b).
Qed.

(** Blocks of lines that fit the buffer are never cut. *)
Definition block_fits (b : Block) : Prop := Z.of_nat (String.length (block_line b)) <= MAX_BUFFERED_BYTES.

Lemma blocks_bounded bs :
  Forall block_ok bs -> Forall block_fits bs -> lines_bounded (str_concat (block_text <$> bs)).
Proof.
  assert (Z.of_nat (String.length "") <= MAX_BUFFERED_BYTES) as H0 by done.
  intros Hok Hfit. induction bs as [|b bs IH]; intros x y E.
  { destruct x; [done|discriminate E]. }
  apply Forall_cons in Hok as [Hb Hok]. apply Forall_cons in Hfit as [Hf Hfit]. csimpl in E.
  unfold block_text in E. rewrite app_assoc', app_cons, app_cons, app_nil_l' in E.
  assert (str_has LF (block_line b) = false) as Hlf.
  { rewrite block_line_has by done. destruct b; by destruct Hb as (? & _). }
  apply app_split in E as [(z & E & _)|(z & -> & E)].
  - unfold block_fits in Hf. rewrite E, length_app' in Hf. etrans; [|exact Hf].
    pose proof (last_line_length x). lia.
  - destruct z as [|c z]; [rewrite app_nil_r', last_line_none; done|].
    injection E as <- E. rewrite last_line_app. destruct z as [|c z]; [done|].
    injection E as <- E. change (String LF z) with ("" +:+ String LF z). rewrite last_line_app. by apply (IH Hok Hfit z y).
Qed.

(** ** Payloads *)
Section payloads.
Context {J : JsonLib} {C : Chrono} {SL : SerdeLib}.

(** [obj.get(key).filter(|v| !v.is_null())]. *)
Definition field (obj : Map) (key : string) : option Value :=
  v ← map_get key obj; if is_null v then None else Some v.

Definition from_timestamp_millis (ms : Z) : option Z :=
  if is_dt (milliseconds ms) then Some (milliseconds ms) else None.

(** The change kind and images of a diff. *)
Definition diff_images (obj : Map) : option (ChangeType * option Value * option Value) :=
  match map_get "type" obj ≫= as_str with
  | Some "ADD" => data ← field obj "data"; Some (Added, None, Some data)
  | Some "UPDATE" =>
      after ← match field obj "after" with Some v => Some v | None => field obj "data" end;
      Some (Updated, field obj "before", Some after)
  | Some "DELETE" => data ← field obj "data"; Some (Deleted, Some data, None)
  | Some "aggregation" => after ← field obj "after"; Some (Updated, field obj "before", Some after)
  | _ => None   (* "noop" and unknown types *)
  end.

Definition feed_event_from_diff (query_id : string) (timestamp : option Z) (diff : Value) : option FeedEvent :=
  obj ← as_object diff;
  '(change, before, after) ← diff_images obj;
  Some {| fe_query_id := query_id; fe_change := change; fe_before := before; fe_after := after;
          fe_timestamp := timestamp; fe_upstream_id := None |}.

Definition feed_events_from_value (value : Value) : list FeedEvent :=
  match as_object value with
  | None => []
  | Some obj =>
      if bool_decide (map_get "type" obj ≫= as_str = Some "heartbeat") then []
      else
        match map_get "queryId" obj ≫= as_str, map_get "results" obj ≫= as_array with
        | Some query_id, Some results =>
            let timestamp := (map_get "timestamp" obj ≫= as_i64) ≫= from_timestamp_millis in
            omap (feed_event_from_diff query_id timestamp) results
        | _, _ => []
        end
  end.

Definition feed_events_from_payload (payload : string) : list FeedEvent :=
  if bool_decide (trim payload = "") then []
  else match json_from_str payload with
       | None => []
       | Some value => feed_events_from_value value
       end.

(** ** Connections: what one attempt sees, and what [stream_once] forwards of
    it while the receiver lives. *)
Inductive Connection : Type :=
| Refused                       (* no connection, or an error status *)
| Streamed (chunks : list string) (broken : bool).

Definition stream_once (c : Connection) : list FeedEvent :=
  match c with
  | Refused => []
  | Streamed chunks _ => (push_all parser_default chunks).2 ≫= fun f => feed_events_from_payload (sf_data f)
  end.

(** The backoff after a connection attempt and its wait. *)
Definition backoff_after (backoff : Z) (c : Connection) : Z * Z :=
  let b := match c with Refused => backoff | Streamed _ _ => BACKOFF_MIN end in
  (b, Z.min (b * 2) BACKOFF_MAX).

(** The loop over connection attempts: what is forwarded, and the waits. *)
Fixpoint run_feed (backoff : Z) (l : list Connection) : list FeedEvent * list Z :=
  match l with
  | [] => ([], [])
  | c :: l' =>
      let '(wait, next) := backoff_after backoff c in
      let '(evs, waits) := run_feed next l' in
      (stream_once c ++ evs, wait :: waits)
  end.

Definition run_drasi_sse_feed (l : list Connection) : list FeedEvent * list Z := run_feed BACKOFF_MIN l.

(** ** Theorems *)
Lemma plain_frames_payloads l (f : string -> list FeedEvent) :
  (plain_frame parser_default <$> l) ≫= (fun x => f (sf_data x)) = l ≫= f.
Proof. induction l as [|t l IH]; [done|]. csimpl. by rewrite IH. Qed.

(** C33. A Drasi stream of blocks (one line of JSON each, or a comment, no
    line longer than the 4 MiB buffer) is forwarded completely and in order
    however the network cuts it into chunks: the feed events are those of the
    blocks' payloads. *)
Theorem feed_stream chunks broken bs :
  Forall block_ok bs -> Forall block_fits bs ->
  str_concat chunks = str_concat (block_text <$> bs) ->
  stream_once (Streamed chunks broken) = omap block_data bs ≫= feed_events_from_payload.
Proof.
  intros Hok Hfit E. simpl. rewrite feed_push_all_concat; [|done|by rewrite app_nil_l', E; apply blocks_bounded].
  rewrite E, app_nil_l'. change (lp_set parser_default) with (with_buf parser_default).
  rewrite feed_drain_blocks by done. cbn [snd]. apply plain_frames_payloads.
Qed.

Lemma diff_images_side obj ch before after mode q ts uid :
  diff_images obj = Some (ch, before, after) ->
  has_required_side mode {| fe_query_id := q; fe_change := ch; fe_before := before; fe_after := after;
                            fe_timestamp := ts; fe_upstream_id := uid |}.
Proof.
  unfold diff_images. destruct (map_get "type" obj ≫= as_str) as [ty|]; [|done].
  destruct mode; [done|]. intros H.
  repeat case_match; simplify_eq/=; try done;
    apply bind_Some in H as (v & _ & [= <- <- <-]); simpl; eauto.
Qed.

Lemma payload_event payload ev :
  ev ∈ feed_events_from_payload payload ->
  (forall mode, has_required_side mode ev) /\ fe_upstream_id ev = None /\
  exists v obj, json_from_str payload = Some v /\ as_object v = Some obj /\
    map_get "queryId" obj = Some (JString (fe_query_id ev)).
Proof.
  unfold feed_events_from_payload. case_bool_decide; [by intros ?%elem_of_nil|].
  destruct (json_from_str payload) as [v|]; [|by intros ?%elem_of_nil]. unfold feed_events_from_value.
  destruct (as_object v) as [obj|] eqn:Eo; [|by intros ?%elem_of_nil].
  case_bool_decide; [by intros ?%elem_of_nil|].
  destruct (map_get "queryId" obj) as [[| | |q| |]|] eqn:Eq; try by intros ?%elem_of_nil. cbn [mbind option_bind as_str].
  destruct (map_get "results" obj ≫= as_array) as [l|]; [|by intros ?%elem_of_nil].
  intros (d & _ & Hd)%list_elem_of_omap. unfold feed_event_from_diff in Hd.
  apply bind_Some in Hd as (o & _ & ([[ch b] a] & Hi & [= <-])%bind_Some).
  split; [intros mode; by eapply diff_images_side|]. split; [done|]. exists v, obj. by split_and!.
Qed.

Lemma map_feed_event_id mode uuid now ev em :
  map_feed_event mode uuid now ev = Some em -> em_event_id em = default uuid (fe_upstream_id ev).
Proof.
  unfold map_feed_event. destruct mode; [by intros [= <-]|].
  by destruct (fe_change ev), (fe_after ev), (fe_before ev); intros [= <-] || intros ?.
Qed.

(** C34. Nothing a Drasi payload reports is lost between the feed and the
    buffer: every event of a payload for a configured query carries the image
    its change kind needs, in both modelling modes, and the pipeline emits
    it, under a registered event type. *)
Theorem feed_pipeline payload ev (c : ServerConfig) q b uuid map_now emit_now :
  ev ∈ feed_events_from_payload payload -> q ∈ c_queries c -> fe_query_id ev = q_id q ->
  exists em, map_feed_event (c_event_modeling c) uuid map_now ev = Some em /\
    is_Some (registry_get (model_registry c) (em_name em)) /\
    em_name em ∈ derived_names (c_event_modeling c) q /\
    em_event_id em = uuid /\
    pipeline_step (c_event_modeling c) (model_registry c) b uuid map_now emit_now ev = (emit b emit_now em).1.
Proof.
  intros Hev Hq Hid. destruct (payload_event payload ev Hev) as (Hside & Hup & _).
  specialize (Hside (c_event_modeling c)).
  destruct (map_feed_event (c_event_modeling c) uuid map_now ev) as [em|] eqn:E.
  - destruct (map_feed_event_registered c q _ _ _ _ Hq Hid E) as [Hn Hr].
    destruct (registry_get_is_Some _ _ Hr) as [d Hd]. exists em. split_and!; [done|by exists d|done|..].
    + pose proof (map_feed_event_id _ _ _ _ _ E) as Hi. by rewrite Hup in Hi.
    + unfold pipeline_step. rewrite E. unfold model_registry. by rewrite Hd.
  - exfalso. unfold map_feed_event in E. unfold has_required_side in Hside.
    destruct (c_event_modeling c); [done|].
    destruct (fe_change ev), (fe_after ev), (fe_before ev); try done; by destruct Hside.
Qed.

(** Reconnection: every wait between attempts lies between one and thirty
    seconds, and after a connection that was established the waits of a run
    of failures are 1, 2, 4, 8, 16, 30, 30, ... seconds. *)
Theorem feed_backoff pre chunks broken n :
  let waits := (run_drasi_sse_feed (pre ++ Streamed chunks broken :: replicate n Refused)).2 in
  Forall (fun w => BACKOFF_MIN <= w <= BACKOFF_MAX) waits /\
  forall i, (i <= n)%nat -> waits !! (length pre + i)%nat = Some (seconds (Z.min (2 ^ Z.of_nat i) 30)).
Proof.
  intros waits. assert (forall l b, BACKOFF_MIN <= b <= BACKOFF_MAX ->
    Forall (fun w => BACKOFF_MIN <= w <= BACKOFF_MAX) (run_feed b l).2) as Hall.
  { intros l. induction l as [|c l IH]; intros b Hb; [constructor|]. simpl.
    destruct (run_feed (Z.min _ _) l) as [evs ws] eqn:E. constructor.
    - destruct c; [done|]. unfold BACKOFF_MIN, BACKOFF_MAX, seconds. lia.
    - change ws with (evs, ws).2. rewrite <- E. apply IH.
      unfold BACKOFF_MIN, BACKOFF_MAX, seconds in *. destruct c; lia. }
  split; [apply Hall; unfold BACKOFF_MIN, BACKOFF_MAX, seconds; lia|].
  assert (forall m j k, (k < m)%nat ->
    (run_feed (seconds (Z.min (2 ^ Z.of_nat j) 30)) (replicate m Refused)).2 !! k =
    Some (seconds (Z.min (2 ^ Z.of_nat (j + k)) 30))) as Hrep.
  { intros m. induction m as [|m IH]; intros j k Hk; [lia|]. simpl.
    assert (Z.min (seconds (Z.min (2 ^ Z.of_nat j) 30) * 2) BACKOFF_MAX =
      seconds (Z.min (2 ^ Z.of_nat (S j)) 30)) as ->.
    { rewrite Nat2Z.inj_succ, Z.pow_succ_r by lia. unfold BACKOFF_MAX, seconds. lia. }
    destruct (run_feed _ _) as [evs ws] eqn:E. destruct k as [|k]; [by rewrite Nat.add_0_r|].
    simpl. change ws with (evs, ws).2. rewrite <- E, IH by lia. do 4 f_equal. lia. }
  assert (forall l b x, (run_feed b (l ++ Streamed chunks broken :: x)).2 !! length l = Some BACKOFF_MIN /\
    forall i, (run_feed b (l ++ Streamed chunks broken :: x)).2 !! (length l + S i)%nat =
      (run_feed (seconds 2) x).2 !! i) as Hpre.
  { intros l. induction l as [|c l IH]; intros b x; simpl.
    - assert (Z.min (BACKOFF_MIN * 2) BACKOFF_MAX = seconds 2) as -> by done.
      by destruct (run_feed (seconds 2) x).
    - destruct (IH (Z.min (match c with Refused => b | Streamed _ _ => BACKOFF_MIN end * 2) BACKOFF_MAX) x) as [I1 I2].
      by destruct (run_feed _ _). }
  intros i Hi. unfold waits, run_drasi_sse_feed. destruct i as [|i].
  - rewrite Nat.add_0_r. by destruct (Hpre pre BACKOFF_MIN (replicate n Refused)) as [-> _].
  - destruct (Hpre pre BACKOFF_MIN (replicate n Refused)) as [_ ->]. by apply (Hrep n 1%nat i).
Qed.
End payloads.

(** ** Examples: a payload with one added row *)
Definition ex_payload : Value :=
  json_obj [("queryId", JString "orders");
            ("results", JArray [json_obj [("type", JString "ADD"); ("data", json_int 5)]])].

Definition PayloadSerde : SerdeLib := {|
  json_from_str s := if bool_decide (s = "P") then Some ex_payload else None;
  json_error _ := "invalid";
  decode_error t _ := "invalid " +:+ t
|}.

Definition ex_feed_event : FeedEvent :=
  {| fe_query_id := "orders"; fe_change := Added; fe_before := None; fe_after := Some (json_int 5);
     fe_timestamp := None; fe_upstream_id := None |}.

Lemma ex_payload_events : feed_events_from_payload (SL := PayloadSerde) "P" = [ex_feed_event].
Proof. reflexivity. Qed.

Lemma feed_stream_witness :
  stream_once (SL := PayloadSerde)
    (Streamed [":"; String LF (String LF "da"); "ta: P" +:+ String LF ""; String LF ""] false) = [ex_feed_event].
Proof.
  rewrite (feed_stream (SL := PayloadSerde) _ false [CommentBlock ""; DataBlock "P"]).
  - reflexivity.
  - repeat constructor.
  - repeat constructor; discriminate.
  - reflexivity.
Defined.

Lemma feed_pipeline_witness :
  exists em, map_feed_event PerChange "u" 0 ex_feed_event = Some em /\ em_event_id em = "u".
Proof.
  destruct (feed_pipeline (SL := PayloadSerde) "P" ex_feed_event (ex_config_of PerChange)
    {| q_id := "orders"; q_description := None; q_payload_schema := None |} (buffer_new ex_config 7) "u" 0 0)
    as (em & H1 & _ & _ & H2 & _).
  - rewrite ex_payload_events. left.
  - left.
  - reflexivity.
  - exists em. split; [exact H1|exact H2].
Defined.
