(* ===== verification/Mock.v ===== *)
(** * The synthetic orders feed (crates/drasi-feed/src/mock.rs).

    [run_mock_feed] sends one event per tick, for ever; [mock_run n] is its
    first [n] ticks.  The totals are [f64]s with integral values, whose JSON
    number is a parameter. *)
From S2P Require Import Prelude RustStd Json Feed.

Definition LANES : Z := 3.
Definition PHASES : Z := 4.
Definition CUSTOMERS : list string := ["alice"; "bob"; "carol"; "dave"; "erin"].

Section mock.
Context {J : JsonLib} (num_of_f64 : Z -> Num).

Definition order_row (order rev : Z) : Value :=
  let customer := default "" (CUSTOMERS !! Z.to_nat (Z.max 0 (order - 1) mod Z.of_nat (length CUSTOMERS))) in
  let base := 1200 + (order mod 5) * 150 in
  let '(status, total) :=
    if rev =? 0 then ("open", base) else if rev =? 1 then ("paid", base + 100) else ("shipped", base + 250) in
  json_obj [("id", json_int order); ("customer", JString customer); ("status", JString status);
            ("total", JNumber (num_of_f64 total))].

(** [now] is the timestamp. *)
Definition mock_event (query_id : string) (now order phase : Z) : FeedEvent :=
  let '(change, before, after) :=
    if phase =? 0 then (Added, None, Some (order_row order 0))
    else if phase =? 1 then (Updated, Some (order_row order 0), Some (order_row order 1))
    else if phase =? 2 then (Updated, Some (order_row order 1), Some (order_row order 2))
    else (Deleted, Some (order_row order 2), None) in
  {| fe_query_id := query_id; fe_change := change; fe_before := before; fe_after := after;
     fe_timestamp := Some now;
     fe_upstream_id := Some ("order-" +:+ u64_to_string order +:+ "-rev-" +:+ u64_to_string phase) |}.

Record MockState := {
  orders : list Z;
  phases : list Z;
  next_order : Z;
  tick : Z
}.

Definition mock_init : MockState := {| orders := [1; 2; 3]; phases := [0; 0; 0]; next_order := LANES + 1; tick := 0 |}.

(** One pass of the loop: the lane's order and phase, and the next state. *)
Definition mock_step (s : MockState) : MockState * (Z * Z) :=
  let lane := Z.to_nat (tick s mod LANES) in
  let order := default 0 (orders s !! lane) in
  let phase := default 0 (phases s !! lane) in
  let s' :=
    if PHASES <=? phase + 1 then
      {| orders := <[lane := next_order s]> (orders s); phases := <[lane := 0]> (phases s);
         next_order := u64_add (next_order s) 1; tick := u64_add (tick s) 1 |}
    else
      {| orders := orders s; phases := <[lane := phase + 1]> (phases s); next_order := next_order s;
         tick := u64_add (tick s) 1 |} in
  (s', (order, phase)).

Fixpoint mock_run (n : nat) (s : MockState) : list (Z * Z) :=
  match n with
  | O => []
  | S n' => let '(s', x) := mock_step s in x :: mock_run n' s'
  end.

(** The events of the first ticks, at the times [now]. *)
Definition mock_feed (query_id : string) (now : list Z) : list FeedEvent :=
  zip_with (fun t x => mock_event query_id t x.1 x.2) now (mock_run (length now) mock_init).

(** ** Closed form *)
Definition order_of (t : Z) : Z := 3 * (t / 12) + t mod 3 + 1.
Definition phase_of (t : Z) : Z := (t / 3) mod 4.

(** The next tick of a lane. *)
Definition next_of (n l : Z) : Z := n + (l - n) mod 3.

Record mock_ok (n : Z) (s : MockState) : Prop := {
  mo_orders : orders s = [order_of (next_of n 0); order_of (next_of n 1); order_of (next_of n 2)];
  mo_phases : phases s = [phase_of (next_of n 0); phase_of (next_of n 1); phase_of (next_of n 2)];
  mo_next : next_order s = 4 + 3 * (n / 12) + Z.max 0 (n mod 12 - 9);
  mo_tick : tick s = n
}.

Ltac mock_lia := unfold order_of, phase_of, next_of in *; Z.div_mod_to_equations; lia.

Lemma lane_next n l : 0 <= l < 3 -> n mod 3 = l -> next_of n l = n /\ next_of (n + 1) l = n + 3.
Proof. intros. split; mock_lia. Qed.

Lemma lane_other n l : 0 <= l < 3 -> n mod 3 <> l -> next_of (n + 1) l = next_of n l.
Proof. intros. mock_lia. Qed.

Lemma next_phase n : 0 <= n -> phase_of n <> 3 ->
  phase_of (n + 3) = phase_of n + 1 /\ order_of (n + 3) = order_of n.
Proof. intros. split; mock_lia. Qed.

Lemma next_cycle n : 0 <= n -> phase_of n = 3 ->
  phase_of (n + 3) = 0 /\ order_of (n + 3) = 4 + 3 * (n / 12) + Z.max 0 (n mod 12 - 9) /\
  4 + 3 * ((n + 1) / 12) + Z.max 0 ((n + 1) mod 12 - 9) = 4 + 3 * (n / 12) + Z.max 0 (n mod 12 - 9) + 1.
Proof. intros. split_and!; mock_lia. Qed.

Lemma same_next n : 0 <= n -> phase_of n <> 3 ->
  4 + 3 * ((n + 1) / 12) + Z.max 0 ((n + 1) mod 12 - 9) = 4 + 3 * (n / 12) + Z.max 0 (n mod 12 - 9).
Proof. intros. mock_lia. Qed.

Lemma mock_step_ok n s :
  0 <= n < 2 ^ 60 -> mock_ok n s ->
  (mock_step s).2 = (order_of n, phase_of n) /\ mock_ok (n + 1) (mock_step s).1.
Proof.
  intros Hn [Ho Hp Hx Ht]. unfold mock_step, LANES, PHASES. rewrite Ht, Ho, Hp.
  assert (0 <= phase_of n < 4) as Hph by mock_lia.
  assert (u64_add n 1 = n + 1) as Htick by (apply u64_add_small; unfold u64_max; lia).
  assert (u64_add (next_order s) 1 = next_order s + 1) as Hnext.
  { apply u64_add_small. rewrite Hx. unfold u64_max. split; mock_lia. }
  assert (n mod 3 = 0 \/ n mod 3 = 1 \/ n mod 3 = 2) as Hl by mock_lia.
  assert (forall l, 0 <= l < 3 -> n mod 3 <> l -> next_of (n + 1) l = next_of n l) as Hother
    by (intros; by apply lane_other).
  destruct Hl as [Hl|[Hl|Hl]]; rewrite Hl; destruct (lane_next n (n mod 3)) as [H0 H3]; try (rewrite Hl in * );
    (lia || done || idtac); simpl; rewrite ?H0;
    (split; [by destruct (4 <=? phase_of n + 1)|]);
    (destruct (4 <=? phase_of n + 1) eqn:E; bsimp;
      [destruct (next_cycle n) as (P1 & P2 & P3); [lia..|]|destruct (next_phase n) as [P1 P2]; [lia..|]]);
    (split; simpl; [|  | |lia || by rewrite Htick]);
    rewrite ?H3, ?P1, ?P2, ?Hx, ?Hnext, ?Hx, ?Hother by lia;
    try done; try (rewrite <- Hx; congruence); try (rewrite P3; lia); try (rewrite same_next; lia).
Qed.

Lemma mock_next query_id ts ts' t :
  let ev := mock_event query_id ts (order_of (Z.of_nat t)) (phase_of (Z.of_nat t)) in
  let ev' := mock_event query_id ts' (order_of (Z.of_nat (t + 3))) (phase_of (Z.of_nat (t + 3))) in
  if bool_decide (fe_change ev = Deleted) then fe_change ev' = Added /\ fe_before ev' = None
  else fe_before ev' = fe_after ev /\ is_Some (fe_before ev') /\ fe_change ev' <> Added.
Proof.
  intros ev ev'. unfold ev, ev'. clear ev ev'. rewrite Nat2Z.inj_add. change (Z.of_nat 3) with 3.
  assert (0 <= phase_of (Z.of_nat t) < 4) as Hph by mock_lia.
  destruct (decide (phase_of (Z.of_nat t) = 3)) as [E|E].
  - destruct (next_cycle (Z.of_nat t)) as (-> & _); [lia|done|]. by rewrite E.
  - destruct (next_phase (Z.of_nat t)) as [-> ->]; [lia|done|].
    assert (phase_of (Z.of_nat t) = 0 \/ phase_of (Z.of_nat t) = 1 \/ phase_of (Z.of_nat t) = 2)
      as [-> |[-> | ->]] by lia; simpl; eauto.
Qed.

Lemma mock_ids query_id ts ts' t t' :
  0 <= t <= 2 ^ 60 -> 0 <= t' <= 2 ^ 60 ->
  fe_upstream_id (mock_event query_id ts (order_of t) (phase_of t)) =
  fe_upstream_id (mock_event query_id ts' (order_of t') (phase_of t')) -> t = t'.
Proof.
  intros Ht Ht'.
  assert (forall q x o p, fe_upstream_id (mock_event q x o p) =
    Some ("order-" +:+ u64_to_string o +:+ "-rev-" +:+ u64_to_string p)) as E.
  { intros. unfold mock_event. by repeat case_match. }
  rewrite !E. intros [= H]. apply app_sep_inj in H as [Ho Hp]; [|by apply u64_to_string_no..].
  apply (app_inj_l "rev-") in Hp.
  apply u64_to_string_inj in Ho; [|unfold u64_max; split; mock_lia..].
  apply u64_to_string_inj in Hp; [|unfold u64_max; split; mock_lia..].
  mock_lia.
Qed.

Lemma mock_run_ok n k s :
  0 <= n -> n + Z.of_nat k <= 2 ^ 60 -> mock_ok n s ->
  mock_run k s = (fun i => (order_of (n + Z.of_nat i), phase_of (n + Z.of_nat i))) <$> seq 0 k.
Proof.
  revert n s. induction k as [|k IH]; intros n s Hn Hk Hok; [done|]. cbn [mock_run].
  destruct (mock_step_ok n s) as [E Hok']; [lia|done|]. destruct (mock_step s) as [s' x]. simpl in *. subst x.
  rewrite (IH (n + 1)) by (done || lia). rewrite Z.add_0_r. f_equal.
  rewrite <- fmap_S_seq, <- list_fmap_compose. apply list_fmap_ext. intros i j _. simpl. do 2 f_equal; lia.
Qed.

(** The synthetic feed runs every order through its life: tick [t] is
    revision [(t / 3) mod 4] of order [3 (t / 12) + t mod 3 + 1]; each order's
    four events come in order, three ticks apart, with distinct ids, the
    first inserts, the last deletes, and each later one has as [before] what
    the previous one had as [after]. *)
Theorem mock_lifecycle query_id now :
  Z.of_nat (length now) <= 2 ^ 60 ->
  let evs := mock_feed query_id now in
  (forall t ts, now !! t = Some ts ->
     evs !! t = Some (mock_event query_id ts (order_of (Z.of_nat t)) (phase_of (Z.of_nat t)))) /\
  (forall t ev ev', evs !! t = Some ev -> evs !! (t + 3)%nat = Some ev' ->
     if bool_decide (fe_change ev = Deleted) then fe_change ev' = Added /\ fe_before ev' = None
     else fe_before ev' = fe_after ev /\ is_Some (fe_before ev') /\ fe_change ev' <> Added) /\
  (forall t ev, (t < 3)%nat -> evs !! t = Some ev -> fe_change ev = Added) /\
  (forall t t' ev ev', evs !! t = Some ev -> evs !! t' = Some ev' ->
     fe_upstream_id ev = fe_upstream_id ev' -> t = t').
Proof.
  intros Hlen evs.
  assert (forall t ev, evs !! t = Some ev -> exists ts, now !! t = Some ts /\
    ev = mock_event query_id ts (order_of (Z.of_nat t)) (phase_of (Z.of_nat t))) as Hinv.
  { intros t ev. unfold evs, mock_feed. rewrite (mock_run_ok 0); [|lia|lia|by split].
    intros (ts & [o p] & -> & Hts & Hx)%lookup_zip_with_Some. exists ts. split; [done|].
    apply list_lookup_fmap_Some in Hx as (i & E & [-> _]%lookup_seq). by injection E as -> ->. }
  split_and!.
  - intros t ts Ht. assert (is_Some (evs !! t)) as [ev Hev].
    { apply lookup_lt_is_Some. unfold evs, mock_feed. rewrite (mock_run_ok 0); [|lia|lia|by split].
      rewrite length_zip_with, length_fmap, length_seq. apply lookup_lt_Some in Ht. lia. }
    rewrite Hev. destruct (Hinv _ _ Hev) as (ts' & Ht' & ->). congruence.
  - intros t ev ev' (ts & _ & ->)%Hinv (ts' & _ & ->)%Hinv. apply mock_next.
  - intros t ev Ht (ts & _ & ->)%Hinv. by destruct t as [|[|[|t]]]; [..|lia].
  - intros t t' ev ev' (ts & Ht%lookup_lt_Some & ->)%Hinv (ts' & Ht'%lookup_lt_Some & ->)%Hinv E.
    apply mock_ids in E; lia.
Qed.
End mock.

Lemma mock_lifecycle_witness :
  mock_feed num_of_Z "q" [0; 1; 2; 3] !! 3%nat = Some (mock_event num_of_Z "q" 3 1 1).
Proof.
  destruct (mock_lifecycle num_of_Z "q" [0; 1; 2; 3]) as (H & _); [discriminate|].
  apply (H 3%nat 3). reflexivity.
Defined.
