(* ===== verification/Worker.v ===== *)
(** * Webhook delivery (crates/mcp-events-server/src/webhook/worker.rs).

    One delivery ([deliver]) is a state machine: fetch the subscription, post,
    record the result, wait, try again.  Its steps interleave with the atomic
    steps of other tasks on the shared state.  The HTTP exchange and the name
    lookup behind it are given per attempt. *)
From S2P Require Import Prelude RustStd Lib Json Canon Wire Buffer Registry Store Signing Ssrf.
From S2P Require Import Config Mapping State Handlers Subscribe.

Definition RETRY_BACKOFF : list Z := [seconds 1; seconds 5; seconds 25].
Definition TTL_SWEEP_INTERVAL : Z := seconds 5.
Definition SUSPEND_POLL_INTERVAL : Z := milliseconds 200.
Definition DELIVERY_QUEUE_CAPACITY : Z := 1024.

Definition parse_seq (cursor : string) : option Z := '(_, seq) ← split_once ":" cursor; u64_from_str seq.

Section worker.
Context {J : JsonLib} {C : Chrono} {Y : Crypto} {U : UrlLib}.

(** ** attempt_post *)
Inductive Attempt : Type := Acked | Failed (category : string) (retryable : bool).

Record PostWorld := {
  pw_lookup : string -> Z -> option (list SocketAddr);
  pw_builds : bool;
  pw_now_secs : Z;
  pw_respond : SignedPost -> HttpOutcome
}.

(** [StatusCode::PAYLOAD_TOO_LARGE]. *)
Definition PAYLOAD_TOO_LARGE : Z := 413.

Definition attempt_post (allow_insecure : bool) (url : Url) (sub_id msg_id secret body : string)
    (w : PostWorld) : Attempt :=
  match client_for allow_insecure (url_port_or_known_default url) (url_host url) (pw_lookup w) (pw_builds w) with
  | Err e => Failed (ssrf_category e) true
  | Ok _ =>
      match pw_respond w (signed_post (pw_now_secs w) (url_as_str url) sub_id msg_id secret body) with
      | HttpResponse status _ =>
          if is_success status then Acked
          else Failed (if is_server_error status then error_category.HTTP_5XX else error_category.HTTP_4XX)
                 (negb (status =? PAYLOAD_TOO_LARGE))
      | SendError t l => Failed (classify_send_error t l) true
      end
  end.

(** ** deliver *)
Record DeliverCall := {
  dc_key : SubKey;
  dc_sub_id : string;
  dc_url : Url;
  dc_msg_id : string;
  dc_body : string
}.

Inductive DeliverPhase : Type :=
| Fetching
| Posting (secret : string)
| Done (r : option unit).    (* [None]: the subscription is gone *)

Record DeliverState := { dl_attempt : nat; dl_phase : DeliverPhase }.

Definition deliver_start : DeliverState := {| dl_attempt := 0; dl_phase := Fetching |}.

Inductive DeliverInput : Type :=
| DBuffer (o : BufOp) | DStore (o : StoreOp)   (* other tasks *)
| DFetch
| DPost (w : PostWorld) (at_ : Z).

Inductive DeliverEvent : Type :=
| Fetched (sub : WebhookSub)
| Posted (secret : string) (a : Attempt)
| Slept (d : Z).

Definition deliver_step (c : DeliverCall) (d : DeliverState) (s : AppState) (i : DeliverInput)
    : option (DeliverState * AppState * list DeliverEvent) :=
  let cfg := c_webhook (a_config s) in
  match i, dl_phase d with
  | DBuffer o, _ => Some (d, with_buffer s (buf_step (a_buffer s) o), [])
  | DStore o, _ => Some (d, with_store s (store_step (a_subs s) o), [])
  | DFetch, Fetching =>
      match get (a_subs s) (dc_key c) with
      | None => Some ({| dl_attempt := dl_attempt d; dl_phase := Done None |}, s, [])
      | Some sub =>
          if ws_active sub then
            Some ({| dl_attempt := dl_attempt d; dl_phase := Posting (ws_secret sub) |}, s, [Fetched sub])
          else Some (d, s, [Fetched sub; Slept SUSPEND_POLL_INTERVAL])
      end
  | DPost w at_, Posting secret =>
      let a := attempt_post (wh_allow_insecure_urls cfg) (dc_url c) (dc_sub_id c) (dc_msg_id c) secret
                 (dc_body c) w in
      match a with
      | Acked =>
          Some ({| dl_attempt := dl_attempt d; dl_phase := Done (Some ()) |},
                with_store s (mark_delivery_ok (a_subs s) (dc_sub_id c) at_), [Posted secret a])
      | Failed category retryable =>
          let s' := with_store s (mark_delivery_failed (a_subs s) (dc_sub_id c) category at_
                                    (wh_suspend_after_failures cfg)) in
          if negb retryable || bool_decide (length RETRY_BACKOFF <= dl_attempt d)%nat then
            Some ({| dl_attempt := dl_attempt d; dl_phase := Done (Some ()) |}, s', [Posted secret a])
          else
            Some ({| dl_attempt := S (dl_attempt d); dl_phase := Fetching |}, s',
                  [Posted secret a; Slept (default 0 (RETRY_BACKOFF !! dl_attempt d))])
      end
  | _, _ => None
  end.

Fixpoint deliver_run (c : DeliverCall) (d : DeliverState) (s : AppState) (l : list DeliverInput)
    : option (DeliverState * AppState * list DeliverEvent) :=
  match l with
  | [] => Some (d, s, [])
  | i :: l' =>
      '(d1, s1, e) ← deliver_step c d s i;
      '(d2, s2, es) ← deliver_run c d1 s1 l';
      Some (d2, s2, e ++ es)
  end.

(** ** What a delivery did *)
Definition posts (l : list DeliverEvent) : list Attempt :=
  omap (fun e => match e with Posted _ a => Some a | _ => None end) l.

(** The waits between attempts. *)
Definition backoffs (l : list DeliverEvent) : list Z :=
  omap (fun e => match e with Slept d => if d =? SUSPEND_POLL_INTERVAL then None else Some d | _ => None end) l.

Definition retryable (a : Attempt) : Prop := exists cat, a = Failed cat true.

(** Every post was signed with the secret of a record just seen active. *)
Fixpoint signed_by_active (seen : option WebhookSub) (l : list DeliverEvent) : Prop :=
  match l with
  | [] => True
  | Fetched sub :: l' => signed_by_active (Some sub) l'
  | Posted secret _ :: l' =>
      (exists sub, seen = Some sub /\ ws_active sub = true /\ ws_secret sub = secret) /\
      signed_by_active None l'
  | Slept _ :: l' => signed_by_active seen l'
  end.

Fixpoint last_seen (seen : option WebhookSub) (l : list DeliverEvent) : option WebhookSub :=
  match l with
  | [] => seen
  | Fetched sub :: l' => last_seen (Some sub) l'
  | Posted _ _ :: l' => last_seen None l'
  | Slept _ :: l' => last_seen seen l'
  end.

Lemma signed_by_active_app seen l k :
  signed_by_active seen (l ++ k) <-> signed_by_active seen l /\ signed_by_active (last_seen seen l) k.
Proof. revert seen. induction l as [|[sub|sec a|x] l IH]; intros seen; simpl; [tauto|..]; rewrite IH; tauto. Qed.

Lemma last_seen_app seen l k : last_seen seen (l ++ k) = last_seen (last_seen seen l) k.
Proof. revert seen. induction l as [|[sub|sec a|x] l IH]; intros seen; simpl; auto. Qed.

Record deliver_inv (d : DeliverState) (l : list DeliverEvent) : Prop := {
  di_signed : signed_by_active None l;
  di_backoffs : backoffs l = take (dl_attempt d) RETRY_BACKOFF;
  di_bound : (dl_attempt d <= 3)%nat;
  di_phase : match dl_phase d with
             | Posting secret => exists sub, last_seen None l = Some sub /\ ws_active sub = true /\ ws_secret sub = secret
             | _ => True
             end;
  di_posts : match dl_phase d with
             | Done (Some _) => exists init a, posts l = init ++ [a] /\ length init = dl_attempt d /\
                 Forall retryable init /\
                 (a = Acked \/ (exists cat, a = Failed cat false) \/ (retryable a /\ dl_attempt d = 3%nat))
             | _ => length (posts l) = dl_attempt d /\ Forall retryable (posts l)
             end
}.

Lemma posts_app l k : posts (l ++ k) = posts l ++ posts k.
Proof. unfold posts. by rewrite omap_app. Qed.
Lemma backoffs_app l k : backoffs (l ++ k) = backoffs l ++ backoffs k.
Proof. unfold backoffs. by rewrite omap_app. Qed.

Lemma deliver_step_inv c d s i d' s' e l :
  deliver_inv d l -> deliver_step c d s i = Some (d', s', e) -> deliver_inv d' (l ++ e).
Proof.
  intros [H1 H2 H3 H4 H5] Hst. unfold deliver_step in Hst.
  destruct i as [o|o| |w at_].
  - injection Hst as <- <- <-. rewrite app_nil_r. by split.
  - injection Hst as <- <- <-. rewrite app_nil_r. by split.
  - destruct (dl_phase d) eqn:Hph; try done.
    destruct (get _ _) as [sub|]; [|injection Hst as <- <- <-; rewrite app_nil_r; by split].
    destruct (ws_active sub) eqn:Ha; injection Hst as <- <- <-;
      split; rewrite ?posts_app, ?backoffs_app, ?signed_by_active_app, ?last_seen_app, ?app_nil_r;
      simpl; rewrite ?Hph; simpl; rewrite ?app_nil_r; try done; eauto.
  - destruct (dl_phase d) as [|secret|] eqn:Hph; try done. destruct H4 as (sub & Hs & Ha & Hsec).
    destruct H5 as [H5 H6]. destruct (attempt_post _ _ _ _ _ _ _) as [|cat re] eqn:Eat.
    + injection Hst as <- <- <-.
      split; rewrite ?posts_app, ?backoffs_app, ?signed_by_active_app; simpl; rewrite ?app_nil_r; try done; [by eauto 10|].
      exists (posts l), Acked. split_and!; [done..|by left].
    + destruct (negb re || _) eqn:Er; injection Hst as <- <- <-.
      * split; rewrite ?posts_app, ?backoffs_app, ?signed_by_active_app; simpl; rewrite ?app_nil_r; try done; [by eauto 10|].
        exists (posts l), (Failed cat re). split_and!; [done..|]. right.
        apply orb_true_iff in Er as [Er|Er]; bsimp; [subst; eauto|]. destruct re; [|eauto].
        right. split; [by exists cat|]. unfold RETRY_BACKOFF in Er. simpl in Er. lia.
      * apply orb_false_iff in Er as [Er Eb]. bsimp. subst re. unfold RETRY_BACKOFF in Eb. simpl in Eb.
        assert (dl_attempt d = 0 \/ dl_attempt d = 1 \/ dl_attempt d = 2)%nat as Hd by lia.
        split; rewrite ?posts_app, ?backoffs_app, ?signed_by_active_app; simpl; rewrite ?app_nil_r.
        -- eauto 10.
        -- rewrite H2. by destruct Hd as [-> |[-> | ->]].
        -- lia.
        -- done.
        -- rewrite length_app, Forall_app. simpl. split; [lia|]. split; [done|].
           constructor; [by exists cat|constructor].
Qed.

Lemma deliver_run_inv c l d s d' s' evs evs0 :
  deliver_inv d evs0 -> deliver_run c d s l = Some (d', s', evs) -> deliver_inv d' (evs0 ++ evs).
Proof.
  revert d s evs evs0. induction l as [|i l IH]; intros d s evs evs0 Hinv Hrun.
  - injection Hrun as <- <- <-. by rewrite app_nil_r.
  - simpl in Hrun. apply bind_Some in Hrun as ([[d1 s1] e] & Hst & Hrun).
    apply bind_Some in Hrun as ([[d2 s2] es] & Hrun & [= <- <- <-]).
    rewrite (assoc_L (++)). eapply IH; [|exact Hrun]. by eapply deliver_step_inv.
Qed.

(** C18. The retry policy of one delivery, whatever other tasks do meanwhile:
    at most four posts, each signed with the secret of a record that was
    just seen active (so with a rotated secret, and never for a suspended or
    removed subscription); waits of 1, 5 and 25 seconds between them; every
    post but the last failed retryably, and a delivery that ends with its
    subscription still there ends with an acknowledgement, with a 413, or
    with the fourth failure. *)
Theorem deliver_policy c s l d s' evs :
  deliver_run c deliver_start s l = Some (d, s', evs) ->
  (length (posts evs) <= 4)%nat /\
  signed_by_active None evs /\
  backoffs evs = take (dl_attempt d) RETRY_BACKOFF /\
  match dl_phase d with
  | Done (Some _) => exists init a, posts evs = init ++ [a] /\ length init = dl_attempt d /\
      Forall retryable init /\
      (a = Acked \/ (exists cat, a = Failed cat false) \/ (retryable a /\ length (posts evs) = 4%nat))
  | _ => length (posts evs) = dl_attempt d /\ Forall retryable (posts evs)
  end.
Proof.
  intros Hrun. destruct (deliver_run_inv c l deliver_start s d s' evs []) as [H1 H2 H3 _ H5];
    [split; simpl; auto with lia|done|].
  simpl in *. split_and!; [|done|done|].
  - destruct (dl_phase d) as [| |[r|]]; [destruct H5; lia..| |destruct H5; lia].
    destruct H5 as (init & a & -> & Hl & _). rewrite length_app. simpl. lia.
  - destruct (dl_phase d) as [| |[r|]]; [done|done| |done].
    destruct H5 as (init & a & E & Hl & Hf & Ha). exists init, a. split_and!; [done..|].
    rewrite E, length_app. simpl. destruct Ha as [?|[?|[? ?]]]; [by left|by right; left|].
    right. right. split; [done|lia].
Qed.
End worker.

(** ** Examples *)
Definition ex_delivery_app : AppState := with_store ex_app ex_store.

Definition ex_delivery : DeliverCall := {|
  dc_key := ex_key "p1"; dc_sub_id := derive_sub_id (ex_key "p1"); dc_url := "hook" : Url (UrlLib := HttpsUrl);
  dc_msg_id := "evt_1"; dc_body := "{}" |}.

(** A public endpoint that answers every delivery with [status]. *)
Definition answering (status : Z) : PostWorld := {|
  pw_lookup _ _ := Some [{| sa_ip := V4 (Build_Ipv4Addr 93 184 215 14); sa_port := 443 |}];
  pw_builds := true; pw_now_secs := 100; pw_respond _ := HttpResponse status None |}.

(** An endpoint that keeps failing; the secret is rotated after the first
    post. *)
Definition ex_attempts : list DeliverInput :=
  [DFetch (J := ZJson); DPost (answering 503) 1; DStore (OpUpsert (seconds 3) (ex_key "p1") JNull "rotated" None None);
   DFetch; DPost (answering 404) 2; DFetch; DPost (answering 500) 3; DFetch; DPost (answering 502) 4].

Definition posting_secrets (l : list DeliverEvent) : list string :=
  omap (fun e => match e with Posted secret _ => Some secret | _ => None end) l.

Definition ex_delivered : option (DeliverState * AppState * list DeliverEvent) :=
  deliver_run ex_delivery deliver_start ex_delivery_app ex_attempts.

Example ex_delivered_posts :
  (fun r => (posts r.2, backoffs r.2, posting_secrets r.2)) <$> ex_delivered =
  Some ([Failed "http_5xx" true; Failed "http_4xx" true; Failed "http_5xx" true; Failed "http_5xx" true],
        RETRY_BACKOFF, ["secret"; "rotated"; "rotated"; "rotated"]).
Proof. vm_compute. reflexivity. Qed.

Lemma deliver_policy_witness :
  exists d s' evs,
    deliver_run ex_delivery deliver_start ex_delivery_app ex_attempts = Some (d, s', evs) /\
    (length (posts evs) <= 4)%nat /\ backoffs evs = take (dl_attempt d) RETRY_BACKOFF.
Proof.
  assert (is_Some (length ∘ posts ∘ snd <$> ex_delivered)) as Ha by (vm_compute; by eexists).
  pose proof (fun d s' evs => deliver_policy ex_delivery ex_delivery_app ex_attempts d s' evs) as H.
  unfold ex_delivered in Ha. destruct (deliver_run _ _ _ _) as [[[d s'] evs]|]; [|by destruct Ha].
  exists d, s', evs. destruct (H d s' evs eq_refl) as (H1 & _ & H3 & _). by split.
Defined.
