(* ===== verification/Delivery.v ===== *)
(** * The delivery worker (crates/mcp-events-server/src/webhook/worker.rs).

    One main loop, one fan-out task per event type and one delivery task per
    channel, over the shared application state and the shared map of handles.
    A step is one critical section (a lock held, a channel operation) of one
    of these tasks, or an operation of any other task on the buffer or the
    store.  A channel is named by the number of the delivery task that
    receives from it; it is closed when that task has exited. *)
From S2P Require Import Prelude RustStd Lib Json Wire Buffer History Registry Store Signing.
From S2P Require Import Config Mapping State Subscribe Stream Worker.

Section delivery.
Context {J : JsonLib} {C : Chrono} {Y : Crypto} {U : UrlLib}.

(** ** Data *)
Inductive QueueItem : Type :=
| QEvent (seq : Z) (occurrence : EventOccurrence)
| QGap (seq : Z) (cursor : string).

Definition item_seq (x : QueueItem) : Z := match x with QEvent s _ | QGap s _ => s end.

Record SubHandle := { h_key : SubKey; h_tx : nat }.

(** What a POST carries: [deliver_event], or [deliver_control] of a gap. *)
Inductive Body : Type := EventBody (o : EventOccurrence) | GapBody (cursor : string).

(** Where [run_delivery] goes on after a delivery. *)
Inductive Next : Type := ToBackfill | ToTail (last_done : Z).

Inductive RunPhase : Type :=
| Positioning                                    (* the record has no cursor *)
| Backfilling (pos : string)
| Resetting (pos : string)                       (* the read was truncated *)
| Delivering (b : Body) (call : DeliverCall) (cursor : string) (n : Next) (d : DeliverState)
| Recording (cursor : string) (n : Next)         (* [update_cursor] *)
| Receiving (last_done : Z)
| Holding (item : QueueItem) (last_done : Z).

Inductive TaskPhase : Type := Starting | Running (u : Url) (r : RunPhase) | Exited.

Record Task := {
  tk_key : SubKey;
  tk_sub_id : string;
  tk_params : Value;
  tk_queue : list QueueItem;
  tk_phase : TaskPhase
}.

Definition with_queue (t : Task) (q : list QueueItem) : Task :=
  {| tk_key := tk_key t; tk_sub_id := tk_sub_id t; tk_params := tk_params t; tk_queue := q;
     tk_phase := tk_phase t |}.

Definition with_phase (t : Task) (ph : TaskPhase) : Task :=
  {| tk_key := tk_key t; tk_sub_id := tk_sub_id t; tk_params := tk_params t; tk_queue := tk_queue t;
     tk_phase := ph |}.

Definition exited (t : Task) : bool := match tk_phase t with Exited => true | _ => false end.

(** The loop of [fan_out]: [FanSending] is a [try_send] of [try_enqueue],
    [owed] whether it is for a pending gap, [retry] whether it is the second
    one, after the task was found to have exited. *)
Inductive FanPhase : Type :=
| FanStarting
| FanReceiving
| FanListing (item : QueueItem)
| FanLoop (item : QueueItem) (todo : list WebhookSub)
| FanChoosing (item : QueueItem) (sub : WebhookSub) (tx : nat) (todo : list WebhookSub)
| FanSending (item : QueueItem) (sub : WebhookSub) (tx : nat) (q : QueueItem) (owed retry : bool)
    (todo : list WebhookSub)
| FanClosed (item : QueueItem) (sub : WebhookSub) (q : QueueItem) (owed : bool) (todo : list WebhookSub)
| FanReensuring (item : QueueItem) (sub : WebhookSub) (q : QueueItem) (owed : bool) (todo : list WebhookSub)
| FanReturned.

Record Fan := {
  fn_name : string;
  fn_rx : nat;
  fn_pending : gset string;    (* pending_gap *)
  fn_phase : FanPhase
}.

Definition fan_to (g : Fan) (ph : FanPhase) : Fan :=
  {| fn_name := fn_name g; fn_rx := fn_rx g; fn_pending := fn_pending g; fn_phase := ph |}.

Definition fan_pend (g : Fan) (p : gset string) (ph : FanPhase) : Fan :=
  {| fn_name := fn_name g; fn_rx := fn_rx g; fn_pending := p; fn_phase := ph |}.

Definition fan_at (g : Fan) (rx : nat) (ph : FanPhase) : Fan :=
  {| fn_name := fn_name g; fn_rx := rx; fn_pending := fn_pending g; fn_phase := ph |}.

(** The loop of [spawn_delivery_worker], with [reconcile].  Its [retain] asks
    the store for each handle in turn, and the store may change between two of
    them, so it is a step per handle; that the handles stay locked meanwhile
    is not used (the model has more interleavings than the code). *)
Inductive MainPhase : Type :=
| MainTick
| MainLapsed (l : list WebhookSub)
| MainRetain (ids : list string)
| MainNames (names : list string)
| MainSubs (l : list WebhookSub) (names : list string).

Record WorkerState := {
  w_app : AppState;
  w_handles : gmap string SubHandle;   (* Tasks *)
  w_tasks : list Task;
  w_fans : list Fan;
  w_main : MainPhase
}.

Definition with_app (w : WorkerState) (s : AppState) : WorkerState :=
  {| w_app := s; w_handles := w_handles w; w_tasks := w_tasks w; w_fans := w_fans w; w_main := w_main w |}.

Definition with_handles (w : WorkerState) (m : gmap string SubHandle) : WorkerState :=
  {| w_app := w_app w; w_handles := m; w_tasks := w_tasks w; w_fans := w_fans w; w_main := w_main w |}.

Definition with_tasks (w : WorkerState) (l : list Task) : WorkerState :=
  {| w_app := w_app w; w_handles := w_handles w; w_tasks := l; w_fans := w_fans w; w_main := w_main w |}.

Definition with_fan (w : WorkerState) (j : nat) (g : Fan) : WorkerState :=
  {| w_app := w_app w; w_handles := w_handles w; w_tasks := w_tasks w; w_fans := <[j := g]> (w_fans w);
     w_main := w_main w |}.

Definition with_main (w : WorkerState) (m : MainPhase) : WorkerState :=
  {| w_app := w_app w; w_handles := w_handles w; w_tasks := w_tasks w; w_fans := w_fans w; w_main := m |}.

(** ** The handles *)
Definition is_closed (w : WorkerState) (tx : nat) : bool :=
  match w_tasks w !! tx with Some t => exited t | None => true end.

Definition tasks_remove (w : WorkerState) (sub_id : string) : WorkerState :=
  with_handles w (delete sub_id (w_handles w)).

Definition new_task (sub : WebhookSub) : Task :=
  {| tk_key := ws_key sub; tk_sub_id := ws_id sub; tk_params := ws_params sub; tk_queue := [];
     tk_phase := Starting |}.

(** A new channel, its handle and the task that receives from it. *)
Definition spawn_task (w : WorkerState) (sub : WebhookSub) : WorkerState * nat :=
  let tx := length (w_tasks w) in
  (with_tasks (with_handles w (<[ws_id sub := {| h_key := ws_key sub; h_tx := tx |}]> (w_handles w)))
     (w_tasks w ++ [new_task sub]), tx).

Definition ensure_task (w : WorkerState) (sub : WebhookSub) : WorkerState * nat :=
  match w_handles w !! ws_id sub with
  | Some h => if negb (is_closed w (h_tx h)) then (w, h_tx h) else spawn_task w sub
  | None => spawn_task w sub
  end.

Inductive TrySend : Type := SendOk | SendFull | SendClosed.

Definition try_send (w : WorkerState) (tx : nat) (item : QueueItem) : WorkerState * TrySend :=
  match w_tasks w !! tx with
  | Some t =>
      if exited t then (w, SendClosed)
      else if DELIVERY_QUEUE_CAPACITY <=? Z.of_nat (length (tk_queue t)) then (w, SendFull)
      else (with_tasks w (<[tx := with_queue t (tk_queue t ++ [item])]> (w_tasks w)), SendOk)
  | None => (w, SendClosed)
  end.

(** ** fan_out *)
Definition head_gap (b : EventBuffer) (n : string) : QueueItem :=
  let cursor := current_cursor b n in QGap (default u64_max (parse_seq cursor)) cursor.

(** What an attempt to enqueue does to [pending_gap]. *)
Definition enqueued (g : Fan) (sub : WebhookSub) (owed ok : bool) : gset string :=
  if owed then (if ok then fn_pending g ∖ {[ws_id sub]} else fn_pending g)
  else (if ok then fn_pending g else {[ws_id sub]} ∪ fn_pending g).

Definition fan_recv (w : WorkerState) (g : Fan) (r : Recv) : option Fan :=
  let log := tx (type_state (a_buffer (w_app w)) (fn_name g)) in
  match r with
  | Received =>
      le ← log !! fn_rx g;
      Some (fan_at g (S (fn_rx g)) (FanListing (QEvent (le_seq le) (le_occurrence le))))
  | Lagged k =>
      if bool_decide (0 < k /\ fn_rx g + k <= length log)%nat then
        Some (fan_at g (fn_rx g + k) (FanListing (head_gap (a_buffer (w_app w)) (fn_name g))))
      else None
  | Closed => if bool_decide (fn_rx g = length log) then Some (fan_to g FanReturned) else None
  end.

Definition fan_step (w : WorkerState) (j : nat) (r : Recv) : option WorkerState :=
  g ← w_fans w !! j;
  let to ph := with_fan w j (fan_to g ph) in
  match fn_phase g with
  | FanStarting =>
      let '(b, rx) := live (a_buffer (w_app w)) (fn_name g) in
      Some (with_fan (with_app w (with_buffer (w_app w) b)) j (fan_at g rx FanReceiving))
  | FanReceiving => with_fan w j <$> fan_recv w g r
  | FanListing item => Some (to (FanLoop item (list_for_event (a_subs (w_app w)) (fn_name g))))
  | FanLoop item [] => Some (to FanReceiving)
  | FanLoop item (sub :: todo) =>
      if negb (ws_verified sub) then Some (to (FanLoop item todo))
      else if negb (ws_active sub) then
        Some (with_fan w j (fan_pend g ({[ws_id sub]} ∪ fn_pending g) (FanLoop item todo)))
      else
        let '(w', tx) := ensure_task w sub in
        Some (with_fan w' j (fan_to g (FanChoosing item sub tx todo)))
  | FanChoosing item sub tx todo =>
      if bool_decide (ws_id sub ∈ fn_pending g) then
        Some (to (FanSending item sub tx (head_gap (a_buffer (w_app w)) (fn_name g)) true false todo))
      else Some (to (FanSending item sub tx item false false todo))
  | FanSending item sub tx q owed retry todo =>
      let '(w', res) := try_send w tx q in
      let done ok := Some (with_fan w' j (fan_pend g (enqueued g sub owed ok) (FanLoop item todo))) in
      match res with
      | SendOk => done true
      | SendFull => done false
      | SendClosed => if retry then done false else Some (to (FanClosed item sub q owed todo))
      end
  | FanClosed item sub q owed todo =>
      Some (with_fan (tasks_remove w (ws_id sub)) j (fan_to g (FanReensuring item sub q owed todo)))
  | FanReensuring item sub q owed todo =>
      let '(w', tx) := ensure_task w sub in
      Some (with_fan w' j (fan_to g (FanSending item sub tx q owed true todo)))
  | FanReturned => None
  end.

(** ** The main loop *)
Definition main_step (w : WorkerState) (now : Z) : WorkerState :=
  match w_main w with
  | MainTick =>
      let '(st, lapsed) := expire_lapsed (a_subs (w_app w)) now in
      with_main (with_app w (with_store (w_app w) st)) (MainLapsed lapsed)
  | MainLapsed (sub :: l) => with_main (tasks_remove w (ws_id sub)) (MainLapsed l)
  | MainLapsed [] => with_main w (MainRetain (map_to_list (w_handles w)).*1)
  | MainRetain (id :: ids) =>
      let keep := match w_handles w !! id with
                  | Some h => negb (is_closed w (h_tx h)) &&
                              bool_decide (is_Some (get (a_subs (w_app w)) (h_key h)))
                  | None => true
                  end in
      with_main (if keep then w else tasks_remove w id) (MainRetain ids)
  | MainRetain [] => with_main w (MainNames (ed_name <$> registry_list (a_registry (w_app w))))
  | MainNames (n :: names) => with_main w (MainSubs (list_for_event (a_subs (w_app w)) n) names)
  | MainNames [] => with_main w MainTick
  | MainSubs (sub :: l) names =>
      with_main (if ws_verified sub then (ensure_task w sub).1 else w) (MainSubs l names)
  | MainSubs [] names => with_main w (MainNames names)
  end.

(** ** run_delivery *)
Inductive TaskEvent : Type :=
| Opened (cursor : string)       (* where the backfill starts *)
| Attempted (e : DeliverEvent)
| Delivered (b : Body)           (* acknowledged or abandoned *)
| Recorded (cursor : string).    (* the watermark *)

Definition params_opt (t : Task) : option Value :=
  match tk_params t with JNull => None | p => Some p end.

Definition with_cursor (o : EventOccurrence) (cur : string) : EventOccurrence :=
  {| eo_event_id := eo_event_id o; eo_name := eo_name o; eo_timestamp := eo_timestamp o;
     eo_data := eo_data o; eo_cursor := Some (Some cur); eo_meta := eo_meta o |}.

(** [deliver_event] and [deliver_control], up to the call of [deliver]. *)
Definition start_delivery (t : Task) (u : Url) (b : Body) (uuid cursor : string) (n : Next) : TaskPhase :=
  Running u (Delivering b
    {| dc_key := tk_key t; dc_sub_id := tk_sub_id t; dc_url := u;
       dc_msg_id := match b with EventBody o => eo_event_id o | GapBody _ => control_msg_id "gap" uuid end;
       dc_body := struct_text match b with
                              | EventBody o => occurrence_fields o
                              | GapBody c => control_fields (Gap (Some c))
                              end |} cursor n deliver_start).

(** One step of the task; [sender] tells whether a sender of its channel is
    left.  [None]: not possible in this state. *)
Inductive TaskInput : Type := TRun (now : Z) (uuid : string) | TPost (w : PostWorld) (at_ : Z).

Definition backfill_read (s : AppState) (t : Task) (now : Z) (pos : string) (cap : Z)
    : EventBuffer * ReadResult :=
  let n := name (tk_key t) in
  read (a_buffer s) now n (Some pos) None (Some cap) (params_opt t) (a_filters s !! n).

Definition task_open (s : AppState) (t : Task) : TaskPhase * list TaskEvent :=
  match url_parse (url (tk_key t)) with
  | Err _ => (Exited, [])
  | Ok u =>
      match get (a_subs s) (tk_key t) with
      | None => (Exited, [])
      | Some sub =>
          match ws_cursor sub with
          | Some c => (Running u (Backfilling c), [Opened c])
          | None => (Running u Positioning, [])
          end
      end
  end.

(** One turn of the backfill loop: the result of its read. *)
Definition backfill_turn (t : Task) (u : Url) (pos uuid : string) (r : ReadResult) : TaskPhase :=
  if rr_truncated r then Running u (Resetting pos)
  else match rr_events r with
       | o :: _ =>
           start_delivery t u (EventBody (with_cursor o (rr_cursor r))) uuid (rr_cursor r) ToBackfill
       | [] =>
           if bool_decide (rr_cursor r = pos) then Running u (Receiving (default 0 (parse_seq pos)))
           else Running u (Recording (rr_cursor r) (ToTail (default 0 (parse_seq (rr_cursor r)))))
       end.

(** One item of the queue; [cur] is the head, for an occurrence without a
    cursor. *)
Definition take_item (s : AppState) (t : Task) (u : Url) (item : QueueItem) (last_done : Z) (uuid : string)
    : TaskPhase :=
  let n := name (tk_key t) in
  if item_seq item <=? last_done then Running u (Receiving last_done)
  else match item with
       | QEvent seq o =>
           let cursor := match eo_cursor o with
                         | Some (Some c) => c
                         | _ => current_cursor (a_buffer s) n
                         end in
           let filtered_out := match params_opt t, a_filters s !! n with
                               | Some p, Some f => negb (f p (eo_data o))
                               | _, _ => false
                               end in
           if filtered_out then Running u (Recording cursor (ToTail seq))
           else start_delivery t u (EventBody (with_cursor o cursor)) uuid cursor (ToTail seq)
       | QGap seq cursor => start_delivery t u (GapBody cursor) uuid cursor (ToTail seq)
       end.

Definition deliver_turn (s : AppState) (t : Task) (u : Url) (b : Body) (call : DeliverCall) (cursor : string)
    (n : Next) (d : DeliverState) (i : DeliverInput) : option (Task * AppState * list TaskEvent) :=
  '(d', s', evs) ← deliver_step call d s i;
  match dl_phase d' with
  | Done None => Some (with_phase t Exited, s', Attempted <$> evs)
  | Done (Some _) =>
      Some (with_phase t (Running u (Recording cursor n)), s', (Attempted <$> evs) ++ [Delivered b])
  | _ => Some (with_phase t (Running u (Delivering b call cursor n d')), s', Attempted <$> evs)
  end.

Definition task_step (s : AppState) (sender : bool) (t : Task) (i : TaskInput)
    : option (Task * AppState * list TaskEvent) :=
  let n := name (tk_key t) in
  match tk_phase t, i with
  | Starting, TRun _ _ => let '(ph, evs) := task_open s t in Some (with_phase t ph, s, evs)
  | Running u r, TRun now uuid =>
      match r with
      | Positioning =>
          let c := current_cursor (a_buffer s) n in
          Some (with_phase t (Running u (Backfilling c)), s, [Opened c])
      | Backfilling pos =>
          let '(b, res) := backfill_read s t now pos 1 in
          Some (with_phase t (backfill_turn t u pos uuid res), with_buffer s b, [])
      | Resetting pos =>
          let '(b, res) := backfill_read s t now pos 0 in
          Some (with_phase t (start_delivery t u (GapBody (rr_cursor res)) uuid (rr_cursor res) ToBackfill),
                with_buffer s b, [])
      | Delivering b call cursor nx d => deliver_turn s t u b call cursor nx d DFetch
      | Recording cursor nx =>
          Some (with_phase t (Running u match nx with
                                        | ToBackfill => Backfilling cursor
                                        | ToTail last_done => Receiving last_done
                                        end),
                with_store s (update_cursor (a_subs s) (tk_sub_id t) (Some cursor)), [Recorded cursor])
      | Receiving last_done =>
          match tk_queue t with
          | item :: q => Some (with_phase (with_queue t q) (Running u (Holding item last_done)), s, [])
          | [] => if sender then None else Some (with_phase t Exited, s, [])
          end
      | Holding item last_done =>
          match get (a_subs s) (tk_key t) with
          | None => Some (with_phase t Exited, s, [])
          | Some _ => Some (with_phase t (take_item s t u item last_done uuid), s, [])
          end
      end
  | Running u (Delivering b call cursor nx d), TPost w at_ =>
      deliver_turn s t u b call cursor nx d (DPost w at_)
  | _, _ => None
  end.

(** A sender of a channel: its handle, or the fan-out that is using it. *)
Definition holds_sender (tx : nat) (g : Fan) : bool :=
  match fn_phase g with
  | FanChoosing _ _ c _ | FanSending _ _ c _ _ _ _ => bool_decide (c = tx)
  | _ => false
  end.

Definition has_sender (w : WorkerState) (tx : nat) : bool :=
  existsb (fun h => bool_decide (h_tx h = tx)) (map_to_list (w_handles w)).*2 ||
  existsb (holds_sender tx) (w_fans w).

(** ** The worker *)
Inductive WorkerInput : Type :=
| WBuffer (o : BufOp)   (* other tasks *)
| WStore (o : StoreOp)
| WMain (now : Z)
| WFan (j : nat) (r : Recv)
| WTask (i : nat) (ti : TaskInput).

Definition worker_step (w : WorkerState) (x : WorkerInput) : option (WorkerState * list (nat * TaskEvent)) :=
  match x with
  | WBuffer o => Some (with_app w (with_buffer (w_app w) (buf_step (a_buffer (w_app w)) o)), [])
  | WStore o => Some (with_app w (with_store (w_app w) (store_step (a_subs (w_app w)) o)), [])
  | WMain now => Some (main_step w now, [])
  | WFan j r =>
      match fan_step w j r with
      | Some w' => Some (w', [])
      | None => None
      end
  | WTask i ti =>
      match w_tasks w !! i with
      | Some t =>
          match task_step (w_app w) (has_sender w i) t ti with
          | Some (t', s', evs) =>
              Some (with_tasks (with_app w s') (<[i := t']> (w_tasks w)), (fun e => (i, e)) <$> evs)
          | None => None
          end
      | None => None
      end
  end.

Fixpoint worker_run (w : WorkerState) (l : list WorkerInput)
    : option (WorkerState * list (nat * TaskEvent)) :=
  match l with
  | [] => Some (w, [])
  | x :: l' =>
      '(w1, e) ← worker_step w x;
      '(w2, es) ← worker_run w1 l';
      Some (w2, e ++ es)
  end.

(** [spawn_delivery_worker]. *)
Definition worker_new (s : AppState) : WorkerState :=
  {| w_app := s; w_handles := ∅; w_tasks := [];
     w_fans := (fun d => {| fn_name := ed_name d; fn_rx := 0; fn_pending := ∅; fn_phase := FanStarting |})
               <$> registry_list (a_registry s);
     w_main := MainTick |}.
End delivery.
