(* ===== verification/DeliverySafe.v ===== *)
(** * The invariant of the delivery worker.

    Whatever the interleaving: queues are bounded, a handle leads to the
    channel of its subscription, an item queued for a subscription is an
    event of its type (with the number and the cursor the buffer gave it) or
    a gap at a position of the buffer, and a delivery task only exists for an
    endpoint that passed verification. *)
From S2P Require Import Prelude RustStd Lib Json Wire Buffer History Registry Store Signing.
From S2P Require Import Config Mapping State Subscribe Stream Worker Delivery.

Section safe.
Context {J : JsonLib} {C : Chrono} {Y : Crypto} {U : UrlLib}.

(** ** What the inputs of a run do to the buffer and the store *)
Definition buffer_ops (l : list WorkerInput) : list BufOp :=
  omap (fun x => match x with WBuffer o => Some o | _ => None end) l.

Definition store_ops (l : list WorkerInput) : list StoreOp :=
  omap (fun x => match x with WStore o => Some o | _ => None end) l.

(** ** Well-formedness *)

(** Items of a task in the order they will be handled. *)
Definition accounted (t : Task) : list QueueItem :=
  match tk_phase t with Running _ (Holding x _) => x :: tk_queue t | _ => tk_queue t end.

Definition task_for (l : list Task) (tx : nat) (id : string) : Prop :=
  exists t, l !! tx = Some t /\ tk_sub_id t = id.

Section invariant.
Context (bc : BufferConfig) (rnd : Z) (keys : list SubKey).
Context (Hmax : 0 <= max_events_per_type bc) (Hrnd0 : 0 <= rnd) (Hrnd1 : rnd <= u64_max) (Hkeys : no_collision keys).
Implicit Types (ops : list BufOp) (st : Store) (w : WorkerState) (t : Task) (g : Fan).

Definition item_ok ops (n : string) (x : QueueItem) : Prop :=
  match x with
  | QEvent s o => exists ev, em_name ev = n /\ o = live_occurrence rnd s ev /\ 1 <= s /\
                    history n ops !! Z.to_nat (s - 1) = Some (stored_of s ev)
  | QGap s c => c = cursor_text rnd s /\ 0 <= s <= Z.of_nat (length (history n ops))
  end.

Definition sub_ok st (sub : WebhookSub) : Prop :=
  ws_id sub = derive_sub_id (ws_key sub) /\ ws_key sub ∈ keys /\
  (ws_verified sub = true -> is_verified st (principal (ws_key sub)) (url (ws_key sub)) = true).

Record task_wf ops st t : Prop := {
  tw_id : tk_sub_id t = derive_sub_id (tk_key t);
  tw_key : tk_key t ∈ keys;
  tw_verified : is_verified st (principal (tk_key t)) (url (tk_key t)) = true;
  tw_queue : Z.of_nat (length (tk_queue t)) <= DELIVERY_QUEUE_CAPACITY;
  tw_items : Forall (item_ok ops (name (tk_key t))) (accounted t)
}.

(** The item a fan-out has in hand, with respect to its position. *)
Definition fan_item ops g (x : QueueItem) : Prop :=
  item_ok ops (fn_name g) x /\
  match x with QEvent s _ => s = Z.of_nat (fn_rx g) | QGap s _ => Z.of_nat (fn_rx g) <= s end.

Definition fan_sub st g (sub : WebhookSub) : Prop := sub_ok st sub /\ name (ws_key sub) = fn_name g.

Definition fan_queued ops g (sub : WebhookSub) (item q : QueueItem) (owed : bool) : Prop :=
  owed = bool_decide (ws_id sub ∈ fn_pending g) /\
  if owed then exists s c, q = QGap s c /\ fan_item ops g q else q = item.

Definition fan_phase_wf ops st (tasks : list Task) g : Prop :=
  match fn_phase g with
  | FanStarting | FanReceiving | FanReturned => True
  | FanListing item => fan_item ops g item
  | FanLoop item todo => fan_item ops g item /\ Forall (fan_sub st g) todo
  | FanChoosing item sub tx todo =>
      fan_item ops g item /\ Forall (fan_sub st g) (sub :: todo) /\ ws_verified sub = true /\
      task_for tasks tx (ws_id sub)
  | FanSending item sub tx q owed _ todo =>
      fan_item ops g item /\ Forall (fan_sub st g) (sub :: todo) /\ ws_verified sub = true /\
      task_for tasks tx (ws_id sub) /\ fan_queued ops g sub item q owed
  | FanClosed item sub q owed todo | FanReensuring item sub q owed todo =>
      fan_item ops g item /\ Forall (fan_sub st g) (sub :: todo) /\ ws_verified sub = true /\
      fan_queued ops g sub item q owed
  end.

Definition fan_wf ops st (tasks : list Task) g : Prop :=
  (fn_rx g <= length (history (fn_name g) ops))%nat /\ fan_phase_wf ops st tasks g.

Definition main_wf st (m : MainPhase) : Prop :=
  match m with MainSubs l _ => Forall (sub_ok st) l | _ => True end.

Record base_inv (s0 : AppState) ops w : Prop := {
  bi_buffer : buf_ok bc rnd ops (a_buffer (w_app w));
  bi_store : store_ok (a_subs (w_app w));
  bi_flags : flags_ok keys (a_subs (w_app w));
  bi_setup : same_setup s0 (w_app w);
  bi_tasks i t : w_tasks w !! i = Some t -> task_wf ops (a_subs (w_app w)) t;
  bi_handles id h : w_handles w !! id = Some h -> task_for (w_tasks w) (h_tx h) id;
  bi_fans j g : w_fans w !! j = Some g -> fan_wf ops (a_subs (w_app w)) (w_tasks w) g;
  bi_main : main_wf (a_subs (w_app w)) (w_main w)
}.

(** ** What other tasks may do in between *)

(** The history grows, verified endpoints stay verified, tasks stay. *)
Definition grows ops ops' (st st' : Store) : Prop :=
  (exists k, ops' = ops ++ k) /\ verified st ⊆ verified st'.

Definition tasks_ext (l l' : list Task) : Prop :=
  forall i t, l !! i = Some t -> exists t', l' !! i = Some t' /\ tk_sub_id t' = tk_sub_id t.

#[export] Instance tasks_ext_refl : Reflexive tasks_ext.
Proof. intros l i t H. by exists t. Qed.

Lemma grows_refl ops st : grows ops ops st st.
Proof. split; [exists []; by rewrite app_nil_r|done]. Qed.

Lemma item_ok_grow ops ops' st st' n x : grows ops ops' st st' -> item_ok ops n x -> item_ok ops' n x.
Proof.
  intros [[k ->] _]. destruct (history_prefix n ops k) as [h Eh].
  destruct x as [s o|s c]; simpl; rewrite Eh.
  - intros (ev & ? & ? & ? & Hs). exists ev. by rewrite (lookup_app_l_Some _ _ _ _ Hs).
  - rewrite length_app. intros [-> ?]. split; [done|lia].
Qed.

Lemma sub_ok_grow ops ops' st st' sub : grows ops ops' st st' -> sub_ok st sub -> sub_ok st' sub.
Proof.
  intros [_ Hv] (? & ? & Hver). split_and!; [done..|]. intros Ev. specialize (Hver Ev).
  unfold is_verified in *. bsimp. apply bool_decide_eq_true. set_solver.
Qed.

Lemma task_wf_grow ops ops' st st' t : grows ops ops' st st' -> task_wf ops st t -> task_wf ops' st' t.
Proof.
  intros Hg [? ? Hv ? Hi]. split; [done..| |done|].
  - unfold is_verified in *. bsimp. apply bool_decide_eq_true. destruct Hg. set_solver.
  - eapply Forall_impl; [exact Hi|]. intros x. by eapply item_ok_grow.
Qed.

Lemma task_for_ext l l' tx id : tasks_ext l l' -> task_for l tx id -> task_for l' tx id.
Proof. intros He (t & Ht & <-). destruct (He _ _ Ht) as (t' & ? & ?). by exists t'. Qed.

Lemma fan_item_grow ops ops' st st' g x : grows ops ops' st st' -> fan_item ops g x -> fan_item ops' g x.
Proof. intros Hg [? ?]. split; [by eapply item_ok_grow|done]. Qed.

Lemma fan_subs_grow ops ops' st st' g l :
  grows ops ops' st st' -> Forall (fan_sub st g) l -> Forall (fan_sub st' g) l.
Proof. intros Hg H. eapply Forall_impl; [exact H|]. intros x [? ?]. split; [by eapply sub_ok_grow|done]. Qed.

Lemma fan_queued_grow ops ops' st st' g sub x q owed :
  grows ops ops' st st' -> fan_queued ops g sub x q owed -> fan_queued ops' g sub x q owed.
Proof.
  intros Hg [E H]. split; [done|]. destruct owed; [|done]. destruct H as (s & c & -> & ?). exists s, c.
  split; [done|]. by eapply fan_item_grow.
Qed.

Lemma fan_queued_item ops g sub item q owed :
  fan_item ops g item -> fan_queued ops g sub item q owed -> fan_item ops g q.
Proof. intros Hi [_ H]. destruct owed; [by destruct H as (? & ? & _ & ?)|by rewrite H]. Qed.

Lemma fan_wf_grow ops ops' st st' l l' g :
  grows ops ops' st st' -> tasks_ext l l' -> fan_wf ops st l g -> fan_wf ops' st' l' g.
Proof.
  intros Hg He [Hrx Hph]. split.
  - destruct Hg as [[k ->] _]. destruct (history_prefix (fn_name g) ops k) as [h ->].
    rewrite length_app. lia.
  - pose proof (fun x => fan_item_grow _ _ _ _ g x Hg) as H1.
    pose proof (fun x => fan_subs_grow _ _ _ _ g x Hg) as H2.
    pose proof (fun u x q o => fan_queued_grow _ _ _ _ g u x q o Hg) as H3.
    pose proof (fun tx id => task_for_ext _ _ tx id He) as H4.
    unfold fan_phase_wf in *. destruct (fn_phase g) in Hph |- *; try exact I; destruct_conj; split_conj;
      first [assumption|apply H1|apply H2|apply H3|apply H4]; assumption.
Qed.

(** ** Changing one part of the state *)
Lemma base_app s0 ops ops' w s' :
  base_inv s0 ops w -> grows ops ops' (a_subs (w_app w)) (a_subs s') ->
  buf_ok bc rnd ops' (a_buffer s') -> store_ok (a_subs s') -> flags_ok keys (a_subs s') ->
  same_setup (w_app w) s' -> base_inv s0 ops' (with_app w s').
Proof.
  intros [] Hg ? ? ? Hs. split; simpl; try done.
  - by etrans.
  - intros i t Ht. eapply task_wf_grow; eauto.
  - intros j g Hj. eapply fan_wf_grow; eauto. reflexivity.
  - unfold main_wf in *. destruct (w_main w); try done. eapply Forall_impl; [done|].
    intros x. by eapply sub_ok_grow.
Qed.

Lemma base_tasks s0 ops w l :
  base_inv s0 ops w -> tasks_ext (w_tasks w) l ->
  (forall i t, l !! i = Some t -> task_wf ops (a_subs (w_app w)) t) ->
  base_inv s0 ops (with_tasks w l).
Proof.
  intros [] He Hl. split; simpl; try done.
  - intros id h Hh. eapply task_for_ext; eauto.
  - intros j g Hj. eapply fan_wf_grow; eauto. apply grows_refl.
Qed.

Lemma tasks_ext_insert l i t t' : l !! i = Some t -> tk_sub_id t' = tk_sub_id t -> tasks_ext l (<[i := t']> l).
Proof.
  intros Hi Hid j u Hj. destruct (decide (j = i)) as [-> |Hne].
  - rewrite list_lookup_insert_eq by by eapply lookup_lt_Some. exists t'. split; [done|congruence].
  - rewrite list_lookup_insert_ne by done. by exists u.
Qed.

Lemma base_task s0 ops w i t t' :
  base_inv s0 ops w -> w_tasks w !! i = Some t -> tk_sub_id t' = tk_sub_id t ->
  task_wf ops (a_subs (w_app w)) t' -> base_inv s0 ops (with_tasks w (<[i := t']> (w_tasks w))).
Proof.
  intros Hb Hi Hid Hwf. apply base_tasks; [done|by eapply tasks_ext_insert|].
  intros j u [(<- & <- & _)|[_ Hj]]%list_lookup_insert_Some; [done|]. by eapply bi_tasks.
Qed.

Lemma base_handles s0 ops w m :
  base_inv s0 ops w -> (forall id h, m !! id = Some h -> task_for (w_tasks w) (h_tx h) id) ->
  base_inv s0 ops (with_handles w m).
Proof. intros [] Hm. by split. Qed.

Lemma base_remove s0 ops w id : base_inv s0 ops w -> base_inv s0 ops (tasks_remove w id).
Proof.
  intros Hb. apply base_handles; [done|]. intros id' h [_ Hh]%lookup_delete_Some. by eapply bi_handles.
Qed.

Lemma base_fan s0 ops w j g :
  base_inv s0 ops w -> fan_wf ops (a_subs (w_app w)) (w_tasks w) g -> base_inv s0 ops (with_fan w j g).
Proof.
  intros [] Hg. split; simpl; try done.
  intros i g' [(_ & <- & _)|[_ Hi]]%list_lookup_insert_Some; eauto.
Qed.

Lemma base_main s0 ops w m :
  base_inv s0 ops w -> main_wf (a_subs (w_app w)) m -> base_inv s0 ops (with_main w m).
Proof. intros [] Hm. by split. Qed.

Lemma task_for_snoc l t : task_for (l ++ [t]) (length l) (tk_sub_id t).
Proof. exists t. split; [|done]. by apply list_lookup_middle. Qed.

Lemma tasks_ext_snoc l t : tasks_ext l (l ++ [t]).
Proof. intros i u Hi. exists u. split; [by apply lookup_app_l_Some|done]. Qed.

Lemma new_task_wf ops st sub : sub_ok st sub -> ws_verified sub = true -> task_wf ops st (new_task sub).
Proof. intros (Hid & Hk & Hv) Ever. split; simpl; auto. done. Qed.

(** A sender for a subscription. *)
Lemma ensure_task_spec s0 ops w sub w' tx :
  base_inv s0 ops w -> sub_ok (a_subs (w_app w)) sub -> ws_verified sub = true ->
  ensure_task w sub = (w', tx) ->
  base_inv s0 ops w' /\ task_for (w_tasks w') tx (ws_id sub) /\ w_app w' = w_app w /\
  w_fans w' = w_fans w /\ w_main w' = w_main w /\ tasks_ext (w_tasks w) (w_tasks w').
Proof.
  intros Hb Hs Hv. assert (spawn_task w sub = (w', tx) ->
    base_inv s0 ops w' /\ task_for (w_tasks w') tx (ws_id sub) /\ w_app w' = w_app w /\
    w_fans w' = w_fans w /\ w_main w' = w_main w /\ tasks_ext (w_tasks w) (w_tasks w')) as Hspawn.
  { intros [= <- <-]. pose proof (task_for_snoc (w_tasks w) (new_task sub)) as Htf. split_conj; try done.
    - assert (base_inv s0 ops (with_tasks w (w_tasks w ++ [new_task sub]))) as Hb'.
      { apply base_tasks; [done|apply tasks_ext_snoc|]. intros i t [Hi|Hi]%lookup_app_Some.
        - by eapply bi_tasks.
        - destruct Hi as [_ Hi]. apply list_lookup_singleton_Some in Hi as [_ <-]. by apply new_task_wf. }
      apply (base_handles _ _ _ (<[ws_id sub := {| h_key := ws_key sub; h_tx := length (w_tasks w) |}]> (w_handles w))) in Hb'.
      + exact Hb'.
      + intros id h [[<- <-]|[_ Hh]]%lookup_insert_Some; [done|]. by apply (bi_handles _ _ _ Hb').
    - apply tasks_ext_snoc. }
  unfold ensure_task. destruct (w_handles w !! ws_id sub) as [h|] eqn:Hh; [|done].
  destruct (negb _); [|done]. intros [= <- <-]. split_conj; try done. by apply (bi_handles _ _ _ Hb).
Qed.

Lemma list_for_event_ok st n sub :
  store_ok st -> flags_ok keys st -> sub ∈ list_for_event st n -> sub_ok st sub /\ name (ws_key sub) = n.
Proof.
  intros Hok Hf [Hn Hs]%list_elem_of_filter. split; [|done]. apply elem_of_values in Hs as [id Hs].
  destruct (so_id _ Hok _ _ Hs) as [<- E]. destruct (Hf _ _ Hs) as [? Hv]. unfold sub_ok. split_conj; [done..|].
  intros Ev. by rewrite <- Hv.
Qed.

Lemma list_for_event_Forall st n :
  store_ok st -> flags_ok keys st -> Forall (fun sub => sub_ok st sub /\ name (ws_key sub) = n) (list_for_event st n).
Proof. intros. apply Forall_forall. intros sub. by apply list_for_event_ok. Qed.

(** ** Quiet steps: what a task or the main loop does to the shared state *)

(** Reads and new receivers add nothing to the history. *)
Lemma buf_ok_quiet ops b o :
  Z.of_nat (length ops) < u64_max -> (forall n, emits n [o] = []) ->
  buf_ok bc rnd ops b -> buf_ok bc rnd ops (buf_step b o).
Proof.
  intros Hb Hq Hok. destruct (buf_step_ok bc rnd ops o b Hmax) as (He & Hc & Hty); [|done|].
  { rewrite length_app. simpl. lia. }
  split_and!; [done..|]. intros n. destruct (Hty n) as [H1 H2]. by rewrite emits_snoc, Hq, app_nil_r in H1.
Qed.

(** A step of a delivery on the shared state. *)
Inductive quiet (s : AppState) : AppState -> Prop :=
| QuietNone : quiet s s
| QuietRead now n : quiet s (with_buffer s (buf_step (a_buffer s) (OpRead now n)))
| QuietStore o : upsert_keys [o] = [] -> quiet s (with_store s (store_step (a_subs s) o)).

Lemma grows_store ops st o : grows ops ops st (store_step st o).
Proof. split; [exists []; by rewrite app_nil_r|]. intros x. apply store_step_verified. Qed.

Lemma store_ops_ok s0 ops w o :
  (forall k, k ∈ upsert_keys [o] -> k ∈ keys) -> base_inv s0 ops w ->
  base_inv s0 ops (with_app w (with_store (w_app w) (store_step (a_subs (w_app w)) o))).
Proof.
  intros Ho Hb. pose proof Hb as []. eapply base_app; simpl; try done.
  - apply grows_store.
  - by apply store_step_ok.
  - by apply flags_step.
Qed.

Lemma quiet_ok s0 ops w s' :
  Z.of_nat (length ops) < u64_max -> quiet (w_app w) s' -> base_inv s0 ops w -> base_inv s0 ops (with_app w s').
Proof.
  intros Hlen Hq Hb. destruct Hq as [|now n|o Ho].
  - by destruct w.
  - pose proof Hb as []. eapply base_app; simpl; try done; [apply grows_refl|by apply (buf_ok_quiet ops (a_buffer (w_app w)) (OpRead now n))].
  - apply store_ops_ok; [|done]. rewrite Ho. set_solver.
Qed.

Lemma deliver_step_quiet c d s i d' s' e :
  match i with DBuffer _ | DStore _ => False | _ => True end ->
  deliver_step c d s i = Some (d', s', e) -> quiet s s'.
Proof.
  intros Hi. unfold deliver_step. destruct i as [o|o| |w at_]; [done..| |].
  - destruct (dl_phase d); [|done..]. destruct (get _ _) as [sub|]; [destruct (ws_active sub)|];
      intros [= _ <- _]; constructor.
  - destruct (dl_phase d); [done| |done]. destruct (attempt_post _ _ _ _ _ _ _) as [|cat re].
    + intros [= _ <- _]. by apply (QuietStore s (OpDeliveryOk _ _)).
    + destruct (negb re || _); intros [= _ <- _]; by apply (QuietStore s (OpDeliveryFailed _ _ _ _)).
Qed.

(** The queue a step of a task leaves is a suffix of what it had. *)
Lemma accounted_phase t ph :
  match ph with Running _ (Holding _ _) => False | _ => True end -> accounted (with_phase t ph) = tk_queue t.
Proof. unfold accounted. simpl. by destruct ph as [|? []|]. Qed.

Lemma deliver_turn_spec s t u b call cursor n d i t' s' evs :
  match i with DBuffer _ | DStore _ => False | _ => True end ->
  deliver_turn s t u b call cursor n d i = Some (t', s', evs) ->
  quiet s s' /\ exists ph, t' = with_phase t ph /\
    match ph with Running _ (Holding _ _) => False | _ => True end.
Proof.
  intros Hi. unfold deliver_turn. intros ([[d' s1] e] & Hst & H)%bind_Some.
  apply deliver_step_quiet in Hst; [|done].
  destruct (dl_phase d') as [|?|[[]|]]; injection H as <- <- <-; (split; [done|]); by eexists.
Qed.

Lemma task_step_quiet s sender t i t' s' evs :
  task_step s sender t i = Some (t', s', evs) ->
  quiet s s' /\ tk_key t' = tk_key t /\ tk_sub_id t' = tk_sub_id t /\ tk_params t' = tk_params t /\
  tk_queue t' `suffix_of` tk_queue t /\ accounted t' `suffix_of` accounted t.
Proof.
  assert (tk_queue t `suffix_of` accounted t) as Hacc.
  { unfold accounted. destruct (tk_phase t) as [|? []|]; try done. by apply suffix_cons_r. }
  assert (forall ph s1, quiet s s1 -> match ph with Running _ (Holding _ _) => False | _ => True end ->
    quiet s s1 /\ tk_key (with_phase t ph) = tk_key t /\ tk_sub_id (with_phase t ph) = tk_sub_id t /\
    tk_params (with_phase t ph) = tk_params t /\ tk_queue (with_phase t ph) `suffix_of` tk_queue t /\
    accounted (with_phase t ph) `suffix_of` accounted t) as Hph.
  { intros ph s1 Hq Hp. rewrite accounted_phase by done. by split_conj. }
  assert (forall u b call cursor n d x, match x with DBuffer _ | DStore _ => False | _ => True end ->
    deliver_turn s t u b call cursor n d x = Some (t', s', evs) ->
    quiet s s' /\ tk_key t' = tk_key t /\ tk_sub_id t' = tk_sub_id t /\ tk_params t' = tk_params t /\
    tk_queue t' `suffix_of` tk_queue t /\ accounted t' `suffix_of` accounted t) as Hturn.
  { intros u b call cursor n d x Hx Ht. apply deliver_turn_spec in Ht as [Hq (ph & -> & Hp)]; [|done].
    by apply Hph. }
  unfold task_step. destruct (tk_phase t) as [|u r|] eqn:Et, i as [now uuid|w at_]; try done.
  - destruct (task_open s t) as [ph e] eqn:Eo. intros [= <- <- _]. apply Hph; [constructor|].
    unfold task_open in Eo. destruct (url_parse _); [|by injection Eo as <-].
    destruct (get _ _) as [sub|]; [|by injection Eo as <-]. by destruct (ws_cursor sub); injection Eo as <-.
  - destruct r as [|pos|pos|b call cursor n d|cursor n|last|item last].
    + intros [= <- <- _]. apply Hph; [constructor|done].
    + unfold backfill_read, read. intros [= <- <- _]. apply Hph; [apply (QuietRead s now)|].
      unfold backfill_turn. by repeat case_match.
    + unfold backfill_read, read. intros [= <- <- _]. apply Hph; [apply (QuietRead s now)|done].
    + by apply Hturn.
    + intros [= <- <- _]. apply Hph; [by apply (QuietStore s (OpUpdateCursor _ _))|by destruct n].
    + destruct (tk_queue t) as [|item q] eqn:Eq.
      * destruct sender; [done|]. intros [= <- <- _]. apply Hph; [constructor|done].
      * intros [= <- <- _]. unfold accounted. rewrite Et. simpl. rewrite Eq. split_conj; try done; [constructor|].
        by apply suffix_cons_r.
    + destruct (get _ _); intros [= <- <- _]; apply Hph; try constructor.
      unfold take_item. by repeat case_match.
  - by destruct r; try done; apply Hturn.
Qed.

(** ** The fan-out *)
Lemma parse_seq_text e s : 0 <= s <= u64_max -> parse_seq (cursor_text e s) = Some s.
Proof.
  intros Hs. unfold parse_seq, cursor_text.
  change (":" +:+ u64_to_string s) with (String ":" (u64_to_string s)).
  rewrite split_once_app by by apply u64_to_string_no. simpl. by apply u64_from_to_string.
Qed.

Lemma history_bound ops n : Z.of_nat (length ops) < u64_max -> Z.of_nat (length (history n ops)) < u64_max.
Proof. rewrite history_length. pose proof (emits_length n ops). lia. Qed.

Lemma head_gap_eq ops b n :
  buf_ok bc rnd ops b -> Z.of_nat (length ops) < u64_max ->
  let len := Z.of_nat (length (history n ops)) in head_gap b n = QGap len (cursor_text rnd len).
Proof.
  intros Hok Hb len. pose proof (history_bound ops n Hb). unfold head_gap.
  by rewrite (current_cursor_head bc rnd n ops b Hok), parse_seq_text by lia.
Qed.

Lemma head_gap_ok ops b g :
  buf_ok bc rnd ops b -> Z.of_nat (length ops) < u64_max ->
  (fn_rx g <= length (history (fn_name g) ops))%nat -> fan_item ops g (head_gap b (fn_name g)).
Proof. intros Hok Hb Hrx. rewrite (head_gap_eq ops) by done. split; simpl; [split; [done|lia]|lia]. Qed.

Lemma fan_recv_ok ops w g r g' :
  buf_ok bc rnd ops (a_buffer (w_app w)) -> Z.of_nat (length ops) < u64_max ->
  (fn_rx g <= length (history (fn_name g) ops))%nat -> fan_recv w g r = Some g' ->
  fan_wf ops (a_subs (w_app w)) (w_tasks w) g'.
Proof.
  intros Hok Hb Hrx. pose proof (log_length _ _ (fn_name g) _ _ Hok) as Hlen.
  unfold fan_recv. destruct r as [|k|].
  - destruct (tx _ !! fn_rx g) as [le|] eqn:Hle; [|done]. intros [= <-].
    destruct (log_lookup _ _ _ _ _ _ _ Hok Hle) as (ev & Hn & Hs & Ho & Hh).
    pose proof (lookup_lt_Some _ _ _ Hh). split; simpl; [lia|]. split; simpl; [|lia].
    exists ev. rewrite Hs. split_conj; [done|done|lia|].
    by replace (Z.to_nat (Z.of_nat (fn_rx g) + 1 - 1)) with (fn_rx g) by lia.
  - case_bool_decide as Hk; [|done]. intros [= <-]. rewrite Hlen in Hk. split; simpl; [lia|].
    apply (head_gap_ok ops _ (fan_at g (fn_rx g + k) (FanListing (head_gap (a_buffer (w_app w)) (fn_name g)))));
      [done..|simpl; lia].
  - case_bool_decide; [|done]. by intros [= <-].
Qed.

Lemma try_send_ok s0 ops w tx q w' res :
  base_inv s0 ops w ->
  (forall t, w_tasks w !! tx = Some t -> item_ok ops (name (tk_key t)) q) ->
  try_send w tx q = (w', res) ->
  base_inv s0 ops w' /\ w_app w' = w_app w /\ w_fans w' = w_fans w /\ tasks_ext (w_tasks w) (w_tasks w').
Proof.
  intros Hb Hq. unfold try_send. destruct (w_tasks w !! tx) as [t|] eqn:Ht; [|by intros [= <- _]].
  destruct (exited t); [by intros [= <- _]|]. destruct (_ <=? _) eqn:El; intros [= <- _]; [done|]. bsimp.
  pose proof (bi_tasks _ _ _ Hb _ _ Ht) as [H1 H2 H3 H4 H5]. split_conj; try done.
  - eapply base_task; [done..|]. split; simpl; try done.
    + rewrite length_app. simpl. lia.
    + specialize (Hq t eq_refl). unfold accounted in *. simpl.
      destruct (tk_phase t) as [|? []|]; rewrite ?Forall_cons, ?Forall_app, ?Forall_singleton in *; tauto.
  - by eapply tasks_ext_insert.
Qed.

(** A channel of a subscription takes the items of its event type. *)
Lemma task_for_item s0 ops w tx sub g q t :
  base_inv s0 ops w -> fan_sub (a_subs (w_app w)) g sub -> task_for (w_tasks w) tx (ws_id sub) ->
  item_ok ops (fn_name g) q -> w_tasks w !! tx = Some t -> item_ok ops (name (tk_key t)) q.
Proof.
  intros Hb [(Hid & Hk & _) Hn] (t' & Ht' & Hs) Hq Ht. assert (t' = t) as -> by congruence.
  destruct (bi_tasks _ _ _ Hb _ _ Ht) as [H1 H2 _ _ _].
  assert (tk_key t = ws_key sub) as E by (apply Hkeys; [done..|congruence]). by rewrite E, Hn.
Qed.

(** The fan-out's own view is unchanged by a change of its phase. *)
Lemma fan_item_at ops g g' x : fn_name g' = fn_name g -> fn_rx g' = fn_rx g -> fan_item ops g x -> fan_item ops g' x.
Proof. unfold fan_item. by intros -> ->. Qed.

Lemma fan_step_ok s0 ops w j r w' :
  Z.of_nat (length ops) < u64_max -> base_inv s0 ops w -> fan_step w j r = Some w' -> base_inv s0 ops w'.
Proof.
  intros Hlen Hb. pose proof Hb as [Hbuf Hst Hfl _ _ _ Hfans _]. unfold fan_step.
  destruct (w_fans w !! j) as [g|] eqn:Hj; [|done]. simpl. destruct (Hfans _ _ Hj) as [Hrx Hph].
  unfold fan_phase_wf in Hph. destruct (fn_phase g) as [| |item|item [|sub todo]|item sub tx todo
    |item sub tx q owed retry todo|item sub q owed todo|item sub q owed todo|].
  - intros [= <-]. apply base_fan.
    + eapply base_app; simpl; try done; [apply grows_refl|by apply (buf_ok_quiet ops _ (OpLive _))].
    + split; simpl; [|done]. by rewrite (log_length bc rnd _ ops).
  - destruct (fan_recv w g r) as [g'|] eqn:Hr; [|done]. intros [= <-]. apply base_fan; [done|].
    by eapply fan_recv_ok.
  - intros [= <-]. apply base_fan; [done|]. split; [done|]. split; [done|].
    by apply list_for_event_Forall.
  - intros [= <-]. by apply base_fan.
  - destruct Hph as [Hi [Hs Hto]%Forall_cons]. destruct (ws_verified sub) eqn:Hv; simpl;
      [|intros [= <-]; by apply base_fan].
    destruct (ws_active sub); simpl; [|intros [= <-]; by apply base_fan].
    destruct (ensure_task w sub) as [w1 tx] eqn:He. intros [= <-].
    eapply ensure_task_spec in He as (Hb1 & Htf & Ea & _ & _ & _); [|done|apply Hs|done].
    apply base_fan; [done|]. rewrite Ea. split; [done|]. unfold fan_phase_wf. simpl. split_conj; try done. by constructor.
  - destruct Hph as (Hi & Hs & Hv & Htf). case_bool_decide as Ep; intros [= <-]; apply base_fan; try done;
      (split; [done|]); unfold fan_phase_wf; simpl; split_conj; try done;
      (split; [by first [rewrite bool_decide_true by done|rewrite bool_decide_false by done]|]); [|done].
    exists (Z.of_nat (length (history (fn_name g) ops))). eexists.
    rewrite (head_gap_eq ops) by done. split; [done|]. rewrite <- (head_gap_eq ops (a_buffer (w_app w))) by done.
    by apply (head_gap_ok ops (a_buffer (w_app w)) g).
  - destruct Hph as (Hi & Hs & Hv & Htf & Hq). pose proof Hs as [Hsub Hto]%Forall_cons.
    pose proof (fan_queued_item _ _ _ _ _ _ Hi Hq) as [Hqi _].
    destruct (try_send w tx q) as [w1 res] eqn:Et.
    eapply try_send_ok in Et as (Hb1 & Ea & _ & Hext); [|done|intros t Ht; by eapply task_for_item].
    destruct res; [| |destruct retry]; intros [= <-]; (apply base_fan; [done|]); rewrite ?Ea;
      (split; [done|]); unfold fan_phase_wf; simpl; by split_conj.
  - destruct Hph as (Hi & Hs & Hv & Hq). intros [= <-]. apply base_fan; [by apply base_remove|].
    split; [done|]. unfold fan_phase_wf. simpl. by split_conj.
  - destruct Hph as (Hi & Hs & Hv & Hq). pose proof Hs as [Hsub Hto]%Forall_cons.
    destruct (ensure_task w sub) as [w1 tx] eqn:He. intros [= <-].
    eapply ensure_task_spec in He as (Hb1 & Htf & Ea & _ & _ & _); [|done|apply Hsub|done].
    apply base_fan; [done|]. rewrite Ea. split; [done|]. unfold fan_phase_wf. simpl. by split_conj.
  - done.
Qed.

Lemma main_step_ok s0 ops w now : base_inv s0 ops w -> base_inv s0 ops (main_step w now).
Proof.
  intros Hb. pose proof Hb as [_ Hst Hfl _ _ _ _ Hm]. unfold main_step.
  destruct (w_main w) as [|[|sub l]|[|id ids]|[|n names]|[|sub l] names] eqn:Em; simpl in Hm.
  - pose proof (store_ops_ok s0 ops w (OpExpire now) ltac:(set_solver) Hb) as H.
    simpl in H. destruct (expire_lapsed _ now) as [st lapsed]. by apply base_main.
  - by apply base_main.
  - apply base_main; [by apply base_remove|done].
  - by apply base_main.
  - apply base_main; [|done]. destruct (match w_handles w !! id with Some _ => _ | None => _ end); [done|].
    by apply base_remove.
  - by apply base_main.
  - apply base_main; [done|]. simpl. eapply Forall_impl; [by apply (list_for_event_Forall _ n)|].
    by intros x [? _].
  - by apply base_main.
  - apply Forall_cons in Hm as [Hs Hm]. destruct (ws_verified sub) eqn:Hv; [|by apply base_main].
    destruct (ensure_task w sub) as [w1 tx] eqn:He.
    eapply ensure_task_spec in He as (Hb1 & _ & Ea & _ & _ & _); [|done..].
    apply base_main; [done|]. simpl. by rewrite Ea.
Qed.

Lemma worker_step_ok s0 ops w x w' evs :
  Z.of_nat (length (ops ++ buffer_ops [x])) < u64_max ->
  (forall k, k ∈ upsert_keys (store_ops [x]) -> k ∈ keys) ->
  base_inv s0 ops w -> worker_step w x = Some (w', evs) ->
  base_inv s0 (ops ++ buffer_ops [x]) w' /\
  forall i e, (i, e) ∈ evs -> is_Some (w_tasks w' !! i).
Proof.
  intros Hlen Hk Hb. rewrite length_app in Hlen. destruct x as [o|o|now|j r|i ti]; simpl in *.
  - intros [= <- <-]. split; [|by intros ? ? ?%elem_of_nil]. pose proof Hb as []. eapply base_app; simpl; try done.
    + split; [by eexists|done].
    + apply buf_step_ok; [done| |done]. rewrite length_app. simpl. lia.
  - rewrite app_nil_r. intros [= <- <-]. split; [|by intros ? ? ?%elem_of_nil]. by apply store_ops_ok.
  - rewrite app_nil_r. intros [= <- <-]. split; [|by intros ? ? ?%elem_of_nil]. by apply main_step_ok.
  - rewrite app_nil_r. destruct (fan_step w j r) as [w1|] eqn:Hf; [|done]. intros [= <- <-].
    split; [|by intros ? ? ?%elem_of_nil]. eapply fan_step_ok; [lia|done|done].
  - rewrite app_nil_r. destruct (w_tasks w !! i) as [t|] eqn:Ht; [|done].
    destruct (task_step _ _ t ti) as [[[t' s'] e]|] eqn:Hs; [|done]. intros [= <- <-].
    apply task_step_quiet in Hs as (Hq & Ek & Ei & _ & Hsuf & Hacc). split.
    + pose proof (quiet_ok s0 ops w s' ltac:(lia) Hq Hb) as Hb'.
      apply (base_task s0 ops (with_app w s') i t); [done..|].
      pose proof (bi_tasks _ _ _ Hb' i t Ht) as [H1 H2 H3 H4 H5]. split; rewrite ?Ek, ?Ei; try done.
      * apply suffix_length in Hsuf. lia.
      * destruct Hacc as [k E]. rewrite E, Forall_app in H5. apply H5.
    + intros i' x (y & [= -> ->] & _)%list_elem_of_fmap. simpl.
      apply lookup_lt_is_Some. rewrite length_insert. by eapply lookup_lt_Some.
Qed.

Lemma worker_step_tasks w x w' evs i :
  worker_step w x = Some (w', evs) -> is_Some (w_tasks w !! i) -> is_Some (w_tasks w' !! i).
Proof.
  rewrite !lookup_lt_is_Some. intros Hst Hi. eapply Nat.lt_le_trans; [exact Hi|]. clear Hi.
  assert (forall w sub, (length (w_tasks w) <= length (w_tasks (ensure_task w sub).1))%nat) as Hens.
  { intros w0 sub. unfold ensure_task. repeat case_match; simpl; rewrite ?length_app; lia. }
  destruct x as [o|o|now|j r|k ti]; simpl in Hst.
  - by injection Hst as <- _.
  - by injection Hst as <- _.
  - injection Hst as <- _. unfold main_step.
    destruct (w_main w) as [|[|sub l]|[|id ids]|[|n names]|[|sub l] names]; try done.
    + by destruct (expire_lapsed _ now).
    + simpl. by destruct (match w_handles w !! id with Some _ => _ | None => _ end).
    + simpl. destruct (ws_verified sub); [apply Hens|done].
  - destruct (fan_step w j r) as [w1|] eqn:Hf; [|done]. injection Hst as <- _. unfold fan_step in Hf.
    destruct (w_fans w !! j) as [g|]; [|done]. simpl in Hf.
    destruct (fn_phase g) as [| |item|item [|sub todo]|item sub tx todo
      |item sub tx q owed retry todo|item sub q owed todo|item sub q owed todo|]; simplify_eq/=; try done.
    + by destruct (fan_recv w g r); simplify_eq/=.
    + destruct (ws_verified sub); simplify_eq/=; [|done]. destruct (ws_active sub); simplify_eq/=; [|done].
      specialize (Hens w sub). destruct (ensure_task w sub). by simplify_eq/=.
    + by case_bool_decide; simplify_eq/=.
    + destruct (try_send w tx q) as [w2 res] eqn:Ht.
      assert (length (w_tasks w2) = length (w_tasks w)) as E.
      { unfold try_send in Ht. repeat case_match; simplify_eq/=; try done. by rewrite length_insert. }
      destruct res; [| |destruct retry]; simplify_eq/=; lia.
    + specialize (Hens w sub). destruct (ensure_task w sub). by simplify_eq/=.
  - destruct (w_tasks w !! k) as [t|]; [|done]. destruct (task_step _ _ t ti) as [[[t' s'] e]|]; [|done].
    injection Hst as <- _. simpl. by rewrite length_insert.
Qed.

Lemma worker_run_tasks l w w' evs i :
  worker_run w l = Some (w', evs) -> is_Some (w_tasks w !! i) -> is_Some (w_tasks w' !! i).
Proof.
  revert w evs. induction l as [|x l IH]; intros w evs Hrun Hi; simpl in Hrun; [by injection Hrun as <- _|].
  apply bind_Some in Hrun as ([w1 e] & Hst & Hrun).
  apply bind_Some in Hrun as ([w2 es] & Hrun & [= <- _]). eapply IH; [done|]. by eapply worker_step_tasks.
Qed.

Lemma worker_run_ok s0 l ops w w' evs :
  Z.of_nat (length (ops ++ buffer_ops l)) < u64_max ->
  (forall k, k ∈ upsert_keys (store_ops l) -> k ∈ keys) ->
  base_inv s0 ops w -> worker_run w l = Some (w', evs) ->
  base_inv s0 (ops ++ buffer_ops l) w' /\ forall i e, (i, e) ∈ evs -> is_Some (w_tasks w' !! i).
Proof.
  revert ops w evs. induction l as [|x l IH]; intros ops w evs Hlen Hk Hb Hrun; simpl in Hrun.
  { injection Hrun as <- <-. simpl. rewrite app_nil_r. split; [done|by intros ? ? ?%elem_of_nil]. }
  change (x :: l) with ([x] ++ l) in *. unfold buffer_ops, store_ops, upsert_keys in *.
  rewrite !omap_app in *. rewrite (assoc_L (++)) in *.
  apply bind_Some in Hrun as ([w1 e] & Hst & Hrun).
  apply bind_Some in Hrun as ([w2 es] & Hrun & [= <- <-]).
  apply (worker_step_ok s0 ops) in Hst as [Hb1 He]; [|rewrite length_app in Hlen; unfold buffer_ops; lia| |done].
  - destruct (IH _ _ _ Hlen ltac:(set_solver) Hb1 Hrun) as [Hb2 Hes]. split; [done|].
    intros i x0 [Hx|Hx]%elem_of_app; [|by eapply Hes].
    eapply worker_run_tasks; [exact Hrun|]. by eapply He.
  - set_solver.
Qed.

Lemma worker_new_ok s0 :
  a_buffer s0 = buffer_new bc rnd -> (exists max, a_subs s0 = store_new max) -> base_inv s0 [] (worker_new s0).
Proof.
  intros Eb [max Es]. split; simpl.
  - rewrite Eb. apply (buf_run_ok bc rnd []); [done|done].
  - rewrite Es. by split.
  - rewrite Es. done.
  - done.
  - by intros i t.
  - by intros id h.
  - intros j g Hj. apply list_lookup_fmap_Some in Hj as (d & -> & _). split; simpl; [lia|done].
  - done.
Qed.
End invariant.

Lemma app_new_parts config rnd ok s0 :
  app_new config rnd ok = Ok s0 ->
  (exists bc, a_buffer s0 = buffer_new bc rnd /\
     max_events_per_type bc = bs_max_events_per_type (c_buffer config)) /\
  (exists max, a_subs s0 = store_new max).
Proof.
  unfold app_new. intros (u & _ & H)%bind_Ok. destruct ok; [|done]. injection H as <-.
  split; eexists; [split|]; reflexivity.
Qed.

Lemma buffer_ops_length l : (length (buffer_ops l) <= length l)%nat.
Proof. induction l as [|x l IH]; [done|]. unfold buffer_ops in *. destruct x; csimpl in *; lia. Qed.

(** C9. The delivery worker, under every interleaving of its main loop, its
    fan-outs, its delivery tasks and all other tasks: everything a delivery
    task does (a POST in particular) is for an endpoint whose (principal,
    url) passed verification; no queue outgrows its capacity; a queue holds
    only events of the subscription's own type, as they were emitted, and
    gaps at positions of that type; and a handle leads to the channel of its
    subscription. *)
Theorem worker_safe config rnd s0 l w evs :
  app_new config rnd true = Ok s0 -> 0 <= rnd <= u64_max ->
  0 <= bs_max_events_per_type (c_buffer config) -> Z.of_nat (length l) < u64_max ->
  no_collision (upsert_keys (store_ops l)) ->
  worker_run (worker_new s0) l = Some (w, evs) ->
  (forall i e, (i, e) ∈ evs -> exists t, w_tasks w !! i = Some t /\
     is_verified (a_subs (w_app w)) (principal (tk_key t)) (url (tk_key t)) = true) /\
  (forall i t, w_tasks w !! i = Some t ->
     tk_sub_id t = derive_sub_id (tk_key t) /\ tk_key t ∈ upsert_keys (store_ops l) /\
     Z.of_nat (length (tk_queue t)) <= DELIVERY_QUEUE_CAPACITY /\
     Forall (item_ok rnd (buffer_ops l) (name (tk_key t))) (tk_queue t)) /\
  (forall id h, w_handles w !! id = Some h -> task_for (w_tasks w) (h_tx h) id).
Proof.
  intros Happ Hrnd Hcap Hlen Hk Hrun. pose proof (buffer_ops_length l).
  destruct (app_new_parts _ _ _ _ Happ) as [(bc & Eb & Em) Es].
  pose proof (worker_new_ok bc rnd (upsert_keys (store_ops l)) ltac:(lia) s0 Eb Es) as Hb.
  eapply (worker_run_ok bc rnd (upsert_keys (store_ops l))) in Hrun as [Hb' Hev]; try done; simpl in *; try lia.
  pose proof Hb' as [_ _ _ _ Ht Hh _ _]. split_conj; [|intros i t Hi|exact Hh].
  - intros i e [t Hi]%Hev. exists t. split; [done|]. by eapply tw_verified, Ht.
  - destruct (Ht _ _ Hi) as [? ? _ ? Hitems]. split_conj; try done.
    unfold accounted in Hitems. destruct (tk_phase t) as [|? []|]; try done. by apply Forall_cons in Hitems as [_ ?].
Qed.
End safe.

(** ** Examples *)
Definition ex_hook_key : SubKey :=
  {| principal := "alice"; url := "https://hook"; name := "orders.changed"; params_canonical := "{}" |}.

Definition ex_order_event (id : string) : BufOp :=
  OpEmit 0 {| em_event_id := id; em_name := "orders.changed"; em_timestamp := 0; em_data := JNull |}.

Definition ex_subscribe_at (cursor : string) : StoreOp :=
  OpUpsert 0 ex_hook_key JNull "secret" None (Some cursor).

(** The fan-out takes the next event to its only subscription. *)
Definition ex_fan_turn : list (WorkerInput (J := ZJson)) := replicate 6 (WFan 0 Received).

(** A task fetches the record, posts, is acknowledged and records. *)
Definition ex_task_post : list (WorkerInput (J := ZJson)) :=
  [WTask 0 (TRun 0 "u"); WTask 0 (TPost (answering 200) 0); WTask 0 (TRun 0 "u")].

(** "a" is queued and replayed, delivered once. *)
Definition ex_worker_inputs : list (WorkerInput (J := ZJson)) :=
  [WStore (ex_subscribe_at "7:0"); WStore (OpSetVerified "alice" "https://hook"); WFan 0 Received;
   WBuffer (ex_order_event "a")] ++ ex_fan_turn ++
  replicate 2 (WTask 0 (TRun 0 "u")) ++ ex_task_post ++ replicate 3 (WTask 0 (TRun 0 "u")).

Definition log_entry (e : nat * TaskEvent (J := ZJson)) : option string :=
  match e.2 with
  | Opened c => Some ("opened at " +:+ c)
  | Delivered (EventBody o) => Some ("delivered " +:+ eo_event_id o)
  | Delivered (GapBody c) => Some ("gap to " +:+ c)
  | Recorded c => Some ("recorded " +:+ c)
  | Attempted _ => None
  end.

Definition ex_worker_log (l : list (WorkerInput (J := ZJson))) : option (list string) :=
  match worker_run (U := HttpsUrl) (worker_new ex_app) l with
  | Some (_, evs) => Some (omap log_entry evs)
  | None => None
  end.

Example worker_example :
  ex_worker_log ex_worker_inputs = Some ["opened at 7:0"; "delivered a"; "recorded 7:1"].
Proof. vm_compute. reflexivity. Qed.

(** Removed and subscribed again with a cursor before the next sweep, a
    subscription keeps its running task: the replay the client asked for
    ("a" again) does not happen. *)
Example resubscribe_skips_replay :
  ex_worker_log (ex_worker_inputs ++
    [WStore (OpRemove ex_hook_key); WStore (ex_subscribe_at "7:0"); WBuffer (ex_order_event "b")] ++
    ex_fan_turn ++ replicate 2 (WTask 0 (TRun 0 "u")) ++ ex_task_post) =
  Some ["opened at 7:0"; "delivered a"; "recorded 7:1"; "delivered b"; "recorded 7:2"].
Proof. vm_compute. reflexivity. Qed.

Lemma worker_safe_witness :
  match worker_run (U := HttpsUrl) (worker_new ex_app) ex_worker_inputs with
  | Some (w, evs) =>
      evs <> [] /\ forall i e, (i, e) ∈ evs -> exists t, w_tasks w !! i = Some t /\
        is_verified (a_subs (w_app w)) (principal (tk_key t)) (url (tk_key t)) = true
  | None => False
  end.
Proof.
  assert (ex_worker_log ex_worker_inputs = Some ["opened at 7:0"; "delivered a"; "recorded 7:1"]) as Hl
    by (vm_compute; reflexivity).
  assert (no_collision (upsert_keys (store_ops ex_worker_inputs))) as Hk.
  { intros k1 k2 H1 H2 _. change (upsert_keys _) with [ex_hook_key] in H1, H2.
    apply list_elem_of_singleton in H1 as ->. by apply list_elem_of_singleton in H2. }
  unfold ex_worker_log in Hl. pose proof (fun w evs => worker_safe (U := HttpsUrl) ex_server 7 ex_app ex_worker_inputs w evs) as H.
  destruct (worker_run _ _) as [[w evs]|]; [|discriminate Hl]. split.
  - intros ->. discriminate Hl.
  - refine (proj1 (H w evs app_new_ex _ _ _ Hk eq_refl)); [split; discriminate|discriminate|reflexivity].
Defined.
