(* ===== verification/DeliveryExact.v ===== *)
(** * What a webhook receiver gets.

    [chain] is the abstract account a receiver is owed: from the position
    where its subscription starts, every event the filter passes is delivered
    once and in order, or covered by a gap notice; and a recorded watermark
    never runs ahead.  A delivery task refines it under every interleaving. *)
From S2P Require Import Prelude RustStd Lib Json Wire Buffer History Registry Store Signing.
From S2P Require Import Config Mapping State Subscribe Stream Worker Delivery DeliverySafe.

Section exact.
Context {J : JsonLib} {C : Chrono} {Y : Crypto} {U : UrlLib}.

(** ** The account *)

(** The position a cursor of this process names. *)
Definition cursor_pos (rnd : Z) (c : string) : option Z :=
  match parse_cursor c with Some (e, s) => if decide (e = rnd) then Some s else None | None => None end.

Section chain.
Context (rnd : Z) (n : string) (p : option Value) (f : option ParamFilter).

(** [chain h l pos]: with history [h], the log [l] accounts for everything up
    to [pos] ([None]: for nothing yet, the start being unknown). *)
Inductive chain (h : list Stored) : list TaskEvent -> option Z -> Prop :=
| chain_open c : chain h [Opened c] (cursor_pos rnd c)
| chain_event l lo hi e :
    chain h l (Some lo) -> 0 <= lo <= hi -> hi <= Z.of_nat (length h) -> passing p f lo hi h = [e] ->
    chain h (l ++ [Delivered (EventBody (with_cursor (poll_occurrence n e) (cursor_text rnd hi)))]) (Some hi)
| chain_gap l lo hi :
    chain h l lo -> 0 <= hi <= Z.of_nat (length h) ->
    (forall x, lo = Some x -> x <= hi \/ exists c, l = [Opened c]) ->
    chain h (l ++ [Delivered (GapBody (cursor_text rnd hi))]) (Some hi)
| chain_skip l lo hi :
    chain h l (Some lo) -> 0 <= lo <= hi -> hi <= Z.of_nat (length h) -> passing p f lo hi h = [] ->
    chain h l (Some hi)
| chain_record l pos :
    chain h l (Some pos) -> chain h (l ++ [Recorded (cursor_text rnd pos)]) (Some pos).

(** What a receiver saw of the events. *)
Definition delivered_ids (l : list TaskEvent) : list string :=
  omap (fun e => match e with Delivered (EventBody o) => Some (eo_event_id o) | _ => None end) l.

(** Delivered, or behind a gap the receiver was told of. *)
Definition told (l : list TaskEvent) (e : Stored) : Prop :=
  st_event_id e ∈ delivered_ids l \/
  exists g, Delivered (GapBody (cursor_text rnd g)) ∈ l /\ st_seq e <= g.

Lemma told_app l k e : told l e -> told (l ++ k) e.
Proof.
  unfold told, delivered_ids. rewrite omap_app. intros [H|(g & H & ?)]; [left; set_solver|right].
  exists g. split; [set_solver|done].
Qed.

(** No event is lost silently. *)
Lemma chain_told h l pos e :
  chain h l pos -> e ∈ h -> passes p f e = true ->
  (forall c lo, Opened c ∈ l -> cursor_pos rnd c = Some lo -> lo < st_seq e) ->
  forall x, pos = Some x -> st_seq e <= x -> told l e.
Proof.
  intros Hch He Hp. induction Hch as [c|l lo hi e0 _ IH ? ? He0|l lo hi _ IH ? ?|l lo hi _ IH ? ? He0|l pos _ IH];
    intros Ho x Hx Hs.
  - specialize (Ho c x ltac:(set_solver) Hx). lia.
  - injection Hx as <-. destruct (decide (st_seq e <= lo)).
    + apply told_app. eapply IH; [|done..]. intros ? ? ?. apply Ho. set_solver.
    + left. assert (e ∈ passing p f lo hi h) as Hin by (apply elem_of_passing; split_conj; try done; lia).
      rewrite He0 in Hin. apply list_elem_of_singleton in Hin as ->. unfold delivered_ids. rewrite omap_app.
      csimpl. set_solver.
  - injection Hx as <-. right. exists hi. set_solver.
  - injection Hx as <-. destruct (decide (st_seq e <= lo)); [by eapply IH|].
    assert (e ∈ passing p f lo hi h) as Hin by (apply elem_of_passing; split_conj; try done; lia).
    rewrite He0 in Hin. set_solver.
  - apply told_app. eapply IH; [|done..]. intros ? ? ?. apply Ho. set_solver.
Qed.

Lemma chain_grow h k l pos : consecutive 1 (h ++ k) -> chain h l pos -> chain (h ++ k) l pos.
Proof.
  intros Hc. induction 1 as [c|l lo hi e _ IH ? ? He|l lo hi _ IH ? ?|l lo hi _ IH ? ? He|l pos _ IH].
  - constructor.
  - apply chain_event with lo; try done; [rewrite length_app; lia|]. by rewrite passing_grow.
  - apply chain_gap with lo; try done. rewrite length_app. lia.
  - apply chain_skip with lo; try done; [rewrite length_app; lia|]. by rewrite passing_grow.
  - by constructor.
Qed.

(** ** The queue of a task *)

(** The highest position a task at [b] with queue [q] will have handled. *)
Definition top (b : Z) (q : list QueueItem) : Z := foldl (fun m x => Z.max m (item_seq x)) b q.

(** No event is missing before another one in the queue. *)
Fixpoint gapless (b : Z) (q : list QueueItem) : Prop :=
  match q with
  | [] => True
  | x :: q' =>
      match x with QEvent s _ => s <= b + 1 | QGap _ _ => True end /\ gapless (Z.max b (item_seq x)) q'
  end.

Lemma top_ge b q : b <= top b q.
Proof.
  revert b. induction q as [|x q IH]; intros b; simpl; [done|]. etrans; [|apply IH]. lia.
Qed.

Lemma top_snoc b q x : top b (q ++ [x]) = Z.max (top b q) (item_seq x).
Proof. unfold top. by rewrite foldl_snoc. Qed.

Lemma gapless_snoc b q x :
  gapless b (q ++ [x]) <->
  gapless b q /\ match x with QEvent s _ => s <= top b q + 1 | QGap _ _ => True end.
Proof.
  revert b. induction q as [|y q IH]; intros b; simpl; [tauto|]. rewrite IH. tauto.
Qed.

Lemma gapless_behind b q : Forall (fun x => item_seq x <= b) q -> gapless b q.
Proof.
  induction 1 as [|x q Hx _ IH]; simpl; [done|]. rewrite Z.max_l by done. split; [|done].
  destruct x; simpl in *; [lia|done].
Qed.
End chain.

(** From where a task handles its queue, once its backfill is over. *)
Definition tail_pos (t : Task) : option Z :=
  match tk_phase t with
  | Running _ (Delivering _ _ _ (ToTail last) _) | Running _ (Recording _ (ToTail last))
  | Running _ (Receiving last) | Running _ (Holding _ last) => Some last
  | _ => None
  end.

(** All positions up to [v] have been queued for the task, or will be found
    by its backfill. *)
Definition reaches (t : Task) (v : Z) : Prop :=
  forall b, tail_pos t = Some b -> v <= top b (accounted t).

(** The log of one task. *)
Definition account (evs : list TaskEvent) : list TaskEvent :=
  omap (fun e => match e with Attempted _ => None | _ => Some e end) evs.

Lemma account_attempted l : account (Attempted <$> l) = [].
Proof. induction l; [done|]. unfold account in *. by csimpl. Qed.

Lemma account_app l k : account (l ++ k) = account l ++ account k.
Proof. unfold account. by rewrite omap_app. Qed.

Section task.
Context (bc : BufferConfig) (rnd : Z) (Hmax : 0 <= max_events_per_type bc).
Context (Hrnd0 : 0 <= rnd) (Hrnd1 : rnd <= u64_max) (s0 : AppState).

#[local] Abbreviation chain_of t := (chain rnd (name (tk_key t)) (params_opt t) (a_filters s0 !! name (tk_key t))).

Definition next_ok (x : Next) (pos : Z) : Prop := match x with ToTail last => last = pos | ToBackfill => True end.

Definition at_cursor h (l : list TaskEvent) (c : string) (lo : option Z) : Prop :=
  l = [Opened c] \/
  exists pos, lo = Some pos /\ c = cursor_text rnd pos /\ 0 <= pos <= Z.of_nat (length (h : list Stored)).

Definition phase_ok h (t : Task) (l : list TaskEvent) : Prop :=
  let len := Z.of_nat (length h) in
  match tk_phase t with
  | Starting | Running _ Positioning => l = []
  | Running _ (Backfilling c) | Running _ (Resetting c) =>
      exists lo, chain_of t h l lo /\ at_cursor h l c lo
  | Running _ (Delivering b _ c x _) =>
      exists lo pos, chain_of t h l lo /\ chain_of t h (l ++ [Delivered b]) (Some pos) /\
        c = cursor_text rnd pos /\ 0 <= pos <= len /\ next_ok x pos
  | Running _ (Recording c x) =>
      exists pos, chain_of t h l (Some pos) /\ c = cursor_text rnd pos /\ 0 <= pos <= len /\ next_ok x pos
  | Running _ (Receiving last) | Running _ (Holding _ last) => chain_of t h l (Some last) /\ 0 <= last <= len
  | Exited => l = [] \/ exists lo, chain_of t h l lo
  end.

Definition task_ok h (t : Task) (l : list TaskEvent) : Prop :=
  phase_ok h t l /\
  forall b, tail_pos t = Some b -> 0 <= b <= Z.of_nat (length h) /\ gapless b (accounted t).

Lemma phase_ok_grow h k t l : consecutive 1 (h ++ k) -> phase_ok h t l -> phase_ok (h ++ k) t l.
Proof.
  intros Hc. assert (Z.of_nat (length h) <= Z.of_nat (length (h ++ k))) by (rewrite length_app; lia).
  assert (forall c lo, at_cursor h l c lo -> at_cursor (h ++ k) l c lo) as Hat.
  { intros c lo [?|(pos & ? & ? & ?)]; [by left|right]. exists pos. split_conj; (done || lia). }
  unfold phase_ok. destruct (tk_phase t) as [|u [|c|c|b call c x d|c x|last|item last]|]; try done.
  - intros (lo & ? & ?). exists lo. split; [by apply chain_grow|auto].
  - intros (lo & ? & ?). exists lo. split; [by apply chain_grow|auto].
  - intros (lo & pos & ? & ? & ? & ? & ?). exists lo, pos.
    split_conj; try (done || lia); by apply chain_grow.
  - intros (pos & ? & ? & ? & ?). exists pos. split_conj; try (done || lia). by apply chain_grow.
  - intros [? ?]. split; [by apply chain_grow|lia].
  - intros [? ?]. split; [by apply chain_grow|lia].
  - intros [?|(lo & ?)]; [by left|right]. exists lo. by apply chain_grow.
Qed.

Lemma task_ok_grow h k t l : consecutive 1 (h ++ k) -> task_ok h t l -> task_ok (h ++ k) t l.
Proof.
  intros Hc [H1 H2]. split; [by apply phase_ok_grow|]. intros b Hb. destruct (H2 b Hb).
  rewrite length_app. split; [lia|done].
Qed.

(** ** The backfill's reads *)
Lemma backfill_read_ops ops s t now c cap b r :
  buf_ok bc rnd ops (a_buffer s) -> Z.of_nat (length ops) < u64_max ->
  a_filters s = a_filters s0 -> backfill_read s t now c cap = (b, r) ->
  let n := name (tk_key t) in let h := history n ops in
  let len := Z.of_nat (length h) in let p := params_opt t in let f := a_filters s0 !! n in
  exists start tr pos, start <= pos <= len /\ 0 <= start /\ rr_cursor r = cursor_text rnd pos /\
    rr_events r = poll_occurrence n <$> passing p f start pos h /\ rr_truncated r = tr /\
    (tr = false -> parse_cursor c = Some (rnd, start)) /\
    (forall x, cursor_pos rnd c = Some x -> x <= len -> x <= start) /\
    (rr_has_more r = true -> cap_reached (Some cap) (rr_events r) = true) /\
    (rr_has_more r = false -> pos = len).
Proof.
  intros (He & Hc & Hty) Hb Hfi Hrd n h len p f. destruct (Hty n) as [Hok _].
  pose proof (type_ok_prune bc _ _ _ now Hok) as Hok'. pose proof (ok_last _ _ _ Hok') as Hl.
  pose proof (low_bounds Hok') as Hlow. pose proof (emits_length n ops) as Hel.
  pose proof (history_length ops n) as Hn. fold h len in Hn.
  unfold backfill_read, read in Hrd. rewrite Hc, Hfi in Hrd. apply (f_equal snd) in Hrd.
  cbn [snd] in Hrd. fold n p f in Hrd. rewrite <- He in Hok'.
  destruct (read_state_spec (a_buffer s) _ _ now n c None (Some cap) p f Hok' ltac:(lia))
    as (pos & Hp & Hcur & Hev & Htr & Hmore). rewrite Hrd in Hcur, Hev, Htr, Hmore. clear Hrd.
  fold (history n ops) in Hev, Htr, Hmore. fold h in Hev, Htr, Hmore.
  assert (forall l, existsb (below_floor None) l = false) as Hnf by (intros l; by induction l).
  change (floor_from_max_age_ms now <$> None) with (@None Z) in *. rewrite Hnf, orb_false_r in Htr. rewrite He in *.
  pose proof (start_spec_bounds rnd _ _ c Hlow) as Hsb.
  unfold cursor_str in Hcur. rewrite He in Hcur.
  eexists _, _, pos. split_conj; [apply Hp|lia|lia|exact Hcur| |exact Htr|..].
  - rewrite Hev. reflexivity.
  - intros E. apply start_spec_servable in E as Hs. destruct Hs as (x & Hx & Hxb).
    rewrite (start_spec_at _ _ _ _ _ Hx Hxb). exact Hx.
  - intros x. unfold cursor_pos, start_spec. destruct (parse_cursor c) as [[e y]|]; [|done].
    destruct (decide (e = rnd)); [|done]. intros [= ->] Hx. repeat case_decide; simpl; lia.
  - intros E. rewrite E in Hmore. by destruct Hmore as (? & _ & _ & ?).
  - intros E. rewrite E in Hmore. lia.
Qed.

Lemma reaches_bound h t l v :
  task_ok h t l -> v <= Z.of_nat (length h) -> tail_pos t = Some (Z.of_nat (length h)) -> reaches t v.
Proof. intros _ Hv Et b Hb. rewrite Et in Hb. injection Hb as <-. pose proof (top_ge (Z.of_nat (length h)) (accounted t)). lia. Qed.

(** A task that has just caught up. *)
Lemma caught_up h t l :
  tail_pos t = Some (Z.of_nat (length h)) -> Forall (fun x => item_seq x <= Z.of_nat (length h)) (accounted t) ->
  phase_ok h t l -> task_ok h t l /\ forall v, v <= Z.of_nat (length h) -> reaches t v.
Proof.
  intros Et Hq Hp. assert (task_ok h t l) as Hok.
  { split; [done|]. intros b Hb. rewrite Et in Hb. injection Hb as <-. split; [lia|]. by apply gapless_behind. }
  split; [done|]. intros v Hv. by eapply reaches_bound.
Qed.

Lemma items_behind ops n x : item_ok rnd ops n x -> item_seq x <= Z.of_nat (length (history n ops)).
Proof.
  destruct x as [s o|s c]; simpl; [|lia]. intros (ev & _ & _ & ? & Hs%lookup_lt_Some). lia.
Qed.

(** A task that is still behind has nothing to answer for. *)
Lemma not_tail h t l : tail_pos t = None -> phase_ok h t l -> task_ok h t l /\ forall v, reaches t v.
Proof.
  intros Et Hp. split; [split; [done|]; intros b; by rewrite Et|]. intros v b. by rewrite Et.
Qed.

Lemma at_cursor_chain h t l c lo s :
  chain_of t h l lo -> at_cursor h l c lo -> parse_cursor c = Some (rnd, s) ->
  Z.of_nat (length h) <= u64_max -> chain_of t h l (Some s).
Proof.
  intros Hc [-> |(pos & -> & -> & Hpos)] Hp Hl.
  - pose proof (chain_open rnd (name (tk_key t)) (params_opt t) (a_filters s0 !! name (tk_key t)) h c) as H.
    unfold cursor_pos in H. by rewrite Hp, decide_True in H.
  - rewrite parse_cursor_text in Hp by lia. by injection Hp as <-.
Qed.

Section step.
Context (ops : list BufOp) (s : AppState) (t : Task) (l : list TaskEvent).
Context (Hops : Z.of_nat (length ops) < u64_max) (Hbuf : buf_ok bc rnd ops (a_buffer s)).
Context (Hfi : a_filters s = a_filters s0).
Context (Hitems : Forall (item_ok rnd ops (name (tk_key t))) (accounted t)).
#[local] Abbreviation h := (history (name (tk_key t)) ops).
#[local] Abbreviation len := (Z.of_nat (length h)).

#[local] Lemma len_bound : len < u64_max.
Proof. by apply history_bound. Qed.

#[local] Lemma items_all_behind : Forall (fun x => item_seq x <= len) (accounted t).
Proof. eapply Forall_impl; [exact Hitems|]. apply items_behind. Qed.

(** What a step owes: the new state of the task, and that it still reaches
    what it reached. *)
Definition step_ok (t' : Task) (l' : list TaskEvent) : Prop :=
  task_ok h t' l' /\ forall v, v <= len -> reaches t v -> reaches t' v.

Lemma step_ok_behind ph l' : tail_pos (with_phase t ph) = None -> phase_ok h (with_phase t ph) l' ->
  step_ok (with_phase t ph) l'.
Proof. intros Et Hp. destruct (not_tail h _ l' Et Hp). split; auto. Qed.

Lemma backfill_turn_ok u c now uuid b r :
  tk_phase t = Running u (Backfilling c) -> task_ok h t l -> backfill_read s t now c 1 = (b, r) ->
  step_ok (with_phase t (backfill_turn t u c uuid r)) l.
Proof.
  intros Et [Hp _] Hrd. unfold phase_ok in Hp. rewrite Et in Hp. destruct Hp as (lo & Hch & Hat).
  pose proof len_bound as Hlen. assert (accounted t = tk_queue t) as Eacc by (unfold accounted; by rewrite Et).
  destruct (backfill_read_ops ops s t now c 1 b r Hbuf Hops Hfi Hrd)
    as (start & tr & pos & Hpos & Hst & Hcur & Hev & Htr & Hs & _ & Hmore & Hhead).
  unfold backfill_turn. rewrite Htr. destruct tr.
  { apply step_ok_behind; [done|]. by exists lo. }
  pose proof (at_cursor_chain _ _ _ _ _ _ Hch Hat (Hs eq_refl) ltac:(lia)) as Hch'.
  assert (Z.of_nat (length (rr_events r)) <= 1) as Hone.
  { unfold backfill_read, read in Hrd. apply (f_equal snd) in Hrd. cbn [snd] in Hrd. subst r.
    unfold read_state. destruct (read_start _ _ _). apply read_loop_cap. simpl. lia. }
  rewrite Hev in *. destruct (passing _ _ start pos h) as [|e [|e' es]] eqn:Epass; csimpl in *; [..|lia].
  - assert (pos = len) as Epos.
    { apply Hhead. destruct (rr_has_more r); [|done]. by specialize (Hmore eq_refl). }
    assert (chain_of t h l (Some len)) as Hfin by (rewrite <- Epos; eapply chain_skip; eauto; lia).
    assert (Forall (fun x => item_seq x <= len) (tk_queue t)) as Hq by (rewrite <- Eacc; apply items_all_behind).
    rewrite Hcur, Epos in *. case_bool_decide as Ec.
    + rewrite <- Ec, parse_seq_text by lia. simpl.
      destruct (caught_up h (with_phase t (Running u (Receiving len))) l) as [? ?]; simpl; try done;
        [split; [done|lia]|by split; auto].
    + rewrite parse_seq_text by lia. simpl.
      destruct (caught_up h (with_phase t (Running u (Recording (cursor_text rnd len) (ToTail len)))) l) as [? ?];
        simpl; try done; [|by split; auto]. exists len. split_conj; (done || lia).
  - apply step_ok_behind; [done|]. exists (Some start), pos. rewrite Hcur. split_conj; try (done || lia).
    eapply chain_event; eauto; lia.
Qed.

Lemma reset_ok u c now uuid b r :
  tk_phase t = Running u (Resetting c) -> task_ok h t l -> backfill_read s t now c 0 = (b, r) ->
  step_ok (with_phase t (start_delivery t u (GapBody (rr_cursor r)) uuid (rr_cursor r) ToBackfill)) l.
Proof.
  intros Et [Hp _] Hrd. unfold phase_ok in Hp. rewrite Et in Hp. destruct Hp as (lo & Hch & Hat).
  pose proof len_bound as Hlen.
  destruct (backfill_read_ops ops s t now c 0 b r Hbuf Hops Hfi Hrd)
    as (start & tr & pos & Hpos & Hst & Hcur & _ & _ & _ & Hlow & _).
  apply step_ok_behind; [done|]. exists lo, pos. rewrite Hcur. split_conj; try (done || lia).
  eapply chain_gap; [done|lia|]. intros x ->. destruct Hat as [-> |(y & [= <-] & -> & Hy)]; [right; eauto|left].
  specialize (Hlow x). unfold cursor_pos in Hlow. rewrite parse_cursor_text, decide_True in Hlow by (done || lia).
  specialize (Hlow eq_refl). lia.
Qed.

(** A step within the tail, to a position the queue is still complete from. *)
Lemma step_ok_tail t' l' b b' :
  tail_pos t = Some b -> tail_pos t' = Some b' -> 0 <= b' <= len ->
  gapless b' (accounted t') -> top b (accounted t) <= top b' (accounted t') ->
  phase_ok h t' l' -> step_ok t' l'.
Proof.
  intros E E' Hb' Hg Htop Hp. split.
  - split; [done|]. intros b0. rewrite E'. by intros [= <-].
  - intros v Hv Hr b0. rewrite E'. intros [= <-]. specialize (Hr b E). lia.
Qed.

(** A step that leaves the task behind, or for good. *)
Lemma step_ok_leave t' l' : tail_pos t' = None -> phase_ok h t' l' -> step_ok t' l'.
Proof. intros E Hp. destruct (not_tail h t' l' E Hp). split; auto. Qed.

Lemma with_cursor_live n seq ev cur :
  em_name ev = n -> with_cursor (live_occurrence rnd seq ev) cur = with_cursor (poll_occurrence n (stored_of seq ev)) cur.
Proof. intros <-. reflexivity. Qed.

Lemma take_item_ok u x last uuid :
  tk_phase t = Running u (Holding x last) -> task_ok h t l ->
  step_ok (with_phase t (take_item s t u x last uuid)) l.
Proof.
  intros Et [Hp Hg]. unfold phase_ok in Hp. rewrite Et in Hp. destruct Hp as [Hch Hlast].
  assert (tail_pos t = Some last) as Etail by (unfold tail_pos; by rewrite Et).
  assert (accounted t = x :: tk_queue t) as Eacc by (unfold accounted; by rewrite Et).
  destruct (Hg _ Etail) as [_ Hgap]. rewrite Eacc in Hgap. simpl in Hgap. destruct Hgap as [Hx Hgap].
  assert (Hx' := Hitems). rewrite Eacc in Hx'. apply Forall_cons in Hx' as [Hxi _].
  assert (forall ph, tail_pos (with_phase t ph) = Some (Z.max last (item_seq x)) ->
    0 <= Z.max last (item_seq x) <= len -> accounted (with_phase t ph) = tk_queue t ->
    phase_ok h (with_phase t ph) l -> step_ok (with_phase t ph) l) as Hnext.
  { intros ph E Hb Ea Hp. eapply step_ok_tail; [exact Etail|exact E|done|by rewrite Ea| |done].
    rewrite Eacc, Ea. done. }
  unfold take_item. destruct (item_seq x <=? last) eqn:Es; bsimp.
  { apply Hnext; rewrite ?Z.max_l by lia; try done. }
  destruct x as [seq o|seq c]; simpl in *.
  - destruct Hxi as (ev & Hn & -> & Hseq & Hh). simpl. assert (seq = last + 1) as -> by lia.
    replace (last + 1 - 1) with last in Hh by lia.
    pose proof (passing_next (params_opt t) (a_filters s0 !! name (tk_key t)) _ _ _
      (history_consecutive _ _) Hh ltac:(lia)) as Hpass.
    apply lookup_lt_Some in Hh. unfold passes in Hpass. simpl in Hpass. rewrite Hfi.
    destruct (match params_opt t with Some _ => match a_filters s0 !! _ with Some f => negb _ | None => _ end | None => _ end) eqn:Ef;
      (apply Hnext; [by rewrite Z.max_r by (simpl; lia)|simpl; lia|done|]).
    + exists (last + 1). split_conj; try (done || lia). eapply chain_skip; [exact Hch|lia|lia|].
      etrans; [exact Hpass|]. destruct (params_opt t); [|done]. destruct (a_filters s0 !! _); [|done].
      apply negb_true_iff in Ef. by rewrite Ef.
    + exists (Some last), (last + 1). split_conj; try (done || lia).
      rewrite (with_cursor_live _ _ _ _ Hn). eapply chain_event; [exact Hch|lia|lia|].
      etrans; [exact Hpass|]. destruct (params_opt t); [|done]. destruct (a_filters s0 !! _); [|done].
      apply negb_false_iff in Ef. by rewrite Ef.
  - destruct Hxi as [-> Hb]. apply Hnext; [by rewrite Z.max_r by (simpl; lia)|simpl; lia|done|].
    exists (Some last), seq. split_conj; try (done || lia).
    eapply chain_gap; [exact Hch|lia|]. intros ? [= <-]. left. lia.
Qed.

Lemma deliver_turn_ok u b call c x d i t' s' evs :
  tk_phase t = Running u (Delivering b call c x d) -> task_ok h t l ->
  deliver_turn s t u b call c x d i = Some (t', s', evs) -> step_ok t' (l ++ account evs).
Proof.
  intros Et [Hp Hg]. unfold phase_ok in Hp. rewrite Et in Hp. destruct Hp as (lo & pos & H1 & H2 & Hc & Hpos & Hx).
  assert (accounted t = tk_queue t) as Eacc by (unfold accounted; by rewrite Et).
  assert (forall ph l', tail_pos (with_phase t ph) = tail_pos t -> accounted (with_phase t ph) = tk_queue t ->
    phase_ok h (with_phase t ph) l' -> step_ok (with_phase t ph) l') as Hsame.
  { intros ph l' E Ea Hp. split.
    - split; [done|]. rewrite E, Ea, <- Eacc. apply Hg.
    - intros v _ Hr b0. rewrite E, Ea, <- Eacc. apply Hr. }
  unfold deliver_turn. intros ([[d' s1] e] & _ & H)%bind_Some.
  destruct (dl_phase d') as [|secret|[[]|]]; injection H as <- <- <-;
    rewrite ?account_app, account_attempted, ?app_nil_r, ?app_nil_l.
  - apply Hsame; [unfold tail_pos; by rewrite Et|done|]. by exists lo, pos.
  - apply Hsame; [unfold tail_pos; by rewrite Et|done|]. by exists lo, pos.
  - apply Hsame; [unfold tail_pos; by rewrite Et|done|]. by exists pos.
  - apply step_ok_leave; [done|]. right. by exists lo.
Qed.

(** A task opens. *)
Lemma open_ok ph e :
  tk_phase t = Starting -> task_ok h t l -> task_open s t = (ph, e) -> step_ok (with_phase t ph) (l ++ account e).
Proof.
  intros Et [Hp _] Eo. unfold phase_ok in Hp. rewrite Et in Hp. subst l. unfold task_open in Eo.
  assert (ph = Exited /\ e = [] \/ (exists u, ph = Running u Positioning /\ e = []) \/
    exists u c, ph = Running u (Backfilling c) /\ e = [Opened c]) as Hph.
  { destruct (url_parse _) as [u|]; [|by injection Eo as <- <-; left].
    destruct (get _ _) as [sub|]; [|by injection Eo as <- <-; left].
    destruct (ws_cursor sub) as [c|]; injection Eo as <- <-; right; [right|left]; eauto. }
  destruct Hph as [[-> ->]|[(u & -> & ->)|(u & c & -> & ->)]]; (apply step_ok_leave; [done|]).
  - by left.
  - done.
  - eexists. split; [apply chain_open|by left].
Qed.

(** The tail has the queue to serve after a recorded delivery or a new item. *)
Lemma tail_gapless r last :
  tk_phase t = Running r (Receiving last) \/ (exists c, tk_phase t = Running r (Recording c (ToTail last))) -> task_ok h t l ->
  tail_pos t = Some last /\ accounted t = tk_queue t /\ gapless last (tk_queue t).
Proof.
  intros Et [_ Hg]. assert (tail_pos t = Some last) as Etail by (unfold tail_pos; by destruct Et as [->|[c ->]]).
  assert (accounted t = tk_queue t) as Eacc by (unfold accounted; by destruct Et as [->|[c ->]]).
  destruct (Hg _ Etail) as [_ Hgap]. by rewrite Eacc in Hgap.
Qed.

(** The watermark is recorded. *)
Lemma record_ok u c nx :
  tk_phase t = Running u (Recording c nx) -> task_ok h t l ->
  step_ok (with_phase t (Running u match nx with ToBackfill => Backfilling c | ToTail last_done => Receiving last_done end))
    (l ++ account [Recorded c]).
Proof.
  intros Et Hok. pose proof Hok as [Hp _]. unfold phase_ok in Hp. rewrite Et in Hp.
  destruct Hp as (pos & Hch & -> & Hpos & Hx). pose proof (chain_record _ _ _ _ _ _ _ Hch) as Hrec.
  destruct nx as [|last]; simpl in Hx.
  - apply step_ok_leave; [done|]. exists (Some pos). split; [done|]. right. by exists pos.
  - subst last. destruct (tail_gapless u pos) as (Etail & Eacc & Hgap); [right; eauto|done|].
    eapply step_ok_tail; [exact Etail|done|done|exact Hgap|by rewrite Eacc|by split].
Qed.

(** The next item is received, or the channel is closed. *)
Lemma receive_ok u last sender t' s' evs :
  tk_phase t = Running u (Receiving last) -> task_ok h t l ->
  match tk_queue t with
  | item :: q => Some (with_phase (with_queue t q) (Running u (Holding item last)), s, [])
  | [] => if sender : bool then None else Some (with_phase t Exited, s, [])
  end = Some (t', s', evs) -> step_ok t' (l ++ account evs).
Proof.
  intros Et Hok Hst. pose proof Hok as [Hp _]. unfold phase_ok in Hp. rewrite Et in Hp. destruct Hp as [Hch Hlast].
  destruct (tail_gapless u last) as (Etail & Eacc & Hgap); [by left|done|].
  destruct (tk_queue t) as [|x q] eqn:Eq.
  - destruct sender; [done|]. injection Hst as <- <- <-. rewrite app_nil_r. apply step_ok_leave; [done|]. right. eauto.
  - injection Hst as <- <- <-. rewrite app_nil_r. eapply step_ok_tail; [exact Etail|done|done|exact Hgap|by rewrite Eacc|by split].
Qed.

Lemma task_step_exact sender i t' s' evs :
  task_ok h t l -> task_step s sender t i = Some (t', s', evs) -> step_ok t' (l ++ account evs).
Proof.
  intros Hok Hst. unfold task_step in Hst.
  destruct (tk_phase t) as [|u [|c|c|b call c x d|c x|last|x last]|] eqn:Et; destruct i as [now uuid|w at_]; try done.
  - destruct (task_open s t) as [ph e] eqn:Eo. injection Hst as <- <- <-. by apply open_ok.
  - destruct Hok as [Hp _]. unfold phase_ok in Hp. rewrite Et in Hp. subst l.
    injection Hst as <- <- <-. apply step_ok_leave; [done|]. eexists. split; [apply chain_open|by left].
  - destruct (backfill_read s t now c 1) as [b r] eqn:Er. injection Hst as <- <- <-. rewrite app_nil_r. by eapply backfill_turn_ok.
  - destruct (backfill_read s t now c 0) as [b r] eqn:Er. injection Hst as <- <- <-. rewrite app_nil_r. by eapply reset_ok.
  - by eapply deliver_turn_ok.
  - by eapply deliver_turn_ok.
  - injection Hst as <- <- <-. by apply record_ok.
  - by eapply receive_ok.
  - destruct (get _ _) eqn:Eg; injection Hst as <- <- <-; rewrite app_nil_r; [by eapply take_item_ok|].
    destruct Hok as [Hp _]. unfold phase_ok in Hp. rewrite Et in Hp. apply step_ok_leave; [done|].
    right. exists (Some last). apply Hp.
Qed.
End step.
End task.

(** A property of every state a run visits. *)
Fixpoint throughout (P : WorkerState -> Prop) (w : WorkerState) (l : list WorkerInput) : Prop :=
  P w /\ match l with
         | [] => True
         | x :: l' => match worker_step w x with Some (w', _) => throughout P w' l' | None => True end
         end.

(** The subscription exists and its endpoint is verified. *)
Definition present (key : SubKey) (w : WorkerState) : Prop :=
  exists sub, get (a_subs (w_app w)) key = Some sub /\ ws_key sub = key /\ ws_verified sub = true.

Definition log_of (i : nat) (evs : list (nat * TaskEvent)) : list TaskEvent :=
  account (omap (fun x => if decide (x.1 = i) then Some x.2 else None) evs).

(** ** The whole worker, seen from one subscription *)
Section system.
Context (bc : BufferConfig) (rnd : Z) (keys : list SubKey) (s0 : AppState).
Context (Hmax : 0 <= max_events_per_type bc) (Hrnd0 : 0 <= rnd) (Hrnd1 : rnd <= u64_max).
Context (Hkeys : no_collision keys).
Context (key : SubKey) (n0 : nat).
#[local] Abbreviation id := (derive_sub_id key).
#[local] Abbreviation base ops w := (base_inv bc rnd keys s0 ops w).

(** Everything up to [v] was given to channel [j]. *)
Definition covers (w : WorkerState) (j : nat) (v : Z) : Prop :=
  (n0 <= j)%nat -> forall t, w_tasks w !! j = Some t -> tk_sub_id t = id -> reaches t v.

Definition registered (w : WorkerState) (v : Z) : Prop :=
  forall hd, w_handles w !! id = Some hd -> covers w (h_tx hd) v.

Definition registered_but (w : WorkerState) (tx : nat) (v : Z) : Prop :=
  forall hd, w_handles w !! id = Some hd -> h_tx hd <> tx -> covers w (h_tx hd) v.

(** The position before the item in hand (nothing is asked before a gap). *)
Definition before (item : QueueItem) : Z := match item with QEvent s _ => s - 1 | QGap _ _ => 0 end.

Definition waiting (todo : list WebhookSub) : Prop :=
  Exists (fun sub => ws_id sub = id /\ ws_verified sub = true) todo.

Definition loop_covers (w : WorkerState) (g : Fan) (item : QueueItem) (todo : list WebhookSub) : Prop :=
  id ∉ fn_pending g ->
  registered w (before item) /\ (~ waiting todo -> registered w (Z.of_nat (fn_rx g))).

Definition fan_covers (w : WorkerState) (g : Fan) : Prop :=
  let rx := Z.of_nat (fn_rx g) in
  match fn_phase g with
  | FanStarting => False
  | FanReceiving | FanReturned => id ∉ fn_pending g -> registered w rx
  | FanListing item => id ∉ fn_pending g -> registered w (before item)
  | FanLoop item todo => loop_covers w g item todo
  | FanChoosing item sub tx todo =>
      if decide (ws_id sub = id) then
        registered_but w tx rx /\ (id ∉ fn_pending g -> covers w tx (before item))
      else loop_covers w g item todo
  | FanSending item sub tx _ owed _ todo =>
      if decide (ws_id sub = id) then
        registered_but w tx rx /\ (owed = false -> covers w tx (before item))
      else loop_covers w g item todo
  | FanClosed item sub _ _ todo | FanReensuring item sub _ _ todo =>
      if decide (ws_id sub = id) then registered w rx else loop_covers w g item todo
  end.

(** ** What can change *)
Lemma reaches_le t v v' : v <= v' -> reaches t v' -> reaches t v.
Proof. intros Hv H b Hb. specialize (H b Hb). lia. Qed.

Lemma covers_le w j v v' : v <= v' -> covers w j v' -> covers w j v.
Proof. intros Hv H Hj t Ht Hid. eapply reaches_le; [exact Hv|by apply H]. Qed.

Lemma registered_le w v v' : v <= v' -> registered w v' -> registered w v.
Proof. intros Hv H hd Hh. eapply covers_le; [exact Hv|by apply H]. Qed.

Lemma before_le ops g item : fan_item rnd ops g item -> before item <= Z.of_nat (fn_rx g).
Proof. intros [_ H]. destruct item; simpl in *; lia. Qed.

(** Channels keep what they were given; a new one is given all by its
    backfill. *)
Definition keeps (len : Z) (w w' : WorkerState) : Prop :=
  (forall hd, w_handles w' !! id = Some hd ->
     w_handles w !! id = Some hd \/ forall v, covers w' (h_tx hd) v) /\
  (forall j v, v <= len -> covers w j v -> covers w' j v).

Lemma keeps_registered len w w' v : v <= len -> keeps len w w' -> registered w v -> registered w' v.
Proof. intros Hv [H1 H2] H hd Hh. destruct (H1 _ Hh) as [Ho|Hn]; [|done]. apply H2; [done|]. by apply H. Qed.

Lemma keeps_registered_but len w w' tx v :
  v <= len -> keeps len w w' -> registered_but w tx v -> registered_but w' tx v.
Proof. intros Hv [H1 H2] H hd Hh Hne. destruct (H1 _ Hh) as [Ho|Hn]; [|done]. apply H2; [done|]. by apply H. Qed.

Lemma keeps_refl len w w' : w_handles w' = w_handles w -> w_tasks w' = w_tasks w -> keeps len w w'.
Proof. intros Eh Et. split; [rewrite Eh; by left|]. intros j v _. unfold covers. by rewrite Et. Qed.

Lemma loop_keeps len w w' g item todo :
  before item <= Z.of_nat (fn_rx g) -> Z.of_nat (fn_rx g) <= len -> keeps len w w' ->
  loop_covers w g item todo -> loop_covers w' g item todo.
Proof.
  intros Hb Hrx Hk H Hp. destruct (H Hp) as [H1 H2].
  split; [|intros Hw; specialize (H2 Hw)];
    (eapply (keeps_registered len); [lia|exact Hk|done]).
Qed.

Lemma fan_keeps ops w w' g st tasks :
  fan_wf rnd keys ops st tasks g -> keeps (Z.of_nat (length (history (fn_name g) ops))) w w' ->
  fan_covers w g -> fan_covers w' g.
Proof.
  intros [Hrx Hph] Hk. set (len := Z.of_nat _) in *. assert (Z.of_nat (fn_rx g) <= len) as Hl by lia.
  pose proof (fun v Hv => keeps_registered len w w' v Hv Hk) as Hr.
  pose proof (fun tx v Hv => keeps_registered_but len w w' tx v Hv Hk) as Hb.
  pose proof (fun item todo Hi => loop_keeps len w w' g item todo Hi Hl Hk) as Hloop.
  pose proof (before_le ops g) as Hle. destruct Hk as [_ Hc]. unfold fan_covers, fan_phase_wf in *.
  destruct (fn_phase g) as [| |item|item todo|item sub tx todo|item sub tx q owed retry todo
    |item sub q owed todo|item sub q owed todo|]; try done; try (specialize (Hle item)).
  - intros H Hp. apply Hr; auto.
  - intros H Hp. specialize (Hle Hph). apply Hr; [lia|auto].
  - destruct Hph as [Hi _]. specialize (Hle Hi). by apply Hloop.
  - destruct Hph as [Hi _]. specialize (Hle Hi). destruct (decide (ws_id sub = id)); [|by apply Hloop].
    intros [H1 H2]. split; [by apply Hb|]. intros Hp. apply Hc; [lia|auto].
  - destruct Hph as [Hi _]. specialize (Hle Hi). destruct (decide (ws_id sub = id)); [|by apply Hloop].
    intros [H1 H2]. split; [by apply Hb|]. intros Hp. apply Hc; [lia|auto].
  - destruct Hph as [Hi _]. specialize (Hle Hi). destruct (decide (ws_id sub = id)); [|by apply Hloop].
    by apply Hr.
  - destruct Hph as [Hi _]. specialize (Hle Hi). destruct (decide (ws_id sub = id)); [|by apply Hloop].
    by apply Hr.
  - intros H Hp. apply Hr; auto.
Qed.

(** ** Effects of the shared operations *)
Lemma ensure_effect w sub w1 tx :
  ensure_task w sub = (w1, tx) ->
  w_app w1 = w_app w /\ w_fans w1 = w_fans w /\
  (exists hd, w_handles w1 !! ws_id sub = Some hd /\ h_tx hd = tx) /\
  (forall id', id' <> ws_id sub -> w_handles w1 !! id' = w_handles w !! id') /\
  (w1 = w \/ w_tasks w1 = w_tasks w ++ [new_task sub] /\ tx = length (w_tasks w)).
Proof.
  assert (spawn_task w sub = (w1, tx) -> w_app w1 = w_app w /\ w_fans w1 = w_fans w /\
    (exists hd, w_handles w1 !! ws_id sub = Some hd /\ h_tx hd = tx) /\
    (forall id', id' <> ws_id sub -> w_handles w1 !! id' = w_handles w !! id') /\
    (w1 = w \/ w_tasks w1 = w_tasks w ++ [new_task sub] /\ tx = length (w_tasks w))) as Hspawn.
  { intros [= <- <-]. simpl. split_conj; try done.
    - eexists. by rewrite lookup_insert_eq.
    - intros id' Hne. by rewrite lookup_insert_ne.
    - by right. }
  unfold ensure_task. destruct (w_handles w !! ws_id sub) as [hd|] eqn:Hh; [|done].
  destruct (negb _); [|done]. intros [= <- <-]. split_conj; try done; [by exists hd|by left].
Qed.

(** A task that has not started is given all by its backfill. *)
Lemma covers_fresh w j t v : w_tasks w !! j = Some t -> tail_pos t = None -> covers w j v.
Proof. intros Ht Hn _ t' Ht' _ b Hb. assert (t' = t) as -> by congruence. by rewrite Hn in Hb. Qed.

Lemma covers_same w w' j v : w_tasks w' !! j = w_tasks w !! j -> covers w j v -> covers w' j v.
Proof. unfold covers. by intros ->. Qed.

Lemma snoc_covers w w' sub j v :
  w_tasks w' = w_tasks w ++ [new_task sub] -> covers w j v -> covers w' j v.
Proof.
  intros E H. destruct (decide (j = length (w_tasks w))) as [-> |Hne].
  - eapply covers_fresh; [rewrite E; by apply list_lookup_middle|done].
  - apply (covers_same w); [|done]. rewrite E. destruct (decide (j < length (w_tasks w))%nat).
    + by apply lookup_app_l.
    + rewrite !lookup_ge_None_2; [done|lia|rewrite length_app; simpl; lia].
Qed.

Lemma ensure_keeps len w sub w1 tx : ensure_task w sub = (w1, tx) -> keeps len w w1.
Proof.
  intros He. apply ensure_effect in He as (_ & _ & (hd0 & Hh & Hx) & Hne & [-> |[Et ->]]); [by apply keeps_refl|].
  split.
  - intros hd Hd. destruct (decide (id = ws_id sub)) as [E|E].
    + right. intros v. assert (hd = hd0) as -> by congruence. rewrite Hx.
      eapply covers_fresh; [rewrite Et; by apply list_lookup_middle|done].
    + left. by rewrite <- Hne.
  - intros j v _. by apply snoc_covers with sub.
Qed.

Lemma remove_keeps len w id' : keeps len w (tasks_remove w id').
Proof. split; [|done]. intros hd Hd. simpl in Hd. apply lookup_delete_Some in Hd as [_ ?]. by left. Qed.

(** ** The tasks *)
Definition tasks_inv ops (w : WorkerState) (evs : list (nat * TaskEvent)) : Prop :=
  (forall i t, (n0 <= i)%nat -> w_tasks w !! i = Some t -> tk_sub_id t = id ->
     task_ok rnd s0 (history (name (tk_key t)) ops) t (log_of i evs)) /\
  (forall i, (length (w_tasks w) <= i)%nat -> log_of i evs = []).

Definition fans_inv (w : WorkerState) : Prop :=
  forall j g, w_fans w !! j = Some g -> fn_name g = name key -> fan_covers w g.

Lemma tasks_inv_same ops w w' evs : w_tasks w' = w_tasks w -> tasks_inv ops w evs -> tasks_inv ops w' evs.
Proof. unfold tasks_inv. by intros ->. Qed.

Lemma new_task_ok h sub : task_ok rnd s0 h (new_task sub) [].
Proof. by split. Qed.

Lemma tasks_inv_ensure ops w sub w1 tx evs :
  ensure_task w sub = (w1, tx) -> tasks_inv ops w evs -> tasks_inv ops w1 evs.
Proof.
  intros He [H1 H2]. apply ensure_effect in He as (_ & _ & _ & _ & [-> |[Et _]]); [done|]. split; rewrite Et.
  - intros i t Hi [Ht|[Hlt Ht]]%lookup_app_Some Hid; [by apply H1|].
    apply list_lookup_singleton_Some in Ht as [_ <-]. rewrite H2 by done. apply new_task_ok.
  - intros i Hi. rewrite length_app in Hi. apply H2. lia.
Qed.

Lemma log_of_app i l k : log_of i (l ++ k) = log_of i l ++ log_of i k.
Proof. unfold log_of. by rewrite omap_app, account_app. Qed.

Lemma log_of_one i j evs : log_of i ((fun e => (j, e)) <$> evs) = if decide (j = i) then account evs else [].
Proof.
  unfold log_of. case_decide as E.
  - f_equal. induction evs as [|e evs IH]; [done|]. csimpl. by rewrite decide_True, IH.
  - induction evs as [|e evs IH]; [done|]. csimpl. by rewrite decide_False, IH.
Qed.

(** A push onto a channel that has what comes before it. *)
Lemma push_ok h t l q :
  task_ok rnd s0 h t l ->
  match q with QEvent s _ => reaches t (s - 1) | QGap _ _ => True end ->
  task_ok rnd s0 h (with_queue t (tk_queue t ++ [q])) l.
Proof.
  intros [Hp Hg] Hq. split; [exact Hp|]. intros b Hb. change (tail_pos t = Some b) in Hb.
  destruct (Hg b Hb) as [Hb1 Hg1]. split; [done|].
  assert (accounted (with_queue t (tk_queue t ++ [q])) = accounted t ++ [q]) as E.
  { unfold accounted. simpl. by destruct (tk_phase t) as [|? []|]. }
  rewrite E, gapless_snoc. split; [done|]. destruct q as [s o|]; [|done]. specialize (Hq b Hb). lia.
Qed.

Lemma push_reaches t q v : reaches t v \/ v <= item_seq q -> reaches (with_queue t (tk_queue t ++ [q])) v.
Proof.
  intros H b Hb. change (tail_pos t = Some b) in Hb.
  assert (accounted (with_queue t (tk_queue t ++ [q])) = accounted t ++ [q]) as E.
  { unfold accounted. simpl. by destruct (tk_phase t) as [|? []|]. }
  rewrite E, top_snoc. destruct H as [H|?]; [specialize (H b Hb)|]; lia.
Qed.

(** What a [try_send] does. *)
Lemma try_send_effect w tx q w1 res :
  try_send w tx q = (w1, res) ->
  w_app w1 = w_app w /\ w_fans w1 = w_fans w /\ w_handles w1 = w_handles w /\
  match res with
  | SendOk => exists t, w_tasks w !! tx = Some t /\
      w_tasks w1 = <[tx := with_queue t (tk_queue t ++ [q])]> (w_tasks w)
  | SendFull => w1 = w
  | SendClosed => w1 = w /\ forall t, w_tasks w !! tx = Some t -> tk_phase t = Exited
  end.
Proof.
  unfold try_send. destruct (w_tasks w !! tx) as [t|]; [|by intros [= <- <-]].
  unfold exited. destruct (tk_phase t) eqn:Et; [..|intros [= <- <-]; split_conj; try done; congruence];
    (destruct (_ <=? _); intros [= <- <-]; split_conj; try done; by exists t).
Qed.

Lemma push_keeps len w w1 tx t q :
  w_tasks w !! tx = Some t -> w_handles w1 = w_handles w ->
  w_tasks w1 = <[tx := with_queue t (tk_queue t ++ [q])]> (w_tasks w) -> keeps len w w1.
Proof.
  intros Ht Eh Et. split; [rewrite Eh; by left|]. intros j v _ H Hj t' Ht' Hid. rewrite Et in Ht'.
  apply list_lookup_insert_Some in Ht' as [(<- & <- & _)|[_ Ht']]; [|by apply H].
  apply push_reaches. left. by apply H.
Qed.

(** ** The fan-outs *)
Section step.
Context (ops : list BufOp) (w : WorkerState) (evs : list (nat * TaskEvent)).
Context (Hops : Z.of_nat (length ops) < u64_max) (Hb : base ops w).
Context (Ht : tasks_inv ops w evs) (Hf : fans_inv w).
#[local] Abbreviation len := (Z.of_nat (length (history (name key) ops))).

Lemma fans_inv_set w1 j g' :
  w_fans w1 = w_fans w -> keeps len w w1 -> (fn_name g' = name key -> fan_covers w1 g') ->
  fans_inv (with_fan w1 j g').
Proof.
  intros Ef Hk Hg i g. simpl. rewrite Ef. intros [(_ & <- & _)|[_ Hi]]%list_lookup_insert_Some Hn; [by apply Hg|].
  eapply (fan_keeps ops w _ g); [by eapply bi_fans|by rewrite Hn|by eapply Hf].
Qed.

Lemma fans_inv_keeps w1 : w_fans w1 = w_fans w -> keeps len w w1 -> fans_inv w1.
Proof.
  intros Ef Hk i g. rewrite Ef. intros Hi Hn.
  eapply (fan_keeps ops w _ g); [by eapply bi_fans|by rewrite Hn|by eapply Hf].
Qed.

(** Nothing is asked of a channel before the first position. *)
Lemma registered_zero : registered w 0.
Proof.
  intros hd _ Hj t Ht' Hid b Htail. destruct Ht as [H1 _].
  destruct (H1 _ _ Hj Ht' Hid) as [_ Hg]. destruct (Hg b Htail) as [[? _] _].
  pose proof (top_ge b (accounted t)). lia.
Qed.

Lemma recv_covers g r g' :
  fan_wf rnd keys ops (a_subs (w_app w)) (w_tasks w) g -> fn_phase g = FanReceiving ->
  fan_covers w g -> fan_recv w g r = Some g' -> fan_covers w g'.
Proof.
  intros [Hrx _] Eph Hg Hr. unfold fan_covers in Hg. rewrite Eph in Hg. unfold fan_recv in Hr. destruct r as [|k|].
  - destruct (tx _ !! fn_rx g) as [le|] eqn:Hle; [|done]. injection Hr as <-. simpl.
    destruct (log_lookup _ _ _ _ _ _ _ (bi_buffer _ _ _ _ _ _ Hb) Hle) as (ev & _ & Hs & _).
    unfold fan_covers. simpl. intros Hp. eapply registered_le; [|exact (Hg Hp)]. lia.
  - case_bool_decide; [|done]. injection Hr as <-. intros _. apply registered_zero.
  - case_bool_decide; [|done]. by injection Hr as <-.
Qed.


(** What an enqueue leaves: the subscription got the item, or is owed a gap. *)
Lemma enqueued_covers g item sub tx q owed todo w1 retry (ok : bool) :
  fan_wf rnd keys ops (a_subs (w_app w)) (w_tasks w) g ->
  fn_phase g = FanSending item sub tx q owed retry todo -> fan_covers w g ->
  w_handles w1 = w_handles w ->
  (if ok then exists t, w_tasks w !! tx = Some t /\ w_tasks w1 = <[tx := with_queue t (tk_queue t ++ [q])]> (w_tasks w)
   else w_tasks w1 = w_tasks w) ->
  fn_name g = name key ->
  fan_covers w1 (fan_pend g (enqueued g sub owed ok) (FanLoop item todo)).
Proof.
  intros [Hrx Hph] Eph Hg Eh Et Hn. unfold fan_covers in *. unfold fan_phase_wf in Hph. rewrite Eph in Hg, Hph.
  destruct Hph as (Hi & _ & _ & _ & Hq). pose proof (before_le _ _ _ Hi) as Hle. simpl.
  pose proof (fan_queued_item _ _ _ _ _ _ _ Hi Hq) as [_ Hqi]. destruct Hq as [Hp _].
  assert (keeps len w w1) as Hk.
  { destruct ok; [destruct Et as (t & Ht1 & Et); by eapply push_keeps|by apply keeps_refl]. }
  rewrite Hn in Hrx. destruct (decide (ws_id sub = id)) as [E|E].
  - destruct Hg as [H1 H2]. unfold loop_covers, enqueued. simpl. rewrite E in *.
    destruct ok.
    + destruct Et as (t & Ht1 & Et). intros _.
      assert (registered w1 (Z.of_nat (fn_rx g))) as Hreg; [|split; [by eapply registered_le|done]].
      intros hd Hd. rewrite Eh in Hd. destruct (decide (h_tx hd = tx)) as [<-|Hne].
      * intros _ t' Ht' _. rewrite Et in Ht'.
        rewrite list_lookup_insert_eq in Ht' by by eapply lookup_lt_Some. injection Ht' as <-.
        apply push_reaches. right.
        destruct q; simpl in *; lia.
      * destruct Hk as [_ Hc]. apply Hc; [lia|]. by apply H1.
    + destruct owed; intros Hnp; exfalso; apply Hnp; [|set_solver].
      symmetry in Hp. by apply bool_decide_eq_true in Hp.
  - apply (loop_keeps len w); [exact Hle|simpl; lia|exact Hk|].
    unfold loop_covers, enqueued in *. simpl. intros Hnp. apply Hg. destruct owed, ok; set_solver.
Qed.

(** The registered channel of a subscription that was just ensured. *)
Lemma ensured_but w1 sub tx v : ensure_task w sub = (w1, tx) -> ws_id sub = id -> registered_but w1 tx v.
Proof.
  intros He E hd Hd Hne. apply ensure_effect in He as (_ & _ & (hd0 & Hh & Hx) & _).
  rewrite E in Hh. congruence.
Qed.

Lemma ensured_covers w1 sub tx v :
  ensure_task w sub = (w1, tx) -> ws_id sub = id -> v <= len -> registered w v -> covers w1 tx v.
Proof.
  intros He E Hv Hr. pose proof (keeps_registered _ _ _ _ Hv (ensure_keeps len _ _ _ _ He) Hr) as Hr1.
  apply ensure_effect in He as (_ & _ & (hd & Hh & <-) & _). apply Hr1. by rewrite <- E.
Qed.

(** The subscriptions still to serve. *)
Lemma loop_next w1 g g' item sub todo :
  before item <= Z.of_nat (fn_rx g) -> Z.of_nat (fn_rx g) <= len -> keeps len w w1 ->
  fn_rx g' = fn_rx g -> ((id ∉ fn_pending g') -> (id ∉ fn_pending g) /\ (ws_id sub <> id \/ ws_verified sub = false)) ->
  loop_covers w g item (sub :: todo) -> loop_covers w1 g' item todo.
Proof.
  intros Hle Hrx Hk Er Hp H. apply (loop_keeps len w); rewrite ?Er; try done. intros Hnp.
  destruct (Hp Hnp) as [Hg Hs]. destruct (H Hg) as [H1 H2]. rewrite Er. split; [done|]. intros Hw. apply H2.
  intros [[? Hv]|?]%Exists_cons; [|done]. destruct Hs; [done|congruence].
Qed.

(** The item is in hand for the subscription: the loop has come to it. *)
Lemma choose_covers g item sub todo w1 tx :
  fan_wf rnd keys ops (a_subs (w_app w)) (w_tasks w) g -> fn_phase g = FanLoop item (sub :: todo) ->
  fn_name g = name key -> fan_covers w g -> ensure_task w sub = (w1, tx) ->
  fan_covers w1 (fan_to g (FanChoosing item sub tx todo)).
Proof.
  intros [Hrx Hph] Eph Hn Hg He. unfold fan_covers, fan_phase_wf in *. rewrite Eph in Hg, Hph. simpl.
  destruct Hph as [Hi _]. pose proof (before_le _ _ _ Hi) as Hle. rewrite Hn in Hrx.
  destruct (decide (ws_id sub = id)) as [E|E].
  - split; [by eapply ensured_but|]. intros Hp. eapply ensured_covers; [done|done|lia|by apply Hg].
  - eapply loop_next; [exact Hle|lia|by eapply ensure_keeps|done| |exact Hg]. auto.
Qed.

Lemma resend_covers g item sub q owed todo w1 tx :
  fan_wf rnd keys ops (a_subs (w_app w)) (w_tasks w) g -> fn_phase g = FanReensuring item sub q owed todo ->
  fn_name g = name key -> fan_covers w g -> ensure_task w sub = (w1, tx) ->
  fan_covers w1 (fan_to g (FanSending item sub tx q owed true todo)).
Proof.
  intros [Hrx Hph] Eph Hn Hg He. unfold fan_covers, fan_phase_wf in *. rewrite Eph in Hg, Hph. simpl.
  destruct Hph as [Hi _]. pose proof (before_le _ _ _ Hi) as Hle. rewrite Hn in Hrx.
  destruct (decide (ws_id sub = id)) as [E|E].
  - split; [by eapply ensured_but|]. intros _.
    eapply ensured_covers; [done|done|lia|]. by eapply registered_le.
  - apply (loop_keeps len w); [done|simpl; lia|by eapply ensure_keeps|exact Hg].
Qed.

(** The channel the item was for has closed. *)
Lemma closed_covers g item sub tx q owed retry todo :
  fn_phase g = FanSending item sub tx q owed retry todo -> fan_covers w g ->
  (forall t, w_tasks w !! tx = Some t -> tk_phase t = Exited) ->
  fan_covers w (fan_to g (FanClosed item sub q owed todo)).
Proof.
  intros Eph Hg Hx. unfold fan_covers in *. rewrite Eph in Hg. simpl. destruct (decide _); [|exact Hg].
  destruct Hg as [H1 _]. intros hd Hd. destruct (decide (h_tx hd = tx)) as [<-|Hne]; [|by apply H1].
  intros _ t Ht' _ b Htail. unfold tail_pos in Htail. by rewrite (Hx _ Ht') in Htail.
Qed.

(** A new receiver's item is in hand: the subscription is among those to
    serve. *)
Lemma list_covers g item :
  key ∈ keys -> present key w -> fn_name g = name key -> fn_phase g = FanListing item -> fan_covers w g ->
  fan_covers w (fan_to g (FanLoop item (list_for_event (a_subs (w_app w)) (fn_name g)))).
Proof.
  intros _ (sub & Hs & Hk & Hv) Hn Eph Hg. unfold fan_covers in *. rewrite Eph in Hg. simpl. intros Hp.
  split; [by apply Hg|]. intros Hw. exfalso. apply Hw. apply Exists_exists. exists sub.
  destruct (so_id _ (bi_store _ _ _ _ _ _ Hb) _ _ Hs) as [Eid _]. split; [|done].
  apply list_elem_of_filter. split; [by rewrite Hk, Hn|]. apply elem_of_values. by eexists.
Qed.

(** A push onto the subscription's channel. *)
Lemma tasks_inv_push g item sub tx q owed retry todo t w1 :
  fan_wf rnd keys ops (a_subs (w_app w)) (w_tasks w) g ->
  fn_phase g = FanSending item sub tx q owed retry todo -> (fn_name g = name key -> fan_covers w g) ->
  key ∈ keys -> w_tasks w !! tx = Some t ->
  w_tasks w1 = <[tx := with_queue t (tk_queue t ++ [q])]> (w_tasks w) -> tasks_inv ops w1 evs.
Proof.
  intros [Hrx Hph] Eph Hg Hkey Hti Et. destruct Ht as [H1 H2]. unfold fan_phase_wf in Hph. rewrite Eph in Hph.
  destruct Hph as (Hi & [Hsub _]%Forall_cons & _ & (t0 & Ht0 & Hs0) & Hq). assert (t0 = t) as -> by congruence.
  split; rewrite Et; [|rewrite length_insert; exact H2].
  intros i t' Hin [(<- & <- & _)|[_ Hi']]%list_lookup_insert_Some Hid; [|by apply H1]. simpl in Hid.
  apply (push_ok (history (name (tk_key t)) ops)); [by apply H1|]. destruct q as [s o|]; [|done].
  destruct owed; [by destruct Hq as (_ & ? & ? & ? & _)|]. destruct Hq as [_ <-].
  assert (ws_id sub = id) as Eid by congruence. destruct Hsub as [(Esub & Hsk & _) Hsn].
  assert (ws_key sub = key) as Ek by (apply Hkeys; [done..|congruence]).
  specialize (Hg ltac:(congruence)). unfold fan_covers in Hg. rewrite Eph, decide_True in Hg by done.
  destruct Hg as [_ Hc]. by apply (Hc eq_refl Hin).
Qed.

(** A fan-out that goes on to [g'] in [w1]. *)
#[local] Abbreviation goes_on j w1 g' := ((tasks_inv ops (with_fan w1 j g') evs) /\ (fans_inv (with_fan w1 j g'))).

Lemma fan_goes_on j g w1 g' :
  w_fans w !! j = Some g -> w_fans w1 = w_fans w -> tasks_inv ops w1 evs -> keeps len w w1 -> fn_name g' = fn_name g ->
  (fn_name g = name key -> fan_covers w g -> fan_covers w1 g') -> goes_on j w1 g'.
Proof.
  intros Hj Ef Hti Hk En Hg. split; [by apply (tasks_inv_same ops w1)|].
  apply fans_inv_set; [done..|]. intros Hn. rewrite En in Hn. by apply Hg, (Hf _ _ Hj).
Qed.

Lemma fan_turns j g g' :
  w_fans w !! j = Some g -> fn_name g' = fn_name g -> (fn_name g = name key -> fan_covers w g -> fan_covers w g') ->
  goes_on j w g'.
Proof. intros Hj. apply (fan_goes_on j g); try done. by apply keeps_refl. Qed.

Lemma fan_ensures j g sub w1 tx g' :
  w_fans w !! j = Some g -> ensure_task w sub = (w1, tx) -> fn_name g' = fn_name g ->
  (fn_name g = name key -> fan_covers w g -> fan_covers w1 g') -> goes_on j w1 g'.
Proof.
  intros Hj He. apply (fan_goes_on j g); [done|by apply ensure_effect in He as (_ & ? & _)|by eapply tasks_inv_ensure|].
  by eapply ensure_keeps.
Qed.

(** The next subscription of the loop is not served. *)
Lemma fan_skips j g item sub todo g' :
  w_fans w !! j = Some g -> fn_phase g = FanLoop item (sub :: todo) ->
  fn_rx g' = fn_rx g -> fn_name g' = fn_name g -> fn_phase g' = FanLoop item todo ->
  ((id ∉ fn_pending g') -> (id ∉ fn_pending g) /\ (ws_id sub <> id \/ ws_verified sub = false)) -> goes_on j w g'.
Proof.
  intros Hj Eph Er En Eg Hp. pose proof (bi_fans _ _ _ _ _ _ Hb _ _ Hj) as [Hrx Hph]. unfold fan_phase_wf in Hph.
  rewrite Eph in Hph. destruct Hph as [Hi _]. pose proof (before_le _ _ _ Hi) as Hle.
  apply (fan_turns j g); [done..|]. unfold fan_covers. rewrite Eph, Eg. intros Hn Hg. rewrite Hn in Hrx.
  eapply loop_next; [exact Hle|lia|by apply keeps_refl|done|exact Hp|exact Hg].
Qed.

(** The item is sent, and the subscription noted as owed a gap or not. *)
Lemma fan_sends j g item sub tx q owed retry todo w1 (ok : bool) :
  key ∈ keys -> w_fans w !! j = Some g -> fn_phase g = FanSending item sub tx q owed retry todo ->
  w_fans w1 = w_fans w -> w_handles w1 = w_handles w ->
  (if ok then exists t, w_tasks w !! tx = Some t /\ w_tasks w1 = <[tx := with_queue t (tk_queue t ++ [q])]> (w_tasks w)
   else w_tasks w1 = w_tasks w) ->
  goes_on j w1 (fan_pend g (enqueued g sub owed ok) (FanLoop item todo)).
Proof.
  intros Hkey Hj Eph Ef Eh Hok. pose proof (bi_fans _ _ _ _ _ _ Hb _ _ Hj) as Hwf. apply (fan_goes_on j g); [done..| | |done|].
  - destruct ok; [|by apply (tasks_inv_same ops w)]. destruct Hok as (t & ? & ?). eapply tasks_inv_push; try done. exact (Hf _ _ Hj).
  - destruct ok; [destruct Hok as (t & ? & ?); by eapply push_keeps|by apply keeps_refl].
  - intros Hn Hg. pose proof Hwf as [Hrx _]. by eapply enqueued_covers.
Qed.

(** The channel was closed: its handle is dropped. *)
Lemma fan_drops j g item sub q owed todo :
  w_fans w !! j = Some g -> fn_phase g = FanClosed item sub q owed todo ->
  goes_on j (tasks_remove w (ws_id sub)) (fan_to g (FanReensuring item sub q owed todo)).
Proof.
  intros Hj Eph. pose proof (bi_fans _ _ _ _ _ _ Hb _ _ Hj) as [Hrx Hph]. unfold fan_phase_wf in Hph. rewrite Eph in Hph.
  destruct Hph as [Hi _]. pose proof (before_le _ _ _ Hi) as Hle.
  apply (fan_goes_on j g); [done|done|by apply (tasks_inv_same ops w)|apply remove_keeps|done|].
  unfold fan_covers. rewrite Eph. simpl. intros Hn. rewrite Hn in Hrx. destruct (decide _).
  - intros H1. apply (keeps_registered len w); [simpl; lia|apply remove_keeps|exact H1].
  - intros Hg. apply (loop_keeps len w); [done|simpl; lia|apply remove_keeps|exact Hg].
Qed.

Lemma fan_step_exact j r w' :
  key ∈ keys -> present key w -> fan_step w j r = Some w' -> tasks_inv ops w' evs /\ fans_inv w'.
Proof.
  intros Hkey Hpres Hst. unfold fan_step in Hst. destruct (w_fans w !! j) as [g|] eqn:Hj; [|done]. simpl in Hst.
  pose proof (bi_fans _ _ _ _ _ _ Hb _ _ Hj) as Hwf. pose proof Hwf as [Hrx Hph]. unfold fan_phase_wf in Hph.
  destruct (fn_phase g) as [| |item|item [|sub todo]|item sub tx todo
    |item sub tx q owed retry todo|item sub q owed todo|item sub q owed todo|] eqn:Eph; [..|done].
  - injection Hst as <-. apply (fan_goes_on j g); [done|done|by apply (tasks_inv_same ops w)|by apply keeps_refl|done|].
    unfold fan_covers. by rewrite Eph.
  - destruct (fan_recv w g r) as [g'|] eqn:Hr; [|done]. injection Hst as <-. assert (fn_name g' = fn_name g) as En.
    { unfold fan_recv in Hr. repeat case_match; by simplify_option_eq. }
    apply (fan_turns j g); [done..|]. intros _ Hg. by eapply recv_covers.
  - injection Hst as <-. apply (fan_turns j g); [done..|]. intros. by apply list_covers.
  - injection Hst as <-. apply (fan_turns j g); [done..|]. unfold fan_covers. rewrite Eph. intros _ Hg Hp. apply (Hg Hp).
    intros H. inversion H.
  - destruct (ws_verified sub) eqn:Hv; simpl in Hst; [|injection Hst as <-; by apply (fan_skips j g item sub todo); auto].
    destruct (ws_active sub); simpl in Hst; [|injection Hst as <-; apply (fan_skips j g item sub todo); try done; set_solver].
    destruct (ensure_task w sub) as [w1 tx] eqn:He. injection Hst as <-. eapply (fan_ensures j g); [done..|].
    intros. by eapply choose_covers.
  - case_bool_decide as Ep; injection Hst as <-; (apply (fan_turns j g); [done..|]); unfold fan_covers; rewrite Eph; simpl;
      intros _; (destruct (decide _) as [E|]; [|done]); intros [H1 H2]; rewrite E in *;
      (split; [done|]); [done|auto].
  - destruct (try_send w tx q) as [w1 res] eqn:Ets. apply try_send_effect in Ets as (_ & Ef & Eh & Hres).
    pose proof (fan_sends j g item sub tx q owed retry todo w1) as Hq.
    destruct res; [injection Hst as <-; by apply (Hq true)|injection Hst as <-; apply (Hq false); by rewrite ?Hres|].
    destruct Hres as [-> Hx]. destruct retry; injection Hst as <-; [by apply (Hq false)|].
    apply (fan_turns j g); [done..|]. intros. by eapply closed_covers.
  - injection Hst as <-. by apply fan_drops.
  - destruct (ensure_task w sub) as [w1 tx] eqn:He. injection Hst as <-. eapply (fan_ensures j g); [done..|].
    intros. by eapply resend_covers.
Qed.

(** ** The other steps *)
Lemma main_step_exact now : tasks_inv ops (main_step w now) evs /\ fans_inv (main_step w now).
Proof.
  assert (forall w1, w_fans w1 = w_fans w -> tasks_inv ops w1 evs -> keeps len w w1 ->
    tasks_inv ops w1 evs /\ fans_inv w1) as Hdone by (intros; split; [done|by apply fans_inv_keeps]).
  assert (forall w1, w_fans w1 = w_fans w -> w_tasks w1 = w_tasks w -> w_handles w1 = w_handles w ->
    tasks_inv ops w1 evs /\ fans_inv w1) as Hsame.
  { intros w1 Ef Et Eh. apply Hdone; [done|by apply (tasks_inv_same ops w)|by apply keeps_refl]. }
  assert (forall id' m, tasks_inv ops (with_main (tasks_remove w id') m) evs /\
    fans_inv (with_main (tasks_remove w id') m)) as Hrem.
  { intros id' m. apply Hdone; [done|by apply (tasks_inv_same ops w)|apply (remove_keeps len w id')]. }
  unfold main_step. destruct (w_main w) as [|[|sub l]|[|id' ids]|[|n names]|[|sub l] names]; try by apply Hsame.
  - destruct (expire_lapsed _ now). by apply Hsame.
  - apply Hrem.
  - destruct (match w_handles w !! id' with Some _ => _ | None => _ end); [by apply Hsame|apply Hrem].
  - destruct (ws_verified sub); [|by apply Hsame].
    destruct (ensure_task w sub) as [w1 tx] eqn:He. simpl.
    apply Hdone; [by apply ensure_effect in He as (_ & ? & _)|by eapply (tasks_inv_ensure ops w _ w1)|].
    exact (ensure_keeps len _ _ _ _ He).
Qed.

Lemma task_step_all i t ti t' s' e :
  key ∈ keys -> w_tasks w !! i = Some t -> task_step (w_app w) (has_sender w i) t ti = Some (t', s', e) ->
  let w' := with_tasks (with_app w s') (<[i := t']> (w_tasks w)) in
  tasks_inv ops w' (evs ++ ((fun x => (i, x)) <$> e)) /\ fans_inv w'.
Proof.
  intros Hkey Hi Hst w'. pose proof (bi_tasks _ _ _ _ _ _ Hb _ _ Hi) as [Hid Hkt _ _ Hit].
  pose proof (task_step_quiet _ _ _ _ _ _ _ Hst) as (_ & Ek & Ei & _).
  destruct Ht as [H1 H2]. assert (i < length (w_tasks w))%nat as Hlt by by eapply lookup_lt_Some.
  assert ((n0 <= i)%nat -> tk_sub_id t = id -> step_ok rnd s0 ops t t' (log_of i evs ++ account e) /\ tk_key t = key)
    as Hstep.
  { intros Hin E. split; [|apply Hkeys; [done..|congruence]].
    eapply (task_step_exact bc rnd Hrnd0 Hrnd1 s0 ops (w_app w)); [done|by eapply bi_buffer| |done|by apply H1|done].
    apply (ss_filters _ _ (bi_setup _ _ _ _ _ _ Hb)). }
  split.
  - split.
    + intros k u Hk Hu Hid'. rewrite log_of_app, log_of_one. simpl in Hu.
      apply list_lookup_insert_Some in Hu as [(<- & <- & _)|[Hne Hu]].
      * rewrite decide_True by done. rewrite Ek. apply Hstep; [done|congruence].
      * rewrite decide_False, app_nil_r by done. by apply H1.
    + intros k Hk. simpl in Hk. rewrite length_insert in Hk. rewrite log_of_app, log_of_one, H2 by done.
      by rewrite decide_False by lia.
  - apply fans_inv_keeps; [done|]. split; [by left|]. intros k v Hv Hc Hk u Hu Hid'. simpl in Hu.
    apply list_lookup_insert_Some in Hu as [(<- & <- & _)|[Hne Hu]]; [|by apply Hc].
    destruct (Hstep Hk ltac:(congruence)) as [[_ Hr] E]. apply Hr; [by rewrite E|]. apply Hc; [done..|congruence].
Qed.
End step.
Lemma worker_step_exact ops w evs x w' e :
  Z.of_nat (length (ops ++ buffer_ops [x])) < u64_max -> key ∈ keys -> base ops w ->
  tasks_inv ops w evs -> fans_inv w -> present key w -> worker_step w x = Some (w', e) ->
  tasks_inv (ops ++ buffer_ops [x]) w' (evs ++ e) /\ fans_inv w'.
Proof.
  intros Hlen Hkey Hb Ht Hf Hp. rewrite length_app in Hlen.
  destruct x as [o|o|now|j r|i ti]; simpl in *; rewrite ?app_nil_r.
  - intros [= <- <-]. rewrite app_nil_r. split; [|exact Hf]. destruct Ht as [H1 H2]. split; [|exact H2].
    intros i t Hi Hti Hid. destruct (history_prefix (name (tk_key t)) ops [o]) as [k E].
    specialize (H1 i t Hi Hti Hid). rewrite E. apply task_ok_grow; [|done]. rewrite <- E. apply history_consecutive.
  - intros [= <- <-]. rewrite app_nil_r. by split.
  - intros [= <- <-]. rewrite app_nil_r. by apply main_step_exact.
  - destruct (fan_step w j r) as [w1|] eqn:Hst; [|done]. intros [= <- <-]. rewrite app_nil_r.
    eapply fan_step_exact; [lia|done..].
  - destruct (w_tasks w !! i) as [t|] eqn:Hi; [|done].
    destruct (task_step _ _ t ti) as [[[t' s'] es]|] eqn:Hst; [|done]. intros [= <- <-].
    eapply task_step_all; [lia|done..].
Qed.

Lemma worker_run_exact l ops w evs w' e :
  Z.of_nat (length (ops ++ buffer_ops l)) < u64_max -> (forall k, k ∈ upsert_keys (store_ops l) -> k ∈ keys) ->
  key ∈ keys -> base ops w -> tasks_inv ops w evs -> fans_inv w -> throughout (present key) w l ->
  worker_run w l = Some (w', e) ->
  base (ops ++ buffer_ops l) w' /\ tasks_inv (ops ++ buffer_ops l) w' (evs ++ e) /\ fans_inv w'.
Proof.
  revert ops w evs e. induction l as [|x l IH]; intros ops w evs e Hlen Hk Hkey Hb Ht Hf Hp Hrun; simpl in Hrun.
  { injection Hrun as <- <-. change (buffer_ops []) with (@nil BufOp). by rewrite !app_nil_r. }
  change (x :: l) with ([x] ++ l) in *. unfold buffer_ops, store_ops, upsert_keys in *.
  rewrite !omap_app in *. rewrite (assoc_L (++)) in *.
  apply bind_Some in Hrun as ([w1 e1] & Hst & Hrun). destruct Hp as [Hp0 Hp]. rewrite Hst in Hp.
  apply bind_Some in Hrun as ([w2 e2] & Hrun & [= <- <-]). rewrite (assoc_L (++)).
  assert (Z.of_nat (length (ops ++ buffer_ops [x])) < u64_max) as Hlen1
    by (rewrite length_app in Hlen; unfold buffer_ops; lia).
  destruct (worker_step_exact ops w evs x w1 e1) as [Ht1 Hf1]; try done.
  apply (worker_step_ok bc rnd keys Hmax Hrnd0 Hrnd1 Hkeys s0 ops) in Hst as [Hb1 _]; [|done|set_solver|done].
  eapply IH; try done. set_solver.
Qed.
(** At the start of the subscription no channel is of interest yet. *)
Lemma fans_inv_start w :
  n0 = length (w_tasks w) -> Forall (fun g => fn_name g = name key -> fn_phase g <> FanStarting) (w_fans w) ->
  fans_inv w.
Proof.
  intros -> Hst j g Hj Hn. rewrite Forall_lookup in Hst. specialize (Hst _ _ Hj Hn).
  assert (forall tx v, covers w tx v) as Hc.
  { intros tx v Hx t Ht. apply lookup_lt_Some in Ht. lia. }
  assert (forall v, registered w v) as Hr by (intros v hd _; apply Hc).
  assert (forall tx v, registered_but w tx v) as Hb by (intros tx v hd _ _; apply Hc).
  unfold fan_covers, loop_covers. destruct (fn_phase g); try case_decide; auto.
Qed.
End system.


Lemma phase_ok_chain rnd s0 h t l :
  phase_ok rnd s0 h t l ->
  l = [] \/ exists pos, chain rnd (name (tk_key t)) (params_opt t) (a_filters s0 !! name (tk_key t)) h l pos.
Proof.
  unfold phase_ok. destruct (tk_phase t) as [|u [|c|c|b call c x d|c x|last|item last]|]; try by left.
  - intros (lo & ? & _). eauto.
  - intros (lo & ? & _). eauto.
  - intros (lo & pos & ? & _). eauto.
  - intros (pos & ? & _). eauto.
  - intros [? _]. eauto.
  - intros [? _]. eauto.
  - done.
Qed.

Section outcome.
Context (config : ServerConfig) (rnd : Z) (s0 : AppState) (key : SubKey) (l0 l1 : list WorkerInput).
Context (w0 w1 : WorkerState) (evs0 evs1 : list (nat * TaskEvent)) (i : nat) (t : Task).
#[local] Abbreviation h := (history (name key) (buffer_ops (l0 ++ l1))).

(** A run in which the subscription [key] is there from [w0] on, and a task
    [i] that was started for it since. *)
Record subscribed : Prop := {
  sb_new : app_new config rnd true = Ok s0;
  sb_rnd : 0 <= rnd <= u64_max;
  sb_cap : 0 <= bs_max_events_per_type (c_buffer config);
  sb_length : Z.of_nat (length (l0 ++ l1)) < u64_max;
  sb_keys : no_collision (upsert_keys (store_ops (l0 ++ l1)));
  sb_before : worker_run (worker_new s0) l0 = Some (w0, evs0);
  sb_started : Forall (fun g => fn_name g = name key -> fn_phase g <> FanStarting) (w_fans w0);
  sb_present : throughout (present key) w0 l1;
  sb_run : worker_run w0 l1 = Some (w1, evs1);
  sb_since : (length (w_tasks w0) <= i)%nat;
  sb_task : w_tasks w1 !! i = Some t;
  sb_key : tk_key t = key
}.

Lemma subscribed_inv :
  subscribed -> exists bc keys, base_inv bc rnd keys s0 (buffer_ops (l0 ++ l1)) w1 /\
    task_ok rnd s0 h t (log_of i evs1) /\ fans_inv key (length (w_tasks w0)) w1 /\ tk_sub_id t = derive_sub_id key.
Proof.
  intros [Happ Hrnd Hcap Hlen Hk Hrun0 Hst Hp Hrun Hi Ht Hkey]. pose proof (buffer_ops_length (l0 ++ l1)) as Hbl.
  destruct (app_new_parts _ _ _ _ Happ) as [(bc & Eb & Em) Es].
  set (keys := upsert_keys (store_ops (l0 ++ l1))) in *.
  pose proof (worker_new_ok bc rnd keys ltac:(lia) s0 Eb Es) as Hb. destruct Hrnd.
  assert (buffer_ops (l0 ++ l1) = buffer_ops l0 ++ buffer_ops l1) as Ebo by apply omap_app.
  assert (keys = upsert_keys (store_ops l0) ++ upsert_keys (store_ops l1)) as Eko.
  { unfold keys, store_ops, upsert_keys. by rewrite !omap_app. }
  apply (worker_run_ok bc rnd keys ltac:(lia) ltac:(lia) ltac:(lia) Hk s0 l0 []) in Hrun0 as [Hb0 _];
    [|simpl; rewrite Ebo, length_app in Hbl; lia|rewrite Eko; set_solver|done].
  assert (key ∈ keys) as Hkin.
  { destruct l1; destruct Hp as [(sub & Hs & <- & _) _]; by eapply (bi_flags _ _ _ _ _ _ Hb0). }
  eapply (worker_run_exact bc rnd keys s0) with (evs := []) in Hrun as (Hb1 & [H1 _] & Hf1); try done; try lia.
  - rewrite Ebo. exists bc, keys. split; [exact Hb1|]. pose proof (bi_tasks _ _ _ _ _ _ Hb1 _ _ Ht) as Hwf.
    assert (tk_sub_id t = derive_sub_id key) as Eid by (rewrite (tw_id _ _ _ _ _ Hwf); by f_equal).
    split; [|by split]. rewrite <- Hkey. apply (H1 i t Hi Ht Eid).
  - simpl. rewrite <- Ebo. lia.
  - rewrite Eko. set_solver.
  - split; [|done]. intros k u Hk' Hu. apply lookup_lt_Some in Hu. lia.
  - by apply fans_inv_start.
Qed.

(** C1. Refinement: whatever the main loop, the fan-outs, the delivery tasks,
    the publishers and the subscription's other operations do in between,
    the log of a delivery task started since its subscription is there is
    one the receiver is owed ([chain]): it starts at a cursor, every event of
    the type that the filter passes is delivered exactly once and in the
    order of emission, with the cursor right after it, unless the receiver
    is told of a gap, and a recorded watermark is never ahead of what was
    delivered. *)
Theorem delivery_exact :
  subscribed ->
  log_of i evs1 = [] \/
  exists pos, chain rnd (name key) (params_opt t) (a_filters s0 !! name key) h (log_of i evs1) pos.
Proof.
  intros Hs. destruct (subscribed_inv Hs) as (bc & keys & _ & [Hp _] & _ & _).
  rewrite <- (sb_key Hs) in *. by apply phase_ok_chain in Hp.
Qed.

(** C8. Nothing is lost silently: once the fan-out has received everything
    that was emitted and owes the subscription no gap, and the task of its
    channel waits with an empty queue, every event of the type after the
    cursor the task started from that the filter passes was delivered, or
    lies before a gap the receiver was told of; and the watermark position
    is the end of the history. *)
Theorem delivery_complete j g hd u last :
  subscribed ->
  w_fans w1 !! j = Some g -> fn_name g = name key -> fn_phase g = FanReceiving -> fn_rx g = length h ->
  derive_sub_id key ∉ fn_pending g ->
  w_handles w1 !! derive_sub_id key = Some hd -> h_tx hd = i ->
  tk_phase t = Running u (Receiving last) -> tk_queue t = [] ->
  last = Z.of_nat (length h) /\
  forall e, e ∈ h -> passes (params_opt t) (a_filters s0 !! name key) e = true ->
    (forall c lo, Opened c ∈ log_of i evs1 -> cursor_pos rnd c = Some lo -> lo < st_seq e) -> told rnd (log_of i evs1) e.
Proof.
  intros Hs Hj Hn Eph Erx Hpend Hh Hx Et Eq.
  destruct (subscribed_inv Hs) as (bc & keys & Hb & [Hp _] & Hf & Eid).
  specialize (Hf _ _ Hj Hn). unfold fan_covers in Hf. rewrite Eph, Erx in Hf.
  specialize (Hf Hpend _ Hh ltac:(rewrite Hx; apply (sb_since Hs)) t ltac:(rewrite Hx; apply (sb_task Hs)) Eid).
  unfold phase_ok in Hp. rewrite Et in Hp. destruct Hp as [Hch Hlast]. rewrite (sb_key Hs) in *.
  specialize (Hf last ltac:(by unfold tail_pos; rewrite Et)). unfold accounted in Hf. rewrite Et, Eq in Hf. simpl in Hf.
  assert (last = Z.of_nat (length h)) as El by lia. split; [done|]. intros e He Hpass Ho.
  eapply chain_told; [exact Hch|done..|]. rewrite El. pose proof (consecutive_Forall _ _ (history_consecutive (name key) (buffer_ops (l0 ++ l1)))) as Hall.
  rewrite Forall_forall in Hall. specialize (Hall _ He). simpl in Hall. lia.
Qed.
End outcome.
End exact.

(** ** Example: the run of [worker_example], from when it is subscribed *)
Section example.
#[local] Existing Instance HttpsUrl.
#[local] Abbreviation key := ex_hook_key.

Definition run_of (w : WorkerState (J := ZJson)) l := default (w, []) (worker_run w l).
Definition ex_l0 := take 3 ex_worker_inputs.
Definition ex_l1 := drop 3 ex_worker_inputs.
Definition ex_w0 := (run_of (worker_new ex_app) ex_l0).1.
Definition ex_w1 := (run_of ex_w0 ex_l1).1.
Definition ex_evs1 := (run_of ex_w0 ex_l1).2.

Lemma run_of_eq w l : match worker_run w l with Some _ => true | None => false end = true ->
  worker_run w l = Some ((run_of w l).1, (run_of w l).2).
Proof. unfold run_of. by destruct (worker_run w l) as [[]|]. Qed.

Definition present_b (w : WorkerState (J := ZJson)) : bool :=
  match get (a_subs (w_app w)) key with
  | Some sub => bool_decide (ws_key sub = key) && ws_verified sub
  | None => false
  end.

Fixpoint throughout_b (w : WorkerState (J := ZJson)) (l : list WorkerInput) : bool :=
  present_b w && match l with
                 | [] => true
                 | x :: l' => match worker_step w x with Some (w', _) => throughout_b w' l' | None => true end
                 end.

Lemma present_b_true w : present_b w = true -> present key w.
Proof.
  unfold present_b, present. destruct (get _ _) as [sub|]; [|done].
  intros [Hk%bool_decide_eq_true Hv]%andb_true_iff. by exists sub.
Qed.

Lemma throughout_b_true w l : throughout_b w l = true -> throughout (present key) w l.
Proof.
  revert w. induction l as [|x l IH]; intros w; simpl; intros [Hp H]%andb_true_iff;
    (split; [by apply present_b_true|]); [done|].
  destruct (worker_step w x) as [[]|]; [by apply IH|done].
Qed.

Lemma ex_subscribed t :
  w_tasks ex_w1 !! 0%nat = Some t -> tk_key t = key ->
  subscribed ex_server 7 ex_app key ex_l0 ex_l1 ex_w0 ex_w1 (run_of (worker_new ex_app) ex_l0).2 ex_evs1 0 t.
Proof.
  intros Ht Hk. split; [exact app_new_ex|split; discriminate|discriminate|reflexivity|..].
  - unfold ex_l0, ex_l1. rewrite take_drop. intros k1 k2 H1 H2 _. change (upsert_keys _) with [ex_hook_key] in H1, H2.
    apply list_elem_of_singleton in H1 as ->. by apply list_elem_of_singleton in H2.
  - apply run_of_eq. vm_compute. reflexivity.
  - assert (forallb (fun g => negb (bool_decide (fn_name g = name key)) ||
      match fn_phase g with FanStarting => false | _ => true end) (w_fans ex_w0) = true) as H by (vm_compute; reflexivity).
    apply Forall_forall. intros g Hg%list_elem_of_In En E. rewrite forallb_forall in H. specialize (H g Hg).
    rewrite E, bool_decide_true in H by exact En. discriminate H.
  - apply throughout_b_true. vm_compute. reflexivity.
  - apply run_of_eq. vm_compute. reflexivity.
  - apply Nat.le_0_l.
  - exact Ht.
  - exact Hk.
Qed.

Lemma ex_t : exists t, w_tasks ex_w1 !! 0%nat = Some t /\ tk_key t = key.
Proof.
  assert (tk_key <$> w_tasks ex_w1 !! 0%nat = Some key) as H by (vm_compute; reflexivity).
  apply fmap_Some in H as (t & Ht & Hk). exists t. split; [exact Ht|symmetry; exact Hk].
Qed.

Lemma delivery_exact_witness :
  length (log_of 0 ex_evs1) = 3%nat /\
  exists p f pos, chain 7 "orders.changed" p f (history "orders.changed" (buffer_ops (ex_l0 ++ ex_l1))) (log_of 0 ex_evs1) pos.
Proof.
  assert (length (log_of 0 ex_evs1) = 3%nat) as Hl by (vm_compute; reflexivity). split; [exact Hl|].
  destruct ex_t as (t & Ht & Hk).
  destruct (delivery_exact _ _ _ _ _ _ _ _ _ _ _ _ (ex_subscribed t Ht Hk)) as [E|[pos H]].
  - rewrite E in Hl. discriminate Hl.
  - eexists _, _, pos. exact H.
Defined.

(** How the run ends. *)
Lemma ex_end_fan : exists g, w_fans ex_w1 !! 0%nat = Some g /\ fn_name g = name key /\ fn_phase g = FanReceiving /\
  fn_rx g = 1%nat /\ derive_sub_id key ∉ fn_pending g.
Proof.
  assert ((fun g => (fn_name g, match fn_phase g with FanReceiving => true | _ => false end, fn_rx g,
      bool_decide (derive_sub_id key ∈ fn_pending g))) <$> w_fans ex_w1 !! 0%nat
    = Some (name key, true, 1%nat, false)) as H by (vm_compute; reflexivity).
  apply fmap_Some in H as (g & Hg & [= Hn Hph Hrx Hp]). symmetry in Hp. apply bool_decide_eq_false in Hp.
  exists g. split_conj; try (exact Hg || exact Hp || (symmetry; assumption)). destruct (fn_phase g); by try discriminate Hph.
Qed.

Lemma ex_end_task t : w_tasks ex_w1 !! 0%nat = Some t ->
  (exists u last, tk_phase t = Running u (Receiving last)) /\ tk_queue t = [] /\ tk_params t = JNull.
Proof.
  intros Ht.
  assert ((fun t => (match tk_phase t with Running _ (Receiving _) => true | _ => false end, length (tk_queue t),
      match tk_params t with JNull => true | _ => false end)) <$> w_tasks ex_w1 !! 0%nat
    = Some (true, 0%nat, true)) as H by (vm_compute; reflexivity).
  rewrite Ht in H. injection H as Hph Hq Hp. split_conj.
  - destruct (tk_phase t) as [|u []|]; try discriminate Hph. by eexists _, _.
  - by apply nil_length_inv.
  - destruct (tk_params t); by try discriminate Hp.
Qed.

Lemma ex_end_opened c : Opened c ∈ log_of 0 ex_evs1 -> c = "7:0".
Proof.
  assert (omap (fun e => match e with Opened c => Some c | _ => None end) (log_of 0 ex_evs1) = ["7:0"]) as H
    by (vm_compute; reflexivity).
  intros Hc. apply list_elem_of_singleton. rewrite <- H. apply list_elem_of_omap. exists (Opened c). split; [exact Hc|reflexivity].
Qed.

Lemma delivery_complete_witness :
  exists e, history "orders.changed" (buffer_ops (ex_l0 ++ ex_l1)) = [e] /\ told 7 (log_of 0 ex_evs1) e.
Proof.
  destruct ex_t as (t & Ht & Hk). eexists. split; [reflexivity|].
  destruct ex_end_fan as (g & Hg & Hn & Hph & Hrx & Hp).
  assert (h_tx <$> w_handles ex_w1 !! derive_sub_id key = Some 0%nat) as Hh by (vm_compute; reflexivity).
  apply fmap_Some in Hh as (hd & Hh & Hx). symmetry in Hx.
  destruct (ex_end_task t Ht) as ((u & last & Et) & Eq & Epar).
  destruct (delivery_complete _ _ _ _ _ _ _ _ _ _ _ _ 0 g hd u last (ex_subscribed t Ht Hk) Hg Hn Hph Hrx Hp Hh Hx Et Eq)
    as [_ H].
  apply H.
  - apply list_elem_of_singleton. reflexivity.
  - unfold params_opt. rewrite Epar. reflexivity.
  - intros c lo Hc. rewrite (ex_end_opened c Hc). intros Hlo. injection Hlo as <-. reflexivity.
Defined.
End example.
