(* ===== verification/JsonText.v ===== *)
(** * Reading compact JSON text back.

    An instance of what the program relies on of serde_json's reader
    ([SerdeLib]), for the executable examples: it reads the texts that
    [value_to_string] writes over [ZJson], and satisfies [SerdeLaws]. *)
From S2P Require Import Prelude RustStd Lib Json Canon Wire Buffer Registry Store Signing Config Mapping State.

Definition quote : ascii := "034".

(** The characters of a string, up to the closing quote. *)
Fixpoint read_chars (n : nat) (s : string) : option (string * string) :=
  match n with
  | O => None
  | S n' =>
      match s with
      | EmptyString => None
      | String c r =>
          if decide (c = quote) then Some ("", r)
          else '(d, r1) ← unescape s;
               '(t, r2) ← read_chars n' r1;
               Some (String d t, r2)
      end
  end.

Fixpoint read_digits (acc : Z) (s : string) : Z * string :=
  match s with
  | EmptyString => (acc, "")
  | String c r =>
      match char_digit c with
      | Some d => read_digits (acc * 10 + d) r
      | None => (acc, s)
      end
  end.

Definition read_number (s : string) : option (Z * string) :=
  match s with
  | EmptyString => None
  | String c r =>
      if decide (c = "-"%char) then let '(z, r) := read_digits 0 r in Some (- z, r)
      else if is_digit c then Some (read_digits 0 s)
      else None
  end.

Fixpoint read_value (n : nat) (s : string) : option (Value (J := ZJson) * string) :=
  match n with
  | O => None
  | S n' =>
      match strip_prefix "null" s, strip_prefix "true" s, strip_prefix "false" s with
      | Some r, _, _ => Some (JNull, r)
      | _, Some r, _ => Some (JBool true, r)
      | _, _, Some r => Some (JBool false, r)
      | None, None, None =>
          match s with
          | EmptyString => None
          | String c r =>
              if decide (c = quote) then '(t, r1) ← read_chars (String.length r) r; Some (JString t, r1)
              else if decide (c = "["%char) then
                match strip_prefix "]" r with
                | Some r1 => Some (JArray [], r1)
                | None => '(l, r1) ← read_items n' r; Some (JArray l, r1)
                end
              else if decide (c = "{"%char) then
                match strip_prefix "}" r with
                | Some r1 => Some (JObject [], r1)
                | None => '(l, r1) ← read_members n' r; Some (JObject (map_of l), r1)
                end
              else '(z, r1) ← read_number s; Some (JNumber (J := ZJson) z, r1)
          end
      end
  end
with read_items (n : nat) (s : string) : option (list (Value (J := ZJson)) * string) :=
  match n with
  | O => None
  | S n' =>
      '(v, r) ← read_value n' s;
      match strip_prefix "," r, strip_prefix "]" r with
      | Some r1, _ => '(l, r2) ← read_items n' r1; Some (v :: l, r2)
      | None, Some r1 => Some ([v], r1)
      | None, None => None
      end
  end
with read_members (n : nat) (s : string) : option (list (string * Value (J := ZJson)) * string) :=
  match n with
  | O => None
  | S n' =>
      r ← strip_prefix (String quote "") s;
      '(k, r) ← read_chars (String.length r) r;
      r ← strip_prefix ":" r;
      '(v, r) ← read_value n' r;
      match strip_prefix "," r, strip_prefix "}" r with
      | Some r1, _ => '(l, r2) ← read_members n' r1; Some ((k, v) :: l, r2)
      | None, Some r1 => Some ([(k, v)], r1)
      | None, None => None
      end
  end.

Definition read_json (s : string) : option (Value (J := ZJson)) :=
  match read_value (String.length s) s with
  | Some (v, EmptyString) => Some v
  | _ => None
  end.

Definition ZSerde : SerdeLib (J := ZJson) := {|
  json_from_str := read_json;
  json_error _ := "invalid";
  decode_error t _ := "invalid " +:+ t
|}.

Example read_json_example :
  read_json (value_to_string (json_obj [("b", json_int (J := ZJson) (-12));
    ("a", JArray [JString ("x" +:+ String quote ""); JNull; JBool true; JObject []])]))
  = Some (json_obj [("b", json_int (J := ZJson) (-12));
    ("a", JArray [JString ("x" +:+ String quote ""); JNull; JBool true; JObject []])]).
Proof. reflexivity. Qed.

(** ** What was written is read back *)
Lemma unescape_not_quote c r x : unescape (String c r) = Some x -> c <> quote.
Proof. intros H ->. discriminate H. Qed.

Lemma escape_char_length c : (1 <= String.length (escape_char c))%nat.
Proof. destruct c as [[] [] [] [] [] [] [] []]; simpl; lia. Qed.

Lemma read_chars_escape n s rest :
  (String.length (escape_chars s) < n)%nat ->
  read_chars n (escape_chars s +:+ String quote rest) = Some (s, rest).
Proof.
  revert n. induction s as [|c s IH]; intros n Hn; destruct n as [|n]; try (simpl in Hn; lia).
  - done.
  - simpl in Hn. rewrite length_app' in Hn. pose proof (escape_char_length c).
    simpl (escape_chars _). rewrite app_assoc'.
    pose proof (unescape_escape c (escape_chars s +:+ String quote rest)) as Hu.
    simpl. destruct (escape_char c +:+ escape_chars s +:+ String quote rest) as [|d r] eqn:E; [done|].
    rewrite decide_False by by eapply unescape_not_quote. rewrite Hu. simpl. rewrite IH by lia. done.
Qed.

Lemma read_digits_parse max acc d n rest :
  parse_digits max acc d = Some n -> num_stop rest -> read_digits acc (d +:+ rest) = (n, rest).
Proof.
  intros Hd Hr. revert acc Hd. induction d as [|c d IH]; intros acc; simpl.
  - intros [= ->]. destruct rest as [|c r]; [done|]. simpl in Hr. unfold is_num_char, is_digit in Hr.
    simpl. destruct (char_digit c) eqn:E; [|done].
    by rewrite bool_decide_eq_true_2 in Hr by by eexists.
  - destruct (char_digit c) as [x|]; [|done]. destruct (max <? _); [done|]. apply IH.
Qed.

Lemma read_number_text z rest :
  num_stop rest -> read_number (num_to_string (JsonLib := ZJson) z +:+ rest) = Some (z, rest).
Proof.
  intros Hr. simpl. destruct (z <? 0) eqn:Ez; bsimp.
  - simpl. rewrite (read_digits_parse (- z) 0 _ (- z)); [|apply dec_string_parse; lia|done]. by rewrite Z.opp_involutive.
  - pose proof (read_digits_parse z 0 _ z rest (dec_string_parse z Ez) Hr) as Hd.
    destruct (dec_string_digits z) as (Hf & c & s & E). rewrite E in *. rewrite app_cons in *.
    unfold read_number. simpl in Hf. apply andb_true_iff in Hf as [Hc _].
    rewrite decide_False by by intros ->. by rewrite Hc, Hd.
Qed.

(** Members of an object and elements of an array, as they are written. *)
Definition members_text (m : list (string * Value (J := ZJson))) : string :=
  str_join "," ((fun kv => str_escape kv.1 +:+ ":" +:+ value_to_string kv.2) <$> m).

Lemma join_cons a l : l <> [] -> str_join "," (a :: l) = a +:+ "," +:+ str_join "," l.
Proof. by destruct l. Qed.

Definition reads (v : Value (J := ZJson)) : Prop :=
  forall n rest, (String.length (value_to_string v) <= n)%nat -> num_stop rest ->
    read_value n (value_to_string v +:+ rest) = Some (normal v, rest).

Lemma text_nonempty (v : Value (J := ZJson)) : (1 <= String.length (value_to_string v))%nat.
Proof.
  destruct v as [|[]|z|s|l|m]; simpl; try lia.
  destruct (dec_string_digits z) as (_ & c & s & E), (dec_string_digits (- z)) as (_ & c' & s' & E').
  destruct (z <? 0); [simpl; lia|]. rewrite E. simpl. lia.
Qed.

Lemma read_items_text l n rest :
  l <> [] -> Forall reads l -> (String.length (str_join "," (value_to_string <$> l)) < n)%nat ->
  read_items n (str_join "," (value_to_string <$> l) +:+ String "]" rest) = Some (normal <$> l, rest).
Proof.
  intros Hne Hl. revert n Hne. induction Hl as [|v l Hv Hl IH]; intros n Hne Hn; [done|]. destruct n as [|n]; [lia|].
  destruct l as [|w l]; cbn [read_items].
  - cbn [fmap list_fmap str_join] in *. rewrite Hv by (lia || done). done.
  - rewrite fmap_cons, join_cons in Hn by done. rewrite fmap_cons, join_cons by done. set (t := str_join "," (value_to_string <$> w :: l)) in *.
    rewrite length_app', app_cons, app_nil_l' in Hn. cbn [String.length] in Hn. rewrite !app_assoc'.
    rewrite Hv by (lia || done). cbn [mbind option_bind]. rewrite strip_prefix_app.
    rewrite IH by (done || lia). done.
Qed.

(** One member: its key, then its value. *)
Lemma read_member_text k v n r :
  reads v -> (String.length (value_to_string v) <= n)%nat -> num_stop r ->
  read_members (S n) ((str_escape k +:+ ":" +:+ value_to_string v) +:+ r) =
  match strip_prefix "," r, strip_prefix "}" r with
  | Some r1, _ => '(l, r2) ← read_members n r1; Some ((k, normal v) :: l, r2)
  | None, Some r1 => Some ([(k, normal v)], r1)
  | None, None => None
  end.
Proof.
  intros Hv Hn Hr. cbn [str_escape ZJson]. unfold json_escape.
  repeat (rewrite ?app_cons, ?app_assoc', ?app_nil_l'). cbn [read_members].
  set (x := escape_chars k +:+ String "034" (String ":" (value_to_string v +:+ r))).
  replace (strip_prefix (String quote "") (String "034" x)) with (Some x) by reflexivity.
  cbn [mbind option_bind]. unfold x at 2. rewrite read_chars_escape by (unfold x; rewrite length_app'; simpl; lia).
  cbn [mbind option_bind]. change (String ":" (value_to_string v +:+ r)) with (":" +:+ (value_to_string v +:+ r)).
  rewrite strip_prefix_app. cbn [mbind option_bind]. rewrite Hv by done. done.
Qed.

Lemma read_members_text m n rest :
  m <> [] -> Forall (fun kv => reads kv.2) m -> (String.length (members_text m) < n)%nat ->
  read_members n (members_text m +:+ String "}" rest) = Some ((fun kv => (kv.1, normal kv.2)) <$> m, rest).
Proof.
  unfold members_text. intros Hne Hm. revert n Hne.
  induction Hm as [|[k v] m Hv Hm IH]; intros n Hne Hn; [done|]. destruct n as [|n]; [lia|].
  assert (forall k, (String.length (value_to_string v) <= String.length (str_escape k +:+ ":" +:+ value_to_string v))%nat)
    as Hlen by (intros ?; rewrite !length_app'; lia).
  specialize (Hlen k). destruct m as [|kv m].
  - cbn [fmap list_fmap str_join fst snd] in *. rewrite read_member_text by (lia || done). done.
  - rewrite fmap_cons, join_cons in Hn by done. rewrite fmap_cons, join_cons by done.
    set (t := str_join "," ((fun kv => str_escape kv.1 +:+ ":" +:+ value_to_string kv.2) <$> kv :: m)) in *.
    rewrite length_app' in Hn. change (String.length ("," +:+ t)) with (S (String.length t)) in Hn.
    cbn [fst snd] in *. rewrite (app_assoc' _ ("," +:+ t)).
    rewrite read_member_text by (lia || done). rewrite !app_assoc', strip_prefix_app.
    rewrite IH by (done || lia). done.
Qed.

(** What starts a value tells the kinds apart. *)
Lemma read_value_number z n rest :
  num_stop rest -> read_value (S n) (num_to_string (JsonLib := ZJson) z +:+ rest) = Some (JNumber (J := ZJson) z, rest).
Proof.
  intros Hr. pose proof (read_number_text z rest Hr) as Hn.
  destruct (num_to_string_head (JsonLaws := ZJson_laws) z) as (c & s & E & Hc). rewrite E, app_cons in *.
  assert (is_num_head quote = false /\ is_num_head "[" = false /\ is_num_head "{" = false /\ is_num_head "n" = false /\
    is_num_head "t" = false /\ is_num_head "f" = false) as (H1 & H2 & H3 & H4 & H5 & H6) by done.
  cbn [read_value strip_prefix]. rewrite !bool_decide_eq_false_2 by congruence.
  rewrite !decide_False by congruence. by rewrite Hn.
Qed.

Lemma read_value_string n r :
  read_value (S n) (String quote r) = '(t, r1) ← read_chars (String.length r) r; Some (JString t, r1).
Proof. reflexivity. Qed.

Lemma read_value_array n r :
  read_value (S n) (String "[" r) =
  match strip_prefix "]" r with
  | Some r1 => Some (JArray [], r1)
  | None => '(l, r1) ← read_items n r; Some (JArray l, r1)
  end.
Proof. reflexivity. Qed.

Lemma read_value_object n r :
  read_value (S n) (String "{" r) =
  match strip_prefix "}" r with
  | Some r1 => Some (JObject [], r1)
  | None => '(l, r1) ← read_members n r; Some (JObject (map_of l), r1)
  end.
Proof. reflexivity. Qed.

Lemma text_head (v : Value (J := ZJson)) : exists c s, value_to_string v = String c s /\ c <> "]"%char.
Proof.
  destruct v as [|[]|z|s|l|m]; try (by eexists _, _).
  destruct (num_to_string_head (JsonLaws := ZJson_laws) z) as (c & s & E & Hc).
  exists c, s. split; [exact E|]. by intros ->.
Qed.

Lemma read_value_text v : reads v.
Proof.
  induction v as [|b|z|s|l IH|m IH] using Value_ind; intros n rest Hn Hr;
    (destruct n as [|n];
      [match goal with H : (String.length (value_to_string ?x) <= 0)%nat |- _ => pose proof (text_nonempty x); lia end|]).
  - done.
  - by destruct b.
  - by apply read_value_number.
  - cbn [value_to_string str_escape ZJson]. unfold json_escape. rewrite app_cons, app_assoc', app_cons, app_nil_l'.
    rewrite read_value_string, read_chars_escape; [done|]. rewrite length_app'. simpl. lia.
  - change (value_to_string (JArray l)) with (String "[" (str_join "," (value_to_string <$> l) +:+ "]")) in *.
    cbn [String.length] in Hn. rewrite length_app' in Hn. cbn [String.length] in Hn.
    rewrite app_cons, app_assoc', app_cons, app_nil_l', read_value_array.
    destruct l as [|v l]; [done|]. rewrite read_items_text by (done || lia).
    destruct (text_head v) as (c & s & E & Hc). rewrite fmap_cons, E.
    assert (exists s', str_join "," (String c s :: (value_to_string <$> l)) = String c s') as [s' ->].
    { destruct (value_to_string <$> l); [by exists s|]. by eexists. }
    rewrite app_cons. cbn [strip_prefix]. by rewrite bool_decide_eq_false_2.
  - change (value_to_string (JObject m)) with (String "{" (members_text m +:+ "}")) in *.
    cbn [String.length] in Hn. rewrite length_app' in Hn. cbn [String.length] in Hn.
    rewrite app_cons, app_assoc', app_cons, app_nil_l', read_value_object.
    destruct m as [|[k v] m]; [done|]. rewrite read_members_text by (done || lia). cbn [mbind option_bind].
    assert (exists s', members_text ((k, v) :: m) = String quote s') as [s' ->].
    { unfold members_text. rewrite fmap_cons. destruct (_ <$> m); by eexists. }
    done.
Qed.

Lemma read_json_text v : read_json (value_to_string v) = Some (normal v).
Proof.
  unfold read_json. pose proof (read_value_text v (String.length (value_to_string v)) "") as H.
  rewrite app_nil_r' in H. by rewrite H.
Qed.

(** Whatever is read is a well-formed value. *)
Lemma read_wf n :
  (forall s v r, read_value n s = Some (v, r) -> wf_value v) /\
  (forall s l r, read_items n s = Some (l, r) -> Forall wf_value l) /\
  (forall s m r, read_members n s = Some (m, r) -> Forall (fun kv => wf_value kv.2) m).
Proof.
  induction n as [|n (IHv & IHi & IHm)]; [done|]. split_and!.
  - intros s v r. cbn [read_value].
    destruct (strip_prefix "null" s); [by intros [= <- _]|].
    destruct (strip_prefix "true" s); [by intros [= <- _]|].
    destruct (strip_prefix "false" s); [by intros [= <- _]|].
    destruct s as [|c s]; [done|]. case_decide; [|case_decide; [|case_decide]].
    + intros ([t r1] & _ & [= <- _])%bind_Some. done.
    + destruct (strip_prefix "]" s); [by intros [= <- _]|].
      intros ([l r1] & Hl & [= <- _])%bind_Some. apply wf_array. by eapply IHi.
    + destruct (strip_prefix "}" s); [intros [= <- _]; split; [constructor|done]|].
      intros ([m r1] & Hm & [= <- _])%bind_Some. apply json_obj_wf. by eapply IHm.
    + intros ([z r1] & _ & [= <- _])%bind_Some. done.
  - intros s l r. cbn [read_items]. intros ([v r1] & Hv & H)%bind_Some. apply IHv in Hv.
    destruct (strip_prefix "," r1) as [r2|].
    + apply bind_Some in H as ([l' r3] & Hl & [= <- _]). constructor; [done|]. by eapply IHi.
    + destruct (strip_prefix "]" r1); [|done]. injection H as <- _. by repeat constructor.
  - intros s m r. cbn [read_members].
    intros (r0 & _ & ([k r1] & _ & (r2 & _ & ([v r3] & Hv & H)%bind_Some)%bind_Some)%bind_Some)%bind_Some.
    apply IHv in Hv. destruct (strip_prefix "," r3) as [r4|].
    + apply bind_Some in H as ([l' r5] & Hl & [= <- _]). constructor; [done|]. by eapply IHm.
    + destruct (strip_prefix "}" r3); [|done]. injection H as <- _. by repeat constructor.
Qed.

Lemma ZSerde_laws : SerdeLaws ZSerde.
Proof.
  split; [exact read_json_text|]. intros s v. simpl. unfold read_json.
  destruct (read_value _ s) as [[v' [|]]|] eqn:E; [|done..]. intros [= <-]. by eapply read_wf.
Qed.
