(* ===== verification/Base.v ===== *)
(** * The base protocol types (crates/mcp-events-wire/src/base.rs).

    Encoders and decoders as in [Wire], and their round trip as in [Codec]. *)
From S2P Require Import Prelude RustStd Json Wire Codec.

Section base.
Context {J : JsonLib}.

Record Implementation := {
  im_name : string;
  im_version : string;
  im_title : option string
}.

Definition enc_Implementation (i : Implementation) : Value :=
  json_struct [("name", Some (JString (im_name i)));
               ("version", Some (JString (im_version i)));
               ("title", JString <$> im_title i)].

Definition dec_Implementation (v : Value) : option Implementation :=
  f ← struct_view 3 v;
  name ← req dec_string (f "name" 0%nat);
  version ← req dec_string (f "version" 1%nat);
  title ← opt_field dec_string (f "title" 2%nat);
  Some {| im_name := name; im_version := version; im_title := title |}.

Record EventsCapability := { ec_list_changed : option bool }.

Definition enc_EventsCapability (c : EventsCapability) : Value :=
  json_struct [("listChanged", JBool <$> ec_list_changed c)].

Definition dec_EventsCapability (v : Value) : option EventsCapability :=
  f ← struct_view 1 v;
  list_changed ← opt_field dec_bool (f "listChanged" 0%nat);
  Some {| ec_list_changed := list_changed |}.

(** [extra] is flattened: it takes the entries that are no field, and its
    entries are written after the fields. *)
Record ServerCapabilities := {
  cap_events : option EventsCapability;
  cap_extra : Map
}.

Definition enc_ServerCapabilities (c : ServerCapabilities) : Value :=
  JObject match cap_events c with
          | Some e => map_entry_or_insert "events" (enc_EventsCapability e) (cap_extra c)
          | None => cap_extra c
          end.

(** A struct with a flattened field is read from an object only. *)
Definition dec_ServerCapabilities (v : Value) : option ServerCapabilities :=
  m ← as_object v;
  events ← opt_field dec_EventsCapability (map_get "events" m);
  Some {| cap_events := events; cap_extra := base.filter (fun kv => kv.1 <> "events") (m : list (string * Value)) |}.

Record InitializeParams := {
  ip_protocol_version : string;
  ip_capabilities : Value;
  ip_client_info : option Implementation
}.

Definition enc_InitializeParams (p : InitializeParams) : Value :=
  json_struct [("protocolVersion", Some (JString (ip_protocol_version p)));
               ("capabilities", Some (ip_capabilities p));
               ("clientInfo", enc_Implementation <$> ip_client_info p)].

Definition dec_InitializeParams (v : Value) : option InitializeParams :=
  f ← struct_view 3 v;
  protocol_version ← req dec_string (f "protocolVersion" 0%nat);
  capabilities ← dflt JNull dec_value (f "capabilities" 1%nat);
  client_info ← opt_field dec_Implementation (f "clientInfo" 2%nat);
  Some {| ip_protocol_version := protocol_version; ip_capabilities := capabilities;
          ip_client_info := client_info |}.

Record InitializeResult := {
  ir_protocol_version : string;
  ir_capabilities : ServerCapabilities;
  ir_server_info : Implementation;
  ir_instructions : option string
}.

Definition enc_InitializeResult (r : InitializeResult) : Value :=
  json_struct [("protocolVersion", Some (JString (ir_protocol_version r)));
               ("capabilities", Some (enc_ServerCapabilities (ir_capabilities r)));
               ("serverInfo", Some (enc_Implementation (ir_server_info r)));
               ("instructions", JString <$> ir_instructions r)].

Definition dec_InitializeResult (v : Value) : option InitializeResult :=
  f ← struct_view 4 v;
  protocol_version ← req dec_string (f "protocolVersion" 0%nat);
  capabilities ← req dec_ServerCapabilities (f "capabilities" 1%nat);
  server_info ← req dec_Implementation (f "serverInfo" 2%nat);
  instructions ← opt_field dec_string (f "instructions" 3%nat);
  Some {| ir_protocol_version := protocol_version; ir_capabilities := capabilities;
          ir_server_info := server_info; ir_instructions := instructions |}.

(** ** Round trips *)
Context {JL : JsonLaws J}.

Lemma opt_field_bool o : opt_field dec_bool (JBool <$> o) = Some o.
Proof. by destruct o. Qed.

#[export] Instance Implementation_codec : Codec Implementation := {
  encode := enc_Implementation; decode := dec_Implementation; wire_ok _ := True
}.
#[export] Instance Implementation_laws : CodecLaws Implementation.
Proof. codec_start. unfold dec_Implementation, enc_Implementation. by roundtrip. Qed.

#[export] Instance EventsCapability_codec : Codec EventsCapability := {
  encode := enc_EventsCapability; decode := dec_EventsCapability; wire_ok _ := True
}.
#[export] Instance EventsCapability_laws : CodecLaws EventsCapability.
Proof.
  codec_start. unfold dec_EventsCapability, enc_EventsCapability. read_struct. by rewrite opt_field_bool.
Qed.

Lemma filter_map_absent k (m : list (string * Value)) : k ∉ m.*1 -> base.filter (fun kv => kv.1 <> k) m = m.
Proof.
  induction m as [|[k' v'] m IH]; [done|]. rewrite fmap_cons. intros [Hne Hk]%not_elem_of_cons.
  rewrite filter_cons_True by (simpl in *; congruence). by rewrite IH.
Qed.

Lemma filter_map_insert k v (m : list (string * Value)) :
  k ∉ m.*1 -> base.filter (fun kv => kv.1 <> k) (map_insert k v m : list (string * Value)) = m.
Proof.
  induction m as [|[k' v'] m IH]; rewrite ?fmap_cons; intros Hk; cbn [map_insert].
  - by rewrite filter_cons_False by (simpl; tauto).
  - pose proof Hk as [Hne Hk']%not_elem_of_cons. rewrite decide_False by exact Hne. case_decide.
    + rewrite filter_cons_False by (simpl; tauto). by apply filter_map_absent.
    + rewrite filter_cons_True by (simpl in *; congruence). by rewrite IH.
Qed.

#[export] Instance ServerCapabilities_codec : Codec ServerCapabilities := {
  encode := enc_ServerCapabilities; decode := dec_ServerCapabilities;
  wire_ok c := map_get "events" (cap_extra c) = None
}.
#[export] Instance ServerCapabilities_laws : CodecLaws ServerCapabilities.
Proof.
  codec_start. unfold dec_ServerCapabilities, enc_ServerCapabilities.
  change enc_EventsCapability with (encode (A := EventsCapability));
    change dec_EventsCapability with (decode (A := EventsCapability)).
  pose proof H as Hk. apply map_get_None in Hk. simpl. destruct cap_events0 as [e|]; simpl.
  - unfold map_entry_or_insert. rewrite H, map_get_insert, decide_True by done.
    pose proof (opt_field_codec (Some e) (fun _ _ => I)) as E. simpl in E. rewrite E. simpl.
    by rewrite filter_map_insert.
  - rewrite H. unfold opt_field. simpl. by rewrite filter_map_absent.
Qed.

#[export] Instance InitializeParams_codec : Codec InitializeParams := {
  encode := enc_InitializeParams; decode := dec_InitializeParams; wire_ok _ := True
}.
#[export] Instance InitializeParams_laws : CodecLaws InitializeParams.
Proof.
  codec_start. unfold dec_InitializeParams, enc_InitializeParams.
  change enc_Implementation with (encode (A := Implementation));
    change dec_Implementation with (decode (A := Implementation)).
  by roundtrip.
Qed.

#[export] Instance InitializeResult_codec : Codec InitializeResult := {
  encode := enc_InitializeResult; decode := dec_InitializeResult; wire_ok r := wire_ok (ir_capabilities r)
}.
#[export] Instance InitializeResult_laws : CodecLaws InitializeResult.
Proof.
  codec_start. unfold dec_InitializeResult, enc_InitializeResult.
  change enc_Implementation with (encode (A := Implementation));
    change dec_Implementation with (decode (A := Implementation)).
  change enc_ServerCapabilities with (encode (A := ServerCapabilities));
    change dec_ServerCapabilities with (decode (A := ServerCapabilities)).
  by roundtrip.
Qed.
End base.
