(* ===== verification/Client.v ===== *)
(** * The client's calls (crates/mcp-events-client/src: client.rs, error.rs).

    An exchange is a function from the request to what came back of it
    ([None]: it could not be sent, or timed out).  An error is a constructor
    per message the source builds; the message texts and the log lines are
    not modelled ([check_subscription_id] is what a frame is warned about). *)
From S2P Require Import Prelude RustStd Json Wire Codec Buffer Registry Config Mapping State JsonText Base SseText ClientSse.

(** ** error.rs *)
Section client.
Context {J : JsonLib} {S : SerdeLib}.

Record RpcError := {
  re_code : Z;
  re_message : string;
  re_data : option Value
}.

Definition code_name (e : RpcError) : string :=
  let c := re_code e in
  if c =? PARSE_ERROR then "ParseError"
  else if c =? INVALID_REQUEST then "InvalidRequest"
  else if c =? METHOD_NOT_FOUND then "MethodNotFound"
  else if c =? INVALID_PARAMS then "InvalidParams"
  else if c =? INTERNAL_ERROR then "InternalError"
  else if c =? NOT_FOUND then "NotFound"
  else if c =? FORBIDDEN then "Forbidden"
  else if c =? RESOURCE_EXHAUSTED then "ResourceExhausted"
  else if c =? UNSUPPORTED then "Unsupported"
  else if c =? CALLBACK_ENDPOINT_ERROR then "CallbackEndpointError"
  else if (-32099 <=? c) && (c <=? -32000) then "ServerError"
  else "Error".

(** [Display]. *)
Definition rpc_error_text (e : RpcError) : string :=
  code_name e +:+ " (" +:+ i64_to_string (re_code e) +:+ "): " +:+ re_message e +:+
  match re_data e with Some data => " data=" +:+ value_to_string data | None => "" end.

Definition rpc_error_from (e : JsonRpcError) : RpcError :=
  {| re_code := err_code e; re_message := err_message e; re_data := err_data e |}.

(** ** client.rs *)
Inductive ClientError : Type :=
| Rpc (e : RpcError)
| NoHttpClient (msg : string)
| RequestFailed (method : string)
| BodyFailed (method : string)
| BadResponse (method : string)               (* not a JSON-RPC response *)
| NoSseResponse (method : string)             (* none in the SSE body *)
| UnexpectedType (method : string) (status : Z) (ct : string)
| HttpStatus (method : string) (status : Z)
| NoResult (method : string)
| BadResult (method : string)                 (* the result does not decode *)
| NotAccepted (status : Z)                    (* notifications/initialized *)
| BadFinalFrame.

Definition ACCEPT_BOTH : string := "application/json, text/event-stream".
Definition HEADER_SESSION : string := "mcp-session-id".
Definition HEADER_PROTOCOL_VERSION : string := "mcp-protocol-version".
Definition CARGO_PKG_VERSION : string := "0.1.0".

(** A POST and its answer; [rp_body] is [None] when reading it failed. *)
Record PostRequest := { po_url : string; po_headers : list (string * string); po_body : string }.

Record PostResponse := {
  rp_status : Z;
  rp_header : string -> option string;
  rp_body : option string
}.

Record EventsClient := {
  cl_base_url : string;
  cl_bearer : option string;
  cl_http : result string ();
  cl_session_id : option string;
  cl_initialized : bool;
  cl_next_id : Z
}.

Definition client_new (base_url : string) (http : result string ()) : EventsClient :=
  {| cl_base_url := base_url; cl_bearer := None; cl_http := http; cl_session_id := None; cl_initialized := false; cl_next_id := 1 |}.

Definition with_bearer (c : EventsClient) (token : string) : EventsClient :=
  {| cl_base_url := cl_base_url c; cl_bearer := Some token; cl_http := cl_http c; cl_session_id := cl_session_id c;
     cl_initialized := cl_initialized c; cl_next_id := cl_next_id c |}.

(** [AtomicI64::fetch_add] wraps around. *)
Definition next_id (c : EventsClient) : Z * EventsClient :=
  (cl_next_id c,
   {| cl_base_url := cl_base_url c; cl_bearer := cl_bearer c; cl_http := cl_http c; cl_session_id := cl_session_id c;
      cl_initialized := cl_initialized c;
      cl_next_id := (cl_next_id c + 1 + 2 ^ 63) mod 2 ^ 64 - 2 ^ 63 |}).

Definition bearer_headers (c : EventsClient) : list (string * string) :=
  match cl_bearer c with Some token => [("authorization", "Bearer " +:+ token)] | None => [] end.

Definition builder (c : EventsClient) : result ClientError (list (string * string)) :=
  match cl_http c with
  | Err e => Err (NoHttpClient e)
  | Ok _ =>
      Ok ([("accept", ACCEPT_BOTH)] ++ bearer_headers c ++
          match cl_session_id c with Some sid => [(HEADER_SESSION, sid)] | None => [] end ++
          (if cl_initialized c then [(HEADER_PROTOCOL_VERSION, consts.PROTOCOL_VERSION)] else []))
  end.

Definition stateless_builder (c : EventsClient) (method : string) : result ClientError (list (string * string)) :=
  match cl_http c with
  | Err e => Err (NoHttpClient e)
  | Ok _ =>
      Ok ([("accept", ACCEPT_BOTH); (HEADER_PROTOCOL_VERSION, consts.PROTOCOL_VERSION_2026_07_28);
           ("mcp-method", method)] ++ bearer_headers c)
  end.

(** [RequestBuilder::json]. *)
Definition post_json (c : EventsClient) (headers : list (string * string)) (v : Value) : PostRequest :=
  {| po_url := cl_base_url c; po_headers := headers ++ [("content-type", "application/json")]; po_body := value_to_string v |}.

Definition stateless_meta : Value :=
  json_obj [(consts.META_PROTOCOL_VERSION, JString consts.PROTOCOL_VERSION_2026_07_28);
            (consts.META_CLIENT_CAPABILITIES, JObject []);
            (consts.META_CLIENT_INFO,
             json_obj [("name", JString "mcp-events-client"); ("version", JString CARGO_PKG_VERSION)])].

Definition with_stateless_meta (params : option Value) : Value :=
  let obj := match params with Some (JObject m) => m | _ => [] end in
  JObject (map_entry_or_insert "_meta" stateless_meta obj).

Definition content_type (r : PostResponse) : string :=
  to_ascii_lowercase (default "" (rp_header r "content-type")).

Definition is_success (status : Z) : bool := (200 <=? status) && (status <? 300).

(** The loop of [unary_response_from_sse]. *)
Fixpoint pick_response (id : RequestId) (last : option JsonRpcResponse) (evs : list SseEvent)
    : option JsonRpcResponse :=
  match evs with
  | [] => last
  | ev :: evs' =>
      match json_from_str (se_data ev) ≫= dec_JsonRpcResponse with
      | Some rpc =>
          if bool_decide (rs_id rpc = Some id) then Some rpc else pick_response id (Some rpc) evs'
      | None => pick_response id last evs'
      end
  end.

Definition unary_response_from_sse (body : string) (id : RequestId) : option JsonRpcResponse :=
  let '(p, evs) := push sse_new body in
  pick_response id None (evs ++ opt_list (finish p).2).

Definition parse_unary {T} (dec : Value -> option T) (r : PostResponse) (id : RequestId) (method : string)
    : result ClientError T :=
  let ct := content_type r in
  body ← ok_or (BodyFailed method) (rp_body r);
  rpc ← (if starts_with "text/event-stream" ct then
           ok_or (NoSseResponse method) (unary_response_from_sse body id)
         else if starts_with "application/json" ct || bool_decide (ct = "") then
           ok_or (BadResponse method) (json_from_str body ≫= dec_JsonRpcResponse)
         else Err (UnexpectedType method (rp_status r) ct));
  match rs_error rpc with
  | Some e => Err (Rpc (rpc_error_from e))
  | None =>
      if is_success (rp_status r) then
        result ← ok_or (NoResult method) (rs_result rpc);
        ok_or (BadResult method) (dec result)
      else Err (HttpStatus method (rp_status r))
  end.

(** The request [call] and [stream] send. *)
Definition call_request (c : EventsClient) (id : Z) (method : string) (params : option Value)
    : result ClientError PostRequest :=
  headers ← stateless_builder c method;
  Ok (post_json c headers (enc_JsonRpcRequest (request (Num_ id) method (Some (with_stateless_meta params))))).

Definition call {T} (dec : Value -> option T) (exchange : PostRequest -> option PostResponse) (c : EventsClient)
    (method : string) (params : option Value) : EventsClient * result ClientError T :=
  let '(id, c') := next_id c in
  (c', req ← call_request c id method params;
       resp ← ok_or (RequestFailed method) (exchange req);
       parse_unary dec resp (Num_ id) method).

Definition discover exchange c := call dec_value exchange c consts.METHOD_SERVER_DISCOVER None.

Definition list_events exchange c := call dec_ListEventsResult exchange c consts.METHOD_EVENTS_LIST None.

Definition client_poll exchange c (p : PollEventsParams) :=
  call dec_PollEventsResult exchange c consts.METHOD_EVENTS_POLL (Some (enc_PollEventsParams p)).

Definition client_subscribe exchange c (p : SubscribeParams) :=
  call dec_SubscribeResult exchange c consts.METHOD_EVENTS_SUBSCRIBE (Some (enc_SubscribeParams p)).

Definition client_unsubscribe exchange c (p : UnsubscribeParams) : EventsClient * result ClientError () :=
  let '(c', r) := call dec_value exchange c consts.METHOD_EVENTS_UNSUBSCRIBE (Some (enc_UnsubscribeParams p)) in
  (c', _ ← r; Ok ()).

(** The handshake: [first] answers [initialize], [second] the notification. *)
Definition initialize_params : InitializeParams :=
  {| ip_protocol_version := consts.PROTOCOL_VERSION; ip_capabilities := JObject [];
     ip_client_info := Some {| im_name := "mcp-events-client"; im_version := CARGO_PKG_VERSION; im_title := None |} |}.

Definition with_session (c : EventsClient) (sid : option string) : EventsClient :=
  {| cl_base_url := cl_base_url c; cl_bearer := cl_bearer c; cl_http := cl_http c;
     cl_session_id := match sid with Some s => Some s | None => cl_session_id c end;
     cl_initialized := cl_initialized c; cl_next_id := cl_next_id c |}.

Definition set_initialized (c : EventsClient) : EventsClient :=
  {| cl_base_url := cl_base_url c; cl_bearer := cl_bearer c; cl_http := cl_http c; cl_session_id := cl_session_id c;
     cl_initialized := true; cl_next_id := cl_next_id c |}.

Definition initialize (first second : PostRequest -> option PostResponse) (c : EventsClient)
    : EventsClient * result ClientError InitializeResult :=
  let '(id, c) := next_id c in
  match builder c with
  | Err e => (c, Err e)
  | Ok headers =>
      match first (post_json c headers (enc_JsonRpcRequest
              (request (Num_ id) consts.METHOD_INITIALIZE (Some (enc_InitializeParams initialize_params))))) with
      | None => (c, Err (RequestFailed consts.METHOD_INITIALIZE))
      | Some resp =>
          let c := with_session c (rp_header resp HEADER_SESSION) in
          match parse_unary dec_InitializeResult resp (Num_ id) consts.METHOD_INITIALIZE with
          | Err e => (c, Err e)
          | Ok result =>
              let c := set_initialized c in
              (c, headers ← builder c;
                  resp ← ok_or (RequestFailed consts.NOTIF_INITIALIZED)
                           (second (post_json c headers
                              (enc_JsonRpcRequest (notification consts.NOTIF_INITIALIZED None))));
                  if rp_status resp =? 202 then Ok result else Err (NotAccepted (rp_status resp)))
          end
      end
  end.

(** ** events/stream *)
Inductive StreamFrame : Type :=
| SfActive (p : EventsActiveParams)
| SfEvent (o : EventOccurrence)
| SfHeartbeat (p : EventsHeartbeatParams)
| SfError (p : EventsErrorParams)
| SfTerminated (p : EventsTerminatedParams)
| SfResult.

Inductive FrameOutcome : Type := FrameOf (f : StreamFrame) | Fatal (e : ClientError) | Skip.

(** The decoder a notification's method selects. *)
Definition notification_frame (method : string) (params : Value) : option StreamFrame :=
  if bool_decide (method = consts.NOTIF_EVENTS_ACTIVE) then SfActive <$> dec_EventsActiveParams params
  else if bool_decide (method = consts.NOTIF_EVENTS_EVENT) then SfEvent <$> dec_EventOccurrence params
  else if bool_decide (method = consts.NOTIF_EVENTS_HEARTBEAT) then SfHeartbeat <$> dec_EventsHeartbeatParams params
  else if bool_decide (method = consts.NOTIF_EVENTS_ERROR) then SfError <$> dec_EventsErrorParams params
  else if bool_decide (method = consts.NOTIF_EVENTS_TERMINATED) then SfTerminated <$> dec_EventsTerminatedParams params
  else None.

(** Whether a frame carries the id of its stream; the client warns if not,
    and goes on. *)
Definition check_subscription_id (params : Value) (expected : RequestId) : bool :=
  match value_get "_meta" params ≫= value_get consts.META_SUBSCRIPTION_ID, expected with
  | Some (JNumber n), Num_ e => bool_decide (num_as_i64 n = Some e)
  | Some (JString s), Str_ e => bool_decide (s = e)
  | _, _ => false
  end.

Definition parse_stream_frame (data : string) : FrameOutcome :=
  match json_from_str data with
  | None => Skip
  | Some v =>
      match value_get "method" v ≫= as_str with
      | Some method =>
          match notification_frame method (default JNull (value_get "params" v)) with
          | Some f => FrameOf f
          | None => Skip
          end
      | None =>
          match value_get "result" v, value_get "error" v with
          | None, None => Skip
          | _, _ =>
              match dec_JsonRpcResponse v with
              | Some rpc =>
                  match rs_error rpc with
                  | Some e => Fatal (Rpc (rpc_error_from e))
                  | None => FrameOf SfResult
                  end
              | None => Fatal BadFinalFrame
              end
          end
      end
  end.

(** What the stream yields for the events of one chunk, and whether it goes
    on after them. *)
Fixpoint yield_events (evs : list SseEvent) : list (result ClientError StreamFrame) * bool :=
  match evs with
  | [] => ([], true)
  | ev :: evs' =>
      match parse_stream_frame (se_data ev) with
      | FrameOf SfResult => ([Ok SfResult], false)
      | FrameOf f => let '(out, go) := yield_events evs' in (Ok f :: out, go)
      | Fatal e => ([Err e], false)
      | Skip => yield_events evs'
      end
  end.

(** The body as it arrives: chunks, [None] a failed read. *)
Fixpoint read_stream (p : SseParser) (body : list (option string)) : list (result ClientError StreamFrame) :=
  match body with
  | [] => match (finish p).2 with
          | Some ev => match parse_stream_frame (se_data ev) with
                       | FrameOf f => [Ok f]
                       | Fatal e => [Err e]
                       | Skip => []
                       end
          | None => []
          end
  | None :: _ => [Err (BodyFailed consts.METHOD_EVENTS_STREAM)]
  | Some chunk :: body' =>
      let '(p, evs) := push p chunk in
      let '(out, go) := yield_events evs in
      if go then out ++ read_stream p body' else out
  end.

(** The response to an [events/stream] request: its head, with the whole body
    ([rp_body]) for a JSON answer and its chunks for a stream. *)
Definition client_stream (exchange : PostRequest -> option (PostResponse * list (option string))) (c : EventsClient)
    (params : StreamEventsParams) : EventsClient * result ClientError (list (result ClientError StreamFrame)) :=
  let m := consts.METHOD_EVENTS_STREAM in
  let '(id, c') := next_id c in
  (c', req ← call_request c id m (Some (enc_StreamEventsParams params));
       r ← ok_or (RequestFailed m) (exchange req);
       let '(resp, body) := r : PostResponse * list (option string) in
       let ct := content_type resp in
       if starts_with "application/json" ct then
         text ← ok_or (BodyFailed m) (rp_body resp);
         rpc ← ok_or (BadResponse m) (json_from_str text ≫= dec_JsonRpcResponse);
         match rs_error rpc, rs_result rpc with
         | Some e, _ => Err (Rpc (rpc_error_from e))
         | None, Some _ => Ok [Ok SfResult]
         | None, None => Err (NoResult m)
         end
       else if negb (starts_with "text/event-stream" ct) then Err (UnexpectedType m (rp_status resp) ct)
       else if negb (is_success (rp_status resp)) then Err (HttpStatus m (rp_status resp))
       else Ok (read_stream sse_new body)).
(** ** Theorems *)
Definition answer (status : Z) (ct body : string) : PostResponse :=
  {| rp_status := status; rp_header n := if bool_decide (n = "content-type") then Some ct else None;
     rp_body := Some body |}.

Definition response_text (r : JsonRpcResponse) : string := value_to_string (enc_JsonRpcResponse r).

Context {JL : JsonLaws J} {SL : SerdeLaws S}.

Lemma response_text_back r :
  wire_ok r -> wf_value (enc_JsonRpcResponse r) ->
  json_from_str (response_text r) ≫= dec_JsonRpcResponse = Some r.
Proof. intros Hr Hw. unfold response_text. rewrite json_from_to by done. apply (decode_encode r Hr). Qed.

(** The text of a message that is no response to [id]. *)
Definition not_for (id : RequestId) (t : string) : Prop :=
  forall r, json_from_str t ≫= dec_JsonRpcResponse = Some r -> rs_id r <> Some id.

Lemma pick_response_skip id last ts :
  Forall (not_for id) ts ->
  exists last', forall evs, pick_response id last ((plain_event sse_new <$> ts) ++ evs) = pick_response id last' evs.
Proof.
  intros Ht. revert last. induction Ht as [|t ts Ht _ IH]; intros last; [by exists last|]. csimpl.
  destruct (json_from_str t ≫= dec_JsonRpcResponse) as [r|] eqn:E.
  - rewrite bool_decide_eq_false_2 by by apply Ht. apply IH.
  - apply IH.
Qed.

Lemma push_blocks bs :
  Forall block_ok bs ->
  push sse_new (str_concat (block_text <$> bs)) = (sse_new, plain_event sse_new <$> omap block_data bs).
Proof. intros Hb. exact (drain_blocks sse_new bs (conj eq_refl eq_refl) Hb). Qed.

Lemma unary_response_blocks id pre r post :
  wire_ok r -> wf_value (enc_JsonRpcResponse r) -> rs_id r = Some id ->
  Forall block_ok (pre ++ DataBlock (response_text r) :: post) -> Forall (not_for id) (omap block_data pre) ->
  unary_response_from_sse (str_concat (block_text <$> pre ++ DataBlock (response_text r) :: post)) id = Some r.
Proof.
  intros Hr Hw Hid Hb Hn. unfold unary_response_from_sse. rewrite (push_blocks _ Hb), omap_app. csimpl. rewrite fmap_app, <- (assoc_L (++)).
  destruct (pick_response_skip id None _ Hn) as [last E]. rewrite E.
  csimpl. rewrite response_text_back by done. by rewrite bool_decide_eq_true_2.
Qed.

(** The two transports of a unary response are equivalent: a server may
    answer with the JSON body, or with an event stream that carries the
    response after other messages (requests and notifications of its own,
    or responses to other ids) and comments; the caller gets the same
    outcome. *)
Theorem unary_transport {T} (dec : Value -> option T) status id method r pre post :
  wire_ok r -> wf_value (enc_JsonRpcResponse r) -> rs_id r = Some id ->
  Forall block_ok (pre ++ DataBlock (response_text r) :: post) -> Forall (not_for id) (omap block_data pre) ->
  parse_unary dec (answer status "text/event-stream"
    (str_concat (block_text <$> pre ++ DataBlock (response_text r) :: post))) id method =
  parse_unary dec (answer status "application/json" (response_text r)) id method.
Proof.
  intros Hr Hw Hid Hb Hn. unfold parse_unary. simpl.
  rewrite (unary_response_blocks id pre r post) by done. by rewrite response_text_back.
Qed.

(** What a caller gets for an answer. *)
Lemma parse_unary_answer {T} (dec : Value -> option T) status r id method :
  wire_ok r -> wf_value (enc_JsonRpcResponse r) ->
  parse_unary dec (answer status "application/json" (response_text r)) id method =
  match rs_error r with
  | Some e => Err (Rpc (rpc_error_from e))
  | None =>
      if is_success status then
        result ← ok_or (NoResult method) (rs_result r); ok_or (BadResult method) (dec result)
      else Err (HttpStatus method status)
  end.
Proof. intros Hr Hw. unfold parse_unary. simpl. by rewrite response_text_back. Qed.

(** The requests of a client: consecutive ids, and the events-specific
    metadata added only where the caller set none. *)
Lemma call_next_id {T} (dec : Value -> option T) exchange c method params :
  (call dec exchange c method params).1 = (next_id c).2.
Proof. unfold call. by destruct (next_id c). Qed.

Lemma with_stateless_meta_get k (m : Map) :
  value_get k (with_stateless_meta (Some (JObject m))) =
  if decide (k = "_meta") then Some (default stateless_meta (map_get "_meta" m)) else map_get k m.
Proof.
  simpl. unfold map_entry_or_insert. destruct (map_get "_meta" m) as [v|] eqn:E.
  - case_decide; subst; by rewrite ?E.
  - rewrite map_get_insert. by case_decide.
Qed.
End client.

(** ** Examples *)
Definition ex_notice : string := value_to_string (J := ZJson) (enc_JsonRpcRequest (notification "notifications/message" None)).

Definition ex_success : JsonRpcResponse (J := ZJson) := success (Num_ 1) (json_obj [("ok", JBool true)]).

Lemma unary_transport_witness :
  parse_unary (S := ZSerde) dec_value (answer 200 "text/event-stream"
    (str_concat (block_text <$> [DataBlock ex_notice] ++ DataBlock (response_text ex_success) :: []))) (Num_ 1) "m" =
  Ok (json_obj [("ok", JBool true)]).
Proof.
  rewrite (unary_transport (S := ZSerde) (SL := ZSerde_laws) dec_value 200 (Num_ 1) "m" ex_success [DataBlock ex_notice] []).
  - reflexivity.
  - (split; [|split]); intros ? [=]; subst; [split; discriminate|discriminate].
  - apply json_struct_wf. repeat (apply Forall_cons; split); try exact I; [|constructor].
    apply json_obj_wf. by repeat constructor.
  - reflexivity.
  - repeat constructor.
  - apply Forall_singleton. intros r Hr.
    assert (rs_id <$> (json_from_str (SerdeLib := ZSerde) ex_notice ≫= dec_JsonRpcResponse) = Some None) as H
      by (vm_compute; reflexivity).
    rewrite Hr in H. injection H as H. rewrite H. discriminate.
Defined.
