(* ===== verification/ClientServer.v ===== *)
(** * The client against the server.

    The two ends of the wire composed: the request a client sends is the one
    the server handles, and what the client gets is what the handler
    answered or the stream yielded, however the bytes travel. *)
From S2P Require Import Prelude RustStd Lib Json Canon Wire Codec Buffer History Registry Store Signing Ssrf.
From S2P Require Import Config Mapping State Handlers Subscribe Stream Dispatch JsonText Base Utf8 SseText ClientSse Client.

(** The first header of a name. *)
Fixpoint header_get (n : string) (l : list (string * string)) : option string :=
  match l with
  | [] => None
  | (k, v) :: l' => if decide (n = k) then Some v else header_get n l'
  end.

(** [HeaderValue::to_str]: visible ASCII, blanks and tabs. *)
Definition visible_ascii (s : string) : bool :=
  str_forall (fun c => bool_decide (c = "009"%char) || ((32 <=? N_of_ascii c) && (N_of_ascii c <? 127))%N) s.

Section wire.
Context {J : JsonLib} {C : Chrono} {Y : Crypto} {S : SerdeLib} {U : UrlLib} {D : DebugLib}.

(** What the server sees of a POST, and what the client sees of an answer
    that is no stream ([None]: none comes). *)
Definition as_http (r : PostRequest) : HttpRequest :=
  {| hr_method := "POST";
     hr_header n := v ← header_get n (po_headers r); if visible_ascii v then Some v else None;
     hr_body := if Z.of_nat (String.length (po_body r)) <=? MAX_BODY_BYTES then Some (po_body r) else None |}.

Definition as_answer (r : Response) : option PostResponse :=
  match r with
  | Json st b => Some (answer st "application/json" (response_text b))
  | JsonValue st v => Some (answer st "application/json" (value_to_string v))
  | AcceptedEmpty => Some {| rp_status := 202; rp_header _ := None; rp_body := Some "" |}
  | Sse _ | Forwarded _ | Aborted => None
  end.

Context {JL : JsonLaws J} {SL : SerdeLaws S}.

(** ** Requests *)
Lemma map_get_or_insert k k' v (m : Map) : k <> k' -> map_get k (map_entry_or_insert k' v m) = map_get k m.
Proof.
  intros H. unfold map_entry_or_insert. destruct (map_get k' m); [done|]. by rewrite map_get_insert, decide_False.
Qed.

Lemma map_or_insert_wf k v (m : Map) :
  wf_value v -> wf_value (JObject m) -> wf_value (JObject (map_entry_or_insert k v m)).
Proof.
  intros Hv Hm. unfold map_entry_or_insert. destruct (map_get k m); [done|].
  rewrite wf_object in *. destruct Hm as [Hs Hm]. split; [by apply map_insert_sorted|].
  by apply (map_insert_Forall (fun kv => wf_value kv.2)).
Qed.

Lemma stateless_meta_wf : wf_value stateless_meta.
Proof. repeat first [apply json_obj_wf|constructor]. Qed.

Lemma with_stateless_meta_wf params :
  (forall v, params = Some v -> wf_value v) -> wf_value (with_stateless_meta params).
Proof.
  intros H. apply map_or_insert_wf; [apply stateless_meta_wf|].
  destruct params as [[]|]; try (apply wf_object; split; constructor). by apply H.
Qed.

Lemma request_wf id method v : wf_value v -> wf_value (enc_JsonRpcRequest (request (Num_ id) method (Some v))).
Proof. intros Hv. apply json_struct_wf. by repeat constructor. Qed.

(** The caller a client's token names. *)
Definition client_principal (s0 : AppState) (c : EventsClient) : option string :=
  token ← cl_bearer c;
  if visible_ascii token then principal_for_token (a_config s0) (trim token) else None.

Lemma visible_ascii_app a b : visible_ascii (a +:+ b) = visible_ascii a && visible_ascii b.
Proof. unfold visible_ascii. induction a as [|x a IH]; [done|]. simpl. by rewrite IH, andb_assoc. Qed.

Lemma client_principal_eq s0 c id method params req :
  call_request c id method params = Ok req ->
  principal_from_headers (a_config s0) (hr_header (as_http req)) = client_principal s0 c.
Proof.
  unfold call_request, stateless_builder, client_principal. destruct (cl_http c); [|done]. intros [= <-].
  unfold principal_from_headers, bearer_headers. destruct (cl_bearer c) as [token|]; [|done].
  cbn [hr_header as_http po_headers post_json app header_get decide mbind option_bind]. simpl.
  rewrite visible_ascii_app. simpl. by destruct (visible_ascii token).
Qed.

Lemma hybrid_request s0 t q body id method params :
  hr_method q = "POST" -> hr_body q = Some body -> hr_header q "mcp-method" = Some method ->
  starts_with "events/" method = true ->
  json_from_str body ≫= dec_JsonRpcRequest = Some (request id method params) ->
  handle_hybrid s0 t q = dispatch s0 t (principal_from_headers (a_config s0) (hr_header q)) id method params.
Proof.
  intros Hm Hb Hh Hp Hj. unfold handle_hybrid, sniff_method. rewrite Hm, Hb, Hh, Hp. simpl.
  unfold handle_events_rpc. destruct (json_from_str body) as [v|]; [|done]. simpl in Hj. rewrite Hj. simpl.
  by rewrite bool_decide_eq_true_2.
Qed.

(** The server handles a client's request for what it is. *)
Lemma client_request_handled s0 t c id method params req :
  call_request c id method params = Ok req -> i64_ok id ->
  (forall v, params = Some v -> wf_value v) ->
  starts_with "events/" method = true -> visible_ascii method = true ->
  Z.of_nat (String.length (po_body req)) <= MAX_BODY_BYTES ->
  handle_hybrid s0 t (as_http req) =
  dispatch s0 t (client_principal s0 c) (Num_ id) method (Some (with_stateless_meta params)).
Proof.
  intros Hreq Hid Hp Hm Hv Hlen. rewrite <- (client_principal_eq s0 _ _ _ _ _ Hreq).
  unfold call_request, stateless_builder in Hreq. destruct (cl_http c); [|done]. injection Hreq as <-.
  eapply hybrid_request; [done| | |done|].
  - cbn [as_http hr_body]. by rewrite (proj2 (Z.leb_le _ _)).
  - simpl. by rewrite Hv.
  - cbn [po_body post_json]. rewrite json_from_to by (apply request_wf; by apply with_stateless_meta_wf).
    refine (decode_encode (request (Num_ id) method (Some (with_stateless_meta params))) _). split; intros ? [= <-]; [exact Hid|discriminate].
Qed.

(** ** Outcomes *)
Definition outcome_ok (o : result JsonRpcError Value) : Prop :=
  match o with
  | Ok v => v <> JNull /\ wf_value v
  | Err e => wire_ok e /\ (forall v, err_data e = Some v -> wf_value v)
  end.

(** A result as it is answered. *)
Definition stamped (v : Value) : Value :=
  match v with JObject m => JObject (map_entry_or_insert "resultType" (JString "complete") m) | _ => v end.

Lemma error_wf e : opt_ok wf_value (err_data e) -> wf_value (enc_JsonRpcError e).
Proof.
  intros H. apply json_struct_wf. repeat (apply Forall_cons; split); try done. simpl.
  destruct (err_data e); [by apply H|done].
Qed.

Lemma response_wf b :
  opt_ok wf_value (rs_result b) -> (forall e, rs_error b = Some e -> wf_value (enc_JsonRpcError e)) ->
  wf_value (enc_JsonRpcResponse b).
Proof.
  intros Hr He. apply json_struct_wf. repeat (apply Forall_cons; split); try done; simpl.
  - by destruct (rs_id b) as [[]|].
  - destruct (rs_result b); [by apply Hr|done].
  - destruct (rs_error b); [by apply He|done].
Qed.

Lemma call_outcome {T} (dec : Value -> option T) c id method params req r outcome :
  next_id c = (id, (next_id c).2) -> call_request c id method params = Ok req -> i64_ok id ->
  outcome_ok outcome -> r = respond (Num_ id) outcome ->
  (call dec (fun _ => as_answer r) c method params).2 =
  match outcome with
  | Ok v => ok_or (BadResult method) (dec (stamped v))
  | Err e => Err (Rpc (rpc_error_from e))
  end.
Proof.
  intros Hn Hreq Hid Ho ->. unfold call. rewrite Hn. cbn [snd]. rewrite Hreq. cbn [mbind result_bind].
  assert (forall b, wire_ok b -> wf_value (enc_JsonRpcResponse b) ->
    (resp ← ok_or (RequestFailed method) (as_answer (Json 200 b)); parse_unary dec resp (Num_ id) method) =
    match rs_error b with
    | Some e => Err (Rpc (rpc_error_from e))
    | None => result ← ok_or (NoResult method) (rs_result b); ok_or (BadResult method) (dec result)
    end) as Hparse.
  { intros b Hb Hw. pose proof (parse_unary_answer dec 200 b (Num_ id) method Hb Hw) as E. exact E. }
  assert (forall v, v <> JNull -> wf_value v ->
    (resp ← ok_or (RequestFailed method) (as_answer (Json 200 (success (Num_ id) v)));
     parse_unary dec resp (Num_ id) method) = ok_or (BadResult method) (dec v)) as Hok.
  { intros v Hv Hw. rewrite Hparse; [done| |apply response_wf; [by intros ? [= <-]|done]].
    (split; [|split]); intros ? [=]; by subst. }
  destruct outcome as [v|e]; simpl in Ho.
  - destruct Ho as [Hv Hw]. destruct v as [| | | | |m]; try (by apply Hok); try done.
    apply Hok; [done|]. by apply map_or_insert_wf.
  - destruct Ho as [He Hw]. unfold respond, respond_failure. rewrite Hparse; [done| |].
    + (split; [|split]); intros ? [=]; by subst.
    + apply response_wf; [done|]. intros ? [= <-]. by apply error_wf.
Qed.

(** ** events/poll *)
Lemma poll_params_read p :
  wire_ok p -> dec_PollEventsParams (with_stateless_meta (Some (enc_PollEventsParams p))) = Some p.
Proof.
  intros Hp. rewrite <- (decode_encode p Hp). unfold decode; simpl. unfold dec_PollEventsParams, with_stateless_meta.
  unfold enc_PollEventsParams, json_struct, json_obj. cbn [struct_view mbind option_bind].
  by rewrite !map_get_or_insert.
Qed.

Lemma poll_result_read r : wire_ok r -> dec_PollEventsResult (stamped (enc_PollEventsResult r)) = Some r.
Proof.
  intros Hr. rewrite <- (decode_encode r Hr). unfold decode; simpl. unfold dec_PollEventsResult, stamped.
  unfold enc_PollEventsResult, json_struct, json_obj. cbn [struct_view mbind option_bind].
  by rewrite !map_get_or_insert.
Qed.

Lemma poll_params_wf p : opt_ok wf_value (pp_params p) -> wf_value (enc_PollEventsParams p).
Proof.
  intros H. apply json_struct_wf. repeat (apply Forall_cons; split); try done; simpl.
  - destruct (pp_params p); [by apply H|done].
  - by destruct (pp_cursor p).
  - by destruct (pp_max_age_ms p).
  - by destruct (pp_max_events p).
Qed.

Lemma occurrence_wf o :
  wf_value (eo_data o) -> opt_ok wf_value (eo_meta o) -> wf_value (enc_EventOccurrence o).
Proof.
  intros Hd Hm. apply json_struct_wf. repeat (apply Forall_cons; split); try done; simpl.
  - by destruct (eo_cursor o) as [[]|].
  - destruct (eo_meta o); [by apply Hm|done].
Qed.

Lemma poll_result_wf r :
  Forall (fun o => wf_value (eo_data o) /\ eo_meta o = None) (pr_events r) -> wf_value (enc_PollEventsResult r).
Proof.
  intros H. apply json_struct_wf. repeat (apply Forall_cons; split); try done; simpl.
  - apply wf_array, Forall_fmap. eapply Forall_impl; [exact H|]. intros o [Hd Hm]. apply occurrence_wf; [done|].
    by rewrite Hm.
  - by destruct (pr_cursor r).
Qed.

Lemma read_loop_Forall (P : EventOccurrence -> Prop) n fl p f cap l s :
  (forall e, P (poll_occurrence n e)) -> Forall P (lo_events s) -> Forall P (lo_events (read_loop n fl p f cap l s)).
Proof.
  intros HP. revert s. induction l as [|x l IH]; intros s Hs; simpl; [done|].
  destruct (below_floor _ _); [by apply IH|]. destruct (negb _); [by apply IH|]. destruct (cap_reached _ _); [done|].
  apply IH. apply Forall_app. split; [done|]. by constructor.
Qed.

Lemma read_no_meta b now n c age max p f :
  Forall (fun o => eo_meta o = None) (rr_events (read b now n c age max p f).2).
Proof.
  unfold read, read_state. destruct c as [c|]; [|done]. destruct (read_start _ _ _). simpl.
  by apply read_loop_Forall.
Qed.

(** The guards' errors are fit for the wire. *)
Lemma validate_params_error names n params e :
  validate_event_params names n params = Err e -> exists msg, e = invalid_params msg.
Proof. unfold validate_event_params. repeat case_match; intros [= <-]; eauto. Qed.

Lemma check_event_error s mode n params e : check_event s mode n params = Err e -> outcome_ok (Err e).
Proof.
  unfold check_event. intros H. assert (forall code msg data, i64_ok code -> opt_ok value_ok data ->
    opt_ok wf_value data -> outcome_ok (Err (new_error code msg data))) as Hok by (intros; by split).
  destruct (registry_get _ _) as [d|]; simpl in H.
  - case_bool_decide.
    + destruct (validate_event_params _ _ _) as [[]|e'] eqn:Ev; simpl in H; [done|]. injection H as ->.
      apply validate_params_error in Ev as [msg ->]. by apply Hok.
    + injection H as <-. apply Hok; [done| |]; intros ? [= <-]; [done|]. apply json_obj_wf. by repeat constructor.
  - injection H as <-. apply Hok; [done| |]; intros ? [= <-]; [done|]. apply json_obj_wf. by repeat constructor.
Qed.

(** C38. events/poll end to end: a client's [poll] against the server, with
    other tasks at work before and after, returns exactly the batch that the
    buffer's read gives for the parameters (its events, cursor, [truncated]
    and [hasMore]), or fails with exactly the error of the guard the request
    violates; the only change to the server is the read's own.  (Values are
    as serde_json makes them: the entries of an object sorted.) *)
Theorem poll_end_to_end c p req s0 t s r s' :
  call_request c (cl_next_id c) consts.METHOD_EVENTS_POLL (Some (enc_PollEventsParams p)) = Ok req ->
  i64_ok (cl_next_id c) -> wire_ok p -> opt_ok wf_value (pp_params p) ->
  Z.of_nat (String.length (po_body req)) <= MAX_BODY_BYTES -> u64_ok (next_poll_ms (c_poll (a_config s))) ->
  exec (handle_hybrid s0 t (as_http req)) s r s' ->
  let got := (client_poll (fun _ => as_answer r) c p).2 in
  match check_event s Poll (pp_name p) (pp_params p) with
  | Err e => got = Err (Rpc (rpc_error_from e)) /\ AppSteps s s'
  | Ok _ =>
      let '(b, res) := read (a_buffer s) (rc_poll t) (pp_name p) (pp_cursor p) (pp_max_age_ms p)
                         (pp_max_events p) (pp_params p) (a_filters s !! pp_name p) in
      AppSteps (with_buffer s b) s' /\
      (Forall (fun o => wf_value (eo_data o)) (rr_events res) ->
       got = Ok {| pr_events := rr_events res; pr_cursor := Some (rr_cursor res);
                   pr_truncated := rr_truncated res; pr_has_more := rr_has_more res;
                   pr_next_poll_ms := next_poll_ms (c_poll (a_config s)) |})
  end.
Proof.
  intros Hreq Hid Hp Hpw Hlen Hpoll Hex got.
  rewrite (client_request_handled s0 t c _ _ _ req Hreq Hid) in Hex by (done || (intros ? [= <-]; by apply poll_params_wf)).
  unfold dispatch in Hex. rewrite bool_decide_eq_false_2, bool_decide_eq_true_2 in Hex by done.
  destruct Hex as (s1 & Hs1 & -> & ->).
  assert (forall out, (poll_handle s (rc_poll t) (Some (with_stateless_meta (Some (enc_PollEventsParams p))))).2 = out ->
    outcome_ok out -> got = match out with
      | Ok v => ok_or (BadResult consts.METHOD_EVENTS_POLL) (dec_PollEventsResult (stamped v))
      | Err e => Err (Rpc (rpc_error_from e))
      end) as Hgot.
  { intros out <- Ho. unfold got, client_poll. by eapply call_outcome. }
  clearbody got.
  unfold poll_handle, parse_params in *. unfold with_stateless_meta at 1 in Hs1. unfold with_stateless_meta at 1 in Hgot.
  change (JObject (map_entry_or_insert "_meta" stateless_meta
    match Some (enc_PollEventsParams p) with Some (JObject m) => m | _ => [] end))
    with (with_stateless_meta (Some (enc_PollEventsParams p))) in *.
  rewrite poll_params_read in Hs1, Hgot by done.
  destruct (check_event s Poll (pp_name p) (pp_params p)) as [d|e] eqn:Ec.
  - destruct (read _ _ _ _ _ _ _ _) as [b res] eqn:Er. split; [exact Hs1|]. intros Hw.
    pose proof (read_no_meta (a_buffer s) (rc_poll t) (pp_name p) (pp_cursor p) (pp_max_age_ms p)
      (pp_max_events p) (pp_params p) (a_filters s !! pp_name p)) as Hm. rewrite Er in Hm. simpl in Hm.
    specialize (Hgot _ eq_refl). cbn [snd] in Hgot. rewrite Hgot.
    + rewrite poll_result_read; [done|]. split; [|done]. eapply Forall_impl; [exact Hm|]. intros o E x. by rewrite E.
    + split; [done|]. apply poll_result_wf. simpl. apply Forall_and. by split.
  - split; [|exact Hs1]. apply (Hgot _ eq_refl). by eapply check_event_error.
Qed.

(** ** events/stream *)

(** A frame as its [data:] line carries it, and as the client sees it. *)
Definition frame_value (f : Frame) : Value :=
  match frame_message f with inl n => enc_JsonRpcRequest n | inr r => enc_JsonRpcResponse r end.

Definition frame_text (f : Frame) : string := value_to_string (frame_value f).

Definition client_frame (f : Frame) : StreamFrame :=
  match f with
  | ActiveFrame p => SfActive p
  | EventFrame o => SfEvent o
  | HeartbeatFrame p => SfHeartbeat p
  | FinalFrame _ => SfResult
  end.

Definition is_final (f : Frame) : bool := match f with FinalFrame _ => true | _ => false end.

(** What the frames of a stream are: metadata is present, and the final
    response is a success. *)
Definition frame_ok (f : Frame) : Prop :=
  match f with
  | EventFrame o => opt_ok value_ok (eo_meta o)
  | FinalFrame r => wire_ok r /\ is_Some (rs_result r) /\ rs_error r = None
  | _ => True
  end.

Lemma parse_notification m (v : Value) f :
  wf_value (enc_JsonRpcRequest (notif m v)) -> notification_frame m v = Some f ->
  parse_stream_frame (value_to_string (enc_JsonRpcRequest (notif m v))) = FrameOf f.
Proof.
  intros Hw Hf. unfold parse_stream_frame. rewrite json_from_to by done. unfold enc_JsonRpcRequest.
  rewrite !json_struct_get by keys_distinct_tac. simpl. by rewrite Hf.
Qed.

Lemma parse_frame f :
  frame_ok f -> wf_value (frame_value f) -> parse_stream_frame (frame_text f) = FrameOf (client_frame f).
Proof.
  unfold frame_text, frame_value. destruct f as [p|o|p|r]; cbn [frame_message frame_ok client_frame]; intros Hf Hw.
  - apply (parse_notification _ _ _ Hw). unfold notification_frame. cbn. pose proof (decode_encode p I) as E.
    unfold decode, encode in E. simpl in E. by rewrite E.
  - apply (parse_notification _ _ _ Hw). unfold notification_frame. cbn. pose proof (decode_encode o Hf) as E.
    unfold decode, encode in E. simpl in E. by rewrite E.
  - apply (parse_notification _ _ _ Hw). unfold notification_frame. cbn. pose proof (decode_encode p I) as E.
    unfold decode, encode in E. simpl in E. by rewrite E.
  - destruct Hf as (Hr & [v Hv] & He). unfold parse_stream_frame. rewrite json_from_to by done.
    pose proof (decode_encode r Hr) as Hd. unfold decode, encode in Hd. simpl in Hd. rewrite Hd.
    unfold enc_JsonRpcResponse. rewrite !json_struct_get by keys_distinct_tac. simpl. by rewrite Hv, He.
Qed.

(** The final frame of a list of frames, if any, is the last. *)
Fixpoint final_last (fs : list Frame) : Prop :=
  match fs with [] => True | f :: fs' => (is_final f = true -> fs' = []) /\ final_last fs' end.

Lemma yield_frames fs :
  Forall frame_ok fs -> Forall (fun f => wf_value (frame_value f)) fs -> final_last fs ->
  yield_events (plain_event sse_new <$> (frame_text <$> fs)) = (Ok ∘ client_frame <$> fs, negb (existsb is_final fs)).
Proof.
  induction fs as [|f fs IH]; [done|]. intros [Hf Hfs]%Forall_cons [Hw Hws]%Forall_cons [Hl Hls]. csimpl.
  rewrite parse_frame by done. specialize (IH Hfs Hws Hls).
  destruct f as [p|o|p|r]; simpl; try (by rewrite IH). by rewrite (Hl eq_refl).
Qed.

Lemma yield_events_app a b :
  yield_events (a ++ b) =
  let '(out, go) := yield_events a in
  if go then let '(out', go') := yield_events b in (out ++ out', go') else (out, false).
Proof.
  induction a as [|ev a IH]; simpl; [by destruct (yield_events b)|].
  destruct (parse_stream_frame (se_data ev)) as [[]| |]; try done; try (rewrite IH);
    destruct (yield_events a) as [out []]; try done; by destruct (yield_events b).
Qed.

(** Reading chunk by chunk is reading all at once. *)
Lemma read_stream_chunks p chunks rest :
  read_stream p ((Some <$> chunks) ++ rest) =
  let '(p', evs) := push_all p chunks in
  let '(out, go) := yield_events evs in if go then out ++ read_stream p' rest else out.
Proof.
  revert p. induction chunks as [|c l IH]; intros p; [done|]. csimpl.
  destruct (push p c) as [p1 e1]. rewrite IH. destruct (push_all p1 l) as [p2 e2].
  rewrite yield_events_app. destruct (yield_events e1) as [o1 []]; [|done].
  destruct (yield_events e2) as [o2 []]; [|done]. by rewrite (assoc_L (++)).
Qed.

Lemma push_prefix a b : (push sse_new a).2 `prefix_of` (push sse_new (a +:+ b)).2.
Proof.
  change (push sse_new a) with (drain (with_buf sse_new a)).
  change (push sse_new (a +:+ b)) with (drain (with_buf sse_new (a +:+ b))).
  pose proof (drain_app (with_buf sse_new a) b) as H.
  change (lp_set (with_buf sse_new a) (lp_get (with_buf sse_new a) +:+ b)) with (with_buf sse_new (a +:+ b)) in H.
  rewrite H.
  destruct (drain (with_buf sse_new a)) as [p1 o1]. destruct (drain (lp_set p1 _)) as [p2 o2]. by exists o2.
Qed.

Lemma final_last_app fs k : final_last (fs ++ k) -> final_last fs.
Proof.
  induction fs as [|f fs IH]; [done|]. simpl. intros [H1 H2]. split; [|auto]. intros Hf. specialize (H1 Hf).
  by apply app_eq_nil in H1 as [-> _].
Qed.

(** The frames of a stream's body, complete or cut off at any byte. *)
Lemma read_stream_frames fs bs chunks :
  Forall frame_ok fs -> final_last fs -> Forall (fun f => wf_value (frame_value f)) fs ->
  Forall block_ok bs -> omap block_data bs = frame_text <$> fs ->
  (str_concat chunks = str_concat (block_text <$> bs) ->
   read_stream sse_new (Some <$> chunks) = Ok ∘ client_frame <$> fs) /\
  (forall rest, str_concat chunks +:+ rest = str_concat (block_text <$> bs) ->
   exists got, got `prefix_of` fs /\
     read_stream sse_new ((Some <$> chunks) ++ [None]) =
       (Ok ∘ client_frame <$> got) ++
       (if existsb is_final got then [] else [Err (BodyFailed consts.METHOD_EVENTS_STREAM)])).
Proof.
  intros Hok Hl Hw Hb Hd. split.
  - intros Hc. rewrite <- (app_nil_r (Some <$> chunks)), read_stream_chunks, push_all_concat by done.
    rewrite Hc, (push_blocks _ Hb), Hd, yield_frames by done.
    destruct (negb _); [|done]. simpl. by rewrite app_nil_r.
  - intros rest Hc. rewrite read_stream_chunks, push_all_concat by done.
    pose proof (push_prefix (str_concat chunks) rest) as Hpre. rewrite Hc, (push_blocks _ Hb), Hd in Hpre. simpl in Hpre.
    destruct (push sse_new (str_concat chunks)) as [p evs]. simpl in Hpre.
    assert (exists got, got `prefix_of` fs /\ evs = plain_event sse_new <$> (frame_text <$> got)) as (got & Hgot & ->).
    { destruct Hpre as [k Hk]. exists (take (length evs) fs). split; [apply prefix_take|].
      rewrite !fmap_take, Hk. by rewrite take_app_length. }
    exists got. split; [done|]. destruct Hgot as [k ->]. apply Forall_app in Hok as [Hok _]. apply Forall_app in Hw as [Hw _].
    rewrite yield_frames; [|done..|by eapply final_last_app]. destruct (existsb is_final got); simpl; [by rewrite app_nil_r|done].
Qed.

(** The frames of a run of the server's generator. *)
Lemma read_one_frames c cur age b now b' cur' more o :
  read_one c cur age b now = (b', cur', more, o) ->
  out_frames o = [] \/ exists f, out_frames o = [f] /\ frame_ok f /\ is_final f = false.
Proof.
  unfold read_one. destruct (read _ _ _ _ _ _ _ _) as [b1 r]. destruct (rr_events r) as [|occ l]; intros [= <- <- <- <-].
  - by left.
  - right. eexists. split_conj; [done| |done]. by intros ? [= <-].
Qed.

Lemma stream_step_frames c s b i s' b' o :
  wire_ok (sc_id c) -> stream_step c s b i = Some (s', b', o) ->
  (s_phase s = Finished -> out_frames o = [] /\ s_phase s' = Finished) /\
  (out_frames o = [] \/
   exists f, out_frames o = [f] /\ frame_ok f /\ (is_final f = true -> s_phase s' = Finished)).
Proof.
  intros Hid. assert (forall b, out_frames (yields b) = b) as Hy by done.
  unfold stream_step. destruct i as [op| |now|r|].
  - intros [= <- <- <-]. split; [done|by left].
  - destruct (s_phase s); try done. destruct (live _ _). intros [= <- <- <-]. split; [done|by left].
  - destruct (s_phase s) eqn:Ep; try done; intros H; apply (inj Some) in H; (split; [done|]).
    + unfold probe in H. destruct (read _ _ _ _ _ _ _ _) as [b1 r]. injection H as <- <- <-. right. by eexists.
    + unfold replay in H. destruct (read_one _ _ _ _ _) as [[[b1 cur] more] o1] eqn:Er. injection H as <- <- <-.
      apply read_one_frames in Er as [?|(f & ? & ? & E)]; [by left|right]. exists f. by rewrite E.
    + unfold resync in H. destruct (read_one _ _ _ _ _) as [[[b1 cur] more] o1] eqn:Er. injection H as <- <- <-.
      apply read_one_frames in Er as [?|(f & ? & ? & E)]; [by left|right]. exists f. by rewrite E.
  - destruct r as [|k|]; (destruct (s_phase s) eqn:Ep; try done).
    + destruct (_ !! s_rx s) as [le|]; [|done]. unfold receive.
      destruct (s_last s <? le_seq le); [|intros [= <- <- <-]; split; [done|by left]].
      destruct (match sp_params _ with Some _ => _ | None => _ end); intros [= <- <- <-]; (split; [done|]); [right|by left].
      eexists. split_conj; [done| |done]. by intros ? [= <-].
    + case_bool_decide; [|done]. intros [= <- <- <-]. split; [done|right]. by eexists.
    + case_bool_decide; [|done]. intros [= <- <- <-]. split; [done|right]. eexists. split_conj; [done| |done].
      split; [|by split; [eexists|]]. (split; [|split]); intros ? [=]; by subst.
  - destruct (s_phase s); try done. intros [= <- <- <-]. split; [done|right]. by eexists.
Qed.

Lemma stream_run_frames c l s b s' b' os :
  wire_ok (sc_id c) -> stream_run c s b l = Some (s', b', os) ->
  (s_phase s = Finished -> frames os = []) /\ Forall frame_ok (frames os) /\ final_last (frames os).
Proof.
  intros Hid. revert s b os. induction l as [|i l IH]; intros s b os; simpl; [by intros [= <- <- <-]|].
  intros ([[s1 b1] o] & Hst & ([[s2 b2] os'] & Hrun & [= -> -> <-])%bind_Some)%bind_Some.
  apply stream_step_frames in Hst as [Hfin Hout]; [|done]. apply IH in Hrun as (IHfin & IHok & IHl).
  unfold frames in *. csimpl. split_conj.
  - intros E. destruct (Hfin E) as [-> E']. by apply IHfin.
  - destruct Hout as [-> |(f & -> & Hf & _)]; [done|]. by constructor.
  - destruct Hout as [-> |(f & -> & Hf & Hn)]; [done|]. split; [|done]. intros E. by apply IHfin, Hn.
Qed.

(** Every frame carries the id of its stream: the client never warns. *)
Definition marked (id : RequestId) (f : Frame) : Prop :=
  match frame_message f with
  | inl n => check_subscription_id (default JNull (rq_params n)) id = true
  | inr r => rs_id r = Some id
  end.

Lemma check_meta (c : StreamCfg) : wire_ok (sc_id c) ->
  forall v, value_get "_meta" v = Some (stream_meta c) -> check_subscription_id v (sc_id c) = true.
Proof.
  intros Hid v Hv. unfold check_subscription_id. rewrite Hv. simpl. destruct (sc_id c) as [n|x]; simpl.
  - rewrite num_as_i64_of by exact Hid. by apply bool_decide_eq_true.
  - by apply bool_decide_eq_true.
Qed.

Lemma meta_marked (c : StreamCfg) : wire_ok (sc_id c) ->
  (forall cur tr, marked (sc_id c) (active_frame c cur tr)) /\
  (forall o, eo_meta o = Some (stream_meta c) -> marked (sc_id c) (EventFrame o)) /\
  (forall cur, marked (sc_id c) (HeartbeatFrame {| eh_cursor := Some cur; eh_meta := stream_meta c |})).
Proof.
  intros Hid. split_and!; intros; unfold marked; cbn [frame_message notif notification rq_params default active_frame];
    apply check_meta; try done.
  destruct o; simpl in *. subst. by destruct eo_cursor as [[]|].
Qed.

Lemma read_one_marked c cur age b now : wire_ok (sc_id c) -> Forall (marked (sc_id c)) (out_frames (read_one c cur age b now).2).
Proof.
  intros Hid. unfold read_one. destruct (read _ _ _ _ _ _ _ _) as [b1 r]. destruct (rr_events r) as [|occ l]; [constructor|].
  apply Forall_singleton. by apply meta_marked.
Qed.

Lemma stream_marked c l s b s' b' os :
  wire_ok (sc_id c) -> stream_run c s b l = Some (s', b', os) -> Forall (marked (sc_id c)) (frames os).
Proof.
  intros Hid. revert s b os. induction l as [|i l IH]; intros s b os; simpl; [by intros [= <- <- <-]|].
  intros ([[s1 b1] o] & Hst & ([[s2 b2] os'] & Hrun & [= -> -> <-])%bind_Some)%bind_Some.
  unfold frames. csimpl. apply Forall_app_2; [|by eapply IH]. clear IH Hrun. destruct (meta_marked c Hid) as (Ha & He & Hh).
  unfold stream_step in Hst. destruct i as [op| |now|r|].
  - injection Hst as <- <- <-. constructor.
  - destruct (s_phase s); try done. destruct (live _ _). injection Hst as <- <- <-. constructor.
  - destruct (s_phase s); try done; apply (inj Some) in Hst.
    + unfold probe in Hst. destruct (read _ _ _ _ _ _ _ _) as [b2 r]. injection Hst as <- <- <-. by apply Forall_singleton.
    + unfold replay in Hst. pose proof (read_one_marked c (s_cur s) (sp_max_age_ms (sc_params c)) b now Hid) as H.
      destruct (read_one _ _ _ _ _) as [[[? ?] ?] ?]. by injection Hst as <- <- <-.
    + unfold resync in Hst. pose proof (read_one_marked c (s_cur s) None b now Hid) as H.
      destruct (read_one _ _ _ _ _) as [[[? ?] ?] ?]. by injection Hst as <- <- <-.
  - destruct r as [|k|]; (destruct (s_phase s); try done).
    + destruct (_ !! s_rx s) as [le|]; [|done]. unfold receive in Hst. destruct (s_last s <? le_seq le).
      * destruct (match sp_params _ with Some _ => _ | None => _ end); injection Hst as <- <- <-; [|constructor].
        apply Forall_singleton. by apply He.
      * injection Hst as <- <- <-. constructor.
    + case_bool_decide; [|done]. injection Hst as <- <- <-. by apply Forall_singleton.
    + case_bool_decide; [|done]. injection Hst as <- <- <-. by apply Forall_singleton.
  - destruct (s_phase s); try done. injection Hst as <- <- <-. by apply Forall_singleton.
Qed.

(** C39. events/stream end to end: whatever runs beside the server's
    generator, and however its body is cut into chunks and interspersed with
    keep-alive comments, the client's stream yields exactly the frames the
    server yielded, in order, [Result] for the final response; and when the
    connection breaks at any byte, it yields a prefix of them and then the
    error (the error only if the stream had not ended).  Every frame carries
    the id of its stream, so the client has nothing to warn about. *)
Theorem stream_end_to_end c l b s' b' os bs chunks :
  wire_ok (sc_id c) -> stream_run c stream_new b l = Some (s', b', os) ->
  Forall (fun f => wf_value (frame_value f)) (frames os) ->
  Forall block_ok bs -> omap block_data bs = frame_text <$> frames os ->
  (str_concat chunks = str_concat (block_text <$> bs) ->
   read_stream sse_new (Some <$> chunks) = Ok ∘ client_frame <$> frames os) /\
  (forall rest, str_concat chunks +:+ rest = str_concat (block_text <$> bs) ->
   exists got, got `prefix_of` frames os /\
     read_stream sse_new ((Some <$> chunks) ++ [None]) =
       (Ok ∘ client_frame <$> got) ++
       (if existsb is_final got then [] else [Err (BodyFailed consts.METHOD_EVENTS_STREAM)])) /\
  Forall (marked (sc_id c)) (frames os).
Proof.
  intros Hid Hrun Hw Hb Hd. pose proof (stream_marked _ _ _ _ _ _ _ Hid Hrun) as Hm.
  apply stream_run_frames in Hrun as (_ & Hok & Hl); [|done].
  destruct (read_stream_frames (frames os) bs chunks Hok Hl Hw Hb Hd) as [Hwhole Hbroken]. by split_and!.
Qed.
End wire.

(** ** Examples *)
Section example.
#[local] Existing Instance HttpsUrl.
#[local] Existing Instance PlainDebug.

Definition ex_client : EventsClient := with_bearer (client_new "https://server/mcp" (Ok ())) "token".

Definition ex_poll_params : PollEventsParams (J := ZJson) :=
  {| pp_name := "orders.changed"; pp_params := None; pp_cursor := Some "7:0"; pp_max_age_ms := None;
     pp_max_events := Some 10 |}.

Definition ex_poll_request : PostRequest :=
  match call_request ex_client 1 consts.METHOD_EVENTS_POLL (Some (enc_PollEventsParams ex_poll_params)) with
  | Ok req => req
  | Err _ => {| po_url := ""; po_headers := []; po_body := "" |}
  end.

(** The server, with one event in the ring. *)
Definition ex_state : AppState (J := ZJson) :=
  with_buffer ex_app (buf_step (a_buffer ex_app)
    (OpEmit 0 {| em_name := "orders.changed"; em_event_id := "a"; em_timestamp := 0; em_data := JNull |})).

Definition ex_poll_run := run ex_world (handle_hybrid (S := ZSerde) ex_app ex_rpc_clock (as_http ex_poll_request)) ex_state.

Lemma poll_end_to_end_witness :
  exists res, (client_poll (S := ZSerde) (fun _ => as_answer ex_poll_run.1) ex_client ex_poll_params).2 = Ok res /\
    (eo_event_id <$> pr_events res, pr_cursor res) = (["a"], Some "7:1").
Proof.
  pose proof (poll_end_to_end (S := ZSerde) (SL := ZSerde_laws) (D := PlainDebug) ex_client ex_poll_params ex_poll_request ex_app ex_rpc_clock
    ex_state ex_poll_run.1 ex_poll_run.2) as H.
  assert (match check_event ex_state Poll (pp_name ex_poll_params) (pp_params ex_poll_params) with Ok _ => true | Err _ => false end
    = true) as Hc by (vm_compute; reflexivity).
  specialize (H eq_refl).
  assert (i64_ok (cl_next_id ex_client)) as H1 by (split; discriminate).
  assert (wire_ok ex_poll_params) as H2.
  { split; [by intros ?|]. split; intros ? [=]; subst. split; discriminate. }
  assert (opt_ok wf_value (pp_params ex_poll_params)) as H3 by (intros ? [=]).
  assert (Z.of_nat (String.length (po_body ex_poll_request)) <= MAX_BODY_BYTES) as H4 by (vm_compute; discriminate).
  assert (u64_ok (next_poll_ms (c_poll (a_config ex_state)))) as H5 by (split; discriminate).
  specialize (H H1 H2 H3 H4 H5 (run_exec _ _ _)). cbv zeta in H.
  destruct (check_event _ _ _ _) as [d|e]; [|discriminate Hc].
  assert (let r := (read (a_buffer ex_state) (rc_poll ex_rpc_clock) (pp_name ex_poll_params) (pp_cursor ex_poll_params)
      (pp_max_age_ms ex_poll_params) (pp_max_events ex_poll_params) (pp_params ex_poll_params)
      (a_filters ex_state !! pp_name ex_poll_params)).2 in
    (forallb (fun o => is_null (eo_data o)) (rr_events r), eo_event_id <$> rr_events r, rr_cursor r) =
    (true, ["a"], "7:1")) as Hr by (vm_compute; reflexivity).
  cbv zeta in Hr. destruct (read _ _ _ _ _ _ _ _) as [b res]. injection Hr as Hd Hids Hcur. destruct H as [_ H].
  assert (Forall (fun o => wf_value (eo_data o)) (rr_events res)) as Hw.
  { apply Forall_forall. intros o Ho%list_elem_of_In. rewrite forallb_forall in Hd. specialize (Hd o Ho).
    destruct (eo_data o); [exact I|discriminate Hd..]. }
  specialize (H Hw). eexists. split; [exact H|]. cbn [pr_events pr_cursor]. rewrite Hids, Hcur. reflexivity.
Defined.

(** The stream of [stream_example]'s first transitions, cut in the middle of
    its second line. *)
Definition ex_stream_inputs : list Input := [InSubscribe; InRead 0; InRead 0].
Definition ex_stream_buffer : EventBuffer := buf_run (buffer_new ex_config 7) ex_ops.

Definition ex_stream_end : StreamState * EventBuffer * list Output :=
  default (stream_new, ex_stream_buffer, []) (stream_run (ex_stream "7:1") stream_new ex_stream_buffer ex_stream_inputs).

#[local] Abbreviation ex_frames := (frames ex_stream_end.2).

Definition ex_blocks : list Block := CommentBlock "keep-alive" :: (DataBlock <$> (frame_text <$> ex_frames)).

Definition ex_cut : string := String.substring 0 60 (str_concat (block_text <$> ex_blocks)).
Definition ex_rest : string := String.substring 60 999 (str_concat (block_text <$> ex_blocks)).

Lemma data_blocks (l : list string) : omap block_data (DataBlock <$> l) = l.
Proof. induction l as [|t l IH]; [done|]. csimpl. by rewrite IH. Qed.

Definition block_ok_b (b : Block) : bool :=
  match b with DataBlock t | CommentBlock t => negb (str_has LF t) && negb (str_has CR t) && is_utf8 t end.

Lemma block_ok_b_true b : block_ok_b b = true -> block_ok b.
Proof. destruct b; simpl; by intros [[?%negb_true_iff ?%negb_true_iff]%andb_true_iff ?]%andb_true_iff. Qed.

Lemma ex_stream_run :
  stream_run (ex_stream "7:1") stream_new ex_stream_buffer ex_stream_inputs =
  Some (ex_stream_end.1.1, ex_stream_end.1.2, ex_stream_end.2).
Proof.
  assert (match stream_run (ex_stream "7:1") stream_new ex_stream_buffer ex_stream_inputs with
    Some _ => true | None => false end = true) as H by (vm_compute; reflexivity).
  unfold ex_stream_end. destruct (stream_run _ _ _ _) as [[[s' b'] os]|]; [reflexivity|discriminate H].
Qed.

Lemma ex_frames_wf : Forall (fun f => wf_value (frame_value f)) ex_frames.
Proof.
  assert (forallb (fun f => bool_decide (read_json (frame_text f) = Some (frame_value f))) ex_frames = true) as Hv
    by (vm_compute; reflexivity).
  apply Forall_forall. intros f Hf%list_elem_of_In. rewrite forallb_forall in Hv. specialize (Hv f Hf).
  apply bool_decide_eq_true in Hv. exact (json_from_str_wf (SerdeLaws := ZSerde_laws) _ _ Hv).
Qed.

Lemma ex_blocks_ok : Forall block_ok ex_blocks.
Proof.
  assert (forallb block_ok_b ex_blocks = true) as Hb by (vm_compute; reflexivity).
  apply Forall_forall. intros b Hf%list_elem_of_In. rewrite forallb_forall in Hb. by apply block_ok_b_true, Hb.
Qed.

Lemma ex_blocks_data : omap block_data ex_blocks = frame_text <$> ex_frames.
Proof. exact (data_blocks (frame_text <$> ex_frames)). Qed.

Lemma ex_cut_rest : str_concat [ex_cut] +:+ ex_rest = str_concat (block_text <$> ex_blocks).
Proof. vm_compute. reflexivity. Qed.

Lemma stream_end_to_end_witness :
  length ex_frames = 2%nat /\
  exists got, got `prefix_of` ex_frames /\
    read_stream (S := ZSerde) sse_new ((Some <$> [ex_cut]) ++ [None]) =
    (Ok ∘ client_frame <$> got) ++
      (if existsb is_final got then [] else [Err (BodyFailed consts.METHOD_EVENTS_STREAM)]).
Proof.
  split; [vm_compute; reflexivity|].
  assert (wire_ok (sc_id (ex_stream "7:1"))) as Hid by (split; discriminate).
  exact (proj1 (proj2 (stream_end_to_end (S := ZSerde) (SL := ZSerde_laws) (ex_stream "7:1") ex_stream_inputs ex_stream_buffer
    ex_stream_end.1.1 ex_stream_end.1.2 ex_stream_end.2 ex_blocks [ex_cut]
    Hid ex_stream_run ex_frames_wf ex_blocks_ok ex_blocks_data)) ex_rest ex_cut_rest).
Defined.
End example.
