(* ===== verification/ClientState.v ===== *)
(** * The client's cursor file (crates/mcp-events-client/src/state.rs).

    A file system is a map from paths to contents.  A write or a rename may
    fail, or the process may die in it: a write then leaves the file as it
    was (it could not be opened) or any number of the new bytes, a rename
    changes nothing (it is atomic).  A machine that dies is not modelled: the
    source does not flush the file to disk before it renames it. *)
From S2P Require Import Prelude RustStd Json Wire Codec Buffer Registry Config Mapping State JsonText.

Abbreviation FileSystem := (gmap string string).

Section state.
Context {J : JsonLib} {S : SerdeLib}.

Record CursorState := { cs_cursor : option string }.

#[export] Instance CursorState_eq_dec : EqDecision CursorState.
Proof. solve_decision. Defined.

Definition enc_CursorState (st : CursorState) : Value := json_struct [("cursor", Some (json_opt_str (cs_cursor st)))].

Definition dec_CursorState (v : Value) : option CursorState :=
  f ← struct_view 1 v;
  cursor ← opt_field dec_string (f "cursor" 0%nat);
  Some {| cs_cursor := cursor |}.

Inductive StateError : Type := ReadFailed | ParseFailed | WriteFailed | RenameFailed.

(** [readable]: whether reading an existing file succeeds. *)
Definition load_state (fs : FileSystem) (path : string) (readable : bool) : result StateError (option CursorState) :=
  match fs !! path with
  | None => Ok None
  | Some bytes =>
      if readable then
        match json_from_str bytes ≫= dec_CursorState with
        | Some st => Ok (Some st)
        | None => Err ParseFailed
        end
      else Err ReadFailed
  end.

Definition tmp_path (path : string) : string := path +:+ ".tmp".

(** How a write ends: [Torn k] leaves the first [k] bytes. *)
Inductive WriteOutcome : Type := Written | Torn (k : nat) | NotOpened.

(** [renamed]: whether the rename succeeds. *)
Definition save_state (fs : FileSystem) (path : string) (st : CursorState) (written : WriteOutcome) (renamed : bool)
    : FileSystem * result StateError () :=
  let tmp := tmp_path path in
  let body := value_to_string (enc_CursorState st) in
  match written with
  | NotOpened => (fs, Err WriteFailed)
  | Torn k => (<[tmp := String.substring 0 k body]> fs, Err WriteFailed)
  | Written =>
      let fs1 := <[tmp := body]> fs in
      if renamed then (<[path := body]> (delete tmp fs1), Ok ()) else (fs1, Err RenameFailed)
  end.

Context {JL : JsonLaws J} {SL : SerdeLaws S}.

Lemma tmp_path_ne path : tmp_path path <> path.
Proof.
  unfold tmp_path. intros E. apply (f_equal String.length) in E. rewrite length_app' in E. simpl in E. lia.
Qed.

Lemma cursor_state_back st : json_from_str (value_to_string (enc_CursorState st)) ≫= dec_CursorState = Some st.
Proof.
  rewrite json_from_to by (apply json_struct_wf; repeat constructor; by destruct (cs_cursor st)).
  destruct st as [c]. simpl. unfold dec_CursorState, enc_CursorState. read_struct. by rewrite opt_field_opt_str.
Qed.

(** What loading gives after a save. *)
Lemma load_saved fs path st written renamed readable :
  let '(fs', r) := save_state fs path st written renamed in
  load_state fs' path readable =
  match r with
  | Ok _ => if readable then Ok (Some st) else Err ReadFailed
  | Err _ => load_state fs path readable
  end.
Proof.
  pose proof (tmp_path_ne path) as Hne. unfold save_state, load_state.
  destruct written as [|k|]; [destruct renamed|..]; try by rewrite lookup_insert_ne.
  - rewrite lookup_insert_eq. by rewrite cursor_state_back.
  - done.
Qed.

(** No file but the two of the path changes. *)
Lemma save_other fs path st written renamed p :
  p <> path -> p <> tmp_path path -> (save_state fs path st written renamed).1 !! p = fs !! p.
Proof.
  intros H1 H2. unfold save_state. destruct written as [|k|]; [destruct renamed|..]; simpl;
    by rewrite ?(lookup_insert_ne _ path p), ?lookup_delete_ne, ?lookup_insert_ne by done.
Qed.

(** Saving is atomic: wherever the write or the rename fails, or the
    process dies, loading afterwards gives what it gave before; after a save
    that succeeds, it gives the state saved.  No file but the two of this
    path changes. *)
Theorem save_atomic fs path st written renamed readable :
  let '(fs', r) := save_state fs path st written renamed in
  load_state fs' path readable =
    match r with
    | Ok _ => if readable then Ok (Some st) else Err ReadFailed
    | Err _ => load_state fs path readable
    end /\
  (r = Ok () <-> written = Written /\ renamed = true) /\
  (forall p, p <> path -> p <> tmp_path path -> fs' !! p = fs !! p).
Proof.
  pose proof (load_saved fs path st written renamed readable) as H.
  pose proof (save_other fs path st written renamed) as Ho. unfold save_state in *.
  destruct written as [|k|]; [destruct renamed|..]; (split; [exact H|split; [naive_solver|exact Ho]]).
Qed.
End state.

(** A write that dies after ten bytes. *)
Example torn_write :
  let fs := (save_state (J := ZJson) ∅ "c.json" {| cs_cursor := Some "7:1" |} Written true).1 in
  let fs' := (save_state (J := ZJson) fs "c.json" {| cs_cursor := Some "7:2" |} (Torn 10) true).1 in
  load_state (S := ZSerde) fs' "c.json" true = Ok (Some {| cs_cursor := Some "7:1" |}) /\
  load_state (S := ZSerde) fs' "c.json.tmp" true = Err ParseFailed.
Proof. vm_compute. done. Qed.

Lemma save_atomic_witness :
  let fs := (save_state (J := ZJson) ∅ "c.json" {| cs_cursor := Some "7:1" |} Written true).1 in
  let '(fs', r) := save_state (J := ZJson) fs "c.json" {| cs_cursor := Some "7:2" |} (Torn 10) true in
  load_state (S := ZSerde) fs' "c.json" true = load_state (S := ZSerde) fs "c.json" true.
Proof.
  exact (proj1 (save_atomic (S := ZSerde) (SL := ZSerde_laws)
    (save_state (J := ZJson) ∅ "c.json" {| cs_cursor := Some "7:1" |} Written true).1
    "c.json" {| cs_cursor := Some "7:2" |} (Torn 10) true true)).
Defined.
