(* ===== verification/Harness.v ===== *)
(** * The conformance harness (crates/mcp-events-client/src/bin/events-harness.rs).

    Each command is a function of what the outside gives it: the answers to
    its requests, how its saves end, the clock, the random bytes.  It returns
    its final state, what it printed and how long it slept, in order, and how
    it ended ([None]: the answers given are used up).  Durations are in
    nanoseconds.  The [i64] arithmetic wraps around, as in a release build.
    The argument parser and log lines are not modelled. *)
From S2P Require Import Prelude RustStd Lib Dedup Json Wire Codec Signing Buffer Registry Config Mapping State.
From S2P Require Import JsonText Base SseText ClientSse Client ClientState.

Definition DEDUP_CAPACITY : Z := 4096.
Definition DEFAULT_POLL_FLOOR_MS : Z := 250.
Definition STREAM_IDLE_TIMEOUT : Z := seconds 60.
Definition MAX_RECONNECT_BACKOFF : Z := seconds 30.
Definition NO_EXPIRY_REFRESH_INTERVAL : Z := seconds 60.
Definition MAX_TIMESTAMP_SKEW_SECS : Z := 300.

(** What chrono adds to [Chrono]: a second rendering, and its parser. *)
Class Rfc3339 := {
  to_rfc3339 : Z -> string;
  parse_from_rfc3339 : string -> option Z
}.

Section harness.
Context {J : JsonLib} {S : SerdeLib} {Y : Crypto} {R : Rfc3339}.

Inductive HarnessError : Type :=
| BadParams | BadTtl | BadRefresh
| BadSecret (e : WhsecError)
| StateFile (e : StateError)
| Call (e : ClientError).

(** What a command does: a line of an event, another line, a wait. *)
Inductive Act : Type := EventLine (line : string) | Line (line : string) | Sleep (d : Z).

(** ** Helpers *)

(** [e.downcast_ref::<RpcError>()] *)
Definition is_rpc (e : ClientError) : bool := match e with Rpc _ => true | _ => false end.

Definition client_of (server : string) (bearer : option string) (http : result string ()) : EventsClient :=
  let client := client_new server http in
  match bearer with Some token => with_bearer client token | None => client end.

Definition connect (exchange : PostRequest -> option PostResponse) (server : string) (bearer : option string)
    (http : result string ()) : EventsClient * result HarnessError () :=
  let '(client, discovered) := discover exchange (client_of server bearer http) in
  (client, _ ← map_err Call discovered; Ok ()).

Definition parse_params (s : option string) : result HarnessError (option Value) :=
  match s with
  | None => Ok None
  | Some raw => v ← ok_or BadParams (json_from_str raw); Ok (Some v)
  end.

Definition parse_ttl (s : option string) : result HarnessError (option (option Z)) :=
  match s with
  | None => Ok None
  | Some v => if bool_decide (v = "null") then Ok (Some None) else n ← ok_or BadTtl (u64_from_str v); Ok (Some (Some n))
  end.

Definition load_or_default (fs : FileSystem) (path : option string) (readable : bool) : result HarnessError CursorState :=
  match path with
  | None => Ok {| cs_cursor := None |}
  | Some p => st ← map_err StateFile (load_state fs p readable); Ok (default {| cs_cursor := None |} st)
  end.

(** How a save ends. *)
Record Save := { sv_written : WriteOutcome; sv_renamed : bool }.

Definition persist (fs : FileSystem) (path : option string) (st : CursorState) (sv : Save)
    : FileSystem * result HarnessError () :=
  match path with
  | None => (fs, Ok ())
  | Some p => let '(fs, r) := save_state fs p st (sv_written sv) (sv_renamed sv) in (fs, map_err StateFile r)
  end.

Definition event_line (ev : EventOccurrence) : string :=
  match value_get "changeType" (eo_data ev) ≫= as_str with
  | Some change => "[" +:+ eo_name ev +:+ "] " +:+ eo_event_id ev +:+ " " +:+ change +:+ " " +:+ value_to_string (eo_data ev)
  | None => "[" +:+ eo_name ev +:+ "] " +:+ eo_event_id ev +:+ " " +:+ value_to_string (eo_data ev)
  end.

Definition print_event (ev : EventOccurrence) : Act := EventLine (event_line ev).

Definition fmt_cursor (c : option string) : string := default "null" c.

Definition fmt_bool (b : bool) : string := if b then "true" else "false".

Definition mode_str (m : DeliveryMode) : string :=
  match m with Poll => "poll" | Push => "push" | Webhook => "webhook" end.

(** ** discover and list *)
Definition cmd_discover {P : PrettyJson J} (exchange : PostRequest -> option PostResponse) (server : string)
    (bearer : option string) (http : result string ()) : list Act * result HarnessError () :=
  match (discover exchange (client_of server bearer http)).2 with
  | Err e => ([], Err (Call e))
  | Ok discovered => ([Line (to_string_pretty discovered)], Ok ())
  end.

Definition list_definition (def : EventDefinition) : list Act :=
  [Line (ed_name def +:+ " [" +:+ str_join ", " (mode_str <$> ed_delivery def) +:+ "]")] ++
  opt_list ((fun desc => Line ("    " +:+ desc)) <$> ed_description def) ++
  opt_list ((fun schema => Line ("    inputSchema: " +:+ value_to_string schema)) <$> ed_input_schema def) ++
  opt_list ((fun schema => Line ("    payloadSchema: " +:+ value_to_string schema)) <$> ed_payload_schema def).

Definition cmd_list (first second : PostRequest -> option PostResponse) (server : string) (bearer : option string)
    (http : result string ()) : list Act * result HarnessError () :=
  let '(client, connected) := connect first server bearer http in
  match connected with
  | Err e => ([], Err e)
  | Ok _ =>
      match (list_events second client).2 with
      | Err e => ([], Err (Call e))
      | Ok res =>
          (match lr_events res with [] => [Line "(no event types advertised)"] | evs => evs ≫= list_definition end, Ok ())
      end
  end.

(** ** poll *)
Record PollArgs := {
  pa_name : string;
  pa_params : option Value;
  pa_state_file : option string;
  pa_follow : bool;
  pa_max_events : option Z;
  pa_max_age_ms : option Z;
  pa_floor_ms : Z
}.

Record PollRun := {
  pn_client : EventsClient;
  pn_fs : FileSystem;
  pn_state : CursorState;
  pn_dedup : LruSet;
  pn_backoff : Z
}.

Definition poll_start (client : EventsClient) (fs : FileSystem) (st : CursorState) : PollRun :=
  {| pn_client := client; pn_fs := fs; pn_state := st; pn_dedup := lru_new DEDUP_CAPACITY; pn_backoff := seconds 1 |}.

Definition poll_request (a : PollArgs) (st : CursorState) : PollEventsParams :=
  {| pp_name := pa_name a; pp_params := pa_params a; pp_cursor := cs_cursor st;
     pp_max_age_ms := pa_max_age_ms a; pp_max_events := pa_max_events a |}.

(** The events of a batch the detector lets through. *)
Fixpoint fresh_events (d : LruSet) (evs : list EventOccurrence) : LruSet * list EventOccurrence :=
  match evs with
  | [] => (d, [])
  | ev :: evs' =>
      let '(d, duplicate) := check_and_insert d (eo_event_id ev) in
      let '(d', l) := fresh_events d evs' in
      (d', if duplicate then l else ev :: l)
  end.

(** One pass of the loop: the answer to its request, and how its save ends. *)
Definition poll_turn (a : PollArgs) (r : PollRun) (exchange : PostRequest -> option PostResponse) (sv : Save)
    : PollRun * list Act * option (result HarnessError ()) :=
  let '(client, res) := client_poll exchange (pn_client r) (poll_request a (pn_state r)) in
  match res with
  | Err e =>
      if is_rpc e || negb (pa_follow a) then
        ({| pn_client := client; pn_fs := pn_fs r; pn_state := pn_state r; pn_dedup := pn_dedup r; pn_backoff := pn_backoff r |},
         [], Some (Err (Call e)))
      else
        ({| pn_client := client; pn_fs := pn_fs r; pn_state := pn_state r; pn_dedup := pn_dedup r;
            pn_backoff := Z.min (pn_backoff r * 2) MAX_RECONNECT_BACKOFF |}, [Sleep (pn_backoff r)], None)
  | Ok res =>
      let '(dedup, fresh) := fresh_events (pn_dedup r) (pr_events res) in
      let st := {| cs_cursor := pr_cursor res |} in
      let '(fs, saved) := persist (pn_fs r) (pa_state_file a) st sv in
      let r' := {| pn_client := client; pn_fs := fs; pn_state := st; pn_dedup := dedup; pn_backoff := seconds 1 |} in
      let out := print_event <$> fresh in
      match saved with
      | Err e => (r', out, Some (Err e))
      | Ok _ =>
          if pr_has_more res then (r', out, None)
          else if negb (pa_follow a) then (r', out, Some (Ok ()))
          else (r', out ++ [Sleep (Z.max (milliseconds (pr_next_poll_ms res)) (milliseconds (pa_floor_ms a)))], None)
      end
  end.

Fixpoint poll_loop (a : PollArgs) (r : PollRun) (l : list ((PostRequest -> option PostResponse) * Save))
    : PollRun * list Act * option (result HarnessError ()) :=
  match l with
  | [] => (r, [], None)
  | (exchange, sv) :: l' =>
      let '(r, out, ended) := poll_turn a r exchange sv in
      match ended with
      | Some e => (r, out, Some e)
      | None => let '(r, out', ended) := poll_loop a r l' in (r, out ++ out', ended)
      end
  end.

(** The set-up that the long-running commands share: parameters, cursor,
    connection. *)
Definition set_up (server : string) (bearer : option string) (http : result string ()) (params : option string)
    (fs : FileSystem) (state_file : option string) (readable : bool) (exchange : PostRequest -> option PostResponse)
    : result HarnessError (option Value * CursorState * EventsClient) :=
  params ← parse_params params;
  st ← load_or_default fs state_file readable;
  let '(client, connected) := connect exchange server bearer http in
  _ ← connected;
  Ok (params, st, client).

Definition poll_args (name : string) (params : option Value) (state_file : option string) (follow : bool)
    (max_events max_age_ms : option Z) (floor_ms : Z) : PollArgs :=
  {| pa_name := name; pa_params := params; pa_state_file := state_file; pa_follow := follow;
     pa_max_events := max_events; pa_max_age_ms := max_age_ms; pa_floor_ms := floor_ms |}.

Definition cmd_poll (server : string) (bearer : option string) (http : result string ()) (name : string)
    (params state_file : option string) (follow : bool) (max_events max_age_ms : option Z) (floor_ms : Z)
    (fs : FileSystem) (readable : bool) (first : PostRequest -> option PostResponse)
    (l : list ((PostRequest -> option PostResponse) * Save)) : FileSystem * list Act * option (result HarnessError ()) :=
  match set_up server bearer http params fs state_file readable first with
  | Err e => (fs, [], Some (Err e))
  | Ok (params, st, client) =>
      let '(r, out, ended) :=
        poll_loop (poll_args name params state_file follow max_events max_age_ms floor_ms) (poll_start client fs st) l in
      (pn_fs r, out, ended)
  end.

(** ** stream *)
Record StreamArgs := { ta_name : string; ta_params : option Value; ta_state_file : option string }.

Record StreamRun := { tn_client : EventsClient; tn_fs : FileSystem; tn_state : CursorState; tn_backoff : Z }.

Definition stream_start (client : EventsClient) (fs : FileSystem) (st : CursorState) : StreamRun :=
  {| tn_client := client; tn_fs := fs; tn_state := st; tn_backoff := seconds 1 |}.

Definition stream_request (a : StreamArgs) (st : CursorState) : StreamEventsParams :=
  {| sp_name := ta_name a; sp_params := ta_params a; sp_cursor := cs_cursor st; sp_max_age_ms := None |}.

(** What a frame prints, and the cursor it sets, if it sets one. *)
Definition show_frame (f : StreamFrame) : Act :=
  match f with
  | SfActive p =>
      Line ("[stream] active cursor=" +:+ fmt_cursor (ea_cursor p) +:+ " truncated=" +:+ fmt_bool (ea_truncated p))
  | SfEvent ev => print_event ev
  | SfHeartbeat p => Line ("[stream] heartbeat cursor=" +:+ fmt_cursor (eh_cursor p))
  | SfError p => Line ("[stream] error " +:+ rpc_error_text (rpc_error_from (ee_error p)) +:+ " (subscription stays active)")
  | SfTerminated p => Line ("[stream] terminated " +:+ rpc_error_text (rpc_error_from (et_error p)))
  | SfResult => Line "[stream] server closed the stream; reconnecting with last cursor"
  end.

Definition frame_cursor (f : StreamFrame) : option (option string) :=
  match f with
  | SfActive p => Some (ea_cursor p)
  | SfEvent ev => eo_cursor ev
  | SfHeartbeat p => Some (eh_cursor p)
  | _ => None
  end.

(** A frame: the state after it, and how its save ended. *)
Definition take_frame (a : StreamArgs) (r : StreamRun) (f : StreamFrame) (sv : Save)
    : StreamRun * result HarnessError () :=
  match frame_cursor f with
  | None => ({| tn_client := tn_client r; tn_fs := tn_fs r; tn_state := tn_state r; tn_backoff := seconds 1 |}, Ok ())
  | Some cursor =>
      let st := {| cs_cursor := cursor |} in
      let '(fs, saved) := persist (tn_fs r) (ta_state_file a) st sv in
      ({| tn_client := tn_client r; tn_fs := fs; tn_state := st; tn_backoff := seconds 1 |}, saved)
  end.

(** One connection: what its stream yields, after how many items it goes
    silent for [STREAM_IDLE_TIMEOUT] (if it does), and how the saves end.
    [None]: it is given up, to be opened again. *)
Fixpoint stream_items (a : StreamArgs) (r : StreamRun) (items : list (result ClientError StreamFrame)) (idle : option nat)
    (saves : list Save) : StreamRun * list Act * option (result HarnessError ()) :=
  match idle, items with
  | Some O, _ => (r, [], None)
  | _, [] => (r, [], None)
  | _, Err _ :: _ => (r, [], None)
  | _, Ok f :: items' =>
      let sv := default {| sv_written := Written; sv_renamed := true |} (head saves) in
      let '(r, saved) := take_frame a r f sv in
      let out := [show_frame f] in
      match saved, f with
      | Err e, _ => (r, out, Some (Err e))
      | Ok _, SfTerminated _ => (r, out, Some (Ok ()))
      | Ok _, SfResult => (r, out, None)
      | Ok _, _ => let '(r, out', ended) := stream_items a r items' (pred <$> idle) (tail saves) in (r, out ++ out', ended)
      end
  end.

Record Connection := {
  cn_exchange : PostRequest -> option (PostResponse * list (option string));
  cn_idle : option nat;
  cn_saves : list Save
}.

Definition with_client (r : StreamRun) (client : EventsClient) : StreamRun :=
  {| tn_client := client; tn_fs := tn_fs r; tn_state := tn_state r; tn_backoff := tn_backoff r |}.

(** The wait before the next connection. *)
Definition back_off (r : StreamRun) : StreamRun * Act :=
  ({| tn_client := tn_client r; tn_fs := tn_fs r; tn_state := tn_state r;
      tn_backoff := Z.min (tn_backoff r * 2) MAX_RECONNECT_BACKOFF |}, Sleep (tn_backoff r)).

Definition stream_turn (a : StreamArgs) (r : StreamRun) (cn : Connection)
    : StreamRun * list Act * option (result HarnessError ()) :=
  let '(client, opened) := client_stream (cn_exchange cn) (tn_client r) (stream_request a (tn_state r)) in
  let r := with_client r client in
  match opened with
  | Err e =>
      if is_rpc e then (r, [], Some (Err (Call e))) else let '(r, nap) := back_off r in (r, [nap], None)
  | Ok items =>
      let '(r, out, ended) := stream_items a r items (cn_idle cn) (cn_saves cn) in
      match ended with
      | Some e => (r, out, Some e)
      | None => let '(r, nap) := back_off r in (r, out ++ [nap], None)
      end
  end.

Fixpoint stream_loop (a : StreamArgs) (r : StreamRun) (l : list Connection)
    : StreamRun * list Act * option (result HarnessError ()) :=
  match l with
  | [] => (r, [], None)
  | cn :: l' =>
      let '(r, out, ended) := stream_turn a r cn in
      match ended with
      | Some e => (r, out, Some e)
      | None => let '(r, out', ended) := stream_loop a r l' in (r, out ++ out', ended)
      end
  end.

Definition cmd_stream (server : string) (bearer : option string) (http : result string ()) (name : string)
    (params state_file : option string) (fs : FileSystem) (readable : bool)
    (first : PostRequest -> option PostResponse) (l : list Connection)
    : FileSystem * list Act * option (result HarnessError ()) :=
  match set_up server bearer http params fs state_file readable first with
  | Err e => (fs, [], Some (Err e))
  | Ok (params, st, client) =>
      let a := {| ta_name := name; ta_params := params; ta_state_file := state_file |} in
      let '(r, out, ended) := stream_loop a (stream_start client fs st) l in
      (tn_fs r, out, ended)
  end.

(** ** subscribe *)

(** [bytes] are the 32 random ones. *)
Definition generate_whsec (bytes : string) : string := WHSEC_PREFIX +:+ base64_encode bytes.

Definition print_grant (res : SubscribeResult) : list Act :=
  [Line ("subscription id: " +:+ sr_id res);
   Line ("refreshBefore:   " +:+ default "null (no expiry)" (sr_refresh_before res));
   Line ("cursor:          " +:+ fmt_cursor (sr_cursor res))] ++
  opt_list ((fun ds => Line ("deliveryStatus:  active=" +:+ fmt_bool (dv_active ds) +:+ " lastDeliveryAt=" +:+
    default "null" (dv_last_delivery_at ds) +:+ " lastError=" +:+ default "null" (dv_last_error ds) +:+
    " failedSince=" +:+ default "null" (dv_failed_since ds))) <$> sr_delivery_status res).

(** A [Duration] is a count of nanoseconds: [* 4 / 5] rounds down to one. *)
Definition refresh_sleep (refresh_before : option string) (now : Z) : result HarnessError Z :=
  match refresh_before with
  | None => Ok NO_EXPIRY_REFRESH_INTERVAL
  | Some rb =>
      when ← ok_or BadRefresh (parse_from_rfc3339 rb);
      let remain := if when <? now then 0 else when - now in
      Ok (Z.max (remain * 4 / 5) (seconds 1))
  end.

Record SubscribeArgs := {
  ba_name : string;
  ba_url : string;
  ba_params : option Value;
  ba_ttl_ms : option (option Z);
  ba_secret : string;
  ba_state_file : option string
}.

Definition subscribe_params (a : SubscribeArgs) (cursor : option string) : SubscribeParams :=
  {| sb_name := ba_name a; sb_params := ba_params a;
     sb_delivery := {| ds_mode := "webhook"; ds_url := ba_url a; ds_secret := Some (ba_secret a) |};
     sb_cursor := cursor; sb_max_age_ms := None; sb_ttl_ms := ba_ttl_ms a |}.

Record SubscribeRun := {
  bn_client : EventsClient;
  bn_fs : FileSystem;
  bn_state : CursorState;
  bn_refresh_before : option string
}.

(** A subscription request, and the save of the cursor it grants. *)
Definition subscribe_once (a : SubscribeArgs) (r : SubscribeRun) (exchange : PostRequest -> option PostResponse) (sv : Save)
    : SubscribeRun * result ClientError (SubscribeResult * result HarnessError ()) :=
  let '(client, res) := client_subscribe exchange (bn_client r) (subscribe_params a (cs_cursor (bn_state r))) in
  match res with
  | Err e => ({| bn_client := client; bn_fs := bn_fs r; bn_state := bn_state r; bn_refresh_before := bn_refresh_before r |}, Err e)
  | Ok grant =>
      let st := {| cs_cursor := sr_cursor grant |} in
      let '(fs, saved) := persist (bn_fs r) (ba_state_file a) st sv in
      ({| bn_client := client; bn_fs := fs; bn_state := st; bn_refresh_before := sr_refresh_before grant |}, Ok (grant, saved))
  end.

(** One pass of the refresh loop: the clock before it sleeps and after. *)
Record Refresh := {
  rf_now : Z;
  rf_woken : Z;
  rf_exchange : PostRequest -> option PostResponse;
  rf_save : Save
}.

Definition refresh_turn (a : SubscribeArgs) (r : SubscribeRun) (i : Refresh)
    : SubscribeRun * list Act * option (result HarnessError ()) :=
  match refresh_sleep (bn_refresh_before r) (rf_now i) with
  | Err e => (r, [], Some (Err e))
  | Ok nap =>
      let '(r, res) := subscribe_once a r (rf_exchange i) (rf_save i) in
      match res with
      | Ok (grant, saved) =>
          let out := [Sleep nap; Line ("--- refresh @ " +:+ to_rfc3339 (rf_woken i) +:+ " ---")] ++ print_grant grant in
          (r, out, match saved with Ok _ => None | Err e => Some (Err e) end)
      | Err e =>
          if is_rpc e then (r, [Sleep nap], Some (Err (Call e))) else (r, [Sleep nap; Sleep (seconds 5)], None)
      end
  end.

Fixpoint refresh_loop (a : SubscribeArgs) (r : SubscribeRun) (l : list Refresh)
    : SubscribeRun * list Act * option (result HarnessError ()) :=
  match l with
  | [] => (r, [], None)
  | i :: l' =>
      let '(r, out, ended) := refresh_turn a r i in
      match ended with
      | Some e => (r, out, Some e)
      | None => let '(r, out', ended) := refresh_loop a r l' in (r, out ++ out', ended)
      end
  end.

(** The secret: the one given, if it is one, or a new one, which is printed. *)
Definition choose_secret (secret : option string) (bytes : string) : result HarnessError (string * list Act) :=
  match secret with
  | Some s => _ ← map_err BadSecret (parse_whsec s); Ok (s, [])
  | None =>
      let s := generate_whsec bytes in
      Ok (s, [Line ("generated webhook secret (pass to webhook-recv --secret): " +:+ s)])
  end.

Definition cmd_subscribe (server : string) (bearer : option string) (http : result string ()) (name url : string)
    (params ttl_ms secret state_file : option string) (keep : bool) (bytes : string) (fs : FileSystem)
    (readable : bool) (first second : PostRequest -> option PostResponse) (sv : Save) (l : list Refresh)
    : FileSystem * list Act * option (result HarnessError ()) :=
  match (params ← parse_params params; ttl ← parse_ttl ttl_ms; chosen ← choose_secret secret bytes;
         Ok (params, ttl, chosen)) with
  | Err e => (fs, [], Some (Err e))
  | Ok (params, ttl, (secret, out)) =>
      match (st ← load_or_default fs state_file readable;
             let '(client, connected) := connect first server bearer http in _ ← connected; Ok (st, client)) with
      | Err e => (fs, out, Some (Err e))
      | Ok (st, client) =>
          let a := {| ba_name := name; ba_url := url; ba_params := params; ba_ttl_ms := ttl; ba_secret := secret;
                      ba_state_file := state_file |} in
          let '(r, res) := subscribe_once a {| bn_client := client; bn_fs := fs; bn_state := st; bn_refresh_before := None |}
                             second sv in
          match res with
          | Err e => (bn_fs r, out, Some (Err (Call e)))
          | Ok (grant, Err e) => (bn_fs r, out ++ print_grant grant, Some (Err e))
          | Ok (grant, Ok _) =>
              if negb keep then (bn_fs r, out ++ print_grant grant, Some (Ok ()))
              else let '(r, out', ended) := refresh_loop a r l in (bn_fs r, out ++ print_grant grant ++ out', ended)
          end
      end
  end.

(** ** unsubscribe *)
Definition unsubscribe_params (name url : string) (params : option Value) : UnsubscribeParams :=
  {| un_name := name; un_params := params; un_delivery := {| ds_mode := ""; ds_url := url; ds_secret := None |} |}.

Definition cmd_unsubscribe (server : string) (bearer : option string) (http : result string ()) (name url : string)
    (params : option string) (first second : PostRequest -> option PostResponse) : list Act * result HarnessError () :=
  match (params ← parse_params params;
         let '(client, connected) := connect first server bearer http in _ ← connected; Ok (params, client)) with
  | Err e => ([], Err e)
  | Ok (params, client) =>
      match (client_unsubscribe second client (unsubscribe_params name url params)).2 with
      | Err e => ([], Err (Call e))
      | Ok _ => ([Line ("unsubscribed " +:+ name +:+ " @ " +:+ url)], Ok ())
      end
  end.

(** ** webhook-recv *)
Record RecvState := { rv_key : string; rv_dedup : LruSet }.

Definition recv_start (secret : string) : result HarnessError RecvState :=
  key ← map_err BadSecret (parse_whsec secret);
  Ok {| rv_key := key; rv_dedup := lru_new DEDUP_CAPACITY |}.

(** A status and the body of the response. *)
Definition Reply : Type := Z * string.

Definition bad (msg : string) : Reply := (400, msg).

Definition i64_sub (a b : Z) : Z := (a - b + 2 ^ 63) mod 2 ^ 64 - 2 ^ 63.
Definition i64_abs (a : Z) : Z := if a =? i64_min then i64_min else Z.abs a.

(** A JSON body that is signed and fresh. *)
Definition recv_value (st : RecvState) (msg_id : string) (sub_id : option string) (value : Value)
    : RecvState * list Act * Reply :=
  let '(dedup, duplicate) := check_and_insert (rv_dedup st) msg_id in
  let st := {| rv_key := rv_key st; rv_dedup := dedup |} in
  let sub := default "?" sub_id in
  let once line := if duplicate then [] else [line] in
  match value_get "type" value with
  | Some _ =>
      match dec_WebhookControlBody value with
      | Some (Verification challenge) =>
          (st, [Line ("[control] verification challenge (sub=" +:+ sub +:+ "); echoing")],
           (200, value_to_string (json_obj [("challenge", JString challenge)])))
      | Some (Gap cursor) =>
          (st, once (Line ("[control] gap (sub=" +:+ sub +:+ "): events were skipped; fresh cursor=" +:+ fmt_cursor cursor)),
           (200, ""))
      | Some (Terminated error) =>
          (st, once (Line ("[control] terminated (sub=" +:+ sub +:+ "): " +:+ rpc_error_text (rpc_error_from error))),
           (200, ""))
      | None => (st, [], bad "unknown control envelope")
      end
  | None =>
      match dec_EventOccurrence value with
      | Some ev => (st, once (print_event ev), (200, ""))
      | None => (st, [], bad "malformed event body")
      end
  end.

(** [hdr] is the closure of that name. *)
Definition recv_handler (st : RecvState) (method : string) (hdr : string -> option string) (body : string) (now_secs : Z)
    : RecvState * list Act * Reply :=
  if negb (bool_decide (method = "POST")) then (st, [], (405, ""))
  else
    match hdr consts.HEADER_WEBHOOK_ID, hdr consts.HEADER_WEBHOOK_TIMESTAMP, hdr consts.HEADER_WEBHOOK_SIGNATURE with
    | None, _, _ => (st, [], bad "missing webhook-id header")
    | _, None, _ => (st, [], bad "missing webhook-timestamp header")
    | _, _, None => (st, [], bad "missing webhook-signature header")
    | Some msg_id, Some ts_raw, Some signature =>
        match i64_from_str ts_raw with
        | None => (st, [], bad "unparseable webhook-timestamp")
        | Some ts =>
            if MAX_TIMESTAMP_SKEW_SECS <? i64_abs (i64_sub now_secs ts) then
              (st, [], bad "webhook-timestamp outside freshness window")
            else if negb (verify_standard_webhooks (rv_key st) msg_id ts body signature) then
              (st, [], (401, "invalid signature"))
            else
              match json_from_str body with
              | None => (st, [], bad "body is not JSON")
              | Some value => recv_value st msg_id (hdr consts.HEADER_MCP_SUBSCRIPTION_ID) value
              end
        end
    end.

(** What the file gives after a save. *)
Lemma persist_saved {JL : JsonLaws J} {SL : SerdeLaws S} fs path st sv :
  let '(fs', saved) := persist fs path st sv in
  path <> None ->
  (saved = Ok () -> load_or_default fs' path true = Ok st) /\
  (saved <> Ok () -> load_or_default fs' path true = load_or_default fs path true).
Proof.
  unfold persist, load_or_default. destruct path as [p|]; [|done].
  pose proof (load_saved fs p st (sv_written sv) (sv_renamed sv) true) as H.
  destruct (save_state _ _ _ _ _) as [fs1 r1]. intros _. rewrite H. by destruct r1 as [[]|].
Qed.
End harness.
