(* ===== verification/HarnessMain.v ===== *)
(** * The harness as a program (crates/mcp-events-client/src/bin/events-harness.rs).

    [Cli] and [Cmd] are what the argument parser (clap) gives; [run] chooses
    the command, and [main] prints an error and sets the exit status.  All a
    run gets from outside, answers, saves, clocks, random bytes and the
    requests that come in, is a record [Outside].  The theorem on files is
    about any run of any command: whatever fails, and wherever the run stops. *)
From S2P Require Import Prelude RustStd Lib Dedup Json Wire Codec Signing Buffer Registry Config Mapping State.
From S2P Require Import JsonText Base SseText ClientSse Client ClientState Harness.

Inductive Cmd : Type :=
| Discover
| List_
| PollCmd (name : string) (params state_file : option string) (follow : bool)
    (max_events max_age_ms : option Z) (floor_ms : Z)
| StreamCmd (name : string) (params state_file : option string)
| SubscribeCmd (name url : string) (params ttl_ms secret state_file : option string) (refresh_loop : bool)
| UnsubscribeCmd (name url : string) (params : option string)
| WebhookRecv (port : Z) (secret : string).

Record Cli := { server : string; bearer : option string; cmd : Cmd }.

Section program.
Context {J : JsonLib} {S : SerdeLib} {Y : Crypto} {R : Rfc3339} {P : PrettyJson J}.

(** A request that comes in to the receiver, and the second it does. *)
Record Incoming := {
  ic_method : string;
  ic_header : string -> option string;
  ic_body : string;
  ic_now_secs : Z
}.

(** What a run gets: whether an HTTP client can be built, the state file and
    whether it can be read, the answers to the first two requests and to those
    of the loops, how saves end, the random bytes of a secret, whether the
    port can be bound, what comes in. *)
Record Outside := {
  ou_http : result string ();
  ou_fs : FileSystem;
  ou_readable : bool;
  ou_first : PostRequest -> option PostResponse;
  ou_second : PostRequest -> option PostResponse;
  ou_polls : list ((PostRequest -> option PostResponse) * Save);
  ou_connections : list Connection;
  ou_save : Save;
  ou_refreshes : list Refresh;
  ou_bytes : string;
  ou_bound : bool;
  ou_incoming : list Incoming
}.

Inductive RunError : Type := Failed (e : HarnessError) | BindFailed (port : Z).

(** The receiver serves until it is stopped. *)
Fixpoint serve (st : RecvState) (l : list Incoming) : RecvState * list Act * list Reply :=
  match l with
  | [] => (st, [], [])
  | i :: l' =>
      let '(st, out, reply) := recv_handler st (ic_method i) (ic_header i) (ic_body i) (ic_now_secs i) in
      let '(st, out', replies) := serve st l' in
      (st, out ++ out', reply :: replies)
  end.

Definition cmd_webhook_recv (port : Z) (secret : string) (bound : bool) (l : list Incoming)
    : list Act * list Reply * option (result RunError ()) :=
  match recv_start secret with
  | Err e => ([], [], Some (Err (Failed e)))
  | Ok st =>
      if bound then
        let '(_, out, replies) := serve st l in
        (Line ("webhook receiver listening on http://127.0.0.1:" +:+ u64_to_string port +:+ "/ (any path)") :: out,
         replies, None)
      else ([], [], Some (Err (BindFailed port)))
  end.

(** A run: the files after it, what it printed and slept, what the receiver
    replied, and how it ended ([None]: it has not). *)
Record Run := {
  ru_fs : FileSystem;
  ru_out : list Act;
  ru_replies : list Reply;
  ru_ended : option (result RunError ())
}.

Definition failed (r : result HarnessError ()) : result RunError () := map_err Failed r.

Definition run (cli : Cli) (w : Outside) : Run :=
  let done fs out ended := {| ru_fs := fs; ru_out := out; ru_replies := []; ru_ended := failed <$> ended |} in
  match cmd cli with
  | Discover =>
      let '(out, r) := cmd_discover (ou_first w) (server cli) (bearer cli) (ou_http w) in done (ou_fs w) out (Some r)
  | List_ =>
      let '(out, r) := cmd_list (ou_first w) (ou_second w) (server cli) (bearer cli) (ou_http w) in
      done (ou_fs w) out (Some r)
  | PollCmd name params state_file follow max_events max_age_ms floor_ms =>
      let '(fs, out, r) := cmd_poll (server cli) (bearer cli) (ou_http w) name params state_file follow max_events
        max_age_ms floor_ms (ou_fs w) (ou_readable w) (ou_first w) (ou_polls w) in done fs out r
  | StreamCmd name params state_file =>
      let '(fs, out, r) := cmd_stream (server cli) (bearer cli) (ou_http w) name params state_file (ou_fs w)
        (ou_readable w) (ou_first w) (ou_connections w) in done fs out r
  | SubscribeCmd name url params ttl_ms secret state_file refresh_loop =>
      let '(fs, out, r) := cmd_subscribe (server cli) (bearer cli) (ou_http w) name url params ttl_ms secret state_file
        refresh_loop (ou_bytes w) (ou_fs w) (ou_readable w) (ou_first w) (ou_second w) (ou_save w) (ou_refreshes w) in
      done fs out r
  | UnsubscribeCmd name url params =>
      let '(out, r) := cmd_unsubscribe (server cli) (bearer cli) (ou_http w) name url params (ou_first w) (ou_second w) in
      done (ou_fs w) out (Some r)
  | WebhookRecv port secret =>
      let '(out, replies, r) := cmd_webhook_recv port secret (ou_bound w) (ou_incoming w) in
      {| ru_fs := ou_fs w; ru_out := out; ru_replies := replies; ru_ended := r |}
  end.

(** The line on standard error: the text of an RPC error, or another error
    with its causes, whose text is anyhow's. *)
Inductive Complaint : Type := ErrorLine (line : string) | OtherError (e : RunError).

Definition complaint (e : RunError) : Complaint :=
  match e with
  | Failed (Call (Rpc rpc)) => ErrorLine ("error: " +:+ rpc_error_text rpc)
  | _ => OtherError e
  end.

(** What [main] complains of, and the exit status, of a run that ended. *)
Definition main (cli : Cli) (w : Outside) : option (option Complaint * Z) :=
  match ru_ended (run cli w) with
  | None => None
  | Some (Ok _) => Some (None, 0)
  | Some (Err e) => Some (Some (complaint e), 1)
  end.

(** ** What a run does to the files *)
Definition state_file_of (c : Cmd) : option string :=
  match c with
  | PollCmd _ _ f _ _ _ _ | StreamCmd _ _ f | SubscribeCmd _ _ _ _ _ f _ => f
  | _ => None
  end.

(** No file but the state file and the temporary one beside it has changed,
    and loading gives what it gave, or a whole state. *)
Definition kept (path : option string) (fs fs' : FileSystem) : Prop :=
  match path with
  | None => fs' = fs
  | Some p =>
      (forall q, q <> p -> q <> tmp_path p -> fs' !! q = fs !! q) /\
      (load_state fs' p true = load_state fs p true \/ exists st, load_state fs' p true = Ok (Some st))
  end.

#[export] Instance kept_refl path : Reflexive (kept path).
Proof. intros fs. destruct path; simpl; auto. Qed.

#[export] Instance kept_trans path : Transitive (kept path).
Proof.
  intros f1 f2 f3. destruct path as [p|]; simpl; [|congruence].
  intros [H1 H2] [H3 [H4|H4]]; (split; [intros q ? ?; rewrite H3; auto|]); [|auto].
  rewrite H4. exact H2.
Qed.

Context {SL : SerdeLaws S}.

Lemma persist_kept fs path st sv : kept path fs (persist fs path st sv).1.
Proof.
  destruct path as [p|]; [|done]. unfold persist.
  pose proof (load_saved fs p st (sv_written sv) (sv_renamed sv) true) as Hl.
  pose proof (save_other fs p st (sv_written sv) (sv_renamed sv)) as Ho.
  destruct (save_state _ _ _ _ _) as [fs' r]. simpl in *. split; [exact Ho|].
  destruct r; [right; by exists st|left; exact Hl].
Qed.

(** ** The loops *)
Lemma poll_turn_kept a r exchange sv : kept (pa_state_file a) (pn_fs r) (pn_fs (poll_turn a r exchange sv).1.1).
Proof.
  unfold poll_turn. destruct (client_poll _ _ _) as [client [res|e]].
  - destruct (fresh_events _ _) as [dedup fresh].
    pose proof (persist_kept (pn_fs r) (pa_state_file a) {| cs_cursor := pr_cursor res |} sv) as H.
    destruct (persist _ _ _ _) as [fs [u|e]]; simpl in *; [|exact H].
    by destruct (pr_has_more res), (pa_follow a).
  - by destruct (is_rpc e || negb (pa_follow a)).
Qed.

Lemma poll_loop_kept a l : forall r, kept (pa_state_file a) (pn_fs r) (pn_fs (poll_loop a r l).1.1).
Proof.
  induction l as [|[exchange sv] l IH]; intros r; [done|]. simpl. pose proof (poll_turn_kept a r exchange sv) as H.
  destruct (poll_turn a r exchange sv) as [[r' out] [e|]]; [exact H|]. specialize (IH r').
  destruct (poll_loop a r' l) as [[r'' out'] ended]. exact (transitivity H IH).
Qed.

Lemma take_frame_kept a r f sv : kept (ta_state_file a) (tn_fs r) (tn_fs (take_frame a r f sv).1).
Proof.
  unfold take_frame. destruct (frame_cursor f) as [c|]; [|done].
  pose proof (persist_kept (tn_fs r) (ta_state_file a) {| cs_cursor := c |} sv) as H.
  by destruct (persist _ _ _ _) as [fs saved].
Qed.

Lemma stream_items_kept a items :
  forall r idle saves, kept (ta_state_file a) (tn_fs r) (tn_fs (stream_items a r items idle saves).1.1).
Proof.
  induction items as [|[f|e] items IH]; intros r [[|n]|] saves; try done; simpl;
    pose proof (take_frame_kept a r f (default {| sv_written := Written; sv_renamed := true |} (head saves))) as H;
    (destruct (take_frame _ _ _ _) as [r' [u|e]]; [|exact H]); destruct f; try exact H;
    match goal with |- context [stream_items a r' items ?i ?s] =>
      specialize (IH r' i s); destruct (stream_items a r' items i s) as [[r'' out] ended]; exact (transitivity H IH)
    end.
Qed.

Lemma stream_loop_kept a l : forall r, kept (ta_state_file a) (tn_fs r) (tn_fs (stream_loop a r l).1.1).
Proof.
  assert (forall r cn, kept (ta_state_file a) (tn_fs r) (tn_fs (stream_turn a r cn).1.1)) as Hturn.
  { intros r cn. unfold stream_turn. destruct (client_stream _ _ _) as [client [items|e]].
    - pose proof (stream_items_kept a items (with_client r client) (cn_idle cn) (cn_saves cn)) as H.
      destruct (stream_items _ _ _ _ _) as [[r' out] [e|]]; exact H.
    - by destruct (is_rpc e). }
  induction l as [|cn l IH]; intros r; [done|]. simpl. pose proof (Hturn r cn) as H.
  destruct (stream_turn a r cn) as [[r' out] [e|]]; [exact H|]. specialize (IH r').
  destruct (stream_loop a r' l) as [[r'' out'] ended]. exact (transitivity H IH).
Qed.

Lemma subscribe_once_kept a r exchange sv :
  kept (ba_state_file a) (bn_fs r) (bn_fs (subscribe_once a r exchange sv).1).
Proof.
  unfold subscribe_once. destruct (client_subscribe _ _ _) as [client [grant|e]]; [|done].
  pose proof (persist_kept (bn_fs r) (ba_state_file a) {| cs_cursor := sr_cursor grant |} sv) as H.
  by destruct (persist _ _ _ _) as [fs saved].
Qed.

Lemma refresh_loop_kept a l : forall r, kept (ba_state_file a) (bn_fs r) (bn_fs (refresh_loop a r l).1.1).
Proof.
  assert (forall r i, kept (ba_state_file a) (bn_fs r) (bn_fs (refresh_turn a r i).1.1)) as Hturn.
  { intros r i. unfold refresh_turn. destruct (refresh_sleep _ _) as [nap|e]; [|done].
    pose proof (subscribe_once_kept a r (rf_exchange i) (rf_save i)) as H.
    destruct (subscribe_once _ _ _ _) as [r' [[grant saved]|e]]; [exact H|]. by destruct (is_rpc e). }
  induction l as [|i l IH]; intros r; [done|]. simpl. pose proof (Hturn r i) as H.
  destruct (refresh_turn a r i) as [[r' out] [e|]]; [exact H|]. specialize (IH r').
  destruct (refresh_loop a r' l) as [[r'' out'] ended]. exact (transitivity H IH).
Qed.

Lemma cmd_subscribe_kept sv_ bearer http name url params ttl secret file keep bytes fs readable first second sv l :
  kept file fs
    (cmd_subscribe sv_ bearer http name url params ttl secret file keep bytes fs readable first second sv l).1.1.
Proof.
  unfold cmd_subscribe. destruct (_ ≫= _) as [[[ps t] [sec out]]|e]; [|done].
  destruct (load_or_default _ _ _ ≫= _) as [[st client]|e]; [|done].
  match goal with |- context [subscribe_once ?a ?r second sv] =>
    pose proof (subscribe_once_kept a r second sv) as H;
    destruct (subscribe_once a r second sv) as [r' [[grant [u|e]]|e]]; [|exact H|exact H];
    pose proof (refresh_loop_kept a l r') as Hl
  end.
  destruct keep; simpl; [|exact H]. destruct (refresh_loop _ r' l) as [[r'' out'] ended]. exact (transitivity H Hl).
Qed.

(** C40. No run of the harness, whatever the command and whatever the server,
    the disk or the arguments do to it, changes a file other than its state
    file and the temporary one beside it; and however its saves fail, at
    whatever point it is stopped, loading the state file gives what it gave
    before the run, or a whole state that was saved.  A command without a state
    file changes no file. *)
Theorem run_files cli w : kept (state_file_of (cmd cli)) (ou_fs w) (ru_fs (run cli w)).
Proof.
  unfold run. destruct (cmd cli) as [| |name params file follow n age floor|name params file|name url params ttl secret
    file keep|name url params|port secret]; simpl.
  - by destruct (cmd_discover _ _ _ _).
  - by destruct (cmd_list _ _ _ _ _).
  - unfold cmd_poll. destruct (set_up _ _ _ _ _ _ _ _) as [[[ps st] client]|e]; [|done].
    match goal with |- context [poll_loop ?a ?r ?l] =>
      pose proof (poll_loop_kept a l r) as H; by destruct (poll_loop a r l) as [[r' out] ended]
    end.
  - unfold cmd_stream. destruct (set_up _ _ _ _ _ _ _ _) as [[[ps st] client]|e]; [|done].
    match goal with |- context [stream_loop ?a ?r ?l] =>
      pose proof (stream_loop_kept a l r) as H; by destruct (stream_loop a r l) as [[r' out] ended]
    end.
  - match goal with |- context [cmd_subscribe ?a ?b ?c ?d ?e ?f ?g ?h ?i ?j ?k ?m ?n ?o ?p ?q ?r] =>
      pose proof (cmd_subscribe_kept a b c d e f g h i j k m n o p q r) as H;
      by destruct (cmd_subscribe a b c d e f g h i j k m n o p q r) as [[fs out] ended]
    end.
  - by destruct (cmd_unsubscribe _ _ _ _ _ _ _ _).
  - by destruct (cmd_webhook_recv _ _ _ _) as [[out replies] ended].
Qed.

(** The exit status of a run that ends is 0 exactly if it ends well, and a
    refused secret, or a port that cannot be bound, ends the receiver before
    it prints or serves anything. *)
Lemma main_status cli w :
  match main cli w with
  | Some (None, status) => status = 0 /\ ru_ended (run cli w) = Some (Ok ())
  | Some (Some c, status) => status = 1 /\ exists e, ru_ended (run cli w) = Some (Err e) /\ c = complaint e
  | None => ru_ended (run cli w) = None
  end.
Proof. unfold main. destruct (ru_ended (run cli w)) as [[[]|e]|]; eauto. Qed.

Lemma recv_refused port secret bound l :
  match cmd_webhook_recv port secret bound l with
  | (out, replies, Some _) => out = [] /\ replies = [] /\ (bound = false \/ ~ exists key, parse_whsec secret = Ok key)
  | (_, replies, None) => bound = true /\ length replies = length l
  end.
Proof.
  unfold cmd_webhook_recv, recv_start. destruct (parse_whsec secret) as [key|e]; simpl.
  - destruct bound; [|by auto].
    assert (forall st, length (serve st l).2 = length l) as Hl.
    { induction l as [|i l IH]; intros st; [done|]. simpl. destruct (recv_handler _ _ _ _ _) as [[st' out] reply].
      specialize (IH st'). destruct (serve st' l) as [[st'' out'] replies]. simpl in *. by rewrite IH. }
    match goal with |- context [serve ?st l] => specialize (Hl st); by destruct (serve st l) as [[? ?] ?] end.
  - split_and!; [done..|]. right. by intros [? [=]].
Qed.
End program.

(** ** Examples: a poll whose second save is torn *)
Section example.
#[local] Existing Instance ZSerde.
#[local] Instance ex_rfc : Rfc3339 := {| to_rfc3339 := to_rfc3339_millis; parse_from_rfc3339 := i64_from_str |}.
#[local] Instance ex_pretty_main : PrettyJson ZJson := {| to_string_pretty := value_to_string |}.

Definition ex_poll_cli : Cli :=
  {| server := "https://server/mcp"; bearer := None;
     cmd := PollCmd "t.changed" None (Some "c.json") true None None 250 |}.

Definition ex_reply (id : Z) (v : Value (J := ZJson)) : PostRequest -> option PostResponse :=
  fun _ => Some (answer 200 "application/json" (response_text (success (Num_ id) v))).

Definition ex_batch (cursor : string) : Value (J := ZJson) :=
  enc_PollEventsResult {| pr_events := []; pr_cursor := Some cursor; pr_truncated := false; pr_has_more := true;
                          pr_next_poll_ms := 2000 |}.

Definition ex_outside : Outside :=
  {| ou_http := Ok (); ou_fs := ∅; ou_readable := true; ou_first := ex_reply 1 (json_obj []); ou_second _ := None;
     ou_polls := [(ex_reply 2 (ex_batch "7:1"), {| sv_written := Written; sv_renamed := true |});
                  (ex_reply 3 (ex_batch "7:2"), {| sv_written := Torn 10; sv_renamed := true |})];
     ou_connections := []; ou_save := {| sv_written := Written; sv_renamed := true |}; ou_refreshes := [];
     ou_bytes := ""; ou_bound := true; ou_incoming := [] |}.

(** The run fails on the second save; the file has the first. *)
Example torn_run :
  match ru_ended (run ex_poll_cli ex_outside) with Some (Err (Failed (StateFile WriteFailed))) => true | _ => false end = true /\
  match load_state (ru_fs (run ex_poll_cli ex_outside)) "c.json" true with
  | Ok (Some st) => bool_decide (cs_cursor st = Some "7:1")
  | _ => false
  end = true /\
  match main ex_poll_cli ex_outside with Some (Some (OtherError _), 1) => true | _ => false end = true.
Proof. split_and!; vm_compute; reflexivity. Qed.

Lemma run_files_witness :
  kept (Some "c.json") ∅ (ru_fs (run ex_poll_cli ex_outside)) /\
  match ru_ended (run ex_poll_cli ex_outside) with Some (Err _) => true | _ => false end = true.
Proof.
  split; [exact (run_files (SL := ZSerde_laws) ex_poll_cli ex_outside)|].
  vm_compute. reflexivity.
Defined.
End example.
