(* ===== verification/Receiver.v ===== *)
(** * The webhook receiver against the server's deliveries.

    The [webhook-recv] command of the harness is the other end of the signed
    posts that the server's delivery tasks and its endpoint verification
    make: what it accepts, what it prints, and what it answers. *)
From S2P Require Import Prelude RustStd Lib Json Canon Wire Codec Buffer History Registry Store Ssrf Config Mapping State Handlers.
From S2P Require Import Dispatch JsonText Base Utf8 SseText ClientSse Client ClientServer ClientState Dedup Harness Signing Subscribe Worker.

Section receiver.
Context {J : JsonLib} {S : SerdeLib} {Y : Crypto} {U : UrlLib}.

(** What the receiver makes of a signed post. *)
Definition post_header (p : SignedPost) (n : string) : option string :=
  v ← header_of n (po_headers p); if visible_ascii v then Some v else None.

Definition receive_post (st : RecvState) (p : SignedPost) (now_secs : Z) : RecvState * list Act * Reply :=
  recv_handler st "POST" (post_header p) (po_body p) now_secs.

(** The server's side of the exchange. *)
Definition as_outcome (r : Reply) : HttpOutcome := HttpResponse r.1 (Some r.2).

(** A post that arrives: the clocks of its sender and of its receiver. *)
Record Arrival := {
  ar_url : string;
  ar_sub_id : string;
  ar_msg_id : string;
  ar_fields : list (string * option Value);   (* of the body *)
  ar_sent : Z;
  ar_received : Z
}.

Definition arrival_post (secret : string) (a : Arrival) : SignedPost :=
  signed_post (ar_sent a) (ar_url a) (ar_sub_id a) (ar_msg_id a) secret (struct_text (ar_fields a)).

Fixpoint receive_all (secret : string) (st : RecvState) (l : list Arrival) : RecvState * list Act * list Reply :=
  match l with
  | [] => (st, [], [])
  | a :: l' =>
      let '(st, out, reply) := receive_post st (arrival_post secret a) (ar_received a) in
      let '(st, out', replies) := receive_all secret st l' in
      (st, out ++ out', reply :: replies)
  end.

(** The posts of a server in step with the receiver's clock, to within the
    freshness window. *)
Record arrives (a : Arrival) : Prop := {
  av_id : visible_ascii (ar_msg_id a) = true;
  av_clock : i64_min + MAX_TIMESTAMP_SKEW_SECS <= ar_sent a <= i64_max - MAX_TIMESTAMP_SKEW_SECS;
  av_skew : Z.abs (ar_received a - ar_sent a) <= MAX_TIMESTAMP_SKEW_SECS;
  av_wf : Forall (fun kv => from_option wf_value True kv.2) (ar_fields a)
}.

(** What a body says: an event or a gap notice. *)
Definition event_arrival (a : Arrival) (o : EventOccurrence) : Prop :=
  ar_fields a = occurrence_fields o /\ wire_ok o.

(** The first arrival of each message id. *)
Fixpoint first_arrivals (earlier : list string) (l : list (string * Act)) : list Act :=
  match l with
  | [] => []
  | (id, line) :: l' =>
      (if bool_decide (id ∈ earlier) then [] else [line]) ++ first_arrivals (earlier ++ [id]) l'
  end.

(** The same, with a memory of [n] ids. *)
Fixpoint window_arrivals (n : nat) (earlier : list string) (l : list (string * Act)) : list Act :=
  match l with
  | [] => []
  | (id, line) :: l' =>
      (if bool_decide (id ∈ take n (recency earlier)) then [] else [line]) ++
      window_arrivals n (earlier ++ [id]) l'
  end.

(** ** Lemmas *)
Lemma recency_length_app l k : (length (recency l) <= length (recency (l ++ k)))%nat.
Proof.
  apply submseteq_length, NoDup_submseteq; [apply recency_NoDup|].
  intros x. rewrite !elem_of_recency, elem_of_app. by left.
Qed.

(** A memory that is never full forgets nothing. *)
Lemma window_first n earlier l :
  (length (recency (earlier ++ l.*1)) <= n)%nat -> window_arrivals n earlier l = first_arrivals earlier l.
Proof.
  revert earlier. induction l as [|[id line] l IH]; intros earlier Hn; [done|]. csimpl in *.
  assert ((earlier ++ [id]) ++ l.*1 = earlier ++ id :: l.*1) as E by by rewrite <- (assoc_L (++)).
  rewrite IH by by rewrite E. f_equal. pose proof (recency_length_app earlier (id :: l.*1)).
  rewrite take_ge by lia. by rewrite (bool_decide_ext _ _ (elem_of_recency earlier id)).
Qed.

Lemma visible_text s : str_forall (fun c => (32 <=? N_of_ascii c) && (N_of_ascii c <? 127))%N s = true -> visible_ascii s = true.
Proof. apply str_forall_impl. intros c H. apply orb_true_iff. by right. Qed.

Lemma visible_i64 n : visible_ascii (i64_to_string n) = true.
Proof.
  assert (forall m, visible_ascii (u64_to_string m) = true) as H.
  { intros m. apply visible_text. eapply str_forall_impl; [|apply u64_to_string_forall].
    intros c Hc. apply bool_decide_eq_true in Hc as [d Hd]. unfold char_digit in Hd. case_match eqn:E; [|done]. bsimp.
    apply andb_true_iff. rewrite N.leb_le, N.ltb_lt. lia. }
  unfold i64_to_string. destruct (n <? 0); [|apply H]. apply (H (- n)).
Qed.

Context {YL : CryptoLaws Y} {JL : JsonLaws J} {SL : SerdeLaws S}.

Lemma visible_signature secret msg_id ts body : visible_ascii (sign_standard_webhooks secret msg_id ts body) = true.
Proof.
  apply visible_text. unfold sign_standard_webhooks. rewrite str_forall_app. simpl.
  eapply str_forall_impl; [|apply base64_visible]. intros c [Hl Hu]%andb_true_iff. apply N.ltb_lt in Hl.
  apply andb_true_iff. split; [apply N.leb_le; lia|done].
Qed.

(** The skew of clocks in range does not wrap around. *)
Lemma skew_exact now ts :
  i64_min <= now - ts <= i64_max -> i64_abs (i64_sub now ts) = if now - ts =? i64_min then i64_min else Z.abs (now - ts).
Proof.
  intros H. unfold i64_sub, i64_min, i64_max in *. rewrite Z.mod_small by lia.
  unfold i64_abs, i64_min. by replace (now - ts + 2 ^ 63 - 2 ^ 63) with (now - ts) by lia.
Qed.

Lemma skew_guard now ts :
  0 <= now < 2 ^ 62 -> i64_min <= ts <= i64_max -> i64_abs (i64_sub now ts) <= MAX_TIMESTAMP_SKEW_SECS ->
  Z.abs (now - ts) <= 300 \/ now - ts = 2 ^ 63.
Proof.
  intros Hn Ht H. destruct (decide (now - ts <= i64_max)) as [Hd|Hd].
  - left. unfold MAX_TIMESTAMP_SKEW_SECS, i64_min, i64_max in *. rewrite skew_exact in H by (unfold i64_min, i64_max; lia).
    rewrite (proj2 (Z.eqb_neq _ _)) in H by (unfold i64_min; lia). done.
  - right. unfold MAX_TIMESTAMP_SKEW_SECS, i64_abs, i64_sub, i64_min, i64_max in *.
    replace (now - ts + 2 ^ 63) with (now - ts - 2 ^ 63 + 1 * 2 ^ 64) in H by lia.
    rewrite Z.mod_add, Z.mod_small in H by lia. destruct (_ =? _) eqn:E; bsimp; lia.
Qed.

Lemma signed_verifies key secret msg_id ts body :
  verify_standard_webhooks key msg_id ts body (sign_standard_webhooks secret msg_id ts body) = true <->
  hmac_tag secret msg_id ts body = hmac_tag key msg_id ts body.
Proof.
  rewrite (verify_signature_list key msg_id ts body [secret]).
  split; [intros (k & ->%list_elem_of_singleton & E); done|].
  intros E. exists secret. split; [by apply list_elem_of_singleton|done].
Qed.

Lemma post_headers now_secs url sub_id msg_id secret body :
  let p := signed_post now_secs url sub_id msg_id secret body in
  let shown v := if visible_ascii v then Some v else None in
  post_header p consts.HEADER_WEBHOOK_ID = shown msg_id /\
  post_header p consts.HEADER_WEBHOOK_TIMESTAMP = Some (i64_to_string now_secs) /\
  post_header p consts.HEADER_WEBHOOK_SIGNATURE = Some (sign_standard_webhooks secret msg_id now_secs body) /\
  post_header p consts.HEADER_MCP_SUBSCRIPTION_ID = shown sub_id.
Proof.
  intros p shown. split; [reflexivity|]. split; [|split; [|reflexivity]].
  - transitivity (shown (i64_to_string now_secs)); [reflexivity|]. unfold shown. by rewrite visible_i64.
  - transitivity (shown (sign_standard_webhooks secret msg_id now_secs body)); [reflexivity|].
    unfold shown. by rewrite visible_signature.
Qed.

(** A post that arrives passes the guards, if its secret is the receiver's. *)
Lemma receive_arrival secret st a :
  arrives a ->
  receive_post st (arrival_post secret a) (ar_received a) =
  if bool_decide (hmac_tag secret (ar_msg_id a) (ar_sent a) (struct_text (ar_fields a)) =
                  hmac_tag (rv_key st) (ar_msg_id a) (ar_sent a) (struct_text (ar_fields a)))
  then recv_value st (ar_msg_id a) (if visible_ascii (ar_sub_id a) then Some (ar_sub_id a) else None) (json_struct (ar_fields a))
  else (st, [], (401, "invalid signature")).
Proof.
  intros [Hid Hclock Hskew Hwf]. unfold MAX_TIMESTAMP_SKEW_SECS in *. unfold receive_post, recv_handler, arrival_post.
  destruct (post_headers (ar_sent a) (ar_url a) (ar_sub_id a) (ar_msg_id a) secret (struct_text (ar_fields a))) as (-> & -> & -> & ->).
  rewrite Hid, i64_from_to_string, bool_decide_eq_true_2 by (done || lia). cbn [negb po_body signed_post].
  rewrite skew_exact by (unfold i64_min, i64_max in *; lia).
  rewrite (proj2 (Z.eqb_neq _ _)), (proj2 (Z.ltb_ge _ _)) by (unfold i64_min, MAX_TIMESTAMP_SKEW_SECS in *; lia).
  rewrite json_from_struct by done. pose proof (signed_verifies (rv_key st) secret (ar_msg_id a) (ar_sent a) (struct_text (ar_fields a))) as Hv.
  case_bool_decide as Hb.
  - by rewrite (proj2 Hv Hb).
  - destruct (verify_standard_webhooks _ _ _ _ _); [|done]. exfalso. by apply Hb, Hv.
Qed.

Lemma recv_event st msg_id sub o :
  wire_ok o ->
  recv_value st msg_id sub (enc_EventOccurrence o) =
  ({| rv_key := rv_key st; rv_dedup := (check_and_insert (rv_dedup st) msg_id).1 |},
   if (check_and_insert (rv_dedup st) msg_id).2 then [] else [print_event o], (200, "")).
Proof.
  intros Ho. unfold recv_value. destruct (check_and_insert _ _) as [d dup].
  replace (value_get "type" (enc_EventOccurrence o)) with (@None Value)
    by (unfold enc_EventOccurrence, occurrence_fields; by rewrite json_struct_get by keys_distinct_tac).
  pose proof (decode_encode o Ho) as E. unfold decode, encode in E. simpl in E. by rewrite E.
Qed.

Definition event_lines (l : list Arrival) (os : list EventOccurrence) : list (string * Act) :=
  zip (ar_msg_id <$> l) (print_event <$> os).

Lemma receive_events secret l os n h st :
  rv_key st = secret -> lru_ok n h (rv_dedup st) ->
  Forall2 (fun a o => arrives a /\ event_arrival a o) l os ->
  let '(_, out, replies) := receive_all secret st l in
  Forall (fun r => r = (200, "")) replies /\ out = window_arrivals (Datatypes.S n) h (event_lines l os).
Proof.
  intros Hk Hd Hl. revert h st Hk Hd. induction Hl as [|a o l os [Ha [Hv Ho]] _ IH]; intros h st Hk Hd; [done|].
  cbn [receive_all]. rewrite receive_arrival by done. rewrite Hk, bool_decide_eq_true_2 by done.
  rewrite Hv. change (json_struct (occurrence_fields o)) with (enc_EventOccurrence o). rewrite recv_event by done. rewrite Hk. destruct (check_and_insert_ok n h (rv_dedup st) (ar_msg_id a) Hd) as [Hd' ->].
  specialize (IH (h ++ [ar_msg_id a]) {| rv_key := secret; rv_dedup := (check_and_insert (rv_dedup st) (ar_msg_id a)).1 |} eq_refl Hd').
  destruct (receive_all secret _ l) as [[st2 out2] replies2]. destruct IH as [IH1 IH2]. split; [by constructor|].
  change (event_lines (a :: l) (o :: os)) with ((ar_msg_id a, print_event o) :: event_lines l os).
  cbn [window_arrivals]. by rewrite IH2.
Qed.

Lemma recv_start_Ok text st :
  recv_start text = Ok st <-> exists key, parse_whsec text = Ok key /\ st = {| rv_key := key; rv_dedup := lru_new DEDUP_CAPACITY |}.
Proof. unfold recv_start. destruct (parse_whsec text); naive_solver. Qed.

(** C6. Exactly once: whatever posts of events a server's tasks make to this
    receiver with the secret of the subscription - retries, replays and
    repeats included - every one is acknowledged, and the event of a message
    id is printed when its id first arrives and not again, as long as its id
    is among the 4096 most recent ones; with at most 4096 ids in all, each
    event is printed exactly once, in order of first arrival. *)
Theorem webhook_exactly_once text secret st l os :
  parse_whsec text = Ok secret -> recv_start text = Ok st ->
  Forall2 (fun a o => arrives a /\ event_arrival a o) l os ->
  let '(_, out, replies) := receive_all secret st l in
  Forall (fun r => r = (200, "")) replies /\
  out = window_arrivals (Z.to_nat DEDUP_CAPACITY) [] (event_lines l os) /\
  (Z.of_nat (length (recency (ar_msg_id <$> l))) <= DEDUP_CAPACITY -> out = first_arrivals [] (event_lines l os)).
Proof.
  intros Hs (key & Hkey & ->)%recv_start_Ok Hl. assert (key = secret) as -> by congruence.
  pose proof (receive_events secret l os _ [] {| rv_key := secret; rv_dedup := lru_new DEDUP_CAPACITY |} eq_refl
    (lru_run_ok DEDUP_CAPACITY []) Hl) as H.
  destruct (receive_all _ _ _) as [[st' out] replies]. destruct H as [H1 H2].
  replace (Datatypes.S (Z.to_nat (Z.max DEDUP_CAPACITY 1 - 1))) with (Z.to_nat DEDUP_CAPACITY) in H2
    by (unfold DEDUP_CAPACITY; lia).
  split; [done|]. split; [done|]. intros Hn. rewrite H2. apply window_first.
  unfold event_lines. rewrite fst_zip by by (rewrite !length_fmap, (Forall2_length _ _ _ Hl)). simpl. lia.
Qed.

Lemma verification_wf nonce : Forall (fun kv => from_option wf_value True kv.2) (control_fields (Verification nonce)).
Proof. by repeat constructor. Qed.

Lemma visible_control kind uuid : visible_ascii kind = true -> visible_ascii uuid = true -> visible_ascii (control_msg_id kind uuid) = true.
Proof. intros. unfold control_msg_id. by rewrite !visible_ascii_app, H, H0. Qed.

Lemma verification_post_arrival url sub_id secret w now :
  verification_post url sub_id secret w =
  arrival_post secret {| ar_url := url_as_str url; ar_sub_id := sub_id; ar_msg_id := control_msg_id "verification" (vw_uuid w);
    ar_fields := control_fields (Verification (vw_nonce w)); ar_sent := vw_now_secs w; ar_received := now |}.
Proof. done. Qed.

Lemma recv_verification st msg_id sub nonce :
  (recv_value st msg_id sub (enc_WebhookControlBody (Verification nonce))).2 =
  (200, value_to_string (json_obj [("challenge", JString nonce)])).
Proof.
  unfold recv_value. destruct (check_and_insert _ _) as [d dup].
  assert (dec_WebhookControlBody (enc_WebhookControlBody (Verification nonce)) = Some (Verification nonce)) as ->
    by exact (decode_encode (Verification nonce) I).
  unfold enc_WebhookControlBody, control_fields. by rewrite json_struct_get by keys_distinct_tac.
Qed.

Lemma echo_passes nonce :
  byte_len (value_to_string (json_obj [("challenge", JString nonce)])) <= MAX_ECHO_BYTES ->
  check_echo nonce (as_outcome (200, value_to_string (json_obj [("challenge", JString nonce)]))) = Ok ().
Proof.
  intros Hn. unfold check_echo, as_outcome. cbn [fst snd]. change (negb (Subscribe.is_success 200)) with false. cbn [negb].
  rewrite (proj2 (Z.ltb_ge _ _)) by done. rewrite json_from_to by (apply json_obj_wf; by repeat constructor).
  simpl. by rewrite bool_decide_eq_true_2.
Qed.

(** The handshake: the server's verification of an endpoint that its
    policy admits and behind which this receiver listens succeeds when the
    two agree on the secret, also when the challenge arrives again, and fails
    with [http_4xx] otherwise; the delivery of an event is acknowledged
    or fails, to be retried, in the same cases. *)
Theorem receiver_handshake allow u sub_id secret st w pw o now cl :
  client_for allow (url_port_or_known_default u) (url_host u) (vw_lookup w) (vw_builds w) = Ok cl ->
  client_for allow (url_port_or_known_default u) (url_host u) (pw_lookup pw) (pw_builds pw) = Ok cl ->
  (forall p, vw_respond w p = as_outcome (receive_post st p now).2) ->
  (forall p, pw_respond pw p = as_outcome (receive_post st p now).2) ->
  let challenge := {| ar_url := url_as_str u; ar_sub_id := sub_id; ar_msg_id := control_msg_id "verification" (vw_uuid w);
    ar_fields := control_fields (Verification (vw_nonce w)); ar_sent := vw_now_secs w; ar_received := now |} in
  let event := {| ar_url := url_as_str u; ar_sub_id := sub_id; ar_msg_id := eo_event_id o;
    ar_fields := occurrence_fields o; ar_sent := pw_now_secs pw; ar_received := now |} in
  let agree a := bool_decide (hmac_tag secret (ar_msg_id a) (ar_sent a) (struct_text (ar_fields a)) =
                              hmac_tag (rv_key st) (ar_msg_id a) (ar_sent a) (struct_text (ar_fields a))) in
  arrives challenge -> arrives event -> wire_ok o ->
  byte_len (value_to_string (json_obj [("challenge", JString (vw_nonce w))])) <= MAX_ECHO_BYTES ->
  verify_endpoint allow u sub_id secret w = (if agree challenge then Ok () else Err error_category.HTTP_4XX) /\
  attempt_post allow u sub_id (eo_event_id o) secret (struct_text (occurrence_fields o)) pw =
    (if agree event then Acked else Failed error_category.HTTP_4XX true).
Proof.
  intros Hc Hc' Hw Hpw challenge event agree Hch Hev Ho Hn. split.
  - unfold verify_endpoint. rewrite Hc, Hw, (verification_post_arrival _ _ _ _ now). fold challenge.
    change now with (ar_received challenge). rewrite receive_arrival by done. unfold agree. case_bool_decide; [|done].
    unfold challenge. cbn [ar_fields].
    change (json_struct (control_fields ?b)) with (enc_WebhookControlBody b). rewrite recv_verification. by apply echo_passes.
  - unfold attempt_post. rewrite Hc', Hpw.
    change (signed_post _ _ _ _ _ _) with (arrival_post secret event). change now with (ar_received event).
    rewrite receive_arrival by done. unfold agree. case_bool_decide; [|done].
    unfold event. cbn [ar_fields].
    change (json_struct (occurrence_fields o)) with (enc_EventOccurrence o). by rewrite recv_event.
Qed.

(** C27. What the receiver acts on is authentic: a request makes it print,
    remember or answer with success only if it is a POST whose headers carry
    a signature of its id, timestamp and body under the receiver's secret,
    and a timestamp within five minutes of the clock - or, the one hole of
    the wrapped subtraction, [2 ^ 63] seconds before it. *)
Theorem receiver_authentic st method hdr body now :
  0 <= now < 2 ^ 62 ->
  let '(st', out, reply) := recv_handler st method hdr body now in
  st' <> st \/ out <> [] \/ reply.1 = 200 ->
  exists id ts_raw ts token,
    method = "POST" /\ hdr consts.HEADER_WEBHOOK_ID = Some id /\ hdr consts.HEADER_WEBHOOK_TIMESTAMP = Some ts_raw /\
    i64_from_str ts_raw = Some ts /\ (Z.abs (now - ts) <= 300 \/ now - ts = 2 ^ 63) /\
    (exists signature, hdr consts.HEADER_WEBHOOK_SIGNATURE = Some signature /\ token ∈ split_whitespace signature) /\
    candidate token (hmac_tag (rv_key st) id ts body).
Proof.
  intros Hnow. destruct (recv_handler st method hdr body now) as [[st' out] reply] eqn:E. intros Hdid.
  assert (forall s r, (st, [] : list Act, (s, r)) = (st', out, reply) -> s = 200) as Hquiet.
  { intros s r [= <- <- <-]. by destruct Hdid as [?|[?|?]]. }
  unfold recv_handler in E. case_bool_decide; simpl in E; [|by apply Hquiet in E].
  destruct (hdr consts.HEADER_WEBHOOK_ID) as [id|]; [|by apply Hquiet in E].
  destruct (hdr consts.HEADER_WEBHOOK_TIMESTAMP) as [ts_raw|]; [|by apply Hquiet in E].
  destruct (hdr consts.HEADER_WEBHOOK_SIGNATURE) as [signature|]; [|by apply Hquiet in E].
  destruct (i64_from_str ts_raw) as [ts|] eqn:Ets; [|by apply Hquiet in E].
  destruct (_ <? _) eqn:Eskew; [by apply Hquiet in E|]. bsimp.
  destruct (negb _) eqn:Ever; [by apply Hquiet in E|]. bsimp.
  unfold verify_standard_webhooks in Ever. apply verify_fold in Ever as [?|(token & Ht & Hc)]; [done|].
  exists id, ts_raw, ts, token. split_and!; eauto.
  apply i64_from_str_bounds in Ets. by apply skew_guard.
Qed.
End receiver.

(** ** Examples *)
Section example.
#[local] Existing Instance HttpsUrl.

#[local] Abbreviation ex_key_bytes := "abcdefghijklmnopqrstuvwx".
Definition ex_secret_text : string := WHSEC_PREFIX +:+ base64_encode ex_key_bytes.
Definition ex_receiver : RecvState := {| rv_key := ex_key_bytes; rv_dedup := lru_new DEDUP_CAPACITY |}.

Definition ex_occurrence (id : string) : EventOccurrence (J := ZJson) :=
  {| eo_event_id := id; eo_name := "orders.changed"; eo_timestamp := "t";
     eo_data := json_obj [("changeType", JString "added")]; eo_cursor := Some (Some "7:1"); eo_meta := None |}.

Definition ex_arrival (id : string) : Arrival :=
  {| ar_url := "https://h/x"; ar_sub_id := "sub_1"; ar_msg_id := id; ar_fields := occurrence_fields (ex_occurrence id);
     ar_sent := 1700000000; ar_received := 1700000010 |}.

Lemma ex_occurrence_wf id : Forall (fun kv => from_option wf_value True kv.2) (occurrence_fields (ex_occurrence id)).
Proof. repeat constructor. Qed.

Lemma ex_arrives id : visible_ascii id = true -> arrives (ex_arrival id) /\ event_arrival (ex_arrival id) (ex_occurrence id).
Proof.
  intros Hid. split; [|split; [done|by intros ?]].
  split; [done|split; discriminate|discriminate|apply ex_occurrence_wf].
Qed.

(** The first delivery's acknowledgement is lost, so it is made again. *)
Lemma webhook_exactly_once_witness :
  (receive_all (S := ZSerde) ex_key_bytes ex_receiver [ex_arrival "a"; ex_arrival "b"; ex_arrival "a"]).1.2 =
  [print_event (ex_occurrence "a"); print_event (ex_occurrence "b")].
Proof.
  pose proof (webhook_exactly_once (S := ZSerde) (SL := ZSerde_laws) ex_secret_text ex_key_bytes ex_receiver
    [ex_arrival "a"; ex_arrival "b"; ex_arrival "a"] [ex_occurrence "a"; ex_occurrence "b"; ex_occurrence "a"]) as H.
  assert (parse_whsec ex_secret_text = Ok ex_key_bytes) as H1 by (vm_compute; reflexivity).
  assert (recv_start ex_secret_text = Ok ex_receiver) as H2.
  { unfold recv_start. rewrite H1. reflexivity. }
  specialize (H H1 H2). clear H1 H2. destruct (receive_all _ _ _) as [[st' out] replies].
  destruct H as (_ & _ & H); [repeat (apply Forall2_cons; split; [apply ex_arrives; reflexivity|]); constructor|].
  cbn [fst snd]. rewrite H; [reflexivity|]. vm_compute. discriminate.
Defined.

Definition ex_verify : VerifyWorld := {|
  vw_lookup _ _ := Some [{| sa_ip := V4 (Build_Ipv4Addr 93 184 215 14); sa_port := 443 |}];
  vw_builds := true; vw_nonce := "n0"; vw_uuid := "u1"; vw_now_secs := 1700000000;
  vw_respond p := as_outcome (receive_post (S := ZSerde) ex_receiver p 1700000010).2 |}.

Definition ex_deliver : PostWorld := {|
  pw_lookup _ _ := Some [{| sa_ip := V4 (Build_Ipv4Addr 93 184 215 14); sa_port := 443 |}];
  pw_builds := true; pw_now_secs := 1700000000;
  pw_respond p := as_outcome (receive_post (S := ZSerde) ex_receiver p 1700000010).2 |}.

Lemma receiver_handshake_witness :
  verify_endpoint (S := ZSerde) false ("hook" : Url (UrlLib := HttpsUrl)) "sub_1" ex_key_bytes ex_verify = Ok () /\
  attempt_post false ("hook" : Url (UrlLib := HttpsUrl)) "sub_1" "a" ex_key_bytes
    (struct_text (occurrence_fields (ex_occurrence "a"))) ex_deliver = Acked.
Proof.
  assert (exists cl, client_for false (url_port_or_known_default ("hook" : Url (UrlLib := HttpsUrl)))
    (url_host ("hook" : Url (UrlLib := HttpsUrl))) (vw_lookup ex_verify) (vw_builds ex_verify) = Ok cl) as [cl Hcl]
    by (vm_compute; eexists; reflexivity).
  pose proof (receiver_handshake (S := ZSerde) (SL := ZSerde_laws) false ("hook" : Url (UrlLib := HttpsUrl)) "sub_1" ex_key_bytes
    ex_receiver ex_verify ex_deliver (ex_occurrence "a") 1700000010 cl Hcl Hcl (fun p => eq_refl) (fun p => eq_refl)) as H.
  destruct H as [H1 H2].
  - split; [reflexivity|split; discriminate|discriminate|apply verification_wf].
  - split; [reflexivity|split; discriminate|discriminate|apply ex_occurrence_wf].
  - intros ? [=].
  - vm_compute. discriminate.
  - cbn [rv_key ex_receiver] in H1, H2. rewrite bool_decide_eq_true_2 in H1, H2 by reflexivity. split; [exact H1|exact H2].
Defined.

(** A header as the source sees it. *)
Definition ex_headers (ts : Z) (n : string) : option string :=
  post_header (signed_post ts "https://h/x" "sub_1" "a" ex_key_bytes "{}") n.

(** The hole: a signed timestamp [2 ^ 63] seconds old is fresh. *)
Example wrapped_timestamp_fresh :
  (recv_handler (S := ZSerde) ex_receiver "POST" (ex_headers (1700000000 - 2 ^ 63)) "{}" 1700000000).2 = bad "malformed event body" /\
  (recv_handler (S := ZSerde) ex_receiver "POST" (ex_headers (1700000000 - 301)) "{}" 1700000000).2 =
    bad "webhook-timestamp outside freshness window".
Proof. vm_compute. split; reflexivity. Qed.

Lemma receiver_authentic_witness :
  exists ts, Z.abs (1700000000 - ts) <= 300 \/ 1700000000 - ts = 2 ^ 63.
Proof.
  pose proof (receiver_authentic (S := ZSerde) ex_receiver "POST"
    (post_header (arrival_post ex_key_bytes (ex_arrival "a"))) (po_body (arrival_post ex_key_bytes (ex_arrival "a")))
    1700000000) as H.
  assert (let r := recv_handler (S := ZSerde) ex_receiver "POST"
    (post_header (arrival_post ex_key_bytes (ex_arrival "a"))) (po_body (arrival_post ex_key_bytes (ex_arrival "a")))
    1700000000 in (r.2.1, length r.1.2) = (200, 1%nat)) as Hr by (vm_compute; reflexivity).
  destruct (recv_handler _ _ _ _ _) as [[st' out] reply]. injection Hr as Hr _.
  assert (0 <= 1700000000 < 2 ^ 62) as Hn by (split; [discriminate|reflexivity]).
  destruct (H Hn (or_intror (or_intror Hr))) as (id & ts_raw & ts & token & _ & _ & _ & _ & Hs & _).
  exists ts. exact Hs.
Defined.
End example.
