(* ===== verification/Resume.v ===== *)
(** * The streaming harness against the server: resumption.

    The [stream] command connects again and again, each time with the cursor
    of the last frame it took, and saves that cursor; its process may die and
    be started again from the file.  This file follows it over any number of
    connections to the server's generator. *)
From S2P Require Import Prelude RustStd Lib Dedup Json Wire Codec Signing Buffer History Registry Config Mapping State Stream.
From S2P Require Import JsonText Base Utf8 SseText ClientSse Client Dispatch ClientServer ClientState Harness.

(** ** A run of the generator, up to one of its frames *)
Section prefixes.
Context {J : JsonLib} {C : Chrono} {S : SerdeLib}.
Context (c : StreamCfg) (bc : BufferConfig) (rnd : Z).
Context (Hmax : 0 <= max_events_per_type bc) (Hrnd : 0 <= rnd <= u64_max) (Hid : wire_ok (sc_id c)).
#[local] Abbreviation name := (sp_name (sc_params c)).

(** The cursor of the last frame that has one. *)
Definition last_cursor (fs : list Frame) : option (option string) :=
  foldl (fun cur f => match frame_cursor (client_frame f) with Some x => Some x | None => cur end) None fs.

Lemma last_cursor_snoc fs f :
  last_cursor (fs ++ [f]) = match frame_cursor (client_frame f) with Some x => Some x | None => last_cursor fs end.
Proof. unfold last_cursor. by rewrite foldl_snoc. Qed.

Lemma stream_run_app s b l l' s' b' os :
  stream_run c s b (l ++ l') = Some (s', b', os) <->
  exists s1 b1 os1 os2, stream_run c s b l = Some (s1, b1, os1) /\ stream_run c s1 b1 l' = Some (s', b', os2) /\ os = os1 ++ os2.
Proof.
  revert s b os. induction l as [|i l IH]; intros s b os; simpl.
  - split; [intros H; by exists s, b, [], os|]. by intros (? & ? & ? & ? & [= <- <- <-] & ? & ->).
  - destruct (stream_step c s b i) as [[[s0 b0] o]|]; simpl; [|split; [done|]; by intros (? & ? & ? & ? & [=] & _)].
    split.
    + intros ([[s2 b2] os'] & Hrun & [= <- <- <-])%bind_Some. apply IH in Hrun as (s1 & b1 & os1 & os2 & H1 & H2 & ->).
      exists s1, b1, (o :: os1), os2. rewrite H1. by split_and!.
    + intros (s1 & b1 & os1 & os2 & H1 & H2 & ->). apply bind_Some in H1 as ([[s2 b2] os'] & H1 & [= <- <- <-]).
      apply bind_Some. exists (s', b', os' ++ os2). split; [|done]. apply IH. eauto 10.
Qed.

Lemma frames_app os os' : frames (os ++ os') = frames os ++ frames os'.
Proof. unfold frames. by rewrite bind_app. Qed.

(** Any non-empty prefix of the frames is what a prefix of the run yields,
    ending with the step of its last frame. *)
Lemma run_prefix l s b s' b' os got :
  stream_run c s b l = Some (s', b', os) -> got `prefix_of` frames os -> got <> [] ->
  exists l1 i l2 s0 b0 os0 s1 b1 o f,
    l = l1 ++ i :: l2 /\ stream_run c s b l1 = Some (s0, b0, os0) /\
    stream_step c s0 b0 i = Some (s1, b1, o) /\ out_frames o = [f] /\ got = frames os0 ++ [f].
Proof.
  revert s b os got. induction l as [|i l IH]; intros s b os got Hrun Hpre Hne.
  - injection Hrun as <- <- <-. by apply prefix_nil_inv in Hpre.
  - simpl in Hrun. apply bind_Some in Hrun as ([[s1 b1] o] & Hst & Hrun).
    apply bind_Some in Hrun as ([[s2 b2] os'] & Hrun & [= <- <- <-]).
    unfold frames in Hpre. csimpl in Hpre. fold (frames os') in Hpre.
    assert (forall got', got' `prefix_of` frames os' -> got' <> [] -> got = out_frames o ++ got' ->
      exists l1 i' l2 s0 b0 os0 s1 b1 o' f, i :: l = l1 ++ i' :: l2 /\ stream_run c s b l1 = Some (s0, b0, os0) /\
        stream_step c s0 b0 i' = Some (s1, b1, o') /\ out_frames o' = [f] /\ got = frames os0 ++ [f]) as Hgo.
    { intros got' Hp' Hne' ->. destruct (IH _ _ _ _ Hrun Hp' Hne') as (l1 & i' & l2 & s0 & b0 & os0 & s3 & b3 & o' & f & -> & H1 & H2 & H3 & ->).
      exists (i :: l1), i', l2, s0, b0, (o :: os0), s3, b3, o', f. simpl. rewrite Hst. simpl. rewrite H1.
      split_and!; try done. unfold frames. csimpl. by rewrite <- (assoc_L (++)). }
    destruct (stream_step_frames _ _ _ _ _ _ _ Hid Hst) as [_ [E|(f & E & _)]]; rewrite E in *; [by apply (Hgo got)|].
    destruct got as [|f' got]; [done|]. simpl in Hpre. apply prefix_cons_inv_1 in Hpre as Ef.
    apply prefix_cons_inv_2 in Hpre. subst f'. destruct got as [|f' got]; [|by apply (Hgo (f' :: got))].
    exists [], i, l, s, b, [], s1, b1, o, f. by split_and!.
Qed.

(** The frame of a step carries the position after it. *)
Lemma step_cursor ops s b i s' b' o f :
  buf_ok bc rnd ops b -> stream_step c s b i = Some (s', b', o) -> out_frames o = [f] -> is_final f = false ->
  frame_cursor (client_frame f) = Some (Some (s_cur s')).
Proof.
  intros Hok Hst Hf Hfin. unfold stream_step in Hst. destruct i as [op| |now|r|].
  - by injection Hst as <- <- <-.
  - destruct (s_phase s); try done. destruct (live _ _). by injection Hst as <- <- <-.
  - destruct (s_phase s); try done; apply (inj Some) in Hst.
    + unfold probe in Hst. destruct (read _ _ _ _ _ _ _ _) as [b1 r]. injection Hst as <- <- <-. injection Hf as <-.
      simpl. by destruct (rr_has_more r).
    + unfold replay, read_one in Hst. destruct (read _ _ _ _ _ _ _ _) as [b1 r].
      destruct (rr_events r); injection Hst as <- <- <-; [done|]. injection Hf as <-. simpl. by destruct (rr_has_more r).
    + unfold resync, read_one in Hst. destruct (read _ _ _ _ _ _ _ _) as [b1 r].
      destruct (rr_events r); injection Hst as <- <- <-; [done|]. injection Hf as <-. simpl. by destruct (rr_has_more r).
  - destruct r as [|k|]; destruct (s_phase s); try done.
    + destruct (_ !! s_rx s) as [le|] eqn:Hle; [|done].
      destruct (log_lookup _ _ _ _ _ _ _ Hok Hle) as (ev & _ & _ & Hocc & _).
      unfold receive in Hst. destruct (s_last s <? le_seq le); [|by injection Hst as <- <- <-].
      destruct (match sp_params _ with Some _ => _ | None => _ end); injection Hst as <- <- <-; [|done].
      injection Hf as <-. simpl. by rewrite Hocc.
    + case_bool_decide; [|done]. injection Hst as <- <- <-. by injection Hf as <-.
    + case_bool_decide; [|done]. injection Hst as <- <- <-. by injection Hf as <-.
  - destruct (s_phase s); try done. injection Hst as <- <- <-. by injection Hf as <-.
Qed.

(** The stream was opened without a gap, and no read of its replay or resync
    loop found one. *)
Definition gapless (os : list Output) : Prop :=
  clean_run os /\ match frames os with ActiveFrame p :: _ => ea_truncated p = false | _ => True end.

(** What any prefix of the frames covers, when the client resumed at a
    position of this server. *)
Lemma prefix_exact ops p0 l s b os got :
  let ops' := ops ++ run_ops name l in
  Z.of_nat (length ops') < u64_max -> sp_cursor (sc_params c) = Some (cursor_text rnd p0) -> 0 <= p0 <= u64_max ->
  stream_run c stream_new (buf_run (buffer_new bc rnd) ops) l = Some (s, b, os) -> gapless os ->
  got `prefix_of` frames os -> got <> [] -> existsb is_final got = false ->
  exists pos, last_cursor got = Some (Some (cursor_text rnd pos)) /\ p0 <= pos <= Z.of_nat (length (history name ops')) /\
    event_line <$> occurrences got =
    (fun e => event_line (poll_occurrence name e)) <$> passing (sp_params (sc_params c)) (sc_filter c) p0 pos (history name ops') /\
    eo_event_id <$> occurrences got =
    st_event_id <$> passing (sp_params (sc_params c)) (sc_filter c) p0 pos (history name ops').
Proof.
  intros ops' Hb Hcu Hp0 Hrun [Hclean Hopen] Hpre Hne Hfin.
  destruct (run_prefix _ _ _ _ _ _ _ Hrun Hpre Hne) as (l1 & i & l2 & s0 & b0 & os0 & s1 & b1 & o & f & -> & H0 & Hst & Hf & ->).
  unfold ops' in *. replace (l1 ++ i :: l2) with ((l1 ++ [i]) ++ l2) in * by by rewrite <- (assoc_L (++)).
  assert (run_ops name (l1 ++ [i]) = run_ops name l1 ++ input_ops name i) as Erun.
  { unfold run_ops. rewrite bind_app. csimpl. by rewrite app_nil_r. }
  assert (run_ops name ((l1 ++ [i]) ++ l2) = (run_ops name l1 ++ input_ops name i) ++ run_ops name l2) as Erun2.
  { unfold run_ops in *. by rewrite bind_app, Erun. }
  rewrite Erun2, !length_app in Hb.
  assert (stream_inv c bc rnd (ops ++ run_ops name l1) s0 b0 os0) as Hinv0.
  { apply (stream_run_inv c bc rnd Hmax Hrnd l1 ops stream_new (buf_run (buffer_new bc rnd) ops) s0 b0 os0 []); [|apply stream_inv_start; lia|done].
    rewrite length_app. lia. }
  assert (stream_inv c bc rnd ((ops ++ run_ops name l1) ++ input_ops name i) s1 b1 (os0 ++ [o])) as [_ Hinv].
  { apply (stream_step_inv c bc rnd Hmax Hrnd _ s0 b0 i); [|done|done]. rewrite !length_app. lia. }
  destruct Hinv0 as [Hok0 _]. rewrite existsb_app in Hfin. apply orb_false_iff in Hfin as [_ Hfin]. simpl in Hfin.
  rewrite orb_false_r in Hfin. pose proof (step_cursor _ _ _ _ _ _ _ _ Hok0 Hst Hf Hfin) as Hcur.
  assert (frames (os0 ++ [o]) = frames os0 ++ [f]) as Efr by (rewrite frames_app; unfold frames at 2; csimpl; by rewrite Hf).
  assert (stream_run c stream_new (buf_run (buffer_new bc rnd) ops) (l1 ++ [i]) = Some (s1, b1, os0 ++ [o])) as H1.
  { apply stream_run_app. exists s0, b0, os0, [o]. simpl. by rewrite Hst. }
  apply stream_run_app in Hrun as (s1' & b1' & os1 & os2 & H1' & H2 & ->). rewrite H1 in H1'. injection H1' as <- <- <-.
  rewrite frames_app, Efr in Hpre, Hopen. apply Forall_app in Hclean as [Hclean _].
  set (h1 := history name ((ops ++ run_ops name l1) ++ input_ops name i)) in *.
  assert (exists k, history name (ops ++ run_ops name ((l1 ++ [i]) ++ l2)) = h1 ++ k) as [k Ek].
  { rewrite Erun2, !(assoc_L (++)). apply history_prefix. }
  assert (consecutive 1 (h1 ++ k)) as Hcons by (rewrite <- Ek; apply history_consecutive).
  assert (exists start pos fs, opened c rnd (os0 ++ [o]) start fs /\ s_cur s1 = cursor_text rnd pos /\ 0 <= start <= pos /\
    pos <= Z.of_nat (length h1) /\ delivered c rnd h1 (clean_run (os0 ++ [o])) start pos (occurrences fs))
    as (start & pos & fs & Hop & Hs1 & Hsp & Hpos & Hdel).
  { unfold phase_inv in Hinv. destruct (s_phase s1);
      [exfalso; rewrite Efr in Hinv; destruct (frames os0); naive_solver|
       exfalso; rewrite Efr in Hinv; destruct (frames os0); naive_solver|..];
      destruct Hinv as (start & pos & fs & ? & ? & ? & ? & _ & ? & _); exists start, pos, fs; split_and!; (assumption || lia). }
  exists pos. rewrite last_cursor_snoc, Hcur, Hs1. split; [done|].
  destruct Hop as (act & tr & Efs & _ & Htr). rewrite Efr in Efs. rewrite Efs in Hopen |- *. simpl in Hopen.
  assert (start = p0) as ->.
  { specialize (Htr Hopen _ Hcu). rewrite parse_cursor_text in Htr by lia. congruence. }
  rewrite Ek, length_app. split; [lia|]. rewrite passing_grow by (done || lia).
  destruct Hdel as (es & Hes & _ & Hall). specialize (Hall Hclean). rewrite <- Hall.
  change (occurrences (active_frame c (cursor_text rnd act) tr :: fs)) with (occurrences fs).
  clear -Hes. induction Hes as [|x e xs es (q & _ & _ & ->) _ [IH1 IH2]]; [done|]. csimpl. by rewrite IH1, IH2.
Qed.
End prefixes.

(** ** Connections *)
Section sessions.
Context {J : JsonLib} {C : Chrono} {S : SerdeLib}.

(** The head of a stream's response. *)
Definition sse_head : PostResponse :=
  {| rp_status := 200; rp_header n := if bool_decide (n = "content-type") then Some "text/event-stream" else None;
     rp_body := None |}.

(** A body that carries frames in any chunks, with keep-alive comments,
    whole or broken off at any byte. *)
Definition carries (fs : list Frame) (body : list (option string)) : Prop :=
  exists bs chunks rest,
    Forall block_ok bs /\ omap block_data bs = frame_text <$> fs /\
    str_concat chunks +:+ rest = str_concat (block_text <$> bs) /\
    (rest = "" /\ body = Some <$> chunks \/ body = (Some <$> chunks) ++ [None]).

(** The stream the server opens for a connection of the harness. *)
Definition stream_cfg (a : StreamArgs) (r : StreamRun) (f : option ParamFilter) : StreamCfg :=
  {| sc_id := Num_ (cl_next_id (tn_client r)); sc_params := stream_request a (tn_state r); sc_filter := f |}.

(** A connection: the server's steps [l], from the moment it is opened to the
    moment the next one is, and what of its frames travels back (nothing, if
    the connection fails). *)
Record answered (a : StreamArgs) (f : option ParamFilter) (b : EventBuffer) (r : StreamRun) (cn : Connection) (l : list Input)
    : Prop := {
  an_id : i64_ok (cl_next_id (tn_client r));
  an_run : exists s' b' os,
    stream_run (stream_cfg a r f) stream_new b l = Some (s', b', os) /\ gapless os /\
    Forall (fun fr => wf_value (frame_value fr)) (frames os) /\
    ((forall req, cn_exchange cn req = None) \/
     exists body, (forall req, cn_exchange cn req = Some (sse_head, body)) /\ carries (frames os) body)
}.

(** The lines of events among what was printed. *)
Definition lines_of (out : list Act) : list string :=
  omap (fun x => match x with EventLine s => Some s | _ => None end) out.

Definition file_state (a : StreamArgs) (fs : FileSystem) : result HarnessError CursorState :=
  load_or_default fs (ta_state_file a) true.

(** The harness over any number of connections; a process that dies - at any
    moment: a connection may be cut off and a save fail anywhere - is started
    again from the file. *)
Inductive watched (bc : BufferConfig) (rnd : Z) (a : StreamArgs) (f : option ParamFilter)
    : list BufOp -> StreamRun -> list BufOp -> StreamRun -> list string -> bool -> Prop :=
| watched_end ops r : watched bc rnd a f ops r ops r [] false
| watched_on ops r cn l r1 out ops' r' lines restarted :
    answered a f (buf_run (buffer_new bc rnd) ops) r cn l -> stream_turn a r cn = (r1, out, None) ->
    watched bc rnd a f (ops ++ run_ops (ta_name a) l) r1 ops' r' lines restarted ->
    watched bc rnd a f ops r ops' r' (lines_of out ++ lines) restarted
| watched_restart ops r cn l r1 out ended client st ops' r' lines restarted :
    answered a f (buf_run (buffer_new bc rnd) ops) r cn l -> stream_turn a r cn = (r1, out, ended) ->
    ta_state_file a <> None -> file_state a (tn_fs r1) = Ok st ->
    watched bc rnd a f (ops ++ run_ops (ta_name a) l) (stream_start client (tn_fs r1) st) ops' r' lines restarted ->
    watched bc rnd a f ops r ops' r' (lines_of out ++ lines) true.

Context {JL : JsonLaws J} {SL : SerdeLaws S}.

(** What the client gets of a connection. *)
Lemma answered_items a f b r cn l client items :
  answered a f b r cn l ->
  client_stream (cn_exchange cn) (tn_client r) (stream_request a (tn_state r)) = (client, Ok items) ->
  exists s' b' os got tail,
    stream_run (stream_cfg a r f) stream_new b l = Some (s', b', os) /\ gapless os /\ got `prefix_of` frames os /\
    items = (Ok ∘ client_frame <$> got) ++ tail /\ (tail = [] \/ exists e, tail = [Err e]).
Proof.
  intros [Hid (s' & b' & os & Hrun & Hgap & Hw & Hex)] Hst. exists s', b', os.
  assert (wire_ok (sc_id (stream_cfg a r f))) as Hid' by (split; apply Hid).
  destruct (stream_run_frames _ _ _ _ _ _ _ Hid' Hrun) as (_ & Hok & Hl).
  unfold client_stream in Hst. destruct (next_id (tn_client r)) as [id c']. injection Hst as <- Hst.
  destruct (call_request _ _ _ _) as [req|]; [|done]. simpl in Hst.
  destruct Hex as [Hno|(body & Hbody & bs & chunks & rest & Hb & Hd & Hc & Hcut)]; [by rewrite Hno in Hst|].
  rewrite Hbody in Hst. cbn -[read_stream] in Hst. injection Hst as <-.
  destruct (read_stream_frames (frames os) bs chunks Hok Hl Hw Hb Hd) as [Hwhole Hpart].
  destruct Hcut as [[-> ->]| ->].
  - exists (frames os), []. rewrite Hwhole by by rewrite <- Hc, app_nil_r'. rewrite app_nil_r. split_and!; eauto.
  - destruct (Hpart _ Hc) as (got & Hgot & ->). exists got. eexists. split_and!; [done..|].
    destruct (existsb is_final got); eauto.
Qed.

Lemma last_cursor_cons fr fs :
  last_cursor (fr :: fs) = match last_cursor fs with Some x => Some x | None => frame_cursor (client_frame fr) end.
Proof.
  induction fs as [|x fs IH] using rev_ind; [unfold last_cursor; simpl; by destruct (frame_cursor (client_frame fr))|].
  change (fr :: fs ++ [x]) with ((fr :: fs) ++ [x]). rewrite !last_cursor_snoc, IH. by destruct (frame_cursor (client_frame x)).
Qed.

Lemma take_frame_spec a r fr sv r' saved :
  take_frame a r fr sv = (r', saved) ->
  tn_state r' = match frame_cursor fr with Some x => {| cs_cursor := x |} | None => tn_state r end /\
  (ta_state_file a <> None ->
   file_state a (tn_fs r') = match saved, frame_cursor fr with
                             | Ok _, Some x => Ok {| cs_cursor := x |}
                             | _, _ => file_state a (tn_fs r)
                             end).
Proof.
  unfold take_frame, file_state. destruct (frame_cursor fr) as [x|]; [|by intros [= <- <-]].
  pose proof (persist_saved (tn_fs r) (ta_state_file a) {| cs_cursor := x |} sv) as H.
  destruct (persist _ _ _ _) as [fs1 [[]|e]]; intros [= <- <-]; (split; [done|]); intros Hn; by apply H.
Qed.

Lemma stream_items_cons a r fr items idle saves :
  stream_items a r (Ok (client_frame fr) :: items) idle saves =
  if decide (idle = Some 0%nat) then (r, [], None)
  else
    let '(r1, saved) := take_frame a r (client_frame fr) (default {| sv_written := Written; sv_renamed := true |} (head saves)) in
    let out := [show_frame (client_frame fr)] in
    match saved with
    | Err e => (r1, out, Some (Err e))
    | Ok _ =>
        if is_final fr then (r1, out, None)
        else let '(r', out', ended) := stream_items a r1 items (pred <$> idle) (tail saves) in (r', out ++ out', ended)
    end.
Proof.
  destruct idle as [[|k]|]; [done|rewrite decide_False by done..]; cbn [stream_items];
    destruct (take_frame _ _ _ _) as [r1 [[]|e]]; by destruct fr.
Qed.

(** What a connection's items do to the state and to the file: the frames
    taken, and those whose cursor is saved. *)
Lemma stream_items_spec a r got tail idle saves r' out ended :
  tail = [] \/ (exists e, tail = [Err e]) ->
  stream_items a r ((Ok ∘ client_frame <$> got) ++ tail) idle saves = (r', out, ended) ->
  exists taken filed, taken `prefix_of` got /\ filed `prefix_of` taken /\
    out = show_frame ∘ client_frame <$> taken /\
    tn_state r' = match last_cursor taken with Some x => {| cs_cursor := x |} | None => tn_state r end /\
    (ta_state_file a <> None ->
     file_state a (tn_fs r') = match last_cursor filed with
                               | Some x => Ok {| cs_cursor := x |}
                               | None => file_state a (tn_fs r)
                               end) /\
    (ended = None -> filed = taken).
Proof.
  intros Htail. revert r idle saves r' out ended. induction got as [|fr got IH]; intros r idle saves r' out ended.
  - intros H. assert ((r, [], None) = (r', out, ended)) as [= <- <- <-]
      by (destruct Htail as [-> |[e ->]]; destruct idle as [[|k]|]; exact H).
    exists [], []. by split_and!.
  - rewrite fmap_cons, <- app_comm_cons. change ((Ok ∘ client_frame) fr) with (@Ok ClientError _ (client_frame fr)). rewrite stream_items_cons. case_decide.
    { intros [= <- <- <-]. exists [], []. split_and!; try done. apply prefix_nil. }
    destruct (take_frame a r (client_frame fr) _) as [r1 saved] eqn:Etf.
    destruct (take_frame_spec _ _ _ _ _ _ Etf) as [Hs1 Hf1]. destruct saved as [u|e].
    + destruct (is_final fr).
      { intros [= <- <- <-]. exists [fr], [fr]. rewrite !last_cursor_cons. split_and!; try done. apply prefix_cons, prefix_nil. }
      destruct (stream_items _ _ _ _ _) as [[r2 out2] ended2] eqn:Eit. intros [= <- <- <-].
      destruct (IH _ _ _ _ _ _ Eit) as (taken & filed & H1 & H2 & -> & H4 & H5 & H6).
      exists (fr :: taken), (fr :: filed). rewrite !last_cursor_cons. split_and!;
        [by apply prefix_cons|by apply prefix_cons|done| | |intros E; by rewrite H6].
      * rewrite H4, Hs1. by destruct (last_cursor taken).
      * intros Hn. rewrite H5, Hf1 by done. by destruct (last_cursor filed).
    + intros [= <- <- <-]. exists [fr], []. rewrite last_cursor_cons.
      split_and!; try done; [apply prefix_cons, prefix_nil|apply prefix_nil].
Qed.

(** ** What a connection is worth *)
Lemma strip_final fs :
  final_last fs -> exists fs0, fs0 `prefix_of` fs /\ existsb is_final fs0 = false /\
    occurrences fs0 = occurrences fs /\ last_cursor fs0 = last_cursor fs.
Proof.
  induction fs as [|fr fs IH]; [intros _; by exists []|]. intros [Hf Hl].
  destruct (is_final fr) eqn:E.
  - rewrite (Hf eq_refl). exists []. split_and!; try done; [apply prefix_nil|by destruct fr..].
  - destruct (IH Hl) as (fs0 & H1 & H2 & H3 & H4). exists (fr :: fs0). rewrite !last_cursor_cons, H4. split_and!; try done.
    + by apply prefix_cons.
    + simpl. by rewrite E.
    + change (occurrences ([fr] ++ fs0) = occurrences ([fr] ++ fs)). by rewrite !occurrences_app, H3.
Qed.

Lemma lines_of_app x y : lines_of (x ++ y) = lines_of x ++ lines_of y.
Proof. apply omap_app. Qed.

Lemma lines_of_frames fs : lines_of (show_frame ∘ client_frame <$> fs) = event_line <$> occurrences fs.
Proof.
  induction fs as [|fr fs IH]; [done|]. rewrite fmap_cons.
  change (occurrences (fr :: fs)) with (occurrences ([fr] ++ fs)). rewrite occurrences_app, fmap_app, <- IH.
  etrans; [exact (lines_of_app [_] _)|]. by destruct fr.
Qed.

Context (bc : BufferConfig) (rnd : Z) (Hmax : 0 <= max_events_per_type bc) (Hrnd : 0 <= rnd <= u64_max).
Context (a : StreamArgs) (f : option ParamFilter).
#[local] Abbreviation name := (ta_name a).
#[local] Abbreviation owed := (passing (ta_params a) f).

(** The line of an event. *)
Definition text_of (e : Stored) : string := event_line (poll_occurrence name e).

Definition at_cursor (pos : Z) : CursorState := {| cs_cursor := Some (cursor_text rnd pos) |}.

(** The harness stands at a position, in memory and in its file. *)
Definition stands (r : StreamRun) (pos : Z) : Prop :=
  tn_state r = at_cursor pos /\ (ta_state_file a <> None -> file_state a (tn_fs r) = Ok (at_cursor pos)).

(** What the frames of a prefix of a connection's frames cover. *)
Lemma taken_exact ops r p0 l s b os taken :
  let h := history name (ops ++ run_ops name l) in
  i64_ok (cl_next_id (tn_client r)) -> tn_state r = at_cursor p0 -> 0 <= p0 <= Z.of_nat (length h) ->
  Z.of_nat (length (ops ++ run_ops name l)) < u64_max ->
  stream_run (stream_cfg a r f) stream_new (buf_run (buffer_new bc rnd) ops) l = Some (s, b, os) -> gapless os ->
  taken `prefix_of` frames os ->
  exists pos, p0 <= pos <= Z.of_nat (length h) /\
    match last_cursor taken with Some x => {| cs_cursor := x |} | None => at_cursor p0 end = at_cursor pos /\
    event_line <$> occurrences taken = text_of <$> owed p0 pos h /\
    eo_event_id <$> occurrences taken = st_event_id <$> owed p0 pos h.
Proof.
  intros h Hid Hst Hp0 Hb Hrun Hgap Hpre.
  assert (wire_ok (sc_id (stream_cfg a r f))) as Hid' by (split; apply Hid).
  destruct (stream_run_frames _ _ _ _ _ _ _ Hid' Hrun) as (_ & _ & Hl).
  destruct Hpre as [k Hk]. rewrite Hk in Hl. apply final_last_app in Hl.
  destruct (strip_final taken Hl) as (t0 & Ht0 & Hnf & Hocc & Hlc). rewrite <- Hocc, <- Hlc.
  destruct t0 as [|fr t0].
  { exists p0. rewrite passing_empty. split_and!; (done || lia). }
  destruct (prefix_exact (stream_cfg a r f) bc rnd Hmax Hrnd Hid' ops p0 l s b os (fr :: t0)) as (pos & Hc & Hp & Hev & Hids); try done.
  - simpl. by rewrite Hst.
  - pose proof (history_length (ops ++ run_ops name l) name). pose proof (emits_length name (ops ++ run_ops name l)).
    unfold h in *. lia.
  - etrans; [exact Ht0|]. by exists k.
  - change (p0 <= pos <= Z.of_nat (length h)) in Hp. exists pos. rewrite Hc. split_and!; (done || lia).
Qed.

Lemma visit_exact ops r p0 cn l r1 out ended :
  let h := history name (ops ++ run_ops name l) in
  answered a f (buf_run (buffer_new bc rnd) ops) r cn l -> stands r p0 -> 0 <= p0 <= Z.of_nat (length h) ->
  Z.of_nat (length (ops ++ run_ops name l)) < u64_max -> stream_turn a r cn = (r1, out, ended) ->
  exists p1 q, p0 <= p1 <= Z.of_nat (length h) /\ tn_state r1 = at_cursor p1 /\ lines_of out = text_of <$> owed p0 p1 h /\
    p0 <= q <= Z.of_nat (length h) /\ (ta_state_file a <> None -> file_state a (tn_fs r1) = Ok (at_cursor q)) /\
    (ended = None -> q = p1) /\ (text_of <$> owed p0 q h) `prefix_of` lines_of out.
Proof.
  intros h Hans [Hst Hfile] Hp0 Hb Hturn. unfold stream_turn in Hturn.
  destruct (client_stream _ _ _) as [client opened] eqn:Ec. destruct opened as [items|e].
  - destruct (answered_items _ _ _ _ _ _ _ _ Hans Ec) as (s' & b' & os & got & tl & Hrun & Hgap & Hgot & -> & Htl).
    destruct (stream_items _ _ _ _ _) as [[r2 out2] ended2] eqn:Eit.
    destruct (stream_items_spec _ _ _ _ _ _ _ _ _ Htl Eit) as (taken & filed & Ht & Hf & -> & Hs2 & Hf2 & Hend).
    destruct Hans as [Hid _]. cbn [tn_state with_client tn_fs] in Hs2, Hf2.
    destruct (taken_exact ops r p0 l s' b' os taken Hid Hst Hp0 Hb Hrun Hgap ltac:(by etrans)) as (p1 & Hp1 & Hc1 & Hl1 & _).
    fold h in Hp1, Hl1.
    assert (exists q, p0 <= q <= Z.of_nat (length h) /\ (ended2 = None -> q = p1) /\
      match last_cursor filed with Some x => {| cs_cursor := x |} | None => at_cursor p0 end = at_cursor q /\
      event_line <$> occurrences filed = text_of <$> owed p0 q h) as (q & Hq & Hqe & Hcq & Hlq).
    { destruct (decide (ended2 = None)) as [E|E].
      - rewrite (Hend E). exists p1. split_and!; (done || lia).
      - destruct (taken_exact ops r p0 l s' b' os filed Hid Hst Hp0 Hb Hrun Hgap ltac:(etrans; [done|by etrans]))
          as (q & Hq & Hcq & Hlq & _). exists q. fold h in Hq, Hlq. split_and!; first [done|lia|intros E'; by destruct (E E')]. }
    exists p1, q.
    assert (tn_state r1 = tn_state r2 /\ tn_fs r1 = tn_fs r2 /\ lines_of out = lines_of (show_frame ∘ client_frame <$> taken) /\ ended = ended2)
      as (-> & -> & -> & ->).
    { destruct ended2; injection Hturn as <- <- <-; [done|]. by rewrite lines_of_app, app_nil_r. }
    rewrite lines_of_frames, Hs2, Hst. split_and!; try (done || lia).
    + intros Hn. rewrite Hf2, Hfile by done. rewrite <- Hcq. by destruct (last_cursor filed).
    + rewrite <- Hlq. destruct Hf as [k ->]. rewrite occurrences_app, fmap_app. by eexists.
  - assert (tn_state r1 = tn_state r /\ tn_fs r1 = tn_fs r /\ lines_of out = []) as (-> & -> & ->).
    { destruct (is_rpc e); by injection Hturn as <- <- <-. }
    exists p0, p0. rewrite passing_empty. split_and!; (done || lia).
Qed.

(** ** Any number of connections *)
Lemma watched_ops ops r ops' r' lines restarted :
  watched bc rnd a f ops r ops' r' lines restarted -> exists k, ops' = ops ++ k.
Proof.
  induction 1 as [ops r|ops r cn l r1 out ops' r' lines re _ _ _ [k ->]|ops r cn l r1 out ended client st ops' r' lines re _ _ _ _ _ [k ->]];
    [by exists []; rewrite app_nil_r|by eexists; rewrite <- (assoc_L (++))..].
Qed.

(** Windows of a history that grows afterwards. *)
Lemma owed_grow ops k lo hi :
  hi <= Z.of_nat (length (history name ops)) -> owed lo hi (history name (ops ++ k)) = owed lo hi (history name ops).
Proof.
  intros Hhi. destruct (history_prefix name ops k) as [h Eh]. rewrite Eh. apply passing_grow; [|done].
  rewrite <- Eh. apply history_consecutive.
Qed.

Lemma all_owed h p0 q p l l' :
  (text_of <$> owed p0 q h) `prefix_of` l -> (forall e, e ∈ owed q p h -> text_of e ∈ l') ->
  forall e, e ∈ owed p0 p h -> text_of e ∈ l ++ l'.
Proof.
  intros [k ->] Hall e (Hpass & Hseq & Hin)%elem_of_passing. apply elem_of_app. destruct (decide (st_seq e <= q)).
  - left. apply elem_of_app. left. apply list_elem_of_fmap_2, elem_of_passing. split_and!; (done || lia).
  - right. apply Hall, elem_of_passing. split_and!; (done || lia).
Qed.

Lemma only_owed h p0 p1 q n l l' :
  l = text_of <$> owed p0 p1 h -> p1 <= n -> p0 <= q ->
  (forall s, s ∈ l' -> exists e, e ∈ owed q n h /\ s = text_of e) ->
  forall s, s ∈ l ++ l' -> exists e, e ∈ owed p0 n h /\ s = text_of e.
Proof.
  intros -> Hp Hq Hon s [Hs|Hs]%elem_of_app.
  - apply list_elem_of_fmap in Hs as (e & -> & (? & ? & ?)%elem_of_passing). exists e.
    split; [|done]. apply elem_of_passing. split_and!; (done || lia).
  - destruct (Hon s Hs) as (e & (? & ? & ?)%elem_of_passing & ->). exists e.
    split; [|done]. apply elem_of_passing. split_and!; (done || lia).
Qed.

(** Every way a harness goes on, by the steps of [watched]. *)
Lemma resume_lines ops r ops' r' lines restarted p0 :
  watched bc rnd a f ops r ops' r' lines restarted -> stands r p0 ->
  0 <= p0 <= Z.of_nat (length (history name ops)) -> Z.of_nat (length ops') < u64_max ->
  let h := history name ops' in
  exists p, stands r' p /\ 0 <= p <= Z.of_nat (length h) /\
    (restarted = false -> p0 <= p /\ lines = text_of <$> owed p0 p h) /\
    (forall e, e ∈ owed p0 p h -> text_of e ∈ lines) /\
    (forall s, s ∈ lines -> exists e, e ∈ owed p0 (Z.of_nat (length h)) h /\ s = text_of e).
Proof.
  intros Hw. revert p0.
  induction Hw as [ops r|ops r cn l r1 out ops' r' lines re Hans Hturn Hw IH|ops r cn l r1 out ended client st ops' r' lines re Hans Hturn Hsf Hst Hw IH];
    intros p0 Hp Hp0 Hb h.
  - exists p0. rewrite passing_empty. split_conj; first [done|lia|set_solver].
  - destruct (watched_ops _ _ _ _ _ _ Hw) as [k Ek].
    pose proof (history_length_mono name ops (run_ops name l)). pose proof (history_length_mono name (ops ++ run_ops name l) k) as Hmono.
    rewrite <- Ek in Hmono. fold h in Hmono.
    destruct (visit_exact ops r p0 cn l r1 out None Hans Hp) as (p1 & q & Hp1 & Hs1 & Hl1 & Hq & Hf1 & Hqe & _);
      [lia|rewrite Ek, length_app in Hb; lia|done|]. rewrite (Hqe eq_refl) in *.
    destruct (IH p1) as (p & Hsp & Hpp & Hre & Hall & Hon); [by split|lia|done|]. fold h in Hpp, Hre, Hall, Hon.
    rewrite <- (owed_grow _ k), <- Ek in Hl1 by lia. fold h in Hl1.
    assert (consecutive 1 h) as Hcons by apply history_consecutive.
    exists p. split_conj; try (done || lia).
    + intros E. destruct (Hre E) as [Hle ->]. rewrite Hl1, <- fmap_app, <- passing_app by (done || lia). split; [lia|done].
    + apply (all_owed h p0 p1 p); [by rewrite Hl1|done].
    + apply (only_owed h p0 p1 p1); (done || lia).
  - destruct (watched_ops _ _ _ _ _ _ Hw) as [k Ek].
    pose proof (history_length_mono name ops (run_ops name l)). pose proof (history_length_mono name (ops ++ run_ops name l) k) as Hmono.
    rewrite <- Ek in Hmono. fold h in Hmono.
    destruct (visit_exact ops r p0 cn l r1 out ended Hans Hp) as (p1 & q & Hp1 & Hs1 & Hl1 & Hq & Hf1 & _ & Hpre);
      [lia|rewrite Ek, length_app in Hb; lia|done|]. rewrite (Hf1 Hsf) in Hst. injection Hst as <-.
    destruct (IH q) as (p & Hsp & Hpp & _ & Hall & Hon); [by split|lia|done|]. fold h in Hpp, Hall, Hon.
    rewrite <- (owed_grow _ k), <- Ek in Hl1 by lia. rewrite <- (owed_grow _ k), <- Ek in Hpre by lia. fold h in Hl1, Hpre.
    exists p. split_conj; try (done || lia).
    + by apply (all_owed h p0 q p).
    + apply (only_owed h p0 p1 q); (done || lia).
Qed.

(** C3. Resumption: a harness that watches an event type of this server from
    a position, over any number of connections, each broken off anywhere,
    with any other tasks at work on the server, prints the events after that
    position which its filter passes, each once and in order, up to the
    position where it stands.  If its process dies and is started again from
    the state file - also in the middle of a save - every one of them is
    still printed, at least once, and nothing else is.  (No connection
    reports [truncated], and no replay loses events behind the client's
    back.) *)
Theorem resume_exact ops r ops' r' lines restarted p0 :
  watched bc rnd a f ops r ops' r' lines restarted -> stands r p0 ->
  0 <= p0 <= Z.of_nat (length (history name ops)) -> Z.of_nat (length ops') < u64_max ->
  let h := history name ops' in
  exists p, stands r' p /\ 0 <= p <= Z.of_nat (length h) /\
    (restarted = false -> p0 <= p /\ lines = text_of <$> owed p0 p h) /\
    (forall e, e ∈ owed p0 p h -> text_of e ∈ lines) /\
    (forall s, s ∈ lines -> exists e, e ∈ owed p0 (Z.of_nat (length h)) h /\ s = text_of e).
Proof. exact (resume_lines ops r ops' r' lines restarted p0). Qed.
End sessions.

(** A subscription without arguments is not filtered. *)
Section unfiltered.
Context {J : JsonLib} {C : Chrono}.

Lemma read_loop_unfiltered name fl f g cap l s : read_loop name fl None f cap l s = read_loop name fl None g cap l s.
Proof. revert s. induction l as [|e l IH]; intros s; simpl; [done|]. by repeat case_match. Qed.

Lemma read_unfiltered b now name cur age cap f g : read b now name cur age cap None f = read b now name cur age cap None g.
Proof.
  unfold read, read_state. destruct cur as [x|]; [|done]. destruct (read_start _ _ _) as [start t].
  by rewrite (read_loop_unfiltered name _ f g).
Qed.

Lemma stream_run_unfiltered (c : StreamCfg) f s b l :
  sp_params (sc_params c) = None ->
  stream_run {| sc_id := sc_id c; sc_params := sc_params c; sc_filter := f |} s b l = stream_run c s b l.
Proof.
  destruct c as [id [n p cur age] g]. cbn [sc_id sc_params sp_params]. intros ->.
  revert s b. induction l as [|i l IH]; intros s b; [done|]. cbn [stream_run].
  assert (forall g', stream_step {| sc_id := id; sc_params := {| sp_name := n; sp_params := None; sp_cursor := cur; sp_max_age_ms := age |};
    sc_filter := g' |} s b i = stream_step {| sc_id := id; sc_params := {| sp_name := n; sp_params := None; sp_cursor := cur;
    sp_max_age_ms := age |}; sc_filter := None |} s b i) as E.
  { intros g'. unfold stream_step, probe, replay, resync, read_one. cbn [sc_params sc_filter sp_params].
    destruct i as [| |now| |]; try done. destruct (s_phase s); try done; by rewrite (read_unfiltered _ _ _ _ _ _ g' None). }
  rewrite (E f), (E g). destruct (stream_step _ s b i) as [[[s1 b1] o]|]; [|done]. csimpl. by rewrite IH.
Qed.
End unfiltered.

(** ** Examples *)
Section example.
Definition ex_args : StreamArgs (J := ZJson) := {| ta_name := "t.changed"; ta_params := None; ta_state_file := Some "c.json" |}.

Definition ex_file : FileSystem := (save_state (J := ZJson) ∅ "c.json" {| cs_cursor := Some "7:1" |} Written true).1.

Definition ex_start : StreamRun := stream_start (client_new "https://server/mcp" (Ok ())) ex_file {| cs_cursor := Some "7:1" |}.

(** A connection that carries the stream of [stream_end_to_end_witness]
    whole, in two chunks. *)
Definition ex_connection (body : list (option string)) : Connection :=
  {| cn_exchange _ := Some (sse_head, body); cn_idle := None; cn_saves := [] |}.

Definition ex_whole : Connection := ex_connection [Some ex_cut; Some ex_rest].

#[local] Abbreviation ex_turn := (stream_turn (S := ZSerde) ex_args ex_start ex_whole).

Lemma ex_answered f : answered ex_args f ex_stream_buffer ex_start ex_whole ex_stream_inputs.
Proof.
  split; [split; discriminate|]. exists ex_stream_end.1.1, ex_stream_end.1.2, ex_stream_end.2.
  split; [etrans; [exact (stream_run_unfiltered (ex_stream "7:1") f _ _ _ eq_refl)|exact ex_stream_run]|]. split; [|split; [exact ex_frames_wf|]].
  - assert (forallb (fun o => negb (out_truncated o)) ex_stream_end.2 = true) as Hc by (vm_compute; reflexivity).
    assert (match frames ex_stream_end.2 with ActiveFrame p :: _ => negb (ea_truncated p) | _ => true end = true) as Ha
      by (vm_compute; reflexivity).
    split.
    + apply Forall_forall. intros o Ho%list_elem_of_In. rewrite forallb_forall in Hc. by apply negb_true_iff, Hc.
    + destruct (frames _) as [|[] ?]; try exact I. by apply negb_true_iff.
  - right. exists [Some ex_cut; Some ex_rest]. split; [reflexivity|]. exists ex_blocks, [ex_cut; ex_rest], "".
    split; [exact ex_blocks_ok|]. split; [exact ex_blocks_data|]. split; [|by left].
    etrans; [|exact ex_cut_rest]. vm_compute. reflexivity.
Qed.

Lemma ex_stands : stands (S := ZSerde) 7 ex_args ex_start 1.
Proof.
  split; [reflexivity|]. intros _.
  assert (match load_state (S := ZSerde) ex_file "c.json" true with
          | Ok (Some st) => bool_decide (cs_cursor st = Some "7:1")
          | _ => false
          end = true) as H by (vm_compute; reflexivity).
  unfold file_state, load_or_default. cbn [ta_state_file ex_args tn_fs ex_start stream_start].
  destruct (load_state _ _ _) as [[[c]|]|]; [|discriminate H..]. apply bool_decide_eq_true in H. cbn [cs_cursor] in H.
  rewrite H. reflexivity.
Qed.

Lemma resume_exact_witness :
  exists p, stands (S := ZSerde) 7 ex_args ex_turn.1.1 p /\
    lines_of ex_turn.1.2 =
      text_of ex_args <$> passing None None 1 p (history "t.changed" (ex_ops ++ run_ops "t.changed" ex_stream_inputs)).
Proof.
  assert (match ex_turn.2 with None => true | Some _ => false end = true) as Ht by (vm_compute; reflexivity).
  pose proof (resume_exact (S := ZSerde) (SL := ZSerde_laws) ex_config 7) as H.
  specialize (H ltac:(discriminate) ltac:(split; discriminate) ex_args None ex_ops ex_start
    (ex_ops ++ run_ops "t.changed" ex_stream_inputs) ex_turn.1.1 (lines_of ex_turn.1.2 ++ []) false 1).
  destruct H as (p & Hp & _ & Hl & _ & _).
  - eapply watched_on; [exact (ex_answered None)| |apply watched_end].
    destruct ex_turn as [[r1 out] ended]. cbn [fst snd] in *. by destruct ended.
  - exact ex_stands.
  - split; [discriminate|vm_compute; discriminate].
  - vm_compute. reflexivity.
  - exists p. split; [exact Hp|]. rewrite <- (app_nil_r (lines_of _)). exact (proj2 (Hl eq_refl)).
Defined.
End example.
