(* ===== verification/Polling.v ===== *)
(** * The polling harness against the server.

    The [poll] command asks for batch after batch: at once while the server
    has more, else after a wait (or not at all).  This file follows it over
    any number of polls that the server answers. *)
From S2P Require Import Prelude RustStd Lib Dedup Json Wire Codec Signing Buffer History Registry Config Mapping State.
From S2P Require Import JsonText Base Utf8 SseText ClientSse Client Dispatch ClientServer ClientState Stream Harness Resume.

Section polling.
Context {J : JsonLib} {C : Chrono} {S : SerdeLib}.
Context {JL : JsonLaws J} {SL : SerdeLaws S}.
Context (bc : BufferConfig) (rnd : Z) (Hmax : 0 <= max_events_per_type bc) (Hrnd : 0 <= rnd <= u64_max).
Context (a : PollArgs) (f : option ParamFilter).
#[local] Abbreviation name := (pa_name a).
#[local] Abbreviation owed := (passing (pa_params a) f).

(** The batch a server's read gives for a request ([poll_end_to_end]). *)
Definition batch_read (b : EventBuffer) (now : Z) (st : CursorState) : ReadResult :=
  (read b now name (cs_cursor st) (pa_max_age_ms a) (pa_max_events a) (pa_params a) f).2.

(** The exchange brings that batch, with the wait [next] the server asks for. *)
Definition answers (b : EventBuffer) (now : Z) (r : PollRun) (next : Z) (exchange : PostRequest -> option PostResponse) : Prop :=
  let res := batch_read b now (pn_state r) in
  (client_poll exchange (pn_client r) (poll_request a (pn_state r))).2 =
  Ok {| pr_events := rr_events res; pr_cursor := Some (rr_cursor res); pr_truncated := rr_truncated res;
        pr_has_more := rr_has_more res; pr_next_poll_ms := next |}.

(** Among what a pass does is a wait of at least [next] and the harness's own
    floor. *)
Definition waited (next : Z) (out : list Act) : bool :=
  existsb (fun x => match x with
    | Sleep d => (milliseconds next <=? d) && (milliseconds (pa_floor_ms a) <=? d)
    | _ => false
    end) out.

(** The loop over answered polls, none [truncated], with other tasks at work
    on the server between them; [at_once] counts the passes after which it
    asks again without having waited, whatever the server said. *)
Inductive polled : list BufOp -> PollRun -> list BufOp -> PollRun -> list Act -> nat -> option (result HarnessError ()) -> Prop :=
| polled_none ops r : polled ops r ops r [] 0 None
| polled_more ops r now next exchange sv r1 out k ops' r' out' at_once ended :
    answers (buf_run (buffer_new bc rnd) ops) now r next exchange ->
    rr_truncated (batch_read (buf_run (buffer_new bc rnd) ops) now (pn_state r)) = false ->
    poll_turn a r exchange sv = (r1, out, None) ->
    polled (ops ++ OpRead now name :: k) r1 ops' r' out' at_once ended ->
    polled ops r ops' r' (out ++ out')
      (if waited next out then at_once else Datatypes.S at_once) ended
| polled_last ops r now next exchange sv r1 out e :
    answers (buf_run (buffer_new bc rnd) ops) now r next exchange ->
    rr_truncated (batch_read (buf_run (buffer_new bc rnd) ops) now (pn_state r)) = false ->
    poll_turn a r exchange sv = (r1, out, Some e) ->
    polled ops r ops r1 out 0 (Some e).

(** ** One poll *)
Definition at_position (pos : Z) : CursorState := {| cs_cursor := Some (cursor_text rnd pos) |}.

Definition event_text (e : Stored) : string := event_line (poll_occurrence name e).

(** The detector has only seen events up to a position. *)
Definition seen_upto (h : list Stored) (pos : Z) (d : LruSet) : Prop :=
  exists n l, lru_ok n l d /\ forall id, id ∈ l -> exists e, e ∈ h /\ st_event_id e = id /\ st_seq e <= pos.

Definition file_at (r : PollRun) (pos : Z) : Prop :=
  pa_state_file a <> None -> load_or_default (pn_fs r) (pa_state_file a) true = Ok (at_position pos).

Lemma batch_exact ops now st p0 :
  let h := history name ops in
  let res := batch_read (buf_run (buffer_new bc rnd) ops) now st in
  Z.of_nat (length ops) < u64_max -> st = at_position p0 -> 0 <= p0 <= Z.of_nat (length h) -> rr_truncated res = false ->
  exists p1, p0 <= p1 <= Z.of_nat (length h) /\ rr_cursor res = cursor_text rnd p1 /\
    rr_events res = poll_occurrence name <$> owed p0 p1 h /\
    (rr_has_more res = false -> p1 = Z.of_nat (length h)) /\
    (rr_has_more res = true -> pa_max_events a <> Some 0 -> (forall c, pa_max_events a = Some c -> 0 <= c) -> p0 < p1).
Proof.
  intros h res Hb -> Hp0 Htr.
  pose proof (history_length ops name) as Hlen. pose proof (emits_length name ops) as Hel. fold h in Hlen.
  destruct (Buffer.reached_read bc rnd ops Hmax Hb now name (cursor_text rnd p0) (pa_max_age_ms a) (pa_max_events a)
    (pa_params a) f) as (p1 & Hp1 & Hcur & Hev & Htrunc & Hmore).
  change (read (reached bc rnd ops) now name (Some (cursor_text rnd p0)) (pa_max_age_ms a) (pa_max_events a) (pa_params a) f).2
    with res in Hcur, Hev, Htrunc, Hmore.
  rewrite Htr in Htrunc. symmetry in Htrunc. apply orb_false_iff in Htrunc as [Hs Hfl].
  apply start_spec_servable in Hs. destruct Hs as (s & Hs & Hlow).
  rewrite parse_cursor_text in Hs by lia. injection Hs as <-.
  rewrite (start_spec_at _ _ _ _ p0) in * by (rewrite ?parse_cursor_text by lia; done). cbn [fst] in *.
  rewrite (Buffer.reached_last bc rnd ops Hmax Hb) in Hp1, Hmore. rewrite <- Hlen in Hp1, Hmore. fold h in Hp1, Hmore, Hev, Hfl.
  assert (rr_events res = poll_occurrence name <$> owed p0 p1 h) as Hev'.
  { rewrite Hev. unfold deliver. f_equal. apply list_filter_ext_in. intros e He. unfold wanted.
    by rewrite (existsb_false_elem _ _ _ Hfl He). }
  exists p1. split_and!; try (done || lia).
  - intros E. by rewrite E in Hmore.
  - intros E Hne Hpos. rewrite E in Hmore. destruct Hmore as (e & _ & _ & Hcap). unfold cap_reached in Hcap.
    destruct (pa_max_events a) as [c|] eqn:Ec; [|done]. bsimp. specialize (Hpos c eq_refl).
    destruct (decide (p0 = p1)) as [->|]; [|lia]. rewrite Hev', passing_empty in Hcap. simpl in Hcap.
    assert (c = 0) by lia. by subst.
Qed.

(** Distinct unseen ids all pass the detector. *)
Lemma fresh_events_all n l d es :
  lru_ok n l d -> NoDup (st_event_id <$> es) -> (forall e, e ∈ es -> st_event_id e ∉ l) ->
  (fresh_events d (poll_occurrence name <$> es)).2 = poll_occurrence name <$> es /\
  lru_ok n (l ++ (st_event_id <$> es)) (fresh_events d (poll_occurrence name <$> es)).1.
Proof.
  revert l d. induction es as [|e es IH]; intros l d Hd Hnd Hnew; [by rewrite app_nil_r|].
  apply NoDup_cons in Hnd as [Hne Hnd]. csimpl. change (eo_event_id (poll_occurrence name e)) with (st_event_id e).
  destruct (check_and_insert_ok n l d (st_event_id e) Hd) as [Hd' Hdup].
  rewrite bool_decide_eq_false_2 in Hdup
    by (intros (? & ? & ?)%elem_of_take; eapply (Hnew e (list_elem_of_here _ _)), elem_of_recency, list_elem_of_lookup_2; done).
  destruct (check_and_insert d (st_event_id e)) as [d1 dup]. cbn [fst snd] in *. subst dup.
  destruct (IH (l ++ [st_event_id e]) d1 Hd' Hnd) as [H1 H2].
  { intros e' He' [H|H]%elem_of_app; [by apply (Hnew e' (list_elem_of_further _ _ _ He'))|].
    apply list_elem_of_singleton in H. apply Hne. rewrite <- H. by apply list_elem_of_fmap_2. }
  rewrite <- (assoc_L (++)) in H2. destruct (fresh_events d1 _) as [d2 out]. cbn [fst snd] in *. by rewrite H1.
Qed.

Lemma ids_inj h e e' : NoDup (st_event_id <$> h) -> e ∈ h -> e' ∈ h -> st_event_id e = st_event_id e' -> e = e'.
Proof.
  intros Hnd (i & Hi)%list_elem_of_lookup_1 (j & Hj)%list_elem_of_lookup_1 E.
  assert (i = j) as ->; [|congruence]. apply (NoDup_lookup _ _ _ (st_event_id e) Hnd); rewrite list_lookup_fmap.
  - by rewrite Hi.
  - by rewrite Hj, E.
Qed.

(** No event of a window is a duplicate. *)
Lemma fresh_all h p0 p1 d :
  NoDup (st_event_id <$> h) -> seen_upto h p0 d -> p0 <= p1 ->
  (fresh_events d (poll_occurrence name <$> owed p0 p1 h)).2 = poll_occurrence name <$> owed p0 p1 h /\
  seen_upto h p1 (fresh_events d (poll_occurrence name <$> owed p0 p1 h)).1.
Proof.
  intros Hnd (n & l & Hd & Hseen) Hp.
  destruct (fresh_events_all n l d (owed p0 p1 h) Hd) as [H1 H2].
  - apply NoDup_fmap_2_strong.
    + intros e e' (_ & _ & He)%elem_of_passing (_ & _ & He')%elem_of_passing. by apply (ids_inj h).
    + unfold History.passing, window. by apply NoDup_filter, NoDup_filter, (NoDup_fmap_1 st_event_id).
  - intros e (_ & Hseq & Hin)%elem_of_passing Hl. destruct (Hseen _ Hl) as (e' & Hin' & Hide & Hseq').
    assert (e = e') as -> by by apply (ids_inj h). lia.
  - split; [done|]. exists n, (l ++ (st_event_id <$> owed p0 p1 h)). split; [done|].
    intros id [Hl|Hl]%elem_of_app.
    + destruct (Hseen _ Hl) as (e & ? & ? & ?). exists e. split_and!; (done || lia).
    + apply list_elem_of_fmap in Hl as (e & -> & (_ & ? & ?)%elem_of_passing). exists e. split_and!; (done || lia).
Qed.

Lemma lines_of_events es : lines_of (print_event <$> (poll_occurrence name <$> es)) = event_text <$> es.
Proof.
  induction es as [|e es IH]; [done|]. rewrite !fmap_cons.
  change (event_text e :: lines_of (print_event <$> (poll_occurrence name <$> es)) = event_text e :: (event_text <$> es)).
  by rewrite IH.
Qed.

(** The wait at the end of a pass counts as one. *)
Lemma waited_sleep next l : waited next (l ++ [Sleep (Z.max (milliseconds next) (milliseconds (pa_floor_ms a)))]) = true.
Proof.
  unfold waited. rewrite existsb_app. apply orb_true_iff. right. simpl.
  rewrite orb_false_r. apply andb_true_iff. split; apply Z.leb_le; lia.
Qed.

(** What one poll does. *)
Lemma poll_turn_exact ops H now r next exchange sv p0 r1 out ended :
  let h := history name ops in
  let res := batch_read (buf_run (buffer_new bc rnd) ops) now (pn_state r) in
  Z.of_nat (length ops) < u64_max -> h `prefix_of` H -> consecutive 1 H -> NoDup (st_event_id <$> H) ->
  answers (buf_run (buffer_new bc rnd) ops) now r next exchange -> rr_truncated res = false ->
  pn_state r = at_position p0 -> 0 <= p0 <= Z.of_nat (length h) -> seen_upto H p0 (pn_dedup r) ->
  poll_turn a r exchange sv = (r1, out, ended) ->
  exists p1, p0 <= p1 <= Z.of_nat (length h) /\ pn_state r1 = at_position p1 /\ seen_upto H p1 (pn_dedup r1) /\
    lines_of out = event_text <$> owed p0 p1 h /\
    (ended = None \/ ended = Some (Ok ()) -> file_at r1 p1) /\
    (ended = Some (Ok ()) -> p1 = Z.of_nat (length h)) /\
    (ended = None -> waited next out = false ->
     pa_max_events a <> Some 0 -> (forall c, pa_max_events a = Some c -> 0 <= c) -> p0 < p1).
Proof.
  intros h res Hb HH Hcons Hnd Hans Htr Hst Hp0 Hseen Hturn.
  destruct (batch_exact ops now (pn_state r) p0 Hb Hst Hp0 Htr) as (p1 & Hp1 & Hcur & Hev & Hhead & Hprog).
  fold h res in Hp1, Hcur, Hev, Hhead, Hprog. unfold answers in Hans. cbv zeta in Hans. fold res in Hans.
  assert (owed p0 p1 h = owed p0 p1 H) as Eh.
  { destruct HH as [k Hk]. rewrite Hk. symmetry. apply passing_grow; [|lia]. by rewrite <- Hk. }
  destruct (fresh_all H p0 p1 (pn_dedup r) Hnd Hseen ltac:(lia)) as [Hf1 Hf2].
  unfold poll_turn in Hturn. destruct (client_poll _ _ _) as [client answer]. cbn [snd] in Hans. subst answer.
  cbn [pr_events pr_cursor pr_has_more pr_next_poll_ms] in Hturn. rewrite Hev, Eh in Hturn.
  destruct (fresh_events _ _) as [d fresh]. cbn [fst snd] in Hf1, Hf2. subst fresh.
  pose proof (persist_saved (pn_fs r) (pa_state_file a) {| cs_cursor := Some (rr_cursor res) |} sv) as Hper.
  destruct (persist _ _ _ _) as [fs saved].
  assert (forall l, lines_of ((print_event <$> (poll_occurrence name <$> owed p0 p1 H)) ++ l) =
    (event_text <$> owed p0 p1 h) ++ lines_of l) as Hlines.
  { intros l. by rewrite lines_of_app, Eh, lines_of_events. }
  exists p1. rewrite Hcur in Hper, Hturn. split; [done|].
  assert (pn_state r1 = at_position p1 /\ pn_dedup r1 = d /\ lines_of out = event_text <$> owed p0 p1 h /\
    (pn_fs r1 = fs) /\ (ended = None \/ ended = Some (Ok ()) -> saved = Ok ()) /\
    (ended = Some (Ok ()) -> rr_has_more res = false) /\
    (ended = None -> waited next out = false -> rr_has_more res = true)) as (-> & -> & -> & Efs & Hs & Hlast & Hwait).
  { pose proof (Hlines []) as Hl0. rewrite !app_nil_r in Hl0.
    destruct saved as [[]|e]; [destruct (rr_has_more res); [|destruct (negb (pa_follow a))]|]; injection Hturn as <- <- <-;
      cbn [pn_state pn_dedup pn_fs]; rewrite ?Hlines, ?app_nil_r; split_and!; try done; try (by intros [?|?]).
    by rewrite waited_sleep. }
  split_and!; try done.
  - intros E Hn. rewrite Efs. apply Hper; auto.
  - intros E. apply Hhead, Hlast, E.
  - intros E Hw. by apply Hprog, Hwait.
Qed.

Lemma polled_ops ops r ops' r' out at_once ended :
  polled ops r ops' r' out at_once ended -> exists k, ops' = ops ++ k.
Proof.
  induction 1 as [ops r|ops r now next ex sv r1 out k ops' r' out' n ended _ _ _ _ [k' ->]|];
    [by exists []; rewrite app_nil_r|by eexists; rewrite <- (assoc_L (++))|by exists []; rewrite app_nil_r].
Qed.

Lemma polled_exact ops r ops' r' out at_once ended p0 :
  polled ops r ops' r' out at_once ended ->
  let h := history name ops' in
  Z.of_nat (length ops') < u64_max -> NoDup (st_event_id <$> h) ->
  pn_state r = at_position p0 -> file_at r p0 -> 0 <= p0 <= Z.of_nat (length (history name ops)) -> seen_upto h p0 (pn_dedup r) ->
  exists p, pn_state r' = at_position p /\ p0 <= p <= Z.of_nat (length h) /\
    lines_of out = event_text <$> owed p0 p h /\
    (ended = None \/ ended = Some (Ok ()) -> file_at r' p) /\
    (ended = Some (Ok ()) -> p = Z.of_nat (length h)) /\
    (pa_max_events a <> Some 0 -> (forall c, pa_max_events a = Some c -> 0 <= c) -> Z.of_nat at_once <= p - p0).
Proof.
  intros Hp h Hb Hnd. revert p0.
  induction Hp as [ops r|ops r now next ex sv r1 out k ops' r' out' n ended Hans Htr Hturn Hp IH|ops r now next ex sv r1 out e Hans Htr Hturn];
    intros p0 Hst Hfile Hp0 Hseen.
  - exists p0. rewrite passing_empty. split_conj; first [done|unfold h; lia|intros _; exact Hfile|intros _ _; simpl; lia].
  - destruct (polled_ops _ _ _ _ _ _ _ Hp) as [k' Ek]. rewrite <- (assoc_L (++)) in Ek.
    assert (history name ops `prefix_of` h) as Hpre by (unfold h; rewrite Ek; destruct (history_prefix name ops ((OpRead now name :: k) ++ k')) as [x ->]; by eexists).
    destruct (poll_turn_exact ops h now r next ex sv p0 r1 out None) as (p1 & Hp1 & Hs1 & Hd1 & Hl1 & Hf1 & _ & Hprog); try done;
      [rewrite Ek, length_app in Hb; lia|apply history_consecutive|].
    pose proof (history_length_mono name ops (OpRead now name :: k)) as Hmono.
    destruct (IH Hb Hnd p1) as (p & Hs & Hpp & Hl & Hf & Hend & Hn); [done|auto|lia|done|]. fold h in Hpp, Hl, Hend.
    assert (owed p0 p1 (history name ops) = owed p0 p1 h) as Eo.
    { destruct Hpre as [x Hx]. rewrite Hx. symmetry. apply passing_grow; [|lia]. rewrite <- Hx. apply history_consecutive. }
    exists p. split_conj; try (done || lia).
    + rewrite lines_of_app, Hl1, Hl, Eo, <- fmap_app, <- passing_app; [done|apply history_consecutive|lia|lia].
    + intros Hne Hpos. specialize (Hn Hne Hpos). destruct (waited next out) eqn:Ew; [|specialize (Hprog eq_refl eq_refl Hne Hpos)]; lia.
  - destruct (poll_turn_exact ops h now r next ex sv p0 r1 out (Some e)) as (p1 & Hp1 & Hs1 & Hd1 & Hl1 & Hf1 & Hhead & _); try done;
      [apply history_consecutive|].
    fold h in Hp1. exists p1. split_conj; first [done|lia|exact Hf1|exact Hhead|intros _ _; simpl; lia].
Qed.

(** C7. Polling: a harness that polls an event type of this server from a
    position, however the server works between polls, prints the events after
    that position which its filter passes, each once and in order, up to the
    position of its cursor, which the state file holds as well as long as no
    save failed.  The passes after which it asks again without having waited,
    as long as the server asked and at least its own floor, are no more than
    the positions it advances (unless asked for batches of none), so it never
    spins on an idle server; and when it ends by itself, it has reached the head.  (No batch is
    [truncated], and events have distinct ids.) *)
Theorem poll_exact client fs ops ops' r' out at_once ended p0 :
  let r := poll_start client fs (at_position p0) in
  let h := history name ops' in
  polled ops r ops' r' out at_once ended -> file_at r p0 ->
  0 <= p0 <= Z.of_nat (length (history name ops)) -> Z.of_nat (length ops') < u64_max -> NoDup (st_event_id <$> h) ->
  exists p, pn_state r' = at_position p /\ p0 <= p <= Z.of_nat (length h) /\
    lines_of out = event_text <$> owed p0 p h /\
    (ended = None \/ ended = Some (Ok ()) -> file_at r' p) /\
    (ended = Some (Ok ()) -> p = Z.of_nat (length h)) /\
    (pa_max_events a <> Some 0 -> (forall c, pa_max_events a = Some c -> 0 <= c) -> Z.of_nat at_once <= p - p0).
Proof.
  intros r h Hp Hf Hp0 Hb Hnd. apply (polled_exact ops r); try done.
  eexists _, []. split; [apply (lru_run_ok DEDUP_CAPACITY [])|]. by intros ? ?%elem_of_nil.
Qed.
End polling.

(** ** Exchanges that bring a batch *)
Definition batch_exchange {J : JsonLib} (c : EventsClient) (res : PollEventsResult) : PostRequest -> option PostResponse :=
  fun _ => Some (answer 200 "application/json" (response_text (success (Num_ (cl_next_id c)) (enc_PollEventsResult res)))).

Lemma batch_exchanged {J : JsonLib} {S : SerdeLib} {JL : JsonLaws J} {SL : SerdeLaws S} c p res :
  cl_http c = Ok () -> i64_ok (cl_next_id c) -> wire_ok res -> wf_value (enc_PollEventsResult res) ->
  (client_poll (batch_exchange c res) c p).2 = Ok res.
Proof.
  intros Hh Hid Hr Hw. unfold client_poll, call, call_request, stateless_builder. cbn [next_id snd]. rewrite Hh.
  cbn [mbind result_bind]. unfold batch_exchange at 1. cbn [ok_or mbind result_bind]. rewrite parse_unary_answer.
  - change (ok_or (BadResult consts.METHOD_EVENTS_POLL) (dec_PollEventsResult (enc_PollEventsResult res)) = Ok res).
    pose proof (decode_encode res Hr) as E. unfold decode, encode in E. simpl in E. by rewrite E.
  - (split; [|split]); intros ? [=]; by subst.
  - apply response_wf; [by intros ? [= <-]|done].
Qed.

(** ** Examples *)
Section example.
Definition ex_poll_args : PollArgs (J := ZJson) := poll_args "orders.changed" None None false (Some 10) None 250.

Definition ex_poll_ops : list BufOp :=
  [OpEmit 0 {| em_name := "orders.changed"; em_event_id := "a"; em_timestamp := 0; em_data := JNull |}].

Definition ex_poll_start : PollRun := poll_start (client_new "https://server/mcp" (Ok ())) ∅ (at_position 7 0).

#[local] Abbreviation ex_read := (batch_read ex_poll_args None (buf_run (buffer_new ex_config 7) ex_poll_ops) 0 (at_position 7 0)).

Definition ex_batch : PollEventsResult :=
  {| pr_events := rr_events ex_read; pr_cursor := Some (rr_cursor ex_read); pr_truncated := rr_truncated ex_read;
     pr_has_more := rr_has_more ex_read; pr_next_poll_ms := 1000 |}.

Lemma ex_batch_ok : wire_ok ex_batch /\ wf_value (enc_PollEventsResult ex_batch).
Proof.
  assert (Forall (fun o => wf_value (eo_data o) /\ eo_meta o = None) (rr_events ex_read)) as H.
  { assert (forallb (fun o => is_null (eo_data o)) (rr_events ex_read) = true) as Hd by (vm_compute; reflexivity).
    apply Forall_and. split; [|apply read_no_meta].
    apply Forall_forall. intros o Ho%list_elem_of_In. rewrite forallb_forall in Hd. specialize (Hd o Ho).
    destruct (eo_data o); [exact I|discriminate Hd..]. }
  split; [|by apply poll_result_wf]. split; [|split; discriminate].
  eapply Forall_impl; [exact H|]. intros o [_ E] x. by rewrite E.
Qed.

#[local] Abbreviation ex_turn :=
  (poll_turn (S := ZSerde) ex_poll_args ex_poll_start (batch_exchange (pn_client ex_poll_start) ex_batch)
     {| sv_written := Written; sv_renamed := true |}).

Lemma poll_exact_witness :
  exists p, pn_state ex_turn.1.1 = at_position 7 p /\
    lines_of ex_turn.1.2 = event_text ex_poll_args <$> passing None None 0 p (history "orders.changed" ex_poll_ops) /\ p = 1.
Proof.
  destruct ex_batch_ok as [Hw Hf].
  assert ((client_poll (S := ZSerde) (batch_exchange (pn_client ex_poll_start) ex_batch) (pn_client ex_poll_start)
    (poll_request ex_poll_args (pn_state ex_poll_start))).2 = Ok ex_batch) as Hcall
    by (apply (batch_exchanged (S := ZSerde) (SL := ZSerde_laws)); [reflexivity|split; discriminate|exact Hw|exact Hf]).
  assert (rr_truncated ex_read = false) as Htr by (vm_compute; reflexivity).
  assert (match ex_turn.2 with Some (Ok _) => true | _ => false end = true) as Ht by (vm_compute; reflexivity).
  assert (ex_turn = (ex_turn.1.1, ex_turn.1.2, Some (Ok ()))) as Hturn
    by (destruct ex_turn as [[r1 out] [[[]|]|]]; [reflexivity|discriminate Ht..]).
  destruct (poll_exact (S := ZSerde) (SL := ZSerde_laws) ex_config 7 ltac:(discriminate) ltac:(split; discriminate)
    ex_poll_args None (client_new "https://server/mcp" (Ok ())) ∅ ex_poll_ops ex_poll_ops ex_turn.1.1 ex_turn.1.2 0
    (Some (Ok ())) 0) as (p & Hs & _ & Hl & _ & Hp & _).
  - eapply polled_last with (sv := {| sv_written := Written; sv_renamed := true |}); [exact Hcall|exact Htr|exact Hturn].
  - intros H. destruct (H eq_refl).
  - split; [discriminate|vm_compute; discriminate].
  - vm_compute. reflexivity.
  - repeat constructor. by intros ?%elem_of_nil.
  - exists p. split; [exact Hs|]. split; [exact Hl|exact (Hp eq_refl)].
Defined.

(** Asked for batches of no event, the harness polls again at once, for ever:
    the server has more, and the position does not move. *)
Definition ex_no_events : PollArgs (J := ZJson) := poll_args "orders.changed" None None false (Some 0) None 250.

#[local] Abbreviation ex_nothing := (batch_read ex_no_events None (buf_run (buffer_new ex_config 7) ex_poll_ops) 0 (at_position 7 0)).

Example no_events_spins :
  rr_has_more ex_nothing = true /\ length (rr_events ex_nothing) = 0%nat /\ rr_cursor ex_nothing = cursor_text 7 0.
Proof.
  assert (rr_has_more ex_nothing = true) as H1 by (vm_compute; reflexivity).
  assert (length (rr_events ex_nothing) = 0%nat) as H2 by (vm_compute; reflexivity).
  assert (rr_cursor ex_nothing = cursor_text 7 0) as H3 by (vm_compute; reflexivity).
  by split_and!.
Qed.
End example.
