(* ===== verification/F64.v ===== *)
(** * [f64]: IEEE 754 double precision, and its text.

    The arithmetic is the Standard Library's specification of it, at 53 bits
    of precision.  [fmt_fixed] is what std's [{:.n}] prints: the exact value
    rounded to [n] decimals, ties to even.  The conversion of a JSON number
    is serde_json's and a parameter. *)
From Stdlib Require Import SpecFloat.
From S2P Require Import Prelude RustStd Json.

Definition F64 : Type := spec_float.

Definition f64_of_Z (z : Z) : F64 := binary_normalize 53 1024 z 0 false.
Definition f64_zero : F64 := S754_zero false.
Definition f64_MIN : F64 := S754_finite true (2 ^ 53 - 1) 971.
Definition f64_mul (x y : F64) : F64 := SFmul 53 1024 x y.
Definition f64_div (x y : F64) : F64 := SFdiv 53 1024 x y.
Definition f64_lt (x y : F64) : bool := SFltb x y.
Definition f64_le (x y : F64) : bool := SFleb x y.

(** [f64::max]: the other argument when one is NaN (which of two zeros of
    opposite signs it gives is left open by std; here the first). *)
Definition f64_max (x y : F64) : F64 :=
  match x, y with
  | S754_nan, _ => y
  | _, S754_nan => x
  | _, _ => if f64_lt x y then y else x
  end.

(** ** Text *)
Definition round_half_even (a b : Z) : Z :=
  let q := a / b in
  match 2 * (a mod b) ?= b with
  | Lt => q
  | Gt => q + 1
  | Eq => if Z.even q then q else q + 1
  end.

(** The value [m * 2 ^ e] times [10 ^ n], to the nearest integer. *)
Definition scaled (n : nat) (m : positive) (e : Z) : Z :=
  let a := Z.pos m * 10 ^ Z.of_nat n in
  if 0 <=? e then a * 2 ^ e else round_half_even a (2 ^ (- e)).

(** [k] in decimal, in at least [n] digits. *)
Definition pad_digits (n : nat) (k : Z) : string :=
  let s := dec_string k in
  String.concat "" (repeat "0" (n - String.length s)%nat) +:+ s.

Definition fixed_text (n : nat) (k : Z) : string :=
  let u := 10 ^ Z.of_nat n in
  match n with
  | O => dec_string k
  | S _ => dec_string (k / u) +:+ "." +:+ pad_digits n (k mod u)
  end.

Definition sign_text (s : bool) : string := if s then "-" else "".

Definition fmt_fixed (n : nat) (x : F64) : string :=
  match x with
  | S754_nan => "NaN"
  | S754_infinity s => sign_text s +:+ "inf"
  | S754_zero s => sign_text s +:+ fixed_text n 0
  | S754_finite s m e => sign_text s +:+ fixed_text n (scaled n m e)
  end.

(** 2.5, 3.5, 0.25 and -1234.5678. *)
Example fmt_fixed_examples :
  fmt_fixed 0 (f64_div (f64_of_Z 5) (f64_of_Z 2)) = "2" /\
  fmt_fixed 0 (f64_div (f64_of_Z 7) (f64_of_Z 2)) = "4" /\
  fmt_fixed 1 (f64_div (f64_of_Z 1) (f64_of_Z 4)) = "0.2" /\
  fmt_fixed 2 (f64_div (f64_of_Z (-12345678)) (f64_of_Z 10000)) = "-1234.57" /\
  fmt_fixed 1 (f64_mul (f64_of_Z 3) f64_MIN) = "-inf".
Proof. by vm_compute. Qed.

(** ** The order *)
Definition is_nan (x : F64) : bool := match x with S754_nan => true | _ => false end.

Definition le_total (x y : F64) : Prop := f64_le x y = true \/ f64_lt y x = true.

Lemma f64_lt_le x y : f64_lt x y = true -> f64_le x y = true.
Proof. unfold f64_lt, f64_le, SFltb, SFleb. by destruct (SFcompare x y) as [[]|]. Qed.

Lemma pos_compare_refl p : Pos.compare_cont Eq p p = Eq.
Proof. apply Pos.compare_refl. Qed.

Lemma f64_le_refl x : is_nan x = false -> f64_le x x = true.
Proof.
  unfold f64_le, SFleb. destruct x as [s|s| |s m e]; try done; [by destruct s|].
  intros _. simpl. rewrite Z.compare_refl, pos_compare_refl. by destruct s.
Qed.

(** The place of a value in the order: its class, then exponent and
    significand. *)
Definition rank (x : F64) : Z * Z * Z :=
  match x with
  | S754_nan => (0, 0, 0)
  | S754_infinity true => (-2, 0, 0)
  | S754_finite true m e => (-1, - e, Z.neg m)
  | S754_zero _ => (0, 0, 0)
  | S754_finite false m e => (1, e, Z.pos m)
  | S754_infinity false => (2, 0, 0)
  end.

Definition rank_le (a b : Z * Z * Z) : Prop :=
  a.1.1 < b.1.1 \/ a.1.1 = b.1.1 /\ (a.1.2 < b.1.2 \/ a.1.2 = b.1.2 /\ a.2 <= b.2).

Lemma f64_le_rank x y :
  is_nan x = false -> is_nan y = false -> f64_le x y = true <-> rank_le (rank x) (rank y).
Proof.
  unfold f64_le, SFleb, rank_le. intros Hx Hy.
  destruct x as [[]|[]| |[] m e], y as [[]|[]| |[] m' e']; try done; simpl;
    try (split; [intros; lia|done]); try (split; [done|intros; lia]);
    fold (Pos.compare m m'); destruct (Z.compare_spec e e'); subst; try (split; [intros; lia|done]); try (split; [done|intros; lia]);
    destruct (Pos.compare_spec m m'); simpl; subst; (split; [intros|intros; try done]); lia.
Qed.

Lemma f64_le_trans x y z : f64_le x y = true -> f64_le y z = true -> f64_le x z = true.
Proof.
  intros H1 H2.
  assert (is_nan x = false /\ is_nan y = false /\ is_nan z = false) as (Hx & Hy & Hz).
  { unfold f64_le, SFleb in *. split_and!; [by destruct x|by destruct y|]. destruct z; try done. by destruct y. }
  rewrite f64_le_rank in * by done. unfold rank_le in *. lia.
Qed.

Lemma f64_le_total x y : is_nan x = false -> is_nan y = false -> le_total x y.
Proof.
  intros Hx Hy. unfold le_total.
  destruct (f64_le x y) eqn:E; [by left|right].
  unfold f64_le, f64_lt, SFleb, SFltb in *.
  destruct x as [[]|[]| |[] m e], y as [[]|[]| |[] m' e']; try done; simpl in *;
    fold (Pos.compare m m') in *; fold (Pos.compare m' m);
    rewrite (Z.compare_antisym e e'), (Pos.compare_antisym m m');
    destruct (e ?= e'); try done; by destruct (m ?= m')%positive.
Qed.

Definition is_zero (x : F64) : bool := match x with S754_zero _ => true | _ => false end.

Lemma rank_inj x y :
  is_nan x = false -> is_nan y = false -> rank x = rank y -> x = y \/ is_zero x = true /\ is_zero y = true.
Proof. intros Hx Hy. destruct x as [[]|[]| |[] m e], y as [[]|[]| |[] m' e']; try done; simpl; intros [=]; auto; left; f_equal; lia. Qed.

Lemma f64_le_antisym x y : f64_le x y = true -> f64_le y x = true -> x = y \/ is_zero x = true /\ is_zero y = true.
Proof.
  intros H1 H2. assert (is_nan x = false /\ is_nan y = false) as [Hx Hy] by (split; [by destruct x|]; destruct y; try done; by destruct x).
  apply rank_inj; [done..|]. rewrite f64_le_rank in H1, H2 by done. unfold rank_le in *.
  destruct (rank x) as [[a b] c], (rank y) as [[a' b'] c']. simpl in *. repeat f_equal; lia.
Qed.

(** A greatest of a list. *)
Definition is_peak (p : F64) (l : list F64) : Prop := p ∈ l /\ Forall (fun x => f64_le x p = true) l.

Lemma f64_max_spec x y :
  is_nan x = false -> is_nan y = false ->
  f64_max x y = (if f64_lt x y then y else x) /\ is_nan (f64_max x y) = false /\
  f64_le x (f64_max x y) = true /\ f64_le y (f64_max x y) = true.
Proof.
  intros Hx Hy. assert (f64_max x y = if f64_lt x y then y else x) as E by (destruct x, y; done). rewrite E.
  split; [done|]. destruct (f64_lt x y) eqn:El.
  - split_and!; [done|by apply f64_lt_le|by apply f64_le_refl].
  - split_and!; [done|by apply f64_le_refl|]. by destruct (f64_le_total y x Hy Hx) as [?|?]; [|congruence].
Qed.

Lemma foldl_max acc l :
  Forall (fun x => is_nan x = false) l -> is_nan acc = false ->
  let r := foldl f64_max acc l in
  (r = acc \/ r ∈ l) /\ f64_le acc r = true /\ Forall (fun x => f64_le x r = true) l.
Proof.
  revert acc. induction l as [|x l IH]; intros acc Hl Hacc; simpl; [split_and!; [by left|by apply f64_le_refl|constructor]|].
  apply Forall_cons in Hl as [Hx Hl]. destruct (f64_max_spec acc x Hacc Hx) as (Em & Hm & Hle1 & Hle2).
  destruct (IH (f64_max acc x) Hl Hm) as (H2 & H3 & H4). split_and!.
  - destruct H2 as [->|H2]; [|right; by apply list_elem_of_further].
    rewrite Em. destruct (f64_lt acc x); [right; apply list_elem_of_here|by left].
  - by eapply f64_le_trans.
  - constructor; [by eapply f64_le_trans|done].
Qed.

(** The fold from the least finite number finds a peak. *)
Lemma fold_max_peak l :
  Forall (fun x => is_nan x = false /\ f64_le f64_MIN x = true) l -> l <> [] -> is_peak (foldl f64_max f64_MIN l) l.
Proof.
  intros [Hn Hmin]%Forall_and Hne. destruct (foldl_max f64_MIN l Hn eq_refl) as (H1 & H2 & H3). split; [|done].
  destruct H1 as [E|?]; [|done]. rewrite E in H3 |- *. destruct l as [|x l]; [done|].
  apply Forall_cons in Hmin as [Hx _]. apply Forall_cons in H3 as [Hx' _].
  destruct (f64_le_antisym _ _ Hx Hx') as [->|[Hz _]]; [apply list_elem_of_here|done].
Qed.

(** A multiple of a peak does not depend on which peak it is. *)
Lemma peak_multiple k p q l y :
  is_peak p l -> is_peak q l -> f64_le (f64_mul k p) y = true -> f64_le (f64_mul k q) y = true.
Proof.
  intros [Hp Hpl] [Hq Hql]. rewrite Forall_forall in Hpl, Hql.
  destruct (f64_le_antisym p q (Hql p Hp) (Hpl q Hq)) as [->|[Hzp Hzq]]; [done|].
  destruct p as [sp| | |], q as [sq| | |]; try done.
  destruct k as [sk|sk| |sk mk ek]; unfold f64_mul; simpl; try done; destruct y as [sy|sy| |sy my ey]; try done.
Qed.

(** ** JSON numbers *)
Class JsonFloat (J : JsonLib) := {
  num_as_f64 : Num -> option F64   (* [Number::as_f64] *)
}.

(** Its values are numbers, and finite. *)
Class JsonFloatLaws {J : JsonLib} (F : JsonFloat J) : Prop := {
  num_as_f64_finite n x : num_as_f64 n = Some x -> is_nan x = false /\ f64_le f64_MIN x = true
}.

Definition as_f64 {J : JsonLib} {F : JsonFloat J} (v : Value) : option F64 :=
  match v with JNumber n => num_as_f64 n | _ => None end.

(** Integers, for the examples. *)
#[export] Instance ZFloat : JsonFloat ZJson := {
  num_as_f64 z := let x := f64_of_Z z in if f64_le f64_MIN x && negb (is_nan x) then Some x else None
}.

#[export] Instance ZFloat_laws : JsonFloatLaws ZFloat.
Proof.
  split. intros z x. simpl. destruct (f64_le _ _) eqn:E1; [|done]. destruct (is_nan _) eqn:E2; [done|]. by intros [= <-].
Qed.
