(* ===== verification/Text.v ===== *)
(** * Text by characters: what the agent uses of [str].

    A character is its UTF-8 bytes.  Which characters are alphanumeric, and
    the two case mappings, are std's Unicode tables, given as parameters. *)
From S2P Require Import Prelude RustStd Utf8.

(** The characters of a well-formed text: each leading byte with the
    continuation bytes after it. *)
Fixpoint chars (s : string) : list string :=
  match s with
  | EmptyString => []
  | String a s' =>
      match chars s' with
      | String b r :: l => if is_cont b then String a (String b r) :: l else String a "" :: String b r :: l
      | l => String a "" :: l
      end
  end.

Class Unicode := {
  is_alphanumeric : string -> bool;   (* of one character *)
  to_lowercase : string -> string;
  to_uppercase : string -> string
}.

(** [str::split] at the characters of a set. *)
Fixpoint split_chars (p : string -> bool) (cur : string) (cs : list string) : list string :=
  match cs with
  | [] => [cur]
  | c :: cs' => if p c then cur :: split_chars p "" cs' else split_chars p (cur +:+ c) cs'
  end.

Definition str_split (p : string -> bool) (s : string) : list string := split_chars p "" (chars s).

(** [str::ends_with]. *)
Fixpoint ends_with (p s : string) : bool :=
  bool_decide (s = p) || match s with EmptyString => false | String _ s' => ends_with p s' end.

(** [str::lines]: split at every newline, which may follow a carriage
    return; a final newline ends the last line. *)
Fixpoint lines_aux (cur s : string) : list string :=
  match s with
  | EmptyString => if bool_decide (cur = "") then [] else [cur]
  | String "010" s' => cur :: lines_aux "" s'
  | String "013" (String "010" s') => cur :: lines_aux "" s'
  | String c s' => lines_aux (cur +:+ String c "") s'
  end.

Definition str_lines (s : string) : list string := lines_aux "" s.

(** [trim_matches] of one ASCII character. *)
Fixpoint trim_start_char (c : ascii) (s : string) : string :=
  match s with
  | String a s' => if bool_decide (a = c) then trim_start_char c s' else s
  | EmptyString => s
  end.

Fixpoint trim_end_char (c : ascii) (s : string) : string :=
  match s with
  | EmptyString => ""
  | String a s' => if bool_decide (trim_start_char c s = "") then "" else String a (trim_end_char c s')
  end.

Definition trim_matches (c : ascii) (s : string) : string := trim_end_char c (trim_start_char c s).

(** ASCII tables, for the examples. *)
Definition ascii_upper (c : ascii) : ascii :=
  let k := N_of_ascii c in if ((97 <=? k) && (k <=? 122))%N then ascii_of_N (k - 32) else c.

Fixpoint ascii_uppercase (s : string) : string :=
  match s with EmptyString => "" | String c s' => String (ascii_upper c) (ascii_uppercase s') end.

Definition ascii_alphanumeric (c : ascii) : bool :=
  is_digit c || byte_in 65 90 c || byte_in 97 122 c.

#[export] Instance AsciiUnicode : Unicode := {
  is_alphanumeric := str_forall ascii_alphanumeric;
  to_lowercase := to_ascii_lowercase;
  to_uppercase := ascii_uppercase
}.

Example text_examples :
  str_split (fun c => negb (is_alphanumeric c)) "on-call: P1!" = ["on"; "call"; ""; "P1"; ""] /\
  str_lines "a" = ["a"] /\ str_lines (String "b" (String "013" (String "010" ""))) = ["b"] /\
  trim_matches "'" "''x'y'" = "x'y" /\ chars "é×a" = ["é"; "×"; "a"].
Proof. by vm_compute. Qed.

(** ** Well-formed characters *)
Definition utf8_char (c : string) : bool :=
  match c with
  | String a "" => utf8_width a =? 1
  | String a (String b "") => (utf8_width a =? 2) && is_cont b
  | String a (String b (String c "")) => (utf8_width a =? 3) && second3 a b && is_cont c
  | String a (String b (String c (String d ""))) => (utf8_width a =? 4) && second4 a b && is_cont c && is_cont d
  | _ => false
  end.

Lemma utf8_char_app c s : utf8_char c = true -> utf8_lossy (c +:+ s) = c +:+ utf8_lossy s.
Proof.
  destruct c as [|a [|b [|c [|d [|]]]]]; try done; cbn [utf8_char]; intros H;
    rewrite ?andb_true_iff, ?Z.eqb_eq in H; destruct_and?; rewrite ?app_cons, app_nil_l'; cbn [utf8_lossy]; cbv zeta;
    by repeat (match goal with E : ?x = _ |- context [?x] => rewrite E end; simpl).
Qed.

Lemma utf8_lossy_length s : (String.length s <= String.length (utf8_lossy s))%nat.
Proof.
  assert (forall n s, (String.length s <= n)%nat -> (String.length s <= String.length (utf8_lossy s))%nat) as H; [|by apply (H (String.length s))].
  clear s. induction n as [|n IH]; intros [|a s1] Hn; try (cbn [String.length] in *; lia).
  assert (forall t, (String.length t < String.length (String a s1))%nat ->
    (String.length t <= String.length (utf8_lossy t))%nat /\ (3 + String.length t <= String.length (REPLACEMENT +:+ utf8_lossy t))%nat) as H.
  { intros t Ht. assert (String.length t <= String.length (utf8_lossy t))%nat by (apply IH; simpl in *; lia).
    split; [done|]. rewrite length_app'. simpl. lia. }
  clear IH Hn. cbn [utf8_lossy]. cbv zeta.
  repeat case_match; simplify_eq; cbn [String.length] in *; try lia;
    repeat match goal with |- context [utf8_lossy ?x] => destruct (H x) as [? ?]; [simpl; lia|]; generalize dependent (utf8_lossy x); intros end;
    cbn [String.length]; try lia; simpl; rewrite ?app_nil_l'; simpl in *; lia.
Qed.

(** A well-formed text is a character and a well-formed text. *)
Lemma utf8_uncons s :
  utf8_lossy s = s -> s = "" \/ exists c r, s = c +:+ r /\ utf8_char c = true /\ utf8_lossy r = r.
Proof.
  destruct s as [|a s1]; [by left|]. intros H. right. cbn [utf8_lossy] in H. cbv zeta in H.
  assert (forall t u, (String.length t < 3 + String.length u)%nat -> REPLACEMENT +:+ utf8_lossy u = t -> False) as Hr.
  { intros t u Ht <-. pose proof (utf8_lossy_length u). rewrite length_app' in Ht. simpl in Ht. lia. }
  destruct (utf8_width a =? 1) eqn:E1; [injection H as H; by exists (String a ""), s1|].
  destruct (utf8_width a =? 0) eqn:E0; [by apply Hr in H; [|simpl; lia]|].
  destruct s1 as [|b s2]; [done|].
  destruct (utf8_width a =? 2) eqn:E2.
  { destruct (is_cont b) eqn:Eb; [|by apply Hr in H; [|simpl; lia]]. injection H as H.
    exists (String a (String b "")), s2. cbn [utf8_char]. by rewrite E2, Eb. }
  destruct (negb _) eqn:Es; [by apply Hr in H; [|simpl; lia]|]. apply negb_false_iff in Es.
  destruct s2 as [|c s3]; [done|].
  destruct (is_cont c) eqn:Ec; cbn [negb] in H; [|by apply Hr in H; [|simpl; lia]].
  destruct (utf8_width a =? 3) eqn:E3.
  { injection H as H. exists (String a (String b (String c ""))), s3. cbn [utf8_char]. by rewrite E3, Es, Ec. }
  assert ((utf8_width a =? 4) = true) as E4.
  { unfold utf8_width in *. repeat case_match; done. }
  destruct s3 as [|d s4].
  { injection H as ? _ _. subst a. done. }
  destruct (is_cont d) eqn:Ed.
  - injection H as H. exists (String a (String b (String c (String d "")))), s4. cbn [utf8_char]. by rewrite E4, Es, Ec, Ed.
  - injection H as ? _ _ _. subst a. done.
Qed.

(** ** Truncation at a character boundary *)
Lemma utf8_char_head c : utf8_char c = true -> exists a r, c = String a r /\ is_cont a = false.
Proof.
  assert (forall a k, utf8_width a = k -> 0 < k -> is_cont a = false) as H.
  { intros a k <- Hk. unfold utf8_width, is_cont in *. revert Hk. by destruct a as [[] [] [] [] [] [] [] []]. }
  destruct c as [|a r]; [done|]. intros Hc. exists a, r. split; [done|].
  destruct r as [|b [|c [|d [|]]]]; simpl in Hc; rewrite ?andb_true_iff, ?Z.eqb_eq in Hc; destruct_and?; try done; by eapply H.
Qed.

Lemma utf8_char_length c : utf8_char c = true -> (1 <= String.length c <= 4)%nat.
Proof. destruct c as [|a [|b [|c [|d [|]]]]]; try done; simpl; lia. Qed.

Lemma utf8_char_tail c i a :
  utf8_char c = true -> (0 < i)%nat -> String.get i c = Some a -> is_cont a = true.
Proof.
  assert (forall a b, second3 a b = true -> is_cont b = true) as H3.
  { intros x y. unfold second3, is_cont, byte_in. intros H. repeat case_match; rewrite ?andb_true_iff, ?N.leb_le in *; lia. }
  assert (forall a b, second4 a b = true -> is_cont b = true) as H4.
  { intros x y. unfold second4, is_cont, byte_in. intros H. repeat case_match; rewrite ?andb_true_iff, ?N.leb_le in *; lia. }
  intros Hc Hi Hg.
  destruct c as [|a0 [|b [|c [|d [|]]]]]; try done; simpl in Hc; rewrite ?andb_true_iff, ?Z.eqb_eq in Hc; destruct_and?;
    destruct i as [|[|[|[|]]]]; try lia; simpl in Hg; simplify_eq; eauto.
Qed.

(** [str::is_char_boundary] *)
Definition is_char_boundary (s : string) (i : nat) : bool :=
  bool_decide (i = 0%nat) ||
  match String.get i s with
  | Some c => negb (is_cont c)
  | None => bool_decide (i = String.length s)
  end.

(** The loop [while !s.is_char_boundary(end) { end -= 1 }]. *)
Fixpoint boundary_below (s : string) (end_ : nat) : nat :=
  if is_char_boundary s end_ then end_
  else match end_ with O => O | S e => boundary_below s e end.

Definition truncate_at_char_boundary (s : string) (max : nat) : string :=
  String.substring 0 (boundary_below s (Nat.min (String.length s) max)) s.

Lemma substring_app c r k : String.substring 0 (String.length c + k) (c +:+ r) = c +:+ String.substring 0 k r.
Proof. induction c as [|a c IH]; [done|]. rewrite app_cons. simpl. by rewrite IH. Qed.

Lemma get_app_r c r i : String.get (String.length c + i) (c +:+ r) = String.get i r.
Proof. induction c as [|a c IH]; [done|]. by rewrite app_cons. Qed.

Lemma get_app_l c r i : (i < String.length c)%nat -> String.get i (c +:+ r) = String.get i c.
Proof.
  revert i. induction c as [|a c IH]; intros i Hi; simpl in Hi; [lia|]. rewrite app_cons.
  destruct i as [|i]; [done|]. simpl. apply IH. lia.
Qed.

Lemma get_some s i : (i < String.length s)%nat -> exists a, String.get i s = Some a.
Proof. revert i. induction s as [|b s IH]; intros [|i] Hi; simpl in *; try lia; [eauto|]. apply IH. lia. Qed.

Lemma boundary_app c r i :
  utf8_char c = true -> utf8_lossy r = r ->
  is_char_boundary (c +:+ r) (String.length c + i) = is_char_boundary r i.
Proof.
  intros Hc Hr. pose proof (utf8_char_length c Hc). unfold is_char_boundary. rewrite get_app_r, length_app'.
  rewrite bool_decide_eq_false_2 by lia.
  destruct (utf8_uncons r Hr) as [->|(c' & r' & -> & Hc' & _)].
  { destruct i; simpl; [by rewrite bool_decide_eq_true_2 by lia|]. by rewrite !bool_decide_eq_false_2 by lia. }
  destruct (utf8_char_head c' Hc') as (a & x & -> & Ha).
  destruct i as [|i]; [simpl; by rewrite Ha|]. rewrite (bool_decide_eq_false_2 (Datatypes.S i = 0%nat)) by lia. simpl.
  case_match; [done|]. apply bool_decide_ext. simpl. lia.
Qed.

Lemma boundary_inside c r i :
  utf8_char c = true -> (0 < i < String.length c)%nat -> is_char_boundary (c +:+ r) i = false.
Proof.
  intros Hc Hi. unfold is_char_boundary. rewrite bool_decide_eq_false_2, get_app_l by lia.
  destruct (get_some c i ltac:(lia)) as [a E]. rewrite E. simpl.
  by rewrite (utf8_char_tail c i a Hc ltac:(lia) E).
Qed.

Lemma boundary_below_app c r k :
  utf8_char c = true -> utf8_lossy r = r ->
  boundary_below (c +:+ r) (String.length c + k) = (String.length c + boundary_below r k)%nat.
Proof.
  intros Hc Hr. induction k as [|k IH].
  - assert (is_char_boundary (c +:+ r) (String.length c + 0) = true) as E by by rewrite boundary_app.
    pose proof (utf8_char_length c Hc). rewrite Nat.add_0_r in *. destruct (String.length c) eqn:El; [lia|].
    cbn [boundary_below]. rewrite E. simpl. lia.
  - rewrite <- Nat.add_succ_comm in *. rewrite Nat.add_succ_l in *. cbn [boundary_below].
    rewrite <- Nat.add_succ_r, boundary_app by done. destruct (is_char_boundary r _); lia.
Qed.

Lemma boundary_below_inside c r k :
  utf8_char c = true -> (k < String.length c)%nat -> boundary_below (c +:+ r) k = 0%nat.
Proof.
  intros Hc. induction k as [|k IH]; intros Hk; [done|]. cbn [boundary_below].
  rewrite boundary_inside by (done || lia). apply IH. lia.
Qed.

Lemma truncate_cons c r max :
  utf8_char c = true -> utf8_lossy r = r ->
  truncate_at_char_boundary (c +:+ r) max =
  if decide (max < String.length c)%nat then "" else c +:+ truncate_at_char_boundary r (max - String.length c).
Proof.
  intros Hc Hr. unfold truncate_at_char_boundary. rewrite length_app'. case_decide.
  - rewrite Nat.min_r, boundary_below_inside by (done || lia). by destruct (c +:+ r).
  - replace (Nat.min (String.length c + String.length r) max)
      with (String.length c + Nat.min (String.length r) (max - String.length c))%nat by lia.
    by rewrite boundary_below_app, substring_app.
Qed.

(** Truncation: a well-formed text is cut to at most the bytes allowed,
    at the boundary of a character (the result is well-formed and a prefix),
    fewer than four bytes before the limit, and not at all when it fits. *)
Theorem truncate_bounds s max :
  is_utf8 s = true ->
  let t := truncate_at_char_boundary s max in
  is_utf8 t = true /\ (exists r, s = t +:+ r) /\ (String.length t <= max)%nat /\
  (if decide (String.length s <= max)%nat then t = s else (max < String.length t + 4)%nat).
Proof.
  unfold is_utf8. rewrite bool_decide_eq_true. intros Hs. cbv zeta. rewrite bool_decide_eq_true.
  remember (String.length s) as n eqn:En. assert (String.length s <= n)%nat as Hn by lia. rewrite En. clear En.
  revert s max Hs Hn. induction n as [|n IH]; intros s max Hs Hn.
  { destruct s; [|simpl in Hn; lia]. split_and!; try done; [by exists ""|simpl; lia]. }
  destruct (utf8_uncons s Hs) as [->|(c & r & -> & Hc & Hr)].
  { split_and!; try done; [by exists ""|simpl; lia]. }
  pose proof (utf8_char_length c Hc). rewrite length_app' in Hn. rewrite truncate_cons by done. case_decide.
  - rewrite length_app'. rewrite decide_False by lia. split_and!; [done|by eexists|simpl; lia|simpl; lia].
  - destruct (IH r (max - String.length c)%nat Hr ltac:(lia)) as (H1 & [x H2] & H3 & H4).
    split_and!.
    + by rewrite utf8_char_app, H1.
    + exists x. by rewrite app_assoc', <- H2.
    + rewrite length_app'. lia.
    + rewrite !length_app'. repeat case_decide; try lia. by rewrite H4.
Qed.

Lemma truncate_bounds_witness :
  is_utf8 "3×4" = true /\ truncate_at_char_boundary "3×4" 2 = "3" /\ is_utf8 (truncate_at_char_boundary "3×4" 2) = true.
Proof.
  assert (is_utf8 "3×4" = true) as H by (vm_compute; reflexivity).
  split; [exact H|]. split; [reflexivity|]. exact (proj1 (truncate_bounds "3×4" 2 H)).
Defined.
