(* ===== verification/AgentConfig.v ===== *)
(** * The agent's configuration (crates/mcp-events-agent/src/main.rs).

    The environment maps a variable to its value ([None]: a value that is
    not Unicode).  The argument parser and the log are not modelled. *)
From S2P Require Import Prelude RustStd Text.

Definition MAX_BRAIN_TURNS : nat := 8.
Definition MAX_EVENT_ATTEMPTS : Z := 3.
Definition ANTHROPIC_URL : string := "https://api.anthropic.com/v1/messages".
Definition ANTHROPIC_VERSION : string := "2023-06-01".

Inductive Provider : Type := Anthropic | OpenAi | OpenAiResponses.

#[export] Instance Provider_eq_dec : EqDecision Provider.
Proof. solve_decision. Defined.

Record LlmConfig := {
  lc_provider : Provider;
  lc_chat_url : string;
  lc_api_key : string;
  lc_model : string
}.

Abbreviation Env := (gmap string (option string)).

(** [std::env::var(k).ok()], if it is not blank. *)
Definition env_get (env : Env) (k : string) : option string :=
  v ← mjoin (env !! k); if bool_decide (trim v = "") then None else Some v.

Definition path_of_url (url : string) : string :=
  match split_once "?" url with Some (p, _) => p | None => url end.

Definition provider_of (v : option string) : option Provider :=
  match v with
  | None => Some Anthropic
  | Some p =>
      if bool_decide (p = "openai") then Some OpenAi
      else if bool_decide (p = "openai-responses") || bool_decide (p = "responses") then Some OpenAiResponses
      else if bool_decide (p = "anthropic") then Some Anthropic
      else None
  end.

Definition from_env (env : Env) (default_model : string) : option LlmConfig :=
  provider ← provider_of (env_get env "LLM_PROVIDER");
  api_key ← (match env_get env "LLM_API_KEY" with Some k => Some k | None => env_get env "ANTHROPIC_API_KEY" end);
  let chat_url := default ANTHROPIC_URL (env_get env "LLM_CHAT_URL") in
  if negb (bool_decide (provider = Anthropic)) && bool_decide (chat_url = ANTHROPIC_URL) then None
  else
    let provider :=
      if bool_decide (provider = OpenAi) && ends_with "/responses" (path_of_url chat_url) then OpenAiResponses
      else provider in
    let model := default default_model (env_get env "LLM_MODEL") in
    Some {| lc_provider := provider; lc_chat_url := chat_url; lc_api_key := api_key; lc_model := model |}.

(** The variable a line sets, if it sets one. *)
Definition env_line (line : string) : option (string * string) :=
  let line := trim line in
  if bool_decide (line = "") || starts_with "#" line then None
  else
    '(key, value) ← split_once "=" line;
    let key := trim key in
    let value := trim_matches "'" (trim_matches "034" (trim value)) in
    if bool_decide (key = "") then None else Some (key, value).

(** [None]: [set_var] panics on a NUL character. *)
Fixpoint load_lines (env : Env) (loaded : Z) (lines : list string) : option (Env * Z) :=
  match lines with
  | [] => Some (env, loaded)
  | line :: lines' =>
      match env_line line with
      | None => load_lines env loaded lines'
      | Some (key, value) =>
          match env !! key with
          | Some _ => load_lines env loaded lines'
          | None =>
              if str_has "000" key || str_has "000" value then None
              else load_lines (<[key := Some value]> env) (loaded + 1) lines'
          end
      end
  end.

(** [content]: what reading the file gives, if it is there and is text. *)
Definition load_env_file (content : option string) (env : Env) : option (Env * Z) :=
  match content with
  | None => Some (env, 0)
  | Some content => load_lines env 0 (str_lines content)
  end.

(** The mode that runs ([None]: no credentials). *)
Definition choose_mode (mode : string) (llm : option LlmConfig) : option string :=
  if bool_decide (mode = "auto") then Some (match llm with Some _ => "llm" | None => "policy" end)
  else if bool_decide (mode = "llm") || bool_decide (mode = "claude") then
    match llm with None => None | Some _ => Some "llm" end
  else Some mode.

Definition contextual_prompt (base : string) (task : option string) : string :=
  match task with
  | Some t => base +:+ String "010" (String "010" "Your assigned task: ") +:+ t
  | None => base
  end.

(** The file of the cursor, when none is given. *)
Definition default_state_file {U : Unicode} (name : string) : string :=
  "/tmp/drasi-agent-cursor-" +:+
  String.concat "" ((fun c => if is_alphanumeric c then c else "-") <$> chars name) +:+ ".json".

(** ** Prompts *)
Definition QUOTE : string := String "034" "".

Definition SYSTEM_PROMPT : string :=
  "You are an autonomous order-monitoring agent. You are woken only " +:+
  "when a continuous query's result set changes (a row entered, changed within, or left it — the " +:+
  "event's name and changeType tell you which condition changed). You are not running continuously." +:+
  String "010" "For each change: verify current state with get_order, use get_customer_history for context, and " +:+
  "judge the change against your assigned task. Call flag_order only when the situation warrants " +:+
  "human review under that task. Rows leaving a result set (changeType " +:+ QUOTE +:+ "deleted" +:+ QUOTE +:+ ") mean the " +:+
  "condition stopped holding and normally need no action. Never flag the same situation twice — " +:+
  "check priorFlags. End with one sentence: what happened and what you did.".

Definition INCIDENT_PROMPT : string :=
  "You are an on-call triage agent woken by an incident event. " +:+
  "Decide the immediate action — escalate/page for P1, notify the on-call channel for P2, log " +:+
  "for later review for P3/P4 — adjusting for the incident's details. Reply with one sentence " +:+
  "stating the action you are taking and why.".

Definition CHOOSER_PROMPT : string :=
  "You are configuring an event-driven agent. Given a task and a " +:+
  "catalog of subscribable event streams (from MCP events/list), choose the single stream most " +:+
  "relevant to the task, plus subscription arguments if the stream's inputSchema offers a filter " +:+
  "that matches the task (e.g. a specific priority). Respond with ONLY a JSON object:" +:+ String "010" "" +:+
  "{" +:+ QUOTE +:+ "eventName" +:+ QUOTE +:+ ": " +:+ QUOTE +:+ "<name from the catalog>" +:+ QUOTE +:+ ", " +:+
  QUOTE +:+ "arguments" +:+ QUOTE +:+ ": {<object or null>}, " +:+
  QUOTE +:+ "rationale" +:+ QUOTE +:+ ": " +:+ QUOTE +:+ "<one sentence>" +:+ QUOTE +:+ "}".

(** ** Properties *)
Lemma load_lines_env env n lines env' n' k :
  load_lines env n lines = Some (env', n') ->
  (is_Some (env !! k) -> env' !! k = env !! k) /\ n <= n' /\
  (forall v, env' !! k = Some v -> env !! k = Some v \/ exists t, v = Some t /\ (exists line, line ∈ lines /\ env_line line = Some (k, t))).
Proof.
  revert env n. induction lines as [|line lines IH]; intros env n; simpl.
  - intros [= -> ->]. split_and!; [done|lia|by left].
  - destruct (env_line line) as [[key value]|] eqn:El; [destruct (env !! key) eqn:Ek; [|destruct (_ || _); [done|]]|]; intros H;
      apply IH in H as (H1 & H2 & H3); (split_and!; [|lia|]).
    + done.
    + intros v Hv. destruct (H3 v Hv) as [?|(t & ? & l & ? & ?)]; [by left|right]. exists t. split; [done|]. exists l. set_solver.
    + intros Hk. assert (key <> k) as Hne by (intros ->; rewrite Ek in Hk; by destruct Hk). rewrite lookup_insert_ne in H1 by done. auto.
    + intros v Hv. destruct (H3 v Hv) as [Hi|(t & ? & l & ? & ?)].
      * apply lookup_insert_Some in Hi as [[-> <-]|[_ Hi]]; [right|by left]. exists value. split; [done|]. exists line. set_solver.
      * right. exists t. split; [done|]. exists l. set_solver.
    + done.
    + intros v Hv. destruct (H3 v Hv) as [?|(t & ? & l & ? & ?)]; [by left|right]. exists t. split; [done|]. exists l. set_solver.
Qed.

(** The environment wins over the file, the first line of a name over the
    others, and a file sets nothing but what its lines say. *)
Lemma load_env_file_spec content env env' n :
  load_env_file content env = Some (env', n) ->
  (forall k, is_Some (env !! k) -> env' !! k = env !! k) /\ 0 <= n /\
  (forall k v, env' !! k = Some v -> env !! k = Some v \/
     exists t text line, v = Some t /\ content = Some text /\ line ∈ str_lines text /\ env_line line = Some (k, t)).
Proof.
  unfold load_env_file. destruct content as [text|]; [|intros [= -> ->]; split_and!; [done|lia|by left]].
  intros H. split_and!.
  - intros k. by apply (load_lines_env _ _ _ _ _ k H).
  - by apply (load_lines_env _ _ _ _ _ "" H).
  - intros k v Hv. destruct (load_lines_env _ _ _ _ _ k H) as (_ & _ & H3).
    destruct (H3 v Hv) as [?|(t & ? & l & ? & ?)]; [by left|right]. by exists t, text, l.
Qed.

(** A configuration always has a key, and an OpenAI one a URL of its own. *)
Lemma from_env_spec env m c :
  from_env env m = Some c ->
  trim (lc_api_key c) <> "" /\ (lc_provider c <> Anthropic -> lc_chat_url c <> ANTHROPIC_URL) /\
  (lc_provider c = OpenAi -> ends_with "/responses" (path_of_url (lc_chat_url c)) = false).
Proof.
  assert (forall k v, env_get env k = Some v -> trim v <> "") as Hget.
  { intros k v. unfold env_get. destruct (mjoin _) as [w|]; [|done]. simpl. case_bool_decide; [done|]. by intros [= <-]. }
  unfold from_env. intros (p & Hp & (key & Hk & H)%bind_Some)%bind_Some.
  destruct (negb _ && _) eqn:E; [done|]. injection H as <-. cbn [lc_api_key lc_provider lc_chat_url].
  split_and!.
  - destruct (env_get env "LLM_API_KEY") eqn:Ek; [injection Hk as <-|]; by eapply Hget.
  - intros Hne. apply andb_false_iff in E as [E|E]; [|by apply bool_decide_eq_false in E].
    apply negb_false_iff, bool_decide_eq_true in E. subst p. by destruct Hne.
  - clear E. destruct (_ && _) eqn:Eo; [done|]. intros Ep. by rewrite bool_decide_eq_true_2 in Eo.
Qed.
