(* ===== verification/AgentBrain.v ===== *)
(** * The agent's brains (crates/mcp-events-agent/src/main.rs).

    What handles an event: a fixed policy, or a conversation with a language
    model in one of three dialects.  A brain is a program that asks the
    model's endpoint and calls tools, and ends; [brain_run] runs it against
    any answers.  The log is not modelled. *)
From S2P Require Import Prelude RustStd Json Wire State Dispatch Text F64 Client AgentConfig.

(** ** Programs *)
Record LlmRequest {J : JsonLib} := {
  lq_url : string;
  lq_headers : list (string * string);
  lq_body : Value
}.

(** The answer of the endpoint: a status and a text; [None]: none came. *)
Definition LlmAnswer : Type := option (Z * string).

Section program.
Context {J : JsonLib}.

(** A tool call gives its payload, or the text of its error. *)
Inductive Brain (A : Type) : Type :=
| Done (a : A)
| Post (r : LlmRequest) (k : LlmAnswer -> Brain A)
| Tool (name : string) (args : Value) (k : result string Value -> Brain A).
#[global] Arguments Done {A} a.
#[global] Arguments Post {A} r k.
#[global] Arguments Tool {A} name args k.

#[export] Instance brain_ret : MRet Brain := fun A a => Done a.
#[export] Instance brain_bind : MBind Brain := fun A B f =>
  fix go p :=
    match p with
    | Done a => f a
    | Post r k => Post r (fun x => go (k x))
    | Tool name args k => Tool name args (fun x => go (k x))
    end.

Fixpoint brain_map {A B} (f : A -> Brain B) (l : list A) : Brain (list B) :=
  match l with
  | [] => Done []
  | x :: l' => y ← f x; ys ← brain_map f l'; Done (y :: ys)
  end.

Inductive Event : Type :=
| Posted (r : LlmRequest) (ans : LlmAnswer)
| Called (name : string) (args : Value) (ans : result string Value).

(** The world: what it answers to the [n]-th request or call. *)
Record World := {
  w_post : nat -> LlmRequest -> LlmAnswer;
  w_tool : nat -> string -> Value -> result string Value
}.

Fixpoint brain_run {A} (w : World) (n : nat) (p : Brain A) : list Event * A :=
  match p with
  | Done a => ([], a)
  | Post r k => let ans := w_post w n r in let '(t, a) := brain_run w (S n) (k ans) in (Posted r ans :: t, a)
  | Tool name args k =>
      let ans := w_tool w n name args in let '(t, a) := brain_run w (S n) (k ans) in (Called name args ans :: t, a)
  end.

Lemma brain_run_bind {A B} w n (p : Brain A) (f : A -> Brain B) :
  brain_run w n (p ≫= f) =
  let '(t, a) := brain_run w n p in let '(t', b) := brain_run w (n + length t) (f a) in (t ++ t', b).
Proof.
  revert n. induction p as [a|r k IH|name args k IH]; intros n.
  - cbn [brain_run]. rewrite Nat.add_0_r. change (Done a ≫= f) with (f a). by destruct (brain_run w n (f a)).
  - change (brain_run w n (Post r k ≫= f)) with
      (let ans := w_post w n r in let '(t, a) := brain_run w (S n) (k ans ≫= f) in (Posted r ans :: t, a)).
    cbn [brain_run]. cbv zeta. rewrite IH. destruct (brain_run w (S n) (k _)) as [t a]. cbn [length].
    rewrite <- Nat.add_succ_comm. by destruct (brain_run w _ (f a)).
  - change (brain_run w n (Tool name args k ≫= f)) with
      (let ans := w_tool w n name args in let '(t, a) := brain_run w (S n) (k ans ≫= f) in (Called name args ans :: t, a)).
    cbn [brain_run]. cbv zeta. rewrite IH. destruct (brain_run w (S n) (k _)) as [t a]. cbn [length].
    rewrite <- Nat.add_succ_comm. by destruct (brain_run w _ (f a)).
Qed.
End program.

Section brain.
Context {J : JsonLib} {S : SerdeLib} {F : JsonFloat J} {P : PrettyJson J} {D : DebugLib}.

Inductive BrainError : Type :=
| HttpFailed
| ApiStatus (status : Z) (body : string)
| NotJson
| UnexpectedStop (reason : option string) (text : string)
| UnexpectedStatus (status : Value) (detail : string)
| UnexpectedFinish (reason : string) (text : option string)
| ToolFailed (e : string).

Definition Outcome : Type := result BrainError string.

(** [v["k"]] and [v[i]] *)
Definition at_key (k : string) (v : Value) : Value := default JNull (value_get k v).
Definition at_index (i : nat) (v : Value) : Value := match v with JArray l => default JNull (l !! i) | _ => JNull end.
Definition is_str (s : string) (v : Value) : bool := bool_decide (as_str v = Some s).
Definition str_or (d : string) (o : option Value) : string := default d (o ≫= as_str).

(** ** Tools *)

(** What rmcp returns for a call, a content block as [to_value] gives it. *)
Record CallToolResult := {
  ct_is_error : option bool;
  ct_structured : option Value;
  ct_content : list (option Value)
}.

Definition text_of (content : list (option Value)) : string :=
  String.concat "" (omap (fun block => v ← block; value_get "text" v ≫= as_str) content).

Definition tool_payload (r : CallToolResult) : Value :=
  if default false (ct_is_error r) then json_obj [("error", JString (text_of (ct_content r)))]
  else
    match ct_structured r with
    | Some structured => structured
    | None => let text := text_of (ct_content r) in default (JString text) (json_from_str text)
    end.

(** [call] of a running rmcp service, whose own call is [call_tool]. *)
Definition rmcp_call (call_tool : string -> Map -> result string CallToolResult) (name : string) (args : Value)
    : result string Value :=
  match as_object args with
  | None => Err (decode_error "map" args)
  | Some arguments => r ← call_tool name arguments; Ok (tool_payload r)
  end.

(** ** Fixed answers *)
Definition event_row (data : Value) : Value :=
  default JNull (match value_get "after" data with Some v => Some v | None => value_get "before" data end).

Definition int_or (d : Z) (o : option Value) : Z := default d (o ≫= as_i64).
Definition f64_or (d : F64) (o : option Value) : F64 := default d (o ≫= as_f64).
Definition array_or_empty (o : option Value) : list Value := default [] (o ≫= as_array).

Definition policy_stuck (event : EventOccurrence) : string :=
  let data := eo_data event in
  let change := str_or "?" (value_get "changeType" data) in
  let row := event_row data in
  let id := i64_to_string (int_or (-1) (value_get "id" row)) in
  let customer := str_or "?" (value_get "customer" row) in
  if bool_decide (change = "added") then
    "Order " +:+ id +:+ " (" +:+ customer +:+ ") has been sitting in 'open' past the threshold — " +:+
    "notifying fulfillment to pick it up."
  else if bool_decide (change = "deleted") then "Order " +:+ id +:+ " (" +:+ customer +:+ ") is unstuck; no action needed."
  else "Order " +:+ id +:+ " (" +:+ customer +:+ ") changed while stuck; keeping watch.".

Definition triage_incident_policy (event : EventOccurrence) : string :=
  let data := eo_data event in
  let priority := str_or "?" (value_get "priority" data) in
  let service := str_or "unknown-service" (value_get "service" data) in
  let title := str_or "(untitled)" (value_get "title" data) in
  if bool_decide (priority = "P1") then "ESCALATING — paging on-call for " +:+ service +:+ ": " +:+ title +:+ " (P1)."
  else if bool_decide (priority = "P2") then
    "Notifying the on-call channel about " +:+ service +:+ ": " +:+ title +:+ " (P2)."
  else "Logged " +:+ service +:+ ": " +:+ title +:+ " (" +:+ priority +:+ ") for review in the morning triage.".

(** ** The order policy *)

(** [mcp.call(..).await?] *)
Definition tool_try (name : string) (args : Value) (k : Value -> Brain Outcome) : Brain Outcome :=
  Tool name args (fun r => match r with Ok v => k v | Err e => Done (Err (ToolFailed e)) end).

Definition three : F64 := f64_of_Z 3.

(** The totals of the customer's other orders. *)
Definition other_totals (order_id : Z) (orders : list Value) : list F64 :=
  omap (fun o => value_get "total" o ≫= as_f64)
    (filter (fun o => (value_get "id" o ≫= as_i64) <> Some order_id) orders).

Definition peak_of (others : list F64) : F64 := foldl f64_max f64_MIN others.

(** The anomaly of an order, if it has one. *)
Definition anomaly (data : Value) (change customer : string) (total : F64) (others : list F64) : option string :=
  if bool_decide (change = "updated") then
    let before := f64_or total (value_get "before" data ≫= value_get "total") in
    if f64_lt f64_zero before && f64_le (f64_mul three before) total then
      Some ("total jumped " +:+ fmt_fixed 1 (f64_div total before) +:+ "× in one update ($" +:+ fmt_fixed 0 before +:+
            " → $" +:+ fmt_fixed 0 total +:+ ")")
    else None
  else
    match others with
    | [] => Some ("first-ever order for " +:+ customer +:+ " at $" +:+ fmt_fixed 0 total)
    | _ =>
        let peak := peak_of others in
        if f64_le (f64_mul three peak) total then
          Some ("$" +:+ fmt_fixed 0 total +:+ " is ≥3× " +:+ customer +:+ "'s previous peak ($" +:+ fmt_fixed 0 peak +:+ ")")
        else None
    end.

Definition has_flag (order_id : Z) (prior_flags : list Value) : bool :=
  existsb (fun f => bool_decide ((value_get "orderId" f ≫= as_i64) = Some order_id)) prior_flags.

Definition policy_brain (event : EventOccurrence) : Brain Outcome :=
  let data := eo_data event in
  let change := str_or "?" (value_get "changeType" data) in
  let row := event_row data in
  let order_id := int_or (-1) (value_get "id" row) in
  let id := i64_to_string order_id in
  let customer := str_or "?" (value_get "customer" row) in
  if bool_decide (change = "deleted") then
    Done (Ok ("Order " +:+ id +:+ " (" +:+ customer +:+ ") left the high-value set; no action needed."))
  else
    tool_try "get_order" (json_obj [("order_id", json_int order_id)]) (fun order =>
    if is_null order || bool_decide (is_Some (value_get "error" order)) then
      Done (Ok ("Order " +:+ id +:+ " no longer exists; nothing to review."))
    else
      tool_try "get_customer_history" (json_obj [("customer", JString customer)]) (fun history =>
      let total := f64_or f64_zero (value_get "total" order) in
      let orders := array_or_empty (value_get "orders" history) in
      let prior_flags := array_or_empty (value_get "priorFlags" history) in
      if has_flag order_id prior_flags then
        Done (Ok ("Order " +:+ id +:+ " is already flagged; not flagging again."))
      else
        match anomaly data change customer total (other_totals order_id orders) with
        | None =>
            Done (Ok ("Order " +:+ id +:+ " (" +:+ customer +:+ ", $" +:+ fmt_fixed 0 total +:+
                      ") looks routine for this customer; no action taken."))
        | Some why =>
            let reasons :=
              why :: match prior_flags with
                     | [] => []
                     | _ => ["customer has " +:+ u64_to_string (Z.of_nat (length prior_flags)) +:+ " prior flag(s)"]
                     end in
            let reason := str_join "; " reasons in
            tool_try "flag_order" (json_obj [("order_id", json_int order_id); ("reason", JString reason)]) (fun flag =>
            Done (Ok ("Flagged order " +:+ id +:+ " for review (flag #" +:+
                      i64_to_string (int_or (-1) (value_get "flagId" flag)) +:+ "): " +:+ reason +:+ ".")))
        end)).

(** ** Talking to a model *)

(** A POST and the JSON of its successful answer. *)
Definition ask {A} (r : LlmRequest) (k : Value -> Brain (result BrainError A)) : Brain (result BrainError A) :=
  Post r (fun ans =>
    match ans with
    | None => Done (Err HttpFailed)
    | Some (status, body) =>
        if negb (is_success status) then Done (Err (ApiStatus status body))
        else match json_from_str body with None => Done (Err NotJson) | Some response => k response end
    end).

Definition bearer_headers (cfg : LlmConfig) : list (string * string) :=
  [("api-key", lc_api_key cfg); ("authorization", "Bearer " +:+ lc_api_key cfg)].

Definition anthropic_headers (cfg : LlmConfig) : list (string * string) :=
  [("x-api-key", lc_api_key cfg); ("api-key", lc_api_key cfg); ("anthropic-version", ANTHROPIC_VERSION)].

Definition chat_headers (cfg : LlmConfig) : list (string * string) :=
  [("x-api-key", lc_api_key cfg); ("api-key", lc_api_key cfg); ("authorization", "Bearer " +:+ lc_api_key cfg);
   ("anthropic-version", ANTHROPIC_VERSION)].

Definition user_message (content : Value) : Value := json_obj [("role", JString "user"); ("content", content)].
Definition system_message (content : string) : Value := json_obj [("role", JString "system"); ("content", JString content)].

(** The text of the blocks of a type. *)
Definition block_text (type : string) (blocks : list Value) : string :=
  String.concat "" (omap (fun b => if is_str type (at_key "type" b) then Some (default "" (as_str (at_key "text" b))) else None) blocks).

Definition array_of (v : Value) : list Value := default [] (as_array v).

Definition responses_output_text (v : Value) : string :=
  block_text "output_text"
    (filter (fun item => is_str "message" (at_key "type" item)) (array_of (at_key "output" v)) ≫=
     (fun item => array_of (at_key "content" item))).

Definition chat_body (cfg : LlmConfig) (system user : string) : Value :=
  match lc_provider cfg with
  | OpenAiResponses =>
      json_obj [("model", JString (lc_model cfg)); ("instructions", JString system); ("input", JString user)]
  | Anthropic =>
      json_obj [("model", JString (lc_model cfg)); ("max_tokens", json_int 2048); ("system", JString system);
                ("messages", JArray [user_message (JString user)])]
  | OpenAi =>
      json_obj [("model", JString (lc_model cfg)); ("messages", JArray [system_message system; user_message (JString user)])]
  end.

Definition chat_extract (provider : Provider) (v : Value) : string :=
  match provider with
  | OpenAiResponses => responses_output_text v
  | Anthropic => block_text "text" (array_of (at_key "content" v))
  | OpenAi => default "" (as_str (at_key "content" (at_key "message" (at_index 0 (at_key "choices" v)))))
  end.

Definition chat_once (cfg : LlmConfig) (system user : string) : Brain Outcome :=
  ask {| lq_url := lc_chat_url cfg; lq_headers := chat_headers cfg; lq_body := chat_body cfg system user |}
    (fun response => Done (Ok (chat_extract (lc_provider cfg) response))).

Definition triage_incident_llm (event : EventOccurrence) (cfg : LlmConfig) (task : option string) : Brain Outcome :=
  chat_once cfg (contextual_prompt INCIDENT_PROMPT task)
    ("Incident event:" +:+ String "010" (to_string_pretty (enc_EventOccurrence event))).

Definition change_prompt (event : EventOccurrence) : string :=
  "A watched-query change event just arrived:" +:+ String "010" (to_string_pretty (enc_EventOccurrence event)).

Definition payload_or_error (r : result string Value) : Value :=
  match r with Ok v => v | Err e => json_obj [("error", JString e)] end.

Definition out_of_turns : string := "(stopped: exceeded max tool-use turns)".

(** *** Anthropic messages *)
Definition anthropic_request (cfg : LlmConfig) (task : option string) (tool_defs messages : list Value) : LlmRequest :=
  {| lq_url := lc_chat_url cfg; lq_headers := anthropic_headers cfg;
     lq_body := json_obj [("model", JString (lc_model cfg)); ("max_tokens", json_int 8192);
       ("system", JString (contextual_prompt SYSTEM_PROMPT task)); ("tools", JArray tool_defs); ("messages", JArray messages)] |}.

Definition anthropic_tool (block : Value) : Brain Value :=
  Tool (default "" (as_str (at_key "name" block))) (at_key "input" block) (fun r =>
    Done (json_obj [("type", JString "tool_result"); ("tool_use_id", at_key "id" block);
                    ("content", JString (value_to_string (payload_or_error r)))])).

Fixpoint anthropic_turns (cfg : LlmConfig) (task : option string) (tool_defs : list Value) (n : nat) (messages : list Value)
    : Brain Outcome :=
  match n with
  | O => Done (Ok out_of_turns)
  | Datatypes.S n =>
      ask (anthropic_request cfg task tool_defs messages) (fun response =>
      let content := array_of (at_key "content" response) in
      let text := block_text "text" content in
      let stop := as_str (at_key "stop_reason" response) in
      if bool_decide (stop = Some "tool_use") then
        results ← brain_map anthropic_tool (filter (fun block => is_str "tool_use" (at_key "type" block)) content);
        anthropic_turns cfg task tool_defs n
          (messages ++ [json_obj [("role", JString "assistant"); ("content", JArray content)]; user_message (JArray results)])
      else if bool_decide (stop = Some "end_turn") || bool_decide (stop = Some "stop_sequence") then Done (Ok text)
      else Done (Err (UnexpectedStop stop text)))
  end.

Definition anthropic_brain (event : EventOccurrence) (cfg : LlmConfig) (task : option string) (tool_defs : list Value)
    : Brain Outcome :=
  anthropic_turns cfg task tool_defs MAX_BRAIN_TURNS [user_message (JString (change_prompt event))].

(** *** OpenAI responses *)
Definition responses_tool_defs (tool_defs : list Value) : list Value :=
  (fun d => json_obj [("type", JString "function"); ("name", at_key "name" d); ("description", at_key "description" d);
                      ("parameters", at_key "input_schema" d)]) <$> tool_defs.

Definition responses_request (cfg : LlmConfig) (task : option string) (tools : list Value) (input : Value)
    (previous_id : option string) : LlmRequest :=
  {| lq_url := lc_chat_url cfg; lq_headers := bearer_headers cfg;
     lq_body := json_obj ([("model", JString (lc_model cfg));
       ("instructions", JString (contextual_prompt SYSTEM_PROMPT task)); ("input", input); ("tools", JArray tools)] ++
       match previous_id with Some id => [("previous_response_id", JString id)] | None => [] end) |}.

Definition responses_tool (call : Value) : Brain Value :=
  Tool (default "" (as_str (at_key "name" call)))
    (default (json_obj []) (as_str (at_key "arguments" call) ≫= json_from_str)) (fun r =>
    Done (json_obj [("type", JString "function_call_output"); ("call_id", at_key "call_id" call);
                    ("output", JString (value_to_string (payload_or_error r)))])).

Fixpoint responses_turns (cfg : LlmConfig) (task : option string) (tools : list Value) (n : nat) (input : Value)
    (previous_id : option string) : Brain Outcome :=
  match n with
  | O => Done (Ok out_of_turns)
  | Datatypes.S n =>
      ask (responses_request cfg task tools input previous_id) (fun response =>
      if negb (is_str "completed" (at_key "status" response)) then
        Done (Err (UnexpectedStatus (at_key "status" response)
          (default "no detail" (as_str (at_key "reason" (at_key "incomplete_details" response))))))
      else
        let calls := filter (fun item => is_str "function_call" (at_key "type" item)) (array_of (at_key "output" response)) in
        match calls with
        | [] => Done (Ok (responses_output_text response))
        | _ =>
            outputs ← brain_map responses_tool calls;
            responses_turns cfg task tools n (JArray outputs) (as_str (at_key "id" response))
        end)
  end.

Definition responses_brain (event : EventOccurrence) (cfg : LlmConfig) (task : option string) (tool_defs : list Value)
    : Brain Outcome :=
  responses_turns cfg task (responses_tool_defs tool_defs) MAX_BRAIN_TURNS (JString (change_prompt event)) None.

(** *** OpenAI chat completions *)
Definition openai_tool_defs (tool_defs : list Value) : list Value :=
  (fun d => json_obj [("type", JString "function");
     ("function", json_obj [("name", at_key "name" d); ("description", at_key "description" d);
                            ("parameters", at_key "input_schema" d)])]) <$> tool_defs.

Definition openai_request (cfg : LlmConfig) (tools messages : list Value) : LlmRequest :=
  {| lq_url := lc_chat_url cfg; lq_headers := bearer_headers cfg;
     lq_body := json_obj [("model", JString (lc_model cfg)); ("messages", JArray messages); ("tools", JArray tools)] |}.

(** The arguments of a call, or the text of the error. *)
Definition openai_args (raw : string) : result string Value :=
  if bool_decide (trim raw = "") then Ok (json_obj [])
  else ok_or ("unparseable tool arguments " +:+ debug_str raw +:+ ": " +:+ json_error raw) (json_from_str raw).

Definition tool_message (call payload : Value) : Value :=
  json_obj [("role", JString "tool"); ("tool_call_id", at_key "id" call); ("content", JString (value_to_string payload))].

Definition openai_tool (call : Value) : Brain Value :=
  let name := default "" (as_str (at_key "name" (at_key "function" call))) in
  let raw := default "" (as_str (at_key "arguments" (at_key "function" call))) in
  match openai_args raw with
  | Ok args => Tool name args (fun r => Done (tool_message call (payload_or_error r)))
  | Err msg => Done (tool_message call (json_obj [("error", JString msg)]))
  end.

Fixpoint openai_turns (cfg : LlmConfig) (tools : list Value) (n : nat) (messages : list Value) : Brain Outcome :=
  match n with
  | O => Done (Ok out_of_turns)
  | Datatypes.S n =>
      ask (openai_request cfg tools messages) (fun response =>
      let choice := at_index 0 (at_key "choices" response) in
      let message := at_key "message" choice in
      let finish := default "" (as_str (at_key "finish_reason" choice)) in
      match array_of (at_key "tool_calls" message) with
      | [] =>
          let text := default "" (as_str (at_key "content" message)) in
          if bool_decide (finish = "stop") then Done (Ok text) else Done (Err (UnexpectedFinish finish (Some text)))
      | tool_calls =>
          if negb (bool_decide (finish = "tool_calls")) && negb (bool_decide (finish = "stop")) then
            Done (Err (UnexpectedFinish finish None))
          else
            results ← brain_map openai_tool tool_calls;
            openai_turns cfg tools n (messages ++ message :: results)
      end)
  end.

Definition openai_brain (event : EventOccurrence) (cfg : LlmConfig) (task : option string) (tool_defs : list Value)
    : Brain Outcome :=
  openai_turns cfg (openai_tool_defs tool_defs) MAX_BRAIN_TURNS
    [system_message (contextual_prompt SYSTEM_PROMPT task); user_message (JString (change_prompt event))].

(** ** An event *)
Definition handle_event (event : EventOccurrence) (mode : string) (llm : option LlmConfig) (task : option string)
    (tool_defs : list Value) : Brain Outcome :=
  let cfg := if bool_decide (mode = "llm") then llm else None in
  match value_get "changeType" (eo_data event) with
  | None =>
      match cfg with
      | Some cfg => triage_incident_llm event cfg task
      | None => Done (Ok (triage_incident_policy event))
      end
  | Some _ =>
      match cfg with
      | Some cfg =>
          match lc_provider cfg with
          | Anthropic => anthropic_brain event cfg task tool_defs
          | OpenAi => openai_brain event cfg task tool_defs
          | OpenAiResponses => responses_brain event cfg task tool_defs
          end
      | None =>
          if starts_with "stuck-orders" (eo_name event) then Done (Ok (policy_stuck event)) else policy_brain event
      end
  end.
End brain.
