(* ===== verification/AgentChoice.v ===== *)
(** * What the agent subscribes to (crates/mcp-events-agent/src/main.rs).

    A task and the server's catalog give a stream and its arguments: the
    model chooses, and its choice is checked against the catalog, or keywords
    decide.  [None] of [policy_choose] is its panic on an empty catalog. *)
From S2P Require Import Prelude RustStd Json Wire State Dispatch Text F64 Client AgentConfig AgentBrain.

Section choice.
Context {J : JsonLib} {S : SerdeLib} {F : JsonFloat J} {P : PrettyJson J} {D : DebugLib} {U : Unicode}.

Record Chosen := {
  ch_name : string;
  ch_arguments : option Value;
  ch_rationale : string
}.

Inductive ChoiceError : Type :=
| ChatFailed (e : BrainError)
| NoJsonObject (reply : string)
| MissingEventName (parsed : Value)
| NotInCatalog (name : string)
| BadArguments (v : Value)
| NoInputSchema (name : string)
| UnknownArgument (key : string)
| NotAllowed (key : string) (v : Value).

(** ** The first JSON object of a text *)

(** The text from the first opening brace on. *)
Fixpoint from_brace (s : string) : option string :=
  match s with
  | EmptyString => None
  | String c s' => if bool_decide (c = "{"%char) then Some s else from_brace s'
  end.

(** Where the brace that is open at depth 0 is closed. *)
Fixpoint object_end (depth : Z) (i : nat) (s : string) : option nat :=
  match s with
  | EmptyString => None
  | String c s' =>
      if bool_decide (c = "{"%char) then object_end (depth + 1) (Datatypes.S i) s'
      else if bool_decide (c = "}"%char) then
        if depth - 1 =? 0 then Some (Datatypes.S i) else object_end (depth - 1) (Datatypes.S i) s'
      else object_end depth (Datatypes.S i) s'
  end.

Definition first_json_object (text : string) : option Value :=
  s ← from_brace text;
  n ← object_end 0 0 s;
  json_from_str (String.substring 0 n s).

(** ** Checking a model's arguments *)
Definition enum_of (prop : Value) : option (list Value) := value_get "enum" prop ≫= as_array.

Definition props_of (def : EventDefinition) : option Map :=
  (ed_input_schema def ≫= value_get "properties") ≫= as_object.

Definition check_value (key : string) (prop v : Value) : result ChoiceError Value :=
  match enum_of prop with
  | Some allowed =>
      if bool_decide (v ∈ allowed) then Ok v
      else
        ok_or (NotAllowed key v)
          (s ← as_str v;
           find (fun a => match as_str a with Some c => eq_ignore_ascii_case c s | None => false end) allowed)
  | None => Ok v
  end.

Fixpoint check_args (props : Map) (args : list (string * Value)) (checked : Map) : result ChoiceError Map :=
  match args with
  | [] => Ok checked
  | (k, v) :: args' =>
      prop ← ok_or (UnknownArgument k) (map_get k props);
      value ← check_value k prop v;
      check_args props args' (map_insert k value checked)
  end.

Definition validate_choice_args (def : EventDefinition) (arguments : option Value) : result ChoiceError (option Value) :=
  match arguments with
  | None => Ok None
  | Some (JObject args) =>
      props ← ok_or (NoInputSchema (ed_name def)) (props_of def);
      checked ← check_args props args [];
      Ok (Some (JObject checked))
  | Some other => Err (BadArguments other)
  end.

(** ** The model's choice *)
Definition choice_prompt (task : string) (catalog : list EventDefinition) : string :=
  "TASK:" +:+ String "010" task +:+ String "010" (String "010" "EVENT CATALOG (events/list):") +:+
  String "010" (to_string_pretty (JArray (enc_EventDefinition <$> catalog))).

(** The arguments of a reply. *)
Definition reply_arguments (parsed : Value) : result ChoiceError (option Value) :=
  match at_key "arguments" parsed with
  | JNull => Ok None
  | JObject map => Ok (match map with [] => None | _ => Some (JObject map) end)
  | other => Err (BadArguments other)
  end.

Definition read_choice (catalog : list EventDefinition) (reply : string) : result ChoiceError Chosen :=
  parsed ← ok_or (NoJsonObject reply) (first_json_object reply);
  name ← ok_or (MissingEventName parsed) (as_str (at_key "eventName" parsed));
  def ← ok_or (NotInCatalog name) (find (fun d => bool_decide (ed_name d = name)) catalog);
  arguments ← reply_arguments parsed;
  arguments ← validate_choice_args def arguments;
  Ok {| ch_name := name; ch_arguments := arguments;
        ch_rationale := default "(none given)" (as_str (at_key "rationale" parsed)) |}.

Definition llm_choose (cfg : LlmConfig) (task : string) (catalog : list EventDefinition)
    : Brain (result ChoiceError Chosen) :=
  reply ← chat_once cfg CHOOSER_PROMPT (choice_prompt task catalog);
  Done (reply ← map_err ChatFailed reply; read_choice catalog reply).

(** ** The choice by keywords *)
Definition words (s : string) : list string :=
  base.filter (fun w => (2 < String.length w)%nat) (str_split (fun c => negb (is_alphanumeric c)) (to_lowercase s)).

Definition overlap (task_words : list string) (d : EventDefinition) : nat :=
  let hay := words (ed_name d +:+ " " +:+ default "" (ed_description d)) in
  length (base.filter (fun w => w ∈ hay) task_words).

(** [max_by_key]: the last of the greatest. *)
Definition max_by_key {A} (f : A -> nat) (l : list A) : option A :=
  foldl (fun best x => match best with Some b => if (f x <? f b)%nat then Some b else Some x | None => Some x end) None l.

(** The first option of an enum that the task names. *)
Definition named_option (task_tokens : list string) (options : list Value) : option Value :=
  find (fun v => match as_str v with Some s => bool_decide (to_uppercase s ∈ task_tokens) | None => false end) options.

Definition pick_argument (task_tokens : list string) (arguments : Map) (kp : string * Value) : Map :=
  match enum_of kp.2 ≫= named_option task_tokens with
  | Some hit => map_insert kp.1 hit arguments
  | None => arguments
  end.

Definition policy_choose (task : string) (catalog : list EventDefinition) : option Chosen :=
  let task_words := words task in
  best ← max_by_key (overlap task_words) catalog;
  let score := overlap task_words best in
  let arguments :=
    match props_of best with
    | Some props =>
        let task_tokens := to_uppercase <$> str_split (fun c => negb (is_alphanumeric c)) task in
        foldl (pick_argument task_tokens) [] props
    | None => []
    end in
  Some {| ch_name := ed_name best;
          ch_arguments := match arguments with [] => None | _ => Some (JObject arguments) end;
          ch_rationale := "keyword match (" +:+ u64_to_string (Z.of_nat score) +:+ " overlapping term" +:+
            (if bool_decide (score = 1%nat) then "" else "s") +:+ ") between the task and this stream's description" |}.

(** ** The choice *)
Inductive ChooseError : Type := EmptyCatalog | BadParamsArg.

Definition choose (mode : string) (llm : option LlmConfig) (task event params : option string)
    (catalog : list EventDefinition) : Brain (result ChooseError Chosen) :=
  match task with
  | Some task =>
      match (if bool_decide (mode = "llm") then llm else None) with
      | Some cfg =>
          choice ← llm_choose cfg task catalog;
          Done (match choice with Ok c => Ok c | Err _ => ok_or EmptyCatalog (policy_choose task catalog) end)
      | None => Done (ok_or EmptyCatalog (policy_choose task catalog))
      end
  | None =>
      Done (arguments ← match params with
                        | None => Ok None
                        | Some p => v ← ok_or BadParamsArg (json_from_str p); Ok (Some v)
                        end;
            Ok {| ch_name := default "high-value-orders.changed" event; ch_arguments := arguments; ch_rationale := "" |})
  end.
End choice.
