(* ===== verification/Agent.v ===== *)
(** * The agent (crates/mcp-events-agent/src/main.rs): its main loop.

    A run is given what the outside answers: the tools of the server, each
    connection with what its stream yields, the world each event is handled
    in, and how each save ends.  It returns the final state and what was done
    with each event, in order, with the waits.  The argument parser, the log
    and the background ticker of the demonstration are not modelled. *)
From S2P Require Import Prelude RustStd Lib Json Wire State Dispatch Text F64 JsonText Base SseText ClientSse Client ClientState.
From S2P Require Import Harness AgentConfig AgentBrain AgentChoice.

Section agent.
Context {J : JsonLib} {S : SerdeLib} {F : JsonFloat J} {P : PrettyJson J} {D : DebugLib} {U : Unicode}.

Definition IDLE_TIMEOUT : Z := seconds 60.

Record AgentArgs := {
  ga_name : string;
  ga_params : option Value;
  ga_state_file : string;
  ga_mode : string;
  ga_llm : option LlmConfig;
  ga_task : option string;
  ga_tool_defs : list Value
}.

(** [gn_failures]: the event that is failing, and how often it has. *)
Record AgentRun := {
  gn_client : EventsClient;
  gn_fs : FileSystem;
  gn_cursor : option string;
  gn_backoff : Z;
  gn_failures : option (string * Z)
}.

(** What is done with an event, and a wait. *)
Inductive AgentAct : Type :=
| Verdict (event_id : string) (text : string)
| WillRetry (event_id : string) (attempts : Z) (e : BrainError)
| GaveUp (event_id : string) (attempts : Z) (e : BrainError)
| Nap (d : Z).

(** A failed save only logs. *)
Definition persist_cursor (fs : FileSystem) (path : string) (cursor new : option string) (sv : Save)
    : FileSystem * option string :=
  match new with
  | Some c => ((save_state fs path {| cs_cursor := Some c |} (sv_written sv) (sv_renamed sv)).1, Some c)
  | None => (fs, cursor)
  end.

Definition persisted (a : AgentArgs) (r : AgentRun) (new : option string) (sv : Save) (failures : option (string * Z)) : AgentRun :=
  let '(fs, cursor) := persist_cursor (gn_fs r) (ga_state_file a) (gn_cursor r) new sv in
  {| gn_client := gn_client r; gn_fs := fs; gn_cursor := cursor; gn_backoff := gn_backoff r; gn_failures := failures |}.

Inductive Next : Type := Continue | Break | Return.

(** How often the event has failed now. *)
Definition attempts_of (failures : option (string * Z)) (event_id : string) : Z :=
  match failures with
  | Some (id, n) => if bool_decide (id = event_id) then n + 1 else 1
  | None => 1
  end.

Definition agent_event (a : AgentArgs) (r : AgentRun) (event : EventOccurrence) (outcome : Outcome) (sv : Save)
    : AgentRun * list AgentAct * Next :=
  let new_cursor := mjoin (eo_cursor event) in
  let id := eo_event_id event in
  match outcome with
  | Ok verdict => (persisted a r new_cursor sv None, [Verdict id verdict], Continue)
  | Err error =>
      let attempts := attempts_of (gn_failures r) id in
      if MAX_EVENT_ATTEMPTS <=? attempts then (persisted a r new_cursor sv None, [GaveUp id attempts error], Continue)
      else
        ({| gn_client := gn_client r; gn_fs := gn_fs r; gn_cursor := gn_cursor r; gn_backoff := gn_backoff r;
            gn_failures := Some (id, attempts) |}, [WillRetry id attempts error], Break)
  end.

Definition reset_backoff (r : AgentRun) : AgentRun :=
  {| gn_client := gn_client r; gn_fs := gn_fs r; gn_cursor := gn_cursor r; gn_backoff := seconds 1; gn_failures := gn_failures r |}.

Definition agent_frame (a : AgentArgs) (r : AgentRun) (f : StreamFrame) (w : World) (sv : Save)
    : AgentRun * list AgentAct * Next :=
  match f with
  | SfActive active => (persisted a (reset_backoff r) (ea_cursor active) sv (gn_failures r), [], Continue)
  | SfEvent event =>
      agent_event a r event (brain_run w 0 (handle_event event (ga_mode a) (ga_llm a) (ga_task a) (ga_tool_defs a))).2 sv
  | SfHeartbeat hb => (persisted a r (eh_cursor hb) sv (gn_failures r), [], Continue)
  | SfTerminated _ => (r, [], Return)
  | SfError _ => (r, [], Continue)
  | SfResult => (r, [], Break)
  end.

(** One connection: what its stream yields, after how many items it goes
    silent for [IDLE_TIMEOUT] (if it does), and the world and the save of the
    [i]-th item.  It returns whether the agent ends. *)
Fixpoint agent_items (a : AgentArgs) (r : AgentRun) (items : list (result ClientError StreamFrame)) (idle : option nat)
    (worlds : nat -> World) (saves : nat -> Save) (i : nat) : AgentRun * list AgentAct * bool :=
  match idle, items with
  | Some O, _ => (r, [], false)
  | _, [] => (r, [], false)
  | _, Err _ :: _ => (r, [], false)
  | _, Ok f :: items' =>
      let '(r, out, next) := agent_frame a r f (worlds i) (saves i) in
      match next with
      | Continue =>
          let '(r, out', ended) := agent_items a r items' (pred <$> idle) worlds saves (Datatypes.S i) in (r, out ++ out', ended)
      | Break => (r, out, false)
      | Return => (r, out, true)
      end
  end.

Record AgentConnection := {
  gc_exchange : PostRequest -> option (PostResponse * list (option string));
  gc_idle : option nat;
  gc_worlds : nat -> World;
  gc_saves : nat -> Save
}.

Definition agent_request (a : AgentArgs) (cursor : option string) : StreamEventsParams :=
  {| sp_name := ga_name a; sp_params := ga_params a; sp_cursor := cursor; sp_max_age_ms := None |}.

Inductive AgentError : Type :=
| EnvPanic
| NoCredentials
| DiscoverFailed (e : ClientError)
| ToolsFailed
| ListFailed (e : ClientError)
| NotChosen (e : ChooseError)
| StateUnreadable (e : StateError)
| Rejected (e : ClientError).

(** The server refuses the parameters for good. *)
Definition is_invalid_params (e : ClientError) : bool :=
  match e with Rpc e => re_code e =? -32602 | _ => false end.

Definition wait (r : AgentRun) : AgentRun * AgentAct :=
  ({| gn_client := gn_client r; gn_fs := gn_fs r; gn_cursor := gn_cursor r;
      gn_backoff := Z.min (gn_backoff r * 2) (seconds 30); gn_failures := gn_failures r |}, Nap (gn_backoff r)).

Definition agent_turn (a : AgentArgs) (r : AgentRun) (cn : AgentConnection)
    : AgentRun * list AgentAct * option (result AgentError ()) :=
  let '(client, opened) := client_stream (gc_exchange cn) (gn_client r) (agent_request a (gn_cursor r)) in
  let r := {| gn_client := client; gn_fs := gn_fs r; gn_cursor := gn_cursor r; gn_backoff := gn_backoff r;
              gn_failures := gn_failures r |} in
  match opened with
  | Err e =>
      if is_invalid_params e then (r, [], Some (Err (Rejected e)))
      else let '(r, nap) := wait r in (r, [nap], None)
  | Ok items =>
      let '(r, out, ended) := agent_items a r items (gc_idle cn) (gc_worlds cn) (gc_saves cn) 0 in
      if ended then (r, out, Some (Ok ())) else let '(r, nap) := wait r in (r, out ++ [nap], None)
  end.

Fixpoint agent_loop (a : AgentArgs) (r : AgentRun) (l : list AgentConnection)
    : AgentRun * list AgentAct * option (result AgentError ()) :=
  match l with
  | [] => (r, [], None)
  | cn :: l' =>
      let '(r, out, ended) := agent_turn a r cn in
      match ended with
      | Some e => (r, out, Some e)
      | None => let '(r, out', ended) := agent_loop a r l' in (r, out ++ out', ended)
      end
  end.

(** ** The whole program *)

(** A tool as rmcp lists it. *)
Record Tool_ := { tl_name : string; tl_description : option string; tl_input_schema : Map }.

Definition tool_def (t : Tool_) : Value :=
  json_obj [("name", JString (tl_name t)); ("description", JString (default "" (tl_description t)));
            ("input_schema", JObject (tl_input_schema t))].

Record Cli := {
  cli_server : string;
  cli_task : option string;
  cli_event : option string;
  cli_params : option string;
  cli_mode : string;
  cli_model : string;
  cli_state_file : option string
}.

Definition agent_start (client : EventsClient) (fs : FileSystem) (st : option CursorState) : AgentRun :=
  {| gn_client := client; gn_fs := fs; gn_cursor := st ≫= cs_cursor; gn_backoff := seconds 1; gn_failures := None |}.

Definition agent_main (cli : Cli) (env_file : option string) (env : Env) (http : result string ()) (first second : PostRequest -> option PostResponse)
    (tools : option (list Tool_)) (chooser : World) (fs : FileSystem) (readable : bool) (l : list AgentConnection)
    : FileSystem * list AgentAct * option (result AgentError ()) :=
  match load_env_file env_file env with
  | None => (fs, [], Some (Err EnvPanic))
  | Some (env, _) =>
  let llm := from_env env (cli_model cli) in
  match choose_mode (cli_mode cli) llm with
  | None => (fs, [], Some (Err NoCredentials))
  | Some mode =>
  let '(client, discovered) := discover first (client_new (cli_server cli) http) in
  match discovered, tools with
  | Err e, _ => (fs, [], Some (Err (DiscoverFailed e)))
  | _, None => (fs, [], Some (Err ToolsFailed))
  | Ok _, Some tools =>
  let '(client, listed) := list_events second client in
  match listed with
  | Err e => (fs, [], Some (Err (ListFailed e)))
  | Ok listed =>
  match (brain_run chooser 0 (choose mode llm (cli_task cli) (cli_event cli) (cli_params cli) (lr_events listed))).2 with
  | Err e => (fs, [], Some (Err (NotChosen e)))
  | Ok chosen =>
  let state_file := default (default_state_file (ch_name chosen)) (cli_state_file cli) in
  match load_state fs state_file readable with
  | Err e => (fs, [], Some (Err (StateUnreadable e)))
  | Ok st =>
  let a := {| ga_name := ch_name chosen; ga_params := ch_arguments chosen; ga_state_file := state_file;
              ga_mode := mode; ga_llm := llm; ga_task := cli_task cli; ga_tool_defs := tool_def <$> tools |} in
  let '(r, out, ended) := agent_loop a (agent_start client fs st) l in
  (gn_fs r, out, ended)
  end end end end end end.
End agent.
