(* ===== verification/AgentExact.v ===== *)
(** * The agent against the server: every event is settled.

    The agent connects again and again with its cursor, which it moves past
    an event only when the event is settled: handled, or given up after three
    failed attempts.  This file follows it over any number of connections to
    the server's generator, with any answers from the model and the tools. *)
From S2P Require Import Prelude RustStd Lib Dedup Json Wire Codec Signing Buffer History Registry Config Mapping State Stream.
From S2P Require Import JsonText Base Utf8 SseText ClientSse Client Dispatch ClientServer ClientState Harness Resume.
From S2P Require Import Text F64 AgentConfig AgentBrain AgentChoice Agent.

(** ** What is done with events *)
Section acts.
Context {J : JsonLib} {S : SerdeLib}.

(** The events settled, in order. *)
Definition settled (out : list AgentAct) : list string :=
  omap (fun x => match x with Verdict id _ | GaveUp id _ _ => Some id | _ => None end) out.

Definition same_event (st : option (string * Z)) (id : string) : bool :=
  match st with Some (id', _) => bool_decide (id' = id) | None => true end.

Definition tries (st : option (string * Z)) : Z := match st with Some (_, n) => n | None => 0 end.

(** Attempts come in blocks, one event each: up to two failures, counted,
    then a verdict or the third failure, with which it is given up.  From
    the event that has been failing to the one that is. *)
Fixpoint attempts (st : option (string * Z)) (out : list AgentAct) : option (option (string * Z)) :=
  match out with
  | [] => Some st
  | Nap _ :: out' => attempts st out'
  | Verdict id _ :: out' => if same_event st id then attempts None out' else None
  | WillRetry id k _ :: out' =>
      if same_event st id && (k =? tries st + 1) && (k <? 3) then attempts (Some (id, k)) out' else None
  | GaveUp id k _ :: out' => if same_event st id && (tries st =? 2) && (k =? 3) then attempts None out' else None
  end.

Lemma settled_app x y : settled (x ++ y) = settled x ++ settled y.
Proof. apply omap_app. Qed.

Lemma attempts_app st st' x y : attempts st x = Some st' -> attempts st (x ++ y) = attempts st' y.
Proof.
  revert st. induction x as [|act x IH]; intros st; simpl; [by intros [= ->]|].
  destruct act; try (destruct (_ && _); [|done]); try (destruct (same_event _ _); [|done]); apply IH.
Qed.

(** A failing event has failed once or twice. *)
Definition failing_ok (st : option (string * Z)) : Prop := match st with Some (_, n) => 1 <= n <= 2 | None => True end.

(** What an event adds. *)
Lemma agent_event_spec a r ev o sv r' out next :
  failing_ok (gn_failures r) -> same_event (gn_failures r) (eo_event_id ev) = true ->
  agent_event a r ev o sv = (r', out, next) ->
  attempts (gn_failures r) out = Some (gn_failures r') /\ gn_client r' = gn_client r /\
  ((next = Continue /\ settled out = [eo_event_id ev] /\ gn_failures r' = None /\
    r' = persisted a r (mjoin (eo_cursor ev)) sv None) \/
   (next = Break /\ settled out = [] /\ (exists n, gn_failures r' = Some (eo_event_id ev, n) /\ 1 <= n <= 2) /\
    gn_cursor r' = gn_cursor r /\ gn_fs r' = gn_fs r)).
Proof.
  intros Hok Hsame. unfold agent_event.
  assert (attempts_of (gn_failures r) (eo_event_id ev) = tries (gn_failures r) + 1) as ->.
  { unfold attempts_of, tries, same_event in *. destruct (gn_failures r) as [[id n]|]; [by rewrite Hsame|done]. }
  assert (0 <= tries (gn_failures r) <= 2) as Ht by (unfold tries, failing_ok in *; destruct (gn_failures r) as [[]|]; lia).
  assert (forall c, gn_client (persisted a r c sv None) = gn_client r /\ gn_failures (persisted a r c sv None) = None) as Hp
    by (intros c; unfold persisted; by destruct (persist_cursor _ _ _ _ _)).
  destruct o as [verdict|e]; [|unfold MAX_EVENT_ATTEMPTS; destruct (3 <=? _) eqn:E; bsimp]; intros [= <- <- <-];
    cbn [attempts]; rewrite Hsame; cbn [andb].
  - destruct (Hp (mjoin (eo_cursor ev))) as [-> ->]. split_and!; [done|done|by left].
  - destruct (Hp (mjoin (eo_cursor ev))) as [-> ->]. rewrite (proj2 (Z.eqb_eq _ 2)), (proj2 (Z.eqb_eq _ 3)) by lia. split_and!; [done|done|by left].
  - rewrite Z.eqb_refl, (proj2 (Z.ltb_lt _ 3)) by lia. split_and!; [done|done|right]. split_and!; try done.
    eexists. split; [done|]. lia.
Qed.
End acts.

(** ** Connections *)
Section sessions.
Context {J : JsonLib} {C : Chrono} {S : SerdeLib} {F : JsonFloat J} {P : PrettyJson J} {D : DebugLib}.
Context {JL : JsonLaws J} {SL : SerdeLaws S}.
Context (a : AgentArgs).

Definition agent_file (r : AgentRun) : result StateError (option CursorState) := load_state (gn_fs r) (ga_state_file a) true.

Lemma persisted_spec r c sv fl :
  let r' := persisted a r c sv fl in
  gn_failures r' = fl /\ gn_cursor r' = (match c with Some _ => c | None => gn_cursor r end) /\
  (agent_file r' = agent_file r \/ c <> None /\ agent_file r' = Ok (Some {| cs_cursor := c |})).
Proof.
  cbv zeta. unfold persisted, persist_cursor, agent_file. destruct c as [c|]; [|split_and!; [done|done|by left]].
  pose proof (load_saved (gn_fs r) (ga_state_file a) {| cs_cursor := Some c |} (sv_written sv) (sv_renamed sv) true) as H.
  destruct (save_state _ _ _ _ _) as [fs res]. cbn [fst gn_fs gn_failures gn_cursor]. rewrite H.
  split_and!; [done|done|]. destruct res; [by right|by left].
Qed.

(** The first event among frames, if there is one, is that of an id. *)
Definition next_is (id : string) (fs : list Frame) : Prop :=
  forall ev evs, occurrences fs = ev :: evs -> eo_event_id ev = id.

(** A frame of the server. *)
Lemma agent_frame_spec r fr w sv r' out next :
  frame_cursor (client_frame fr) <> Some None -> failing_ok (gn_failures r) ->
  (forall id n, gn_failures r = Some (id, n) -> next_is id [fr]) ->
  agent_frame a r (client_frame fr) w sv = (r', out, next) ->
  attempts (gn_failures r) out = Some (gn_failures r') /\ failing_ok (gn_failures r') /\
  ((next <> Return /\ (next = Break -> is_final fr = true) /\
    settled out = eo_event_id <$> occurrences [fr] /\
    gn_failures r' = (match occurrences [fr] with [] => gn_failures r | _ => None end) /\
    gn_cursor r' = (match frame_cursor (client_frame fr) with Some x => x | None => gn_cursor r end) /\
    (agent_file r' = agent_file r \/
     exists x, frame_cursor (client_frame fr) = Some x /\ agent_file r' = Ok (Some {| cs_cursor := x |}))) \/
   (next = Break /\ settled out = [] /\ gn_cursor r' = gn_cursor r /\ agent_file r' = agent_file r /\
    exists ev n, fr = EventFrame ev /\ gn_failures r' = Some (eo_event_id ev, n))).
Proof.
  intros Hc Hok Hnext. destruct fr as [p|ev|p|id]; cbn [client_frame agent_frame].
  - intros [= <- <- <-]. destruct (persisted_spec (reset_backoff r) (ea_cursor p) sv (gn_failures r)) as (-> & -> & Hf).
    split; [done|]. split; [done|]. left. cbn [client_frame frame_cursor] in *. split_and!; try done.
    + by destruct (ea_cursor p).
    + destruct Hf as [Hf|[_ Hf]]; [by left|right; eauto].
  - intros H. apply agent_event_spec in H as (Hat & _ & Hcase); [|done|].
    2: { unfold same_event. destruct (gn_failures r) as [[id n]|] eqn:E; [|done]. apply bool_decide_eq_true. symmetry. by eapply (Hnext id n). }
    split; [done|]. cbn [client_frame frame_cursor] in *.
    destruct Hcase as [(-> & Hs & Hf & ->)|(-> & Hs & (n & Hf & Hn) & Hcur & Hfs)].
    + destruct (persisted_spec r (mjoin (eo_cursor ev)) sv None) as (E1 & E2 & E3). split; [by rewrite E1|]. left.
      split_and!; try done.
      * rewrite E2. by destruct (eo_cursor ev) as [[]|].
      * destruct E3 as [?|[Hne E3]]; [by left|right]. destruct (eo_cursor ev) as [[c|]|]; [|done..]. eauto.
    + split; [by rewrite Hf|]. right. split_and!; try done; [unfold agent_file; by rewrite Hfs|]. eauto.
  - intros [= <- <- <-]. destruct (persisted_spec r (eh_cursor p) sv (gn_failures r)) as (-> & -> & Hf).
    split; [done|]. split; [done|]. left. cbn [client_frame frame_cursor] in *. split_and!; try done.
    + by destruct (eh_cursor p).
    + destruct Hf as [Hf|[_ Hf]]; [by left|right; eauto].
  - intros [= <- <- <-]. split; [done|]. split; [done|]. left. split_and!; try done. by left.
Qed.

Lemma agent_items_cons r fr items idle worlds saves i :
  agent_items a r (Ok (client_frame fr) :: items) idle worlds saves i =
  if decide (idle = Some 0%nat) then (r, [], false)
  else
    let '(r1, out, next) := agent_frame a r (client_frame fr) (worlds i) (saves i) in
    match next with
    | Continue =>
        let '(r', out', ended) := agent_items a r1 items (pred <$> idle) worlds saves (Datatypes.S i) in (r', out ++ out', ended)
    | Break => (r1, out, false)
    | Return => (r1, out, true)
    end.
Proof. destruct idle as [[|k]|]; [done|by rewrite decide_False by done..]. Qed.

(** What is known at the end of a connection of the frames it took, of those
    up to the last one saved, and of the event that is failing. *)
Definition took (r r' : AgentRun) (out : list AgentAct) (got taken filed : list Frame) : Prop :=
  taken `prefix_of` got /\ filed `prefix_of` taken /\
  attempts (gn_failures r) out = Some (gn_failures r') /\ failing_ok (gn_failures r') /\
  settled out = eo_event_id <$> occurrences taken /\
  gn_cursor r' = (match last_cursor taken with Some x => x | None => gn_cursor r end) /\
  agent_file r' = (match last_cursor filed with Some x => Ok (Some {| cs_cursor := x |}) | None => agent_file r end) /\
  match gn_failures r' with
  | None => True
  | Some (id, _) =>
      (gn_failures r' = gn_failures r /\ occurrences taken = []) \/
      exists ev, (taken ++ [EventFrame ev]) `prefix_of` got /\ eo_event_id ev = id
  end.

Lemma took_nothing r got : failing_ok (gn_failures r) -> took r r [] got [] [].
Proof.
  intros Hok. unfold took. split_and!; try done; [apply prefix_nil|]. destruct (gn_failures r) as [[id n]|]; [by left|done].
Qed.

Lemma occurrences_cons fr fs : occurrences (fr :: fs) = occurrences [fr] ++ occurrences fs.
Proof. apply (occurrences_app [fr] fs). Qed.

(** A frame is taken, and then others. *)
Lemma took_cons r r1 r' out out' fr got taken filed :
  attempts (gn_failures r) out = Some (gn_failures r1) ->
  settled out = eo_event_id <$> occurrences [fr] ->
  gn_failures r1 = (match occurrences [fr] with [] => gn_failures r | _ => None end) ->
  gn_cursor r1 = (match frame_cursor (client_frame fr) with Some x => x | None => gn_cursor r end) ->
  (agent_file r1 = agent_file r \/
   exists x, frame_cursor (client_frame fr) = Some x /\ agent_file r1 = Ok (Some {| cs_cursor := x |})) ->
  took r1 r' out' got taken filed ->
  exists filed', took r r' (out ++ out') (fr :: got) (fr :: taken) filed'.
Proof.
  intros Ha Hs Hf Hc Hfile (H1 & H2 & H3 & H4 & H5 & H6 & H7 & H8).
  assert (exists filed', filed' `prefix_of` fr :: taken /\
    agent_file r' = match last_cursor filed' with Some x => Ok (Some {| cs_cursor := x |}) | None => agent_file r end)
    as (filed' & Hp & Hfile').
  { rewrite H7. destruct (last_cursor filed) as [x|] eqn:E.
    - exists (fr :: filed). rewrite last_cursor_cons, E. split; [by apply prefix_cons|done].
    - destruct Hfile as [->|(x & Ex & ->)]; [exists []; split; [apply prefix_nil|done]|].
      exists [fr]. rewrite last_cursor_cons, Ex. split; [apply prefix_cons, prefix_nil|done]. }
  exists filed'. unfold took. split_and!; try done.
  - by apply prefix_cons.
  - by rewrite (attempts_app _ _ _ _ Ha).
  - by rewrite settled_app, Hs, H5, (occurrences_cons fr taken), fmap_app.
  - rewrite last_cursor_cons, H6, Hc. by destruct (last_cursor taken).
  - destruct (gn_failures r') as [[id n]|]; [|done]. destruct H8 as [[E Eo]|(ev & Hpe & Hid)].
    + left. rewrite Hf in E. rewrite (occurrences_cons fr taken), Eo, app_nil_r. by destruct (occurrences [fr]).
    + right. exists ev. split; [|done]. by apply prefix_cons.
Qed.

Lemma agent_items_spec r got tail idle worlds saves i r' out ended :
  tail = [] \/ (exists e, tail = [Err e]) ->
  Forall (fun fr => frame_cursor (client_frame fr) <> Some None) got -> failing_ok (gn_failures r) ->
  (forall id n, gn_failures r = Some (id, n) -> next_is id got) ->
  agent_items a r ((Ok ∘ client_frame <$> got) ++ tail) idle worlds saves i = (r', out, ended) ->
  exists taken filed, took r r' out got taken filed /\ ended = false.
Proof.
  intros Htail. revert r idle i r' out ended. induction got as [|fr got IH]; intros r idle i r' out ended Hcs Hok Hnext.
  - intros H. assert ((r, [], false) = (r', out, ended)) as [= <- <- <-]
      by (destruct Htail as [-> |[e ->]]; destruct idle as [[|k]|]; exact H).
    exists [], []. split; [by apply took_nothing|done].
  - rewrite fmap_cons, <- app_comm_cons. change ((Ok ∘ client_frame) fr) with (@Ok ClientError _ (client_frame fr)).
    rewrite agent_items_cons. case_decide.
    { intros [= <- <- <-]. exists [], []. split; [by apply took_nothing|done]. }
    apply Forall_cons in Hcs as [Hc Hcs].
    destruct (agent_frame a r (client_frame fr) (worlds i) (saves i)) as [[r1 out1] next] eqn:Ef.
    assert (forall id n, gn_failures r = Some (id, n) -> next_is id [fr]) as Hn1.
    { intros id n Hf ev evs He. eapply (Hnext id n Hf ev (evs ++ occurrences got)). by rewrite (occurrences_cons fr got), He. }
    destruct (agent_frame_spec _ _ _ _ _ _ _ Hc Hok Hn1 Ef) as (Ha1 & Hok1 & Hcase).
    destruct Hcase as [(Hnr & Hbr & Hs1 & Hf1 & Hc1 & Hfile1)|(-> & Hs1 & Hc1 & Hfile1 & ev & n & -> & Hf1)].
    + destruct next; [|by intros [= <- <- <-]; destruct (took_cons r r1 r1 out1 [] fr got [] [] Ha1 Hs1 Hf1 Hc1 Hfile1
        (took_nothing r1 got Hok1)) as [filed Ht]; rewrite app_nil_r in Ht; eauto|done].
      destruct (agent_items a r1 _ _ _ _ _) as [[r2 out2] ended2] eqn:Ei. intros [= <- <- <-].
      assert (forall id n, gn_failures r1 = Some (id, n) -> next_is id got) as Hn2.
      { intros id n Hf ev evs He. rewrite Hf1 in Hf. destruct (occurrences [fr]) eqn:Eo; [|done].
        eapply (Hnext id n Hf ev evs). by rewrite (occurrences_cons fr got), Eo. }
      destruct (IH r1 _ _ _ _ _ Hcs Hok1 Hn2 Ei) as (taken & filed & Ht & He).
      destruct (took_cons _ _ _ _ _ _ _ _ _ Ha1 Hs1 Hf1 Hc1 Hfile1 Ht) as [filed' Ht']. eauto.
    + intros [= <- <- <-]. exists [], []. split; [|done]. unfold took. split_and!; try done; [apply prefix_nil|].
      rewrite Hf1. right. exists ev. split; [|done]. apply prefix_cons, prefix_nil.
Qed.

(** ** A connection *)
Context (bc : BufferConfig) (rnd : Z) (Hmax : 0 <= max_events_per_type bc) (Hrnd : 0 <= rnd <= u64_max).
Context (f : option ParamFilter).
#[local] Abbreviation name := (ga_name a).
#[local] Abbreviation owed := (passing (ga_params a) f).

(** The agent as a client of streams ([answered]). *)
Definition as_args : StreamArgs := {| ta_name := ga_name a; ta_params := ga_params a; ta_state_file := Some (ga_state_file a) |}.

Definition as_run (r : AgentRun) : StreamRun :=
  {| tn_client := gn_client r; tn_fs := gn_fs r; tn_state := {| cs_cursor := gn_cursor r |}; tn_backoff := gn_backoff r |}.

Definition as_connection (cn : AgentConnection) : Connection :=
  {| cn_exchange := gc_exchange cn; cn_idle := gc_idle cn; cn_saves := [] |}.

(** The event that is failing is the next one. *)
Definition failing_at (r : AgentRun) (pos : Z) (h : list Stored) : Prop :=
  match gn_failures r with
  | None => True
  | Some (id, n) => 1 <= n <= 2 /\ exists e l, owed pos (Z.of_nat (length h)) h = e :: l /\ st_event_id e = id
  end.

Lemma occurrences_first fs ev evs :
  occurrences fs = ev :: evs -> exists pre suf, fs = pre ++ EventFrame ev :: suf /\ occurrences pre = [].
Proof.
  induction fs as [|fr fs IH]; [done|]. rewrite occurrences_cons. intros H.
  assert (occurrences [fr] = [] \/ exists o, fr = EventFrame o) as [E|[o ->]] by (destruct fr; eauto).
  - rewrite E in H. destruct (IH H) as (pre & suf & -> & Ho). exists (fr :: pre), suf. split; [done|].
    by rewrite occurrences_cons, E, Ho.
  - injection H as -> _. by exists [], fs.
Qed.

Lemma owed_split h lo mid : consecutive 1 h -> 0 <= lo <= mid -> mid <= Z.of_nat (length h) ->
  owed lo (Z.of_nat (length h)) h = owed lo mid h ++ owed mid (Z.of_nat (length h)) h.
Proof. intros. apply passing_app; (done || lia). Qed.

Section connection.
Context (ops : list BufOp) (r : AgentRun) (p0 : Z) (l : list Input) (s : StreamState) (b : EventBuffer) (os : list Output).
#[local] Abbreviation h := (history name (ops ++ run_ops name l)).
Context (Hid : i64_ok (cl_next_id (gn_client r))) (Hcur : gn_cursor r = Some (cursor_text rnd p0)).
Context (Hp0 : 0 <= p0 <= Z.of_nat (length h)) (Hb : Z.of_nat (length (ops ++ run_ops name l)) < u64_max).
Context (Hrun : stream_run (stream_cfg as_args (as_run r) f) stream_new (buf_run (buffer_new bc rnd) ops) l = Some (s, b, os)).
Context (Hgap : gapless os).

Lemma taken_ids taken :
  taken `prefix_of` frames os ->
  exists pos, p0 <= pos <= Z.of_nat (length h) /\
    match last_cursor taken with Some x => x | None => Some (cursor_text rnd p0) end = Some (cursor_text rnd pos) /\
    eo_event_id <$> occurrences taken = st_event_id <$> owed p0 pos h.
Proof.
  intros Ht.
  destruct (taken_exact bc rnd Hmax Hrnd as_args f ops (as_run r) p0 l s b os taken) as (pos & Hp & Hc & _ & Hids); try done.
  { unfold as_run, at_cursor. cbn [tn_state]. by rewrite Hcur. }
  exists pos. split; [exact Hp|]. split; [|exact Hids]. unfold at_cursor in Hc. destruct (last_cursor taken); congruence.
Qed.

Lemma frames_have_cursors got :
  got `prefix_of` frames os -> Forall (fun fr => frame_cursor (client_frame fr) <> Some None) got.
Proof.
  intros Hgot. apply Forall_forall. intros fr (pre & suf & ->)%list_elem_of_split Hn.
  destruct (taken_ids (pre ++ [fr])) as (pos & _ & Hc & _).
  { etrans; [|exact Hgot]. exists suf. by rewrite <- (assoc_L (++)). }
  rewrite last_cursor_snoc, Hn in Hc. done.
Qed.

(** The first event of a connection is the next one owed. *)
Lemma first_is_next got id n :
  got `prefix_of` frames os -> failing_at r p0 h -> gn_failures r = Some (id, n) -> next_is id got.
Proof.
  intros Hgot Hf Hn ev evs (pre & suf & -> & Hpre)%occurrences_first.
  destruct (taken_ids (pre ++ [EventFrame ev])) as (pos & Hp & _ & Hids).
  { etrans; [|exact Hgot]. exists suf. by rewrite <- (assoc_L (++)). }
  unfold failing_at in Hf. rewrite Hn in Hf. destruct Hf as (_ & e & k & He & <-).
  rewrite (owed_split h p0 pos) in He by (apply history_consecutive || lia).
  rewrite occurrences_app, Hpre in Hids. destruct (owed p0 pos h); [done|]. injection He as -> _. by injection Hids.
Qed.

(** What the frames taken are worth. *)
Lemma took_exact r1 out got taken filed q0 :
  got `prefix_of` frames os -> failing_at r p0 h -> agent_file r = Ok (Some (at_cursor rnd q0)) ->
  owed p0 q0 h = [] -> took r r1 out got taken filed ->
  exists p1 q1, p0 <= p1 <= Z.of_nat (length h) /\ (q1 = q0 \/ p0 <= q1 <= Z.of_nat (length h)) /\
    gn_cursor r1 = Some (cursor_text rnd p1) /\ agent_file r1 = Ok (Some (at_cursor rnd q1)) /\ owed p1 q1 h = [] /\
    settled out = st_event_id <$> owed p0 p1 h /\ attempts (gn_failures r) out = Some (gn_failures r1) /\ failing_at r1 p1 h.
Proof.
  intros Hgot Hfail Hfile Hq0 (H1 & H2 & H3 & H4 & H5 & H6 & H7 & H8).
  assert (consecutive 1 h) as Hcons by apply history_consecutive.
  destruct (taken_ids taken) as (p1 & Hp1 & Hc1 & Hids1); [by etrans|].
  assert (exists q1, (q1 = q0 \/ p0 <= q1 <= Z.of_nat (length h)) /\ agent_file r1 = Ok (Some (at_cursor rnd q1)) /\ owed p1 q1 h = [])
    as (q1 & Hq1 & Hf1 & He1).
  { rewrite H7. destruct (last_cursor filed) as [x|] eqn:E.
    - destruct (taken_ids filed) as (q & Hq & Hcq & Hidq); [etrans; [exact H2|by etrans]|].
      rewrite E in Hcq. subst x. exists q. split_and!; [by right|done|].
      destruct (decide (q <= p1)); [by apply passing_none|].
      assert (length (owed p0 q h) <= length (owed p0 p1 h))%nat as Hl.
      { destruct H2 as [k Hk]. rewrite Hk, occurrences_app, fmap_app in Hids1.
        rewrite <- (length_fmap st_event_id (owed p0 q h)), <- Hidq, <- (length_fmap st_event_id (owed p0 p1 h)), <- Hids1, length_app. lia. }
      rewrite (passing_app _ _ p0 p1 q), length_app in Hl by (done || lia). destruct (owed p1 q h); [done|simpl in Hl; lia].
    - exists q0. split_and!; [by left|by rewrite Hfile|]. apply (passing_none_mono _ _ p0); [lia|done]. }
  exists p1, q1. split_conj; try (done || lia).
  - by rewrite H6, Hcur.
  - by rewrite H5.
  - unfold failing_at, failing_ok in *. destruct (gn_failures r1) as [[id n]|] eqn:Er1; [|done]. split; [exact H4|].
    destruct H8 as [[E Eo]|(ev & Hpe & <-)].
    + rewrite <- E in Hfail. destruct Hfail as (_ & e & k & He & Hide). rewrite Eo in Hids1.
      rewrite (owed_split h p0 p1) in He by (done || lia). destruct (owed p0 p1 h); [|done]. eauto.
    + destruct (taken_ids (taken ++ [EventFrame ev])) as (pos & Hp & _ & Hids); [by etrans|].
      rewrite occurrences_app, fmap_app, Hids1 in Hids.
      assert (p1 < pos) as Hlt.
      { destruct (decide (p1 < pos)); [done|]. exfalso. rewrite (passing_app _ _ p0 pos p1) in Hids by (done || lia).
        apply (f_equal length) in Hids. rewrite fmap_app, !length_app in Hids. simpl in Hids. lia. }
      rewrite (passing_app _ _ p0 p1 pos), fmap_app in Hids by (done || lia). apply app_inv_head in Hids.
      rewrite (owed_split h p1 pos) by (done || lia). destruct (owed p1 pos h) as [|e k]; [done|]. injection Hids as Hide _. eauto.
Qed.
End connection.

Lemma settled_nap out d : settled (out ++ [Nap d]) = settled out.
Proof. by rewrite settled_app, app_nil_r. Qed.

(** One turn of the loop. *)
Lemma agent_turn_exact ops r p0 q0 cn l r1 out ended :
  let h := history name (ops ++ run_ops name l) in
  answered as_args f (buf_run (buffer_new bc rnd) ops) (as_run r) (as_connection cn) l ->
  gn_cursor r = Some (cursor_text rnd p0) -> agent_file r = Ok (Some (at_cursor rnd q0)) -> owed p0 q0 h = [] ->
  0 <= p0 <= Z.of_nat (length h) -> Z.of_nat (length (ops ++ run_ops name l)) < u64_max -> failing_at r p0 h ->
  agent_turn a r cn = (r1, out, ended) ->
  exists p1 q1, p0 <= p1 <= Z.of_nat (length h) /\ (q1 = q0 \/ p0 <= q1 <= Z.of_nat (length h)) /\
    gn_cursor r1 = Some (cursor_text rnd p1) /\ agent_file r1 = Ok (Some (at_cursor rnd q1)) /\ owed p1 q1 h = [] /\
    settled out = st_event_id <$> owed p0 p1 h /\ attempts (gn_failures r) out = Some (gn_failures r1) /\ failing_at r1 p1 h.
Proof.
  intros h. subst h. intros Hans Hcur Hfile Hq0 Hp0 Hb Hfail Hturn. unfold agent_turn in Hturn.
  destruct (client_stream _ _ _) as [client opened] eqn:Ec. destruct opened as [items|e].
  - destruct (answered_items _ _ _ _ _ _ _ _ Hans Ec) as (s & b & os & got & tl & Hrun & Hgap & Hgot & -> & Htl).
    destruct Hans as [Hid _]. set (r0 := {| gn_client := client; gn_fs := gn_fs r; gn_cursor := gn_cursor r;
      gn_backoff := gn_backoff r; gn_failures := gn_failures r |}) in *.
    destruct (agent_items a r0 _ _ _ _ _) as [[r2 out2] ended2] eqn:Ei.
    assert (Forall (fun fr => frame_cursor (client_frame fr) <> Some None) got) as Hcs
      by by apply (frames_have_cursors ops r p0 l s b os).
    assert (forall id n, gn_failures r0 = Some (id, n) -> next_is id got) as Hnext.
    { intros id n Hn. by apply (first_is_next ops r p0 l s b os) with (n := n). }
    assert (failing_ok (gn_failures r0)) as Hok.
    { unfold failing_ok, failing_at in *. cbn [gn_failures r0]. destruct (gn_failures r) as [[? ?]|]; [lia|done]. }
    destruct (agent_items_spec _ _ _ _ _ _ _ _ _ _ Htl Hcs Hok Hnext Ei) as (taken & filed & Ht & ->).
    destruct (took_exact ops r p0 l s b os Hid Hcur Hp0 Hb Hrun Hgap r2 out2 got taken filed q0 Hgot Hfail Hfile Hq0 Ht)
      as (p1 & q1 & H1 & H2 & H3 & H4 & H5 & H6 & H7 & H8).
    injection Hturn as <- <- <-. exists p1, q1. rewrite settled_nap, (attempts_app _ _ _ _ H7). split_conj; (done || lia).
  - assert (gn_cursor r1 = gn_cursor r /\ agent_file r1 = agent_file r /\ settled out = [] /\ gn_failures r1 = gn_failures r /\
      attempts (gn_failures r) out = Some (gn_failures r)) as (E1 & E2 & E3 & E4 & E5).
    { destruct (is_invalid_params e); injection Hturn as <- <- <-; by split_and!. }
    exists p0, q0. rewrite passing_empty, E1, E2, E3, E5. unfold failing_at in *. rewrite E4. split_conj; (done || lia).
Qed.

(** ** Any number of connections *)

(** The agent over any number of connections; a process that dies - at any
    moment: a connection may be cut off and a save fail anywhere - is started
    again from its file. *)
Inductive ran : list BufOp -> AgentRun -> list BufOp -> AgentRun -> list AgentAct -> bool -> Prop :=
| ran_end ops r : ran ops r ops r [] false
| ran_on ops r cn l r1 out ops' r' out' restarted :
    answered as_args f (buf_run (buffer_new bc rnd) ops) (as_run r) (as_connection cn) l ->
    agent_turn a r cn = (r1, out, None) ->
    ran (ops ++ run_ops name l) r1 ops' r' out' restarted ->
    ran ops r ops' r' (out ++ out') restarted
| ran_restart ops r cn l r1 out ended client st ops' r' out' restarted :
    answered as_args f (buf_run (buffer_new bc rnd) ops) (as_run r) (as_connection cn) l ->
    agent_turn a r cn = (r1, out, ended) -> agent_file r1 = Ok st ->
    ran (ops ++ run_ops name l) (agent_start client (gn_fs r1) st) ops' r' out' restarted ->
    ran ops r ops' r' (out ++ out') true.

Lemma ran_ops ops r ops' r' out restarted : ran ops r ops' r' out restarted -> exists k, ops' = ops ++ k.
Proof.
  induction 1 as [ops r|ops r cn l r1 out ops' r' out' re _ _ _ [k ->]|ops r cn l r1 out ended client st ops' r' out' re _ _ _ _ [k ->]];
    [by exists []; rewrite app_nil_r|by eexists; rewrite <- (assoc_L (++))..].
Qed.

(** The history only grows. *)
Lemma failing_at_grow r p ops k :
  0 <= p <= Z.of_nat (length (history name ops)) -> failing_at r p (history name ops) -> failing_at r p (history name (ops ++ k)).
Proof.
  intros Hp. unfold failing_at. destruct (gn_failures r) as [[id n]|]; [|done]. intros (Hn & e & l & He & Hid). split; [done|].
  destruct (history_prefix name ops k) as [x Ex]. assert (consecutive 1 (history name ops ++ x)) as Hc by (rewrite <- Ex; apply history_consecutive).
  rewrite Ex, length_app, (passing_app _ _ p (Z.of_nat (length (history name ops)))) by (rewrite ?length_app; done || lia).
  rewrite (passing_grow _ _ p) by (done || lia). rewrite He. eauto.
Qed.

Lemma owed_grows ops k lo hi :
  hi <= Z.of_nat (length (history name ops)) -> owed lo hi (history name (ops ++ k)) = owed lo hi (history name ops).
Proof. exact (owed_grow as_args f ops k lo hi). Qed.

Lemma all_settled h p0 p1 q1 p l' :
  owed p1 q1 h = [] -> (forall e, e ∈ owed q1 p h -> st_event_id e ∈ l') ->
  forall e, e ∈ owed p0 p h -> st_event_id e ∈ (st_event_id <$> owed p0 p1 h) ++ l'.
Proof.
  intros He Hall e (Hpass & Hseq & Hin)%elem_of_passing. apply elem_of_app.
  destruct (decide (st_seq e <= p1)); [left; apply list_elem_of_fmap_2, elem_of_passing; split_and!; (done || lia)|right].
  apply Hall, elem_of_passing. destruct (decide (st_seq e <= q1)); [exfalso|split_and!; (done || lia)].
  assert (e ∈ owed p1 q1 h) as Hno by (apply elem_of_passing; split_and!; (done || lia)). rewrite He in Hno. by apply elem_of_nil in Hno.
Qed.

Lemma only_settled h base p0 p1 n l' :
  base <= p0 -> p1 <= n -> (forall id, id ∈ l' -> exists e, e ∈ owed base n h /\ id = st_event_id e) ->
  forall id, id ∈ (st_event_id <$> owed p0 p1 h) ++ l' -> exists e, e ∈ owed base n h /\ id = st_event_id e.
Proof.
  intros Hp Hn Hon id [(e & -> & (? & ? & ?)%elem_of_passing)%list_elem_of_fmap|Hid]%elem_of_app; [|by apply Hon].
  exists e. split; [|done]. apply elem_of_passing. split_and!; (done || lia).
Qed.

Lemma ran_exact ops r ops' r' out restarted p0 q0 base :
  ran ops r ops' r' out restarted ->
  gn_cursor r = Some (cursor_text rnd p0) -> agent_file r = Ok (Some (at_cursor rnd q0)) ->
  let h := history name ops' in
  0 <= base -> base <= p0 <= Z.of_nat (length (history name ops)) -> base <= q0 <= Z.of_nat (length (history name ops)) ->
  owed p0 q0 h = [] -> Z.of_nat (length ops') < u64_max -> failing_at r p0 (history name ops) ->
  exists p, gn_cursor r' = Some (cursor_text rnd p) /\ 0 <= p <= Z.of_nat (length h) /\
    (restarted = false -> p0 <= p /\ settled out = st_event_id <$> owed p0 p h /\ attempts (gn_failures r) out = Some (gn_failures r')) /\
    (forall e, e ∈ owed p0 p h -> st_event_id e ∈ settled out) /\
    (forall id, id ∈ settled out -> exists e, e ∈ owed base (Z.of_nat (length h)) h /\ id = st_event_id e).
Proof.
  intros Hw. revert p0 q0.
  induction Hw as [ops r|ops r cn l r1 out ops' r' out' re Hans Hturn Hw IH|ops r cn l r1 out ended client st ops' r' out' re Hans Hturn Hst Hw IH];
    intros p0 q0 Hcur Hfile h Hbase Hp0 Hq0 Howed Hb Hfail.
  - exists p0. rewrite passing_empty. split_conj; first [done|lia|set_solver].
  - destruct (ran_ops _ _ _ _ _ _ Hw) as [k Ek].
    pose proof (history_length_mono name ops (run_ops name l)) as Hm1. pose proof (history_length_mono name (ops ++ run_ops name l) k) as Hm2.
    rewrite <- Ek in Hm2. fold h in Hm2.
    destruct (agent_turn_exact ops r p0 q0 cn l r1 out None Hans Hcur Hfile) as (p1 & q1 & Hp1 & Hq1 & Hc1 & Hf1 & He1 & Hs1 & Ha1 & Hfa1);
      [by rewrite <- (owed_grows _ k), <- Ek by lia|lia|rewrite Ek, length_app in Hb; lia|by apply failing_at_grow; [lia|]|done|].
    rewrite <- (owed_grows _ k), <- Ek in He1, Hs1 by lia. fold h in He1, Hs1.
    destruct (IH p1 q1) as (p & Hcp & Hp & Hre & Hall & Hon); try (done || lia).
    fold h in Hp, Hre, Hall, Hon. assert (consecutive 1 h) as Hcons by apply history_consecutive.
    exists p. split_conj; try (done || lia).
    + intros E. destruct (Hre E) as (Hle & Hs & Ha). split_conj; [lia| |by rewrite (attempts_app _ _ _ _ Ha1)].
      by rewrite settled_app, Hs1, Hs, <- fmap_app, <- passing_app by (done || lia).
    + rewrite settled_app, Hs1. apply (all_settled h p0 p1 p1); [apply passing_empty|done].
    + rewrite settled_app, Hs1. apply only_settled; (done || lia).
  - destruct (ran_ops _ _ _ _ _ _ Hw) as [k Ek].
    pose proof (history_length_mono name ops (run_ops name l)) as Hm1. pose proof (history_length_mono name (ops ++ run_ops name l) k) as Hm2.
    rewrite <- Ek in Hm2. fold h in Hm2.
    destruct (agent_turn_exact ops r p0 q0 cn l r1 out ended Hans Hcur Hfile) as (p1 & q1 & Hp1 & Hq1 & Hc1 & Hf1 & He1 & Hs1 & _);
      [by rewrite <- (owed_grows _ k), <- Ek by lia|lia|rewrite Ek, length_app in Hb; lia|by apply failing_at_grow; [lia|]|done|].
    rewrite <- (owed_grows _ k), <- Ek in He1, Hs1 by lia. fold h in He1, Hs1. rewrite Hf1 in Hst. injection Hst as <-.
    destruct (IH q1 q1) as (p & Hcp & Hp & _ & Hall & Hon); try (done || lia); [apply passing_empty|].
    fold h in Hp, Hall, Hon. exists p. split_conj; try (done || lia).
    + rewrite settled_app, Hs1. by apply (all_settled h p0 p1 q1).
    + rewrite settled_app, Hs1. apply only_settled; (done || lia).
Qed.

(** C5. The agent settles every event: started at a position of this server's
    stream of events, and running over any number of connections, each broken
    off anywhere, whatever the model and the tools answer and however its
    saves end, it settles the events after that position which its arguments
    pass, each exactly once and in order, up to its cursor: it handles an
    event, or gives it up - exactly after three failed attempts in a row, with
    no other event in between ([attempts]).  If its process dies and is
    started again from its file, every one of them is still settled, at least
    once, and nothing else is.  (No connection reports [truncated], and no
    replay loses events behind the agent's back.) *)
Theorem agent_exact ops client fs ops' r' out restarted p0 :
  let r := agent_start client fs (Some (at_cursor rnd p0)) in
  let h := history name ops' in
  ran ops r ops' r' out restarted -> agent_file r = Ok (Some (at_cursor rnd p0)) ->
  0 <= p0 <= Z.of_nat (length (history name ops)) -> Z.of_nat (length ops') < u64_max ->
  exists p, gn_cursor r' = Some (cursor_text rnd p) /\ 0 <= p <= Z.of_nat (length h) /\
    (restarted = false -> p0 <= p /\ settled out = st_event_id <$> owed p0 p h /\ attempts None out = Some (gn_failures r')) /\
    (forall e, e ∈ owed p0 p h -> st_event_id e ∈ settled out) /\
    (forall id, id ∈ settled out -> exists e, e ∈ owed p0 (Z.of_nat (length h)) h /\ id = st_event_id e).
Proof.
  intros r h Hran Hfile Hp0 Hb.
  apply (ran_exact ops r ops' r' out restarted p0 p0 p0 Hran); (done || lia || apply passing_empty).
Qed.
End sessions.

(** ** Examples *)
Section example.
#[local] Instance ex_pretty : PrettyJson ZJson := {| to_string_pretty := value_to_string |}.

Definition ex_agent : AgentArgs (J := ZJson) :=
  {| ga_name := "t.changed"; ga_params := None; ga_state_file := "c.json"; ga_mode := "policy"; ga_llm := None;
     ga_task := None; ga_tool_defs := [] |}.

Definition ex_client : EventsClient := client_new "https://server/mcp" (Ok ()).

Definition ex_agent_start : AgentRun := agent_start ex_client ex_file (Some (at_cursor 7 1)).

(** The connection of [resume_exact_witness], and a world without tools. *)
Definition ex_agent_connection : AgentConnection (J := ZJson) :=
  {| gc_exchange := cn_exchange ex_whole; gc_idle := None;
     gc_worlds _ := {| w_post _ _ := None; w_tool _ _ _ := Err "no tools" |};
     gc_saves _ := {| sv_written := Written; sv_renamed := true |} |}.

#[local] Abbreviation ex_agent_turn := (agent_turn (S := ZSerde) (D := PlainDebug) ex_agent ex_agent_start ex_agent_connection).

Lemma ex_agent_answered :
  answered (as_args ex_agent) None ex_stream_buffer (as_run ex_agent_start) (as_connection ex_agent_connection) ex_stream_inputs.
Proof. destruct (ex_answered None) as [Hid H]. split; [exact Hid|exact H]. Qed.

Lemma agent_exact_witness :
  exists p, gn_cursor ex_agent_turn.1.1 = Some (cursor_text 7 p) /\
    settled ex_agent_turn.1.2 =
      st_event_id <$> passing None None 1 p (history "t.changed" (ex_ops ++ run_ops "t.changed" ex_stream_inputs)).
Proof.
  assert (match ex_agent_turn.2 with None => true | Some _ => false end = true) as Ht by (vm_compute; reflexivity).
  pose proof (agent_exact (S := ZSerde) (SL := ZSerde_laws) (D := PlainDebug) ex_agent ex_config 7) as H.
  specialize (H ltac:(discriminate) ltac:(split; discriminate) None ex_ops ex_client ex_file
    (ex_ops ++ run_ops "t.changed" ex_stream_inputs) ex_agent_turn.1.1 (ex_agent_turn.1.2 ++ []) false 1).
  destruct H as (p & Hp & _ & Hl & _ & _).
  - eapply ran_on; [exact ex_agent_answered| |apply ran_end].
    change (ex_agent_turn = (ex_agent_turn.1.1, ex_agent_turn.1.2, None)).
    destruct ex_agent_turn as [[r1 out] ended]. cbn [fst snd] in *. by destruct ended.
  - assert (match load_state (S := ZSerde) ex_file "c.json" true with
            | Ok (Some st) => bool_decide (cs_cursor st = Some (cursor_text 7 1))
            | _ => false
            end = true) as H by (vm_compute; reflexivity).
    unfold agent_file. cbn [ga_state_file ex_agent gn_fs agent_start].
    destruct (load_state _ _ _) as [[[c]|]|]; [|discriminate H..]. apply bool_decide_eq_true in H. cbn [cs_cursor] in H.
    rewrite H. reflexivity.
  - split; [discriminate|vm_compute; discriminate].
  - vm_compute. reflexivity.
  - exists p. split; [exact Hp|]. destruct (Hl eq_refl) as (_ & Hs & _). rewrite app_nil_r in Hs. exact Hs.
Defined.
End example.
