(* ===== verification/AgentBrainSafe.v ===== *)
(** * What the agent does to orders, and how it talks to a model.

    The order policy flags exactly the anomalies that are not flagged yet.
    The three dialects follow one protocol ([conversation]): a bounded number
    of requests, tools called only as a complete answer asks, and every call
    answered in the next request. *)
From S2P Require Import Prelude RustStd Json Wire State Dispatch Text F64 Client AgentConfig AgentBrain.

Section policy.
Context {J : JsonLib} {S : SerdeLib} {F : JsonFloat J} {FL : JsonFloatLaws F} {P : PrettyJson J} {D : DebugLib}.

(** ** The order policy *)
Definition tool_names (t : list Event) : list string :=
  omap (fun ev => match ev with Called name _ _ => Some name | Posted _ _ => None end) t.

(** What makes an order worth a review: a total that an update at least
    tripled; else a first order, or one of at least three times the peak of
    the customer's others. *)
Definition anomalous (data : Value) (change : string) (total : F64) (others : list F64) : Prop :=
  if bool_decide (change = "updated") then
    let before := f64_or total (value_get "before" data ≫= value_get "total") in
    f64_lt f64_zero before = true /\ f64_le (f64_mul three before) total = true
  else others = [] \/ exists peak, is_peak peak others /\ f64_le (f64_mul three peak) total = true.

Lemma other_totals_finite order_id orders :
  Forall (fun x => is_nan x = false /\ f64_le f64_MIN x = true) (other_totals order_id orders).
Proof.
  apply Forall_forall. intros x (o & _ & (v & _ & Hv)%bind_Some)%list_elem_of_omap.
  destruct v; try done. by apply num_as_f64_finite in Hv.
Qed.

Lemma anomaly_iff data change customer total others :
  Forall (fun x => is_nan x = false /\ f64_le f64_MIN x = true) others ->
  is_Some (anomaly data change customer total others) <-> anomalous data change total others.
Proof.
  intros Hfin. unfold anomaly, anomalous. case_bool_decide.
  - cbv zeta. set (before := f64_or _ _). destruct (f64_lt f64_zero before), (f64_le (f64_mul three before) total); simpl;
      (split; [intros [? [=]]; done|intros [? ?]; first [done|by eexists]]).
  - destruct others as [|x others]; [split; [by left|by eexists]|]. cbv zeta.
    pose proof (fold_max_peak _ Hfin ltac:(done)) as Hpeak. fold (peak_of (x :: others)) in Hpeak.
    destruct (f64_le (f64_mul three (peak_of (x :: others))) total) eqn:E.
    + split; [|by eexists]. intros _. right. eauto.
    + split; [by intros [? [=]]|]. intros [[=]|(peak & Hp & Hle)].
      by rewrite (peak_multiple _ _ _ _ _ Hp Hpeak Hle) in E.
Qed.

Lemma has_flag_true order_id flags :
  has_flag order_id flags = true <-> exists f, f ∈ flags /\ (value_get "orderId" f ≫= as_i64) = Some order_id.
Proof.
  unfold has_flag. rewrite existsb_true_elem. split; intros (f & Hf & H); exists f; (split; [done|]); revert H; by rewrite bool_decide_eq_true.
Qed.

Lemma run_tool_try w n name args k :
  brain_run w n (tool_try name args k) =
  match w_tool w n name args with
  | Ok v => let '(t, r) := brain_run w (Datatypes.S n) (k v) in (Called name args (Ok v) :: t, r)
  | Err e => ([Called name args (Err e)], Err (ToolFailed e))
  end.
Proof. unfold tool_try. cbn [brain_run]. by destruct (w_tool w n name args). Qed.

(** Where the policy flags an order. *)
Definition must_flag (w : World) (event : EventOccurrence) : Prop :=
  let data := eo_data event in
  let change := str_or "?" (value_get "changeType" data) in
  let order_id := int_or (-1) (value_get "id" (event_row data)) in
  let customer := str_or "?" (value_get "customer" (event_row data)) in
  change <> "deleted" /\
  exists order history,
    w_tool w 0 "get_order" (json_obj [("order_id", json_int order_id)]) = Ok order /\
    is_null order = false /\ value_get "error" order = None /\
    w_tool w 1 "get_customer_history" (json_obj [("customer", JString customer)]) = Ok history /\
    (forall f, f ∈ array_or_empty (value_get "priorFlags" history) -> (value_get "orderId" f ≫= as_i64) <> Some order_id) /\
    anomalous data change (f64_or f64_zero (value_get "total" order))
      (other_totals order_id (array_or_empty (value_get "orders" history))).

(** The end of a run of the policy. *)
Definition policy_end (order_id : Z) (flags : Prop) (t : list Event) (r : Outcome) : Prop :=
  tool_names t `prefix_of` ["get_order"; "get_customer_history"; "flag_order"] /\ length t = length (tool_names t) /\
  ("flag_order" ∈ tool_names t <-> flags) /\
  (forall args ans, Called "flag_order" args ans ∈ t ->
     exists reason, args = json_obj [("order_id", json_int order_id); ("reason", JString reason)]) /\
  (forall e, r = Err e -> exists name args text, Called name args (Err text) ∈ t /\ e = ToolFailed text).

Ltac policy_end :=
  split; [first [apply prefix_nil|by eexists]|split; [done|split; [|split]]];
  [ |first [set_solver|idtac]
  |first [done|intros ? [= <-]; do 3 eexists; (split; [|reflexivity]); first [by left|right; by left|right; right; by left]]].

Ltac no_flag := split; [set_solver|intros (Hno & order' & history' & ?); exfalso].

(** C21. The order policy: it calls at most [get_order],
    [get_customer_history] and [flag_order], in this order, and no model; it
    flags an order exactly when the row did not leave the set, the order is
    there, no flag of it is on record and it is anomalous ([anomalous]; the
    peak is the greatest total of the customer's other orders); what it flags
    is the order of the event; and it fails only if a call did. *)
Theorem policy_flags w event :
  let '(t, r) := brain_run w 0 (policy_brain event) in
  policy_end (int_or (-1) (value_get "id" (event_row (eo_data event)))) (must_flag w event) t r.
Proof.
  unfold policy_brain, must_flag. set (data := eo_data event). set (change := str_or "?" _).
  set (order_id := int_or (-1) _). set (customer := str_or "?" (value_get "customer" _)).
  case_bool_decide as Hdel; [cbn [brain_run]; policy_end; no_flag; by destruct Hno|]. rewrite run_tool_try.
  destruct (w_tool w 0 _ _) as [order|text] eqn:E0; [|policy_end; no_flag; naive_solver].
  destruct (is_null order || _) eqn:En; [cbn [brain_run]; policy_end; no_flag|].
  { destruct H as ([= <-] & Hn & He & _). by rewrite Hn, He in En. }
  apply orb_false_iff in En as [Hn He]. apply bool_decide_eq_false in He. rewrite <- eq_None_not_Some in He.
  rewrite run_tool_try. destruct (w_tool w 1 _ _) as [history|text] eqn:E1; [|policy_end; no_flag; naive_solver].
  destruct (has_flag _ _) eqn:Eh; [cbn [brain_run]; policy_end; no_flag|].
  { destruct H as (_ & _ & _ & [= <-] & Hno' & _). apply has_flag_true in Eh as (g & Hg & Hid). by apply (Hno' g Hg). }
  pose proof (anomaly_iff data change customer (f64_or f64_zero (value_get "total" order)) _
    (other_totals_finite order_id (array_or_empty (value_get "orders" history)))) as Han.
  destruct (anomaly _ _ _ _ _) as [why|]; [|cbn [brain_run]; policy_end; no_flag].
  2: { destruct H as ([= <-] & _ & _ & [= <-] & _ & Ha). apply Han in Ha. by destruct Ha. }
  assert (forall g, g ∈ array_or_empty (value_get "priorFlags" history) -> (value_get "orderId" g ≫= as_i64) <> Some order_id) as Hnf.
  { intros g Hg Hid. assert (has_flag order_id (array_or_empty (value_get "priorFlags" history)) = true); [|congruence].
    apply has_flag_true. eauto. }
  rewrite run_tool_try. destruct (w_tool w 2 _ _) as [flag|text]; [cbn [brain_run]|]; policy_end;
    (split; [intros _; split; [done|]; exists order, history; split_and!; try done; by apply Han|intros _; set_solver]).
Qed.
End policy.

(** ** Conversations with a model *)
Section conversation.
Context {J : JsonLib} {S : SerdeLib} {F : JsonFloat J} {P : PrettyJson J} {D : DebugLib}.

(** What an endpoint's answer is worth. *)
Definition answer_value (ans : LlmAnswer) : result BrainError Value :=
  match ans with
  | None => Err HttpFailed
  | Some (status, body) => if is_success status then ok_or NotJson (json_from_str body) else Err (ApiStatus status body)
  end.

(** A dialect: what a request of a state of the conversation (what is carried
    on, and the id of the previous answer) has to say, what an answer says - a
    final text, or the calls a complete turn asks for - and how their outputs
    are carried on.  It is stated on the JSON of requests and answers, apart
    from the functions that build them. *)
Record Dialect := {
  di_start : EventOccurrence -> Value * option string;
  di_sent : Value * option string -> LlmRequest -> Prop;
  di_read : Value -> result BrainError (string + list Value);
  di_args : Value -> result string (string * Value);
  di_output : Value -> Value -> Value;
  di_next : Value * option string -> Value -> list Value -> Value * option string
}.

(** What a call gave: its payload, or its error. *)
Definition call_payload (r : result string Value) : Value :=
  match r with Ok v => v | Err e => JObject [("error", JString e)] end.

(** The calls of a turn, in order, and their outputs; a call whose arguments
    do not parse is answered without being made. *)
Inductive served (d : Dialect) : list Value -> list Event -> list Value -> Prop :=
| served_nil : served d [] [] []
| served_call c name args ans cs t os :
    di_args d c = Ok (name, args) -> served d cs t os ->
    served d (c :: cs) (Called name args ans :: t) (di_output d c (call_payload ans) :: os)
| served_error c msg cs t os :
    di_args d c = Err msg -> served d cs t os ->
    served d (c :: cs) t (di_output d c (call_payload (Err msg)) :: os).

(** A conversation of at most [n] requests. *)
Inductive conversation (d : Dialect) : nat -> Value * option string -> list Event -> Outcome -> Prop :=
| conv_out st : conversation d 0 st [] (Ok out_of_turns)
| conv_failed n st req ans e :
    di_sent d st req -> answer_value ans = Err e -> conversation d (Datatypes.S n) st [Posted req ans] (Err e)
| conv_refused n st req ans response e :
    di_sent d st req -> answer_value ans = Ok response -> di_read d response = Err e ->
    conversation d (Datatypes.S n) st [Posted req ans] (Err e)
| conv_final n st req ans response text :
    di_sent d st req -> answer_value ans = Ok response -> di_read d response = Ok (inl text) ->
    conversation d (Datatypes.S n) st [Posted req ans] (Ok text)
| conv_turn n st req ans response calls t outputs t' r :
    di_sent d st req -> answer_value ans = Ok response -> di_read d response = Ok (inr calls) -> served d calls t outputs ->
    conversation d n (di_next d st response outputs) t' r ->
    conversation d (Datatypes.S n) st (Posted req ans :: t ++ t') r.

Definition is_post (ev : Event) : bool := match ev with Posted _ _ => true | Called _ _ _ => false end.

Lemma served_no_post d cs t os : served d cs t os -> base.filter (fun ev => is_post ev = true) t = [] /\ length os = length cs.
Proof. induction 1 as [|c name args ans cs t os _ _ [IH1 IH2]|c msg cs t os _ _ [IH1 IH2]]; split; csimpl; auto. Qed.

Lemma conversation_bounded d n st t r :
  conversation d n st t r -> (length (base.filter (fun ev => is_post ev = true) t) <= n)%nat.
Proof.
  induction 1 as [| | | |n st req ans response calls t outputs t' r _ _ _ Hs _ IH]; simpl; try lia.
  rewrite filter_app, (proj1 (served_no_post _ _ _ _ Hs)). simpl. lia.
Qed.

(** ** A loop of the source speaks a dialect *)
Section loop.
Context (d : Dialect) (turns : nat -> Value * option string -> Brain Outcome) (tool : Value -> Brain Value).
Context (k : nat -> Value * option string -> Value -> Brain Outcome) (request : Value * option string -> LlmRequest).
Context (Hsent : forall st, di_sent d st (request st)).
Context (Htool : forall c, tool c =
  match di_args d c with
  | Ok (name, args) => Tool name args (fun r => Done (di_output d c (call_payload r)))
  | Err msg => Done (di_output d c (call_payload (Err msg)))
  end).
Context (Hout : forall st, turns 0 st = Done (Ok out_of_turns)).
Context (Hask : forall n st, turns (Datatypes.S n) st = ask (request st) (k n st)).
Context (Hread : forall n st response,
  k n st response =
  match di_read d response with
  | Err e => Done (Err e)
  | Ok (inl text) => Done (Ok text)
  | Ok (inr calls) => outputs ← brain_map tool calls; turns n (di_next d st response outputs)
  end).

Lemma brain_map_served w n cs : let '(t, os) := brain_run w n (brain_map tool cs) in served d cs t os.
Proof.
  revert n. induction cs as [|c cs IH]; intros n; [constructor|]. cbn [brain_map]. rewrite brain_run_bind, Htool.
  destruct (di_args d c) as [[name args]|msg] eqn:E; cbn [brain_run]; cbv zeta; rewrite brain_run_bind;
    specialize (IH (n + length (A := Event) (match di_args d c with Ok _ => [Called "" JNull (Err "")] | Err _ => [] end))%nat);
    rewrite E in IH; cbn [length] in *; destruct (brain_run w _ (brain_map tool cs)) as [t os]; cbn [brain_run]; rewrite app_nil_r.
  - by constructor.
  - by constructor.
Qed.

Lemma turns_conversation w m n st : let '(t, r) := brain_run w m (turns n st) in conversation d n st t r.
Proof.
  revert m st. induction n as [|n IH]; intros m st.
  - rewrite Hout. constructor.
  - rewrite Hask. unfold ask. cbn [brain_run]. cbv zeta. set (ans := w_post w m _).
    pose proof (Hsent st) as Hreq. destruct ans as [[status body]|] eqn:Ea; [|by apply conv_failed].
    destruct (is_success status) eqn:Es; [|by apply conv_failed; [done|]; unfold answer_value; rewrite Es].
    cbn [negb]. destruct (json_from_str body) as [response|] eqn:Ej; [|by apply conv_failed; [done|]; unfold answer_value; rewrite Es, Ej].
    assert (answer_value (Some (status, body)) = Ok response) as Hans by (unfold answer_value; by rewrite Es, Ej).
    rewrite Hread. destruct (di_read d response) as [[text|calls]|e] eqn:Er.
    + by apply conv_final with response.
    + rewrite brain_run_bind. pose proof (brain_map_served w (Datatypes.S m) calls) as Hs.
      destruct (brain_run w _ (brain_map tool calls)) as [t os].
      specialize (IH (Datatypes.S m + length t)%nat (di_next d st response os)). destruct (brain_run w _ (turns n _)) as [t' r].
      by apply conv_turn with response calls os.
    + by apply conv_refused with response.
Qed.
End loop.

(** ** The three dialects *)

(** A field of a request's body. *)
Definition sent_field (req : LlmRequest) (k : string) : option Value := value_get k (lq_body req).

(** A function that a request offers, for a tool of the server. *)
Definition offered (tool function : Value) : Prop :=
  value_get "name" function = Some (at_key "name" tool) /\
  value_get "description" function = Some (at_key "description" tool) /\
  value_get "parameters" function = Some (at_key "input_schema" tool).

Definition system_prompt (task : option string) : string := contextual_prompt SYSTEM_PROMPT task.

Definition anthropic_dialect (cfg : LlmConfig) (task : option string) (tool_defs : list Value) : Dialect := {|
  di_start event := (JArray [JObject [("content", JString (change_prompt event)); ("role", JString "user")]], None);
  di_sent st req :=
    lq_url req = lc_chat_url cfg /\ ("x-api-key", lc_api_key cfg) ∈ lq_headers req /\
    sent_field req "model" = Some (JString (lc_model cfg)) /\
    sent_field req "system" = Some (JString (system_prompt task)) /\
    sent_field req "tools" = Some (JArray tool_defs) /\
    sent_field req "messages" = Some (JArray (array_of st.1));
  di_read response :=
    let content := array_of (at_key "content" response) in
    let stop := as_str (at_key "stop_reason" response) in
    if bool_decide (stop = Some "tool_use") then Ok (inr (filter (fun block => is_str "tool_use" (at_key "type" block)) content))
    else if bool_decide (stop = Some "end_turn") || bool_decide (stop = Some "stop_sequence") then
      Ok (inl (block_text "text" content))
    else Err (UnexpectedStop stop (block_text "text" content));
  di_args block := Ok (default "" (as_str (at_key "name" block)), at_key "input" block);
  di_output block payload :=
    JObject [("content", JString (value_to_string payload)); ("tool_use_id", at_key "id" block); ("type", JString "tool_result")];
  di_next st response outputs :=
    (JArray (array_of st.1 ++ [JObject [("content", JArray (array_of (at_key "content" response))); ("role", JString "assistant")];
                               JObject [("content", JArray outputs); ("role", JString "user")]]), None)
|}.

Definition responses_dialect (cfg : LlmConfig) (task : option string) (tool_defs : list Value) : Dialect := {|
  di_start event := (JString (change_prompt event), None);
  di_sent st req :=
    lq_url req = lc_chat_url cfg /\ ("authorization", "Bearer " +:+ lc_api_key cfg) ∈ lq_headers req /\
    sent_field req "model" = Some (JString (lc_model cfg)) /\
    sent_field req "instructions" = Some (JString (system_prompt task)) /\
    (exists tools, sent_field req "tools" = Some (JArray tools) /\ Forall2 offered tool_defs tools) /\
    sent_field req "input" = Some st.1 /\
    sent_field req "previous_response_id" = JString <$> st.2;
  di_read response :=
    if is_str "completed" (at_key "status" response) then
      match filter (fun item => is_str "function_call" (at_key "type" item)) (array_of (at_key "output" response)) with
      | [] => Ok (inl (responses_output_text response))
      | calls => Ok (inr calls)
      end
    else Err (UnexpectedStatus (at_key "status" response)
      (default "no detail" (as_str (at_key "reason" (at_key "incomplete_details" response)))));
  di_args call :=
    Ok (default "" (as_str (at_key "name" call)), default (JObject []) (as_str (at_key "arguments" call) ≫= json_from_str));
  di_output call payload :=
    JObject [("call_id", at_key "call_id" call); ("output", JString (value_to_string payload)); ("type", JString "function_call_output")];
  di_next st response outputs := (JArray outputs, as_str (at_key "id" response))
|}.

Definition openai_dialect (cfg : LlmConfig) (task : option string) (tool_defs : list Value) : Dialect := {|
  di_start event :=
    (JArray [JObject [("content", JString (system_prompt task)); ("role", JString "system")];
             JObject [("content", JString (change_prompt event)); ("role", JString "user")]], None);
  di_sent st req :=
    lq_url req = lc_chat_url cfg /\ ("authorization", "Bearer " +:+ lc_api_key cfg) ∈ lq_headers req /\
    sent_field req "model" = Some (JString (lc_model cfg)) /\
    (exists tools, sent_field req "tools" = Some (JArray tools) /\
       Forall2 (fun tool t => offered tool (at_key "function" t)) tool_defs tools) /\
    sent_field req "messages" = Some (JArray (array_of st.1));
  di_read response :=
    let choice := at_index 0 (at_key "choices" response) in
    let finish := default "" (as_str (at_key "finish_reason" choice)) in
    match array_of (at_key "tool_calls" (at_key "message" choice)) with
    | [] =>
        let text := default "" (as_str (at_key "content" (at_key "message" choice))) in
        if bool_decide (finish = "stop") then Ok (inl text) else Err (UnexpectedFinish finish (Some text))
    | calls =>
        if bool_decide (finish = "tool_calls") || bool_decide (finish = "stop") then Ok (inr calls)
        else Err (UnexpectedFinish finish None)
    end;
  di_args call :=
    let raw := default "" (as_str (at_key "arguments" (at_key "function" call))) in
    args ← (if bool_decide (trim raw = "") then Ok (JObject [])
            else ok_or ("unparseable tool arguments " +:+ debug_str raw +:+ ": " +:+ json_error raw) (json_from_str raw));
    Ok (default "" (as_str (at_key "name" (at_key "function" call))), args);
  di_output call payload :=
    JObject [("content", JString (value_to_string payload)); ("role", JString "tool"); ("tool_call_id", at_key "id" call)];
  di_next st response outputs :=
    (JArray (array_of st.1 ++ at_key "message" (at_index 0 (at_key "choices" response)) :: outputs), None)
|}.

(** What the source sends is what the dialect asks for. *)
Lemma anthropic_sent cfg task tool_defs st :
  di_sent (anthropic_dialect cfg task tool_defs) st (anthropic_request cfg task tool_defs (array_of st.1)).
Proof. split_and!; try done. by left. Qed.

Lemma responses_sent cfg task tool_defs st :
  di_sent (responses_dialect cfg task tool_defs) st (responses_request cfg task (responses_tool_defs tool_defs) st.1 st.2).
Proof.
  destruct st as [input [id|]]; (split_and!; try done; [by right; left|]);
    (eexists; split; [done|]); apply Forall2_fmap_r, Forall_Forall2_diag, Forall_true; done.
Qed.

Lemma openai_sent cfg task tool_defs st :
  di_sent (openai_dialect cfg task tool_defs) st (openai_request cfg (openai_tool_defs tool_defs) (array_of st.1)).
Proof.
  split_and!; try done; [by right; left|]. eexists. split; [done|].
  apply Forall2_fmap_r, Forall_Forall2_diag, Forall_true. done.
Qed.

Definition dialect_of (cfg : LlmConfig) : option string -> list Value -> Dialect :=
  match lc_provider cfg with
  | Anthropic => anthropic_dialect cfg
  | OpenAi => openai_dialect cfg
  | OpenAiResponses => responses_dialect cfg
  end.

Lemma anthropic_conversation w m cfg task tool_defs n st :
  let '(t, r) := brain_run w m (anthropic_turns cfg task tool_defs n (array_of st.1)) in
  conversation (anthropic_dialect cfg task tool_defs) n st t r.
Proof.
  eapply (turns_conversation (anthropic_dialect cfg task tool_defs) (fun n st => anthropic_turns cfg task tool_defs n (array_of st.1))
    anthropic_tool); [intros st'; apply anthropic_sent|done|done|intros n' st'; reflexivity|].
  intros n' st' response. cbn [di_read anthropic_dialect]. cbv zeta. case_bool_decide; [done|]. by destruct (_ || _).
Qed.

Lemma responses_conversation w m cfg task tool_defs n st :
  let '(t, r) := brain_run w m (responses_turns cfg task (responses_tool_defs tool_defs) n st.1 st.2) in
  conversation (responses_dialect cfg task tool_defs) n st t r.
Proof.
  eapply (turns_conversation (responses_dialect cfg task tool_defs)
    (fun n st => responses_turns cfg task (responses_tool_defs tool_defs) n st.1 st.2)
    responses_tool); [intros st'; apply responses_sent|done|done|intros n' st'; reflexivity|].
  intros n' st' response. cbn [di_read responses_dialect]. cbv zeta. destruct (is_str "completed" _); [|done]. cbn [negb].
  by destruct (base.filter _ _).
Qed.

Lemma openai_conversation w m cfg task tool_defs n st :
  let '(t, r) := brain_run w m (openai_turns cfg (openai_tool_defs tool_defs) n (array_of st.1)) in
  conversation (openai_dialect cfg task tool_defs) n st t r.
Proof.
  eapply (turns_conversation (openai_dialect cfg task tool_defs) (fun n st => openai_turns cfg (openai_tool_defs tool_defs) n (array_of st.1))
    openai_tool); [intros st'; apply openai_sent| |done|intros n' st'; reflexivity|].
  - intros c. unfold openai_tool, openai_args. cbn [di_args openai_dialect]. case_bool_decide; [done|].
    by destruct (json_from_str _).
  - intros n' st' response. cbn [di_read openai_dialect]. cbv zeta. destruct (array_of (at_key "tool_calls" _)); [by case_bool_decide|].
    rewrite <- negb_orb. by destruct (_ || _).
Qed.

(** C20. Conversations: handling a change with a model, in any of the three
    dialects and whatever the endpoint and the tools answer, ends after at
    most eight requests.  Tools are called only for an answer that is
    successful and complete, each call it asks for once and in order; and
    every call is answered, under its id, in the body of the next request,
    after the messages before it (or the id of the answer that asks) - also a
    call whose tool failed or whose arguments did not parse.  A truncated or
    refused answer ends it with an error, with no call made. *)
Theorem brain_conversation w event cfg task tool_defs :
  is_Some (value_get "changeType" (eo_data event)) ->
  let '(t, r) := brain_run w 0 (handle_event event "llm" (Some cfg) task tool_defs) in
  let d := dialect_of cfg task tool_defs in
  conversation d 8 (di_start d event) t r /\ (length (base.filter (fun ev => is_post ev = true) t) <= 8)%nat.
Proof.
  intros [change Hc]. unfold handle_event. rewrite Hc. cbn [bool_decide decide_rel].
  assert (forall t r, conversation (dialect_of cfg task tool_defs) 8 (di_start (dialect_of cfg task tool_defs) event) t r ->
    conversation (dialect_of cfg task tool_defs) 8 (di_start (dialect_of cfg task tool_defs) event) t r /\
    (length (base.filter (fun ev => is_post ev = true) t) <= 8)%nat) as Hb.
  { intros t r H. split; [done|]. by eapply conversation_bounded. }
  unfold dialect_of in *. rewrite bool_decide_eq_true_2 by done. destruct (lc_provider cfg).
  - pose proof (anthropic_conversation w 0 cfg task tool_defs 8 (di_start (anthropic_dialect cfg task tool_defs) event)) as H.
    change (brain_run w 0 (anthropic_turns cfg task tool_defs 8 _)) with (brain_run w 0 (anthropic_brain event cfg task tool_defs)) in H.
    destruct (brain_run _ _ _) as [t r]. by apply Hb.
  - pose proof (openai_conversation w 0 cfg task tool_defs 8 (di_start (openai_dialect cfg task tool_defs) event)) as H.
    change (brain_run w 0 (openai_turns cfg _ 8 _)) with (brain_run w 0 (openai_brain event cfg task tool_defs)) in H.
    destruct (brain_run _ _ _) as [t r]. by apply Hb.
  - pose proof (responses_conversation w 0 cfg task tool_defs 8 (di_start (responses_dialect cfg task tool_defs) event)) as H.
    change (brain_run w 0 (responses_turns cfg task _ 8 _ _)) with (brain_run w 0 (responses_brain event cfg task tool_defs)) in H.
    destruct (brain_run _ _ _) as [t r]. by apply Hb.
Qed.
End conversation.

(** ** Examples *)
Section example.
#[local] Instance ex_pretty_brain : PrettyJson ZJson := {| to_string_pretty := value_to_string |}.

Definition ex_change (kind : string) (id : Z) : EventOccurrence (J := ZJson) :=
  {| eo_event_id := "e1"; eo_name := "high-value-orders.changed"; eo_timestamp := "0";
     eo_data := json_obj [("changeType", JString kind); ("after", json_obj [("id", json_int id); ("customer", JString "ada")])];
     eo_cursor := None; eo_meta := None |}.

Definition ex_llm : LlmConfig :=
  {| lc_provider := Anthropic; lc_chat_url := ANTHROPIC_URL; lc_api_key := "k"; lc_model := "m" |}.

(** A turn that asks for [get_order], and a final one. *)
Definition ex_tool_turn : Value (J := ZJson) :=
  json_obj [("stop_reason", JString "tool_use");
            ("content", JArray [json_obj [("type", JString "tool_use"); ("id", JString "t1"); ("name", JString "get_order");
                                          ("input", json_obj [("order_id", json_int 7)])]])].

Definition ex_final_turn : Value (J := ZJson) :=
  json_obj [("stop_reason", JString "end_turn"); ("content", JArray [json_obj [("type", JString "text"); ("text", JString "ok")]])].

(** Order 7 of a customer whose only other order was of 100. *)
Definition ex_order (total : Z) : Value (J := ZJson) := json_obj [("id", json_int 7); ("total", json_int total)].
Definition ex_history : Value (J := ZJson) :=
  json_obj [("orders", JArray [ex_order 900; json_obj [("id", json_int 3); ("total", json_int 100)]]); ("priorFlags", JArray [])].

Definition ex_world : World (J := ZJson) :=
  {| w_post n _ := Some (200, value_to_string (if Nat.eqb n 0 then ex_tool_turn else ex_final_turn));
     w_tool _ name _ := Ok (if String.eqb name "get_order" then ex_order 900 else ex_history) |}.

#[local] Abbreviation ex_chat :=
  (brain_run ex_world 0 (handle_event (S := JsonText.ZSerde) (D := PlainDebug) (ex_change "added" 7) "llm" (Some ex_llm) None [])).

Lemma brain_conversation_witness :
  let d := dialect_of (S := JsonText.ZSerde) (D := PlainDebug) ex_llm None [] in
  conversation (S := JsonText.ZSerde) d 8 (di_start d (ex_change "added" 7)) ex_chat.1 ex_chat.2 /\ length ex_chat.1 = 3%nat.
Proof.
  intros d. assert (length ex_chat.1 = 3%nat) as Hl by (vm_compute; reflexivity). split; [|exact Hl].
  pose proof (brain_conversation (S := JsonText.ZSerde) (D := PlainDebug) ex_world (ex_change "added" 7) ex_llm None []) as H.
  specialize (H ltac:(eexists; reflexivity)). destruct ex_chat as [t r]. exact (proj1 H).
Defined.

(** The policy flags that order, and would not flag it again. *)
Example policy_flags_example :
  tool_names (brain_run ex_world 0 (policy_brain (ex_change "added" 7))).1 = ["get_order"; "get_customer_history"; "flag_order"] /\
  tool_names (brain_run ex_world 0 (policy_brain (ex_change "deleted" 7))).1 = [].
Proof. split; vm_compute; reflexivity. Qed.

#[local] Abbreviation ex_policy := (brain_run ex_world 0 (policy_brain (ex_change "added" 7))).

Lemma policy_flags_witness :
  must_flag ex_world (ex_change "added" 7) /\ policy_end 7 (must_flag ex_world (ex_change "added" 7)) ex_policy.1 ex_policy.2.
Proof.
  assert (policy_end 7 (must_flag ex_world (ex_change "added" 7)) ex_policy.1 ex_policy.2) as H.
  { pose proof (policy_flags (FL := ZFloat_laws) ex_world (ex_change "added" 7)) as H.
    change (int_or (-1) (value_get "id" (event_row (eo_data (ex_change "added" 7))))) with 7 in H.
    destruct ex_policy as [t r]. exact H. }
  split; [|exact H]. apply (proj1 (proj2 (proj2 H))). rewrite (proj1 policy_flags_example). right. right. left.
Defined.
End example.
