(* ===== verification/AgentChoiceSafe.v ===== *)
(** * What the agent subscribes to is well-typed, and the server serves it.

    Whatever the model replies, the choice names a stream of the catalog and
    its arguments fit the stream's input schema; with this server's catalog,
    [events/stream] then accepts the subscription. *)
From S2P Require Import Prelude RustStd Lib Json Wire Signing Buffer Registry Feed Config Mapping State Handlers Dispatch.
From S2P Require Import Text F64 Client AgentConfig AgentBrain AgentChoice.

Section choice.
Context {J : JsonLib} {S : SerdeLib} {F : JsonFloat J} {P : PrettyJson J} {D : DebugLib} {U : Unicode}.

(** ** Well-typed arguments *)

(** A value of a property: one of its enum, if it has one. *)
Definition of_enum (prop v : Value) : Prop := forall allowed, enum_of prop = Some allowed -> v ∈ allowed.

Definition well_typed (def : EventDefinition) (arguments : option Value) : Prop :=
  match arguments with
  | None => True
  | Some (JObject m) =>
      exists props, props_of def = Some props /\
        forall k v, map_get k m = Some v -> exists prop, (k, prop) ∈ props /\ of_enum prop v
  | Some _ => False
  end.

(** Equal, or two strings that differ in case only. *)
Definition same_up_to_case (v w : Value) : Prop :=
  v = w \/ exists s t, v = JString s /\ w = JString t /\ eq_ignore_ascii_case s t = true.

Lemma check_value_Ok k prop v w : check_value k prop v = Ok w -> of_enum prop w /\ same_up_to_case w v.
Proof.
  unfold check_value, of_enum. destruct (enum_of prop) as [allowed|]; [|intros [= <-]; split; [done|by left]].
  case_bool_decide; [intros [= <-]; split; [by intros ? [= <-]|by left]|].
  rewrite ok_or_Ok. intros (s & Hs & [Hin Heq]%find_some)%bind_Some.
  split; [intros ? [= <-]; by apply list_elem_of_In|right].
  destruct v; try done. destruct w; try done. injection Hs as ->. eauto.
Qed.

(** Exactly the values that match nothing are refused. *)
Lemma check_value_Err k prop v e :
  check_value k prop v = Err e ->
  exists allowed, enum_of prop = Some allowed /\ forall w, w ∈ allowed -> ~ same_up_to_case w v.
Proof.
  unfold check_value. destruct (enum_of prop) as [allowed|]; [|done]. case_bool_decide as Hin; [done|].
  intros He. exists allowed. split; [done|]. intros w Hw [->|(s & t & -> & -> & Heq)]; [done|].
  destruct (as_str (JString t) ≫= _) eqn:E; [done|]. simpl in E. pose proof (find_none _ _ E (JString s)) as Hno. simpl in Hno.
  rewrite Hno in Heq by by apply list_elem_of_In. done.
Qed.

Lemma check_value_typed k prop v : of_enum prop v -> check_value k prop v = Ok v.
Proof.
  unfold check_value, of_enum. destruct (enum_of prop) as [allowed|]; [|done]. intros H.
  by rewrite bool_decide_eq_true_2 by by apply H.
Qed.

Lemma check_args_Ok props args checked m :
  check_args props args checked = Ok m ->
  forall k w, map_get k m = Some w ->
    map_get k checked = Some w \/
    exists prop v, (k, prop) ∈ props /\ of_enum prop w /\ (k, v) ∈ args /\ same_up_to_case w v.
Proof.
  revert checked. induction args as [|[k0 v0] args IH]; intros checked; simpl; [intros [= ->]; by left|].
  intros (prop & Hp & (value & Hv & H)%bind_Ok)%bind_Ok k w Hk. apply ok_or_Ok in Hp.
  destruct (IH _ H k w Hk) as [Hi|(p & v & Hpr & Hty & Hin & Hs)].
  - rewrite map_get_insert in Hi. case_decide as E; [|by left]. subst k0. injection Hi as <-. right.
    apply check_value_Ok in Hv as [Hty Hs]. exists prop, v0. split_and!; [by apply map_get_elem|done|left|done].
  - right. exists p, v. split_and!; [done|done|by right|done].
Qed.

(** What [validate_choice_args] lets through is well-typed, and each value is
    the model's, up to case. *)
Lemma validate_Ok def arguments arguments' :
  validate_choice_args def arguments = Ok arguments' ->
  well_typed def arguments' /\
  match arguments' with
  | Some (JObject m') => exists m, arguments = Some (JObject m) /\
      forall k w, map_get k m' = Some w -> exists v, (k, v) ∈ m /\ same_up_to_case w v
  | _ => arguments = None
  end.
Proof.
  unfold validate_choice_args. destruct arguments as [[| | | | |args]|]; try done; [|by intros [= <-]].
  intros (props & Hp & (m & Hm & [= <-])%bind_Ok)%bind_Ok. apply ok_or_Ok in Hp. pose proof (check_args_Ok _ _ _ _ Hm) as Hall. split.
  - exists props. split; [done|]. intros k v Hk. destruct (Hall k v Hk) as [?|(prop & v' & ? & ? & _)]; [done|]. eauto.
  - exists args. split; [done|]. intros k w Hk. destruct (Hall k w Hk) as [?|(prop & v' & _ & _ & ? & ?)]; [done|]. eauto.
Qed.

(** ** The keyword choice *)
Lemma max_by_key_elem {A} (f : A -> nat) l x : max_by_key f l = Some x -> x ∈ l /\ forall y, y ∈ l -> (f y <= f x)%nat.
Proof.
  unfold max_by_key. revert x. induction l as [|y l IH] using rev_ind; intros x; [done|]. rewrite foldl_snoc.
  destruct (foldl _ None l) as [b|] eqn:E.
  - destruct (IH b eq_refl) as [Hin Hall]. clear IH E. destruct (f y <? f b)%nat eqn:El; intros [= <-].
    + apply Nat.ltb_lt in El. split; [set_solver|]. intros z [Hz|Hz]%elem_of_app; [auto|]. apply list_elem_of_singleton in Hz as ->. lia.
    + apply Nat.ltb_ge in El. split; [set_solver|]. intros z [Hz|Hz]%elem_of_app; [specialize (Hall z Hz); lia|]. by apply list_elem_of_singleton in Hz as ->.
  - intros [= <-]. split; [set_solver|]. intros z [Hz|Hz]%elem_of_app; [|by apply list_elem_of_singleton in Hz as ->]. exfalso.
    destruct l as [|y' l] using rev_ind; [by apply elem_of_nil in Hz|]. rewrite foldl_snoc in E.
    destruct (foldl _ None l) as [b|]; [destruct (_ <? _)%nat|]; done.
Qed.

Lemma max_by_key_None {A} (f : A -> nat) l : max_by_key f l = None -> l = [].
Proof.
  unfold max_by_key. destruct l as [|y l] using rev_ind; [done|]. rewrite foldl_snoc.
  destruct (foldl _ None l) as [b|]; [destruct (_ <? _)%nat|]; done.
Qed.

Lemma pick_arguments_typed tokens props args k v :
  map_get k (foldl (pick_argument tokens) args props) = Some v ->
  map_get k args = Some v \/ exists prop, (k, prop) ∈ props /\ of_enum prop v.
Proof.
  revert args. induction props as [|[k0 prop] props IH]; intros args; [by left|]. simpl. intros H.
  apply IH in H as [H|(p & Hin & Hty)]; [|right; exists p; split; [by right|done]].
  unfold pick_argument in H. simpl in H. destruct (enum_of prop ≫= named_option tokens) as [hit|] eqn:E; [|by left].
  rewrite map_get_insert in H. case_decide as Ek; [|by left]. subst k0. injection H as <-. right.
  apply bind_Some in E as (options & He & Hf). exists prop. split; [by left|].
  intros allowed Ha. rewrite He in Ha. injection Ha as <-. apply find_some in Hf as [Hin _]. by apply list_elem_of_In.
Qed.

Lemma policy_choose_typed task catalog c :
  policy_choose task catalog = Some c ->
  exists def, def ∈ catalog /\ ed_name def = ch_name c /\ well_typed def (ch_arguments c) /\
    forall d, d ∈ catalog -> (overlap (words task) d <= overlap (words task) def)%nat.
Proof.
  unfold policy_choose. intros (best & Hb & [= <-])%bind_Some. apply max_by_key_elem in Hb as [Hin Hmax].
  exists best. cbn [ch_name ch_arguments]. split_and!; try done.
  destruct (props_of best) as [props|] eqn:Ep; [|done].
  match goal with |- context [foldl ?g [] props] => destruct (foldl g [] props) as [|kv l] eqn:Ef end; [done|]. exists props. split; [done|]. intros k v Hk.
  rewrite <- Ef in Hk. apply pick_arguments_typed in Hk as [?|?]; done.
Qed.

Lemma policy_choose_None task catalog : policy_choose task catalog = None -> catalog = [].
Proof.
  unfold policy_choose. destruct (max_by_key _ _) eqn:E; [done|]. intros _. by eapply max_by_key_None.
Qed.

(** ** The model's choice *)
Lemma read_choice_typed catalog reply c :
  read_choice catalog reply = Ok c ->
  exists def, def ∈ catalog /\ ed_name def = ch_name c /\ well_typed def (ch_arguments c).
Proof.
  unfold read_choice.
  intros (parsed & _ & (name & _ & (def & Hd & (arguments & _ & (arguments' & Hv & [= <-])%bind_Ok)%bind_Ok)%bind_Ok)%bind_Ok)%bind_Ok.
  apply ok_or_Ok, find_some in Hd as [Hin Hn]. apply bool_decide_eq_true in Hn. exists def. split_and!.
  - by apply list_elem_of_In.
  - done.
  - by apply validate_Ok in Hv as [? _].
Qed.

Lemma chat_once_run w n cfg system user :
  exists r ans o, brain_run (A := result BrainError string) w n (chat_once cfg system user) = ([Posted r ans], o).
Proof.
  unfold chat_once, ask. cbn [brain_run]. set (ans := w_post _ _ _). eexists _, ans.
  destruct ans as [[status body]|]; [destruct (negb _); [|destruct (json_from_str body)]|]; eexists; reflexivity.
Qed.

Lemma choose_typed w mode llm task event params catalog :
  let '(t, r) := brain_run w 0 (choose mode llm (Some task) event params catalog) in
  (length t <= 1)%nat /\ Forall (fun ev => match ev with Posted _ _ => True | Called _ _ _ => False end) t /\
  match r with
  | Ok c => exists def, def ∈ catalog /\ ed_name def = ch_name c /\ well_typed def (ch_arguments c)
  | Err _ => catalog = []
  end.
Proof.
  assert (forall r, r = ok_or EmptyCatalog (policy_choose task catalog) ->
    match r with
    | Ok c => exists def, def ∈ catalog /\ ed_name def = ch_name c /\ well_typed def (ch_arguments c)
    | Err _ => catalog = []
    end) as Hpol.
  { intros r ->. destruct (policy_choose task catalog) as [c|] eqn:E; simpl; [|by eapply policy_choose_None].
    destruct (policy_choose_typed _ _ _ E) as (def & ? & ? & ? & _). eauto. }
  unfold choose. destruct (if bool_decide (mode = "llm") then llm else None) as [cfg|]; [|cbn [brain_run]; split_and!; [simpl; lia|done|by apply Hpol]].
  unfold llm_choose. rewrite !brain_run_bind.
  destruct (chat_once_run w 0 cfg CHOOSER_PROMPT (choice_prompt task catalog)) as (req & ans & o & Et).
  unfold Outcome. rewrite Et. cbn [brain_run]. cbv zeta.
  split_and!; [simpl; lia|by repeat constructor|].
  destruct o as [reply|e]; [|by apply Hpol]. cbn [map_err mbind result_bind].
  destruct (read_choice catalog reply) as [c|e] eqn:E; [by apply read_choice_typed in E|by apply Hpol].
Qed.

(** ** The server's catalog *)
Lemma diff_name_schema c d :
  validate c = Ok () -> d ∈ m_defs (build_event_model c) -> ed_name d ∈ m_diff_names (build_event_model c) ->
  ed_input_schema d = Some change_type_input_schema.
Proof.
  intros Hv Hd [Hm Hn]%model_diff_names. pose proof (validate_disjoint c (ed_name d) Hv ltac:(by rewrite Hm)) as Hno.
  rewrite model_defs in Hd. apply elem_of_app in Hd as [(q & Hq & _)%list_elem_of_bind|(i & -> & Hi)%list_elem_of_fmap].
  - unfold query_defs in Hq. rewrite Hm in Hq. apply list_elem_of_singleton in Hq. by rewrite Hq.
  - destruct Hno. by apply (list_elem_of_fmap_2 in_name).
Qed.

Lemma change_type_typed d m v :
  ed_input_schema d = Some change_type_input_schema -> well_typed d (Some (JObject m)) ->
  map_get "changeType" m = Some v -> exists s, v = JString s /\ s ∈ CHANGE_TYPES.
Proof.
  intros Hs (props & Hp & Hall) Hv. unfold props_of in Hp. rewrite Hs in Hp. vm_compute in Hp. injection Hp as <-.
  destruct (Hall _ _ Hv) as (prop & Hin & Hty). apply list_elem_of_singleton in Hin. injection Hin as ->.
  specialize (Hty (fmap (M := list) JString CHANGE_TYPES) eq_refl). apply list_elem_of_fmap in Hty as (s & -> & ?). eauto.
Qed.

Lemma well_typed_valid c d arguments :
  validate c = Ok () -> d ∈ m_defs (build_event_model c) -> well_typed d arguments ->
  validate_event_params (m_diff_names (build_event_model c)) (ed_name d) arguments = Ok ().
Proof.
  intros Hv Hd Hty. unfold validate_event_params. destruct arguments as [[| | | | |m]|]; try done. simpl.
  case_bool_decide as Hn; [|done]. destruct (map_get "changeType" m) as [v|] eqn:Ev; [|done].
  destruct (change_type_typed d m v (diff_name_schema c d Hv Hd Hn) Hty Ev) as (s & -> & Hin). simpl.
  by rewrite bool_decide_eq_true_2.
Qed.

Lemma app_catalog config rnd http_ok s :
  app_new config rnd http_ok = Ok s ->
  validate config = Ok () /\ registry_list (a_registry s) = m_defs (build_event_model config) /\
  a_registry s = registry_new (m_defs (build_event_model config)) /\ a_diff_names s = m_diff_names (build_event_model config).
Proof.
  unfold app_new. intros ([] & Hv & H)%bind_Ok. destruct (validate config) as [[]|]; [|done]. destruct http_ok; [|done]. by injection H as <-.
Qed.

Lemma registry_get_elem ds d : d ∈ ds -> exists d', registry_get (registry_new ds) (ed_name d) = Some d' /\ d' ∈ ds.
Proof.
  intros Hd. rewrite registry_get_named. unfold last_named.
  destruct (last (base.filter (fun x => ed_name x = ed_name d) ds)) as [d'|] eqn:E.
  - exists d'. split; [done|]. apply last_Some_elem_of, list_elem_of_filter in E. tauto.
  - apply last_None in E. assert (d ∈ base.filter (fun x => ed_name x = ed_name d) ds) as Hin by by apply list_elem_of_filter.
    rewrite E in Hin. by apply elem_of_nil in Hin.
Qed.

(** C19. Type safety of the choice: given a task, the agent makes at most one
    request to the model and calls no tool; and whatever the model replies,
    what it subscribes to is a stream of the catalog, with arguments of its
    input schema only, each of the enum of its property if there is one.  It
    fails only on an empty catalog.  If the catalog is this server's, the
    server accepts the subscription. *)
Theorem choice_well_typed w mode llm task event params config rnd http_ok s :
  app_new config rnd http_ok = Ok s ->
  let catalog := registry_list (a_registry s) in
  let '(t, r) := brain_run w 0 (choose mode llm (Some task) event params catalog) in
  (length t <= 1)%nat /\ Forall (fun ev => match ev with Posted _ _ => True | Called _ _ _ => False end) t /\
  match r with
  | Ok c =>
      (exists def, def ∈ catalog /\ ed_name def = ch_name c /\ well_typed def (ch_arguments c)) /\
      is_ok (check_event s Push (ch_name c) (ch_arguments c)) = true
  | Err _ => catalog = []
  end.
Proof.
  intros (Hv & Hl & Hr & Hdn)%app_catalog catalog.
  pose proof (choose_typed w mode llm task event params catalog) as H. destruct (brain_run _ _ _) as [t r].
  destruct H as (H1 & H2 & H3). split_and!; [done..|]. destruct r as [c|]; [|done]. split; [done|].
  destruct H3 as (def & Hd & Hn & Hty). unfold catalog in Hd. rewrite Hl in Hd.
  destruct (registry_get_elem _ _ Hd) as (d' & Hg & Hd').
  assert (check_event s Push (ch_name c) (ch_arguments c) = Ok d') as ->; [|done].
  apply check_event_Ok. rewrite Hr, Hdn, <- Hn. split_and!; [done| |by apply well_typed_valid].
  rewrite (model_delivery _ _ Hd'). unfold delivery_modes. set_solver.
Qed.
End choice.

(** ** Examples *)
Section example.
#[local] Instance ex_pretty_choice : PrettyJson ZJson := {| to_string_pretty := value_to_string |}.

Definition ex_reply_world : World (J := ZJson) :=
  {| w_post _ _ := None; w_tool _ _ _ := Err "no tools" |}.

Lemma choice_well_typed_witness :
  let catalog := registry_list (a_registry ex_app) in
  let r := (brain_run ex_reply_world 0
    (choose (S := JsonText.ZSerde) "policy" None (Some "watch orders, deleted only") None None catalog)).2 in
  match r with
  | Ok c => is_ok (check_event ex_app Push (ch_name c) (ch_arguments c)) = true /\
      ch_arguments c = Some (JObject [("changeType", JString "deleted")])
  | Err _ => False
  end.
Proof.
  intros catalog r.
  assert (match r with Ok c => match ch_arguments c with Some (JObject [(k, JString v)]) => (k =? "changeType")%string && (v =? "deleted")%string | _ => false end
          | Err _ => false end = true) as Hr by (vm_compute; reflexivity).
  pose proof (choice_well_typed (S := JsonText.ZSerde) ex_reply_world "policy" None "watch orders, deleted only" None None
    ex_server 7 true ex_app app_new_ex) as H. cbv zeta in H. fold catalog in H. fold catalog in r.
  unfold r in *. clear r. destruct (brain_run _ _ _) as [t [c|e]]; [|discriminate Hr]. cbn [snd] in *.
  split; [exact (proj2 (proj2 (proj2 H)))|].
  destruct (ch_arguments c) as [[| | | | |[|[k [| | |v| |]] [|]]]|]; try discriminate Hr.
  apply andb_true_iff in Hr as [->%String.eqb_eq ->%String.eqb_eq]. reflexivity.
Defined.

(** A brace inside a string ends the object early: a reply that is nothing
    but a JSON object is not read. *)
Example brace_in_string :
  let text := "{" +:+ QUOTE +:+ "rationale" +:+ QUOTE +:+ ":" +:+ QUOTE +:+ "a } b" +:+ QUOTE +:+ "}" in
  bool_decide (is_Some (JsonText.read_json text)) = true /\ bool_decide (is_Some (first_json_object (S := JsonText.ZSerde) text)) = false.
Proof. split; vm_compute; reflexivity. Qed.

(** In the per-change mode the changes of a query carry no [changeType]: the
    agent takes them for incidents. *)
Lemma per_change_as_incident {J : JsonLib} {F : JsonFloat J} {P : PrettyJson J} {S : SerdeLib} {D : DebugLib} {C : Chrono}
    uuid now ev em o task tool_defs :
  map_feed_event PerChange uuid now ev = Some em -> (forall row, fe_before ev = Some row \/ fe_after ev = Some row -> value_get "changeType" row = None) ->
  eo_data o = em_data em ->
  handle_event o "policy" None task tool_defs = Done (Ok (triage_incident_policy o)).
Proof.
  intros Hm Hrow Ho. unfold handle_event. rewrite Ho.
  assert (value_get "changeType" (em_data em) = None) as ->; [|done].
  unfold map_feed_event in Hm. destruct (fe_change ev), (fe_after ev) as [a|], (fe_before ev) as [b|]; try done;
    injection Hm as <-; simpl; eauto.
Qed.
End example.
