(* ===== verification/Tools.v ===== *)
(** * The demo tools (crates/mcp-events-server/src: tools_db.rs and the tools
    of mcp_service.rs).

    PostgreSQL is a parameter: a statement takes its state to the next and
    gives rows or an error ([Postgres]).  [None] is a panic: a column that is
    missing or of another type.  A call is given whether a connection could
    be had; [db_client] is the cache of the connection.  The generated part
    of the rmcp service - schemas, the routing of a call by its name - is
    modelled by its result ([call_tool]); [get_info] by what it advertises. *)
From Stdlib Require Import SpecFloat.
From S2P Require Import Prelude RustStd Json Wire State F64.

(** ** PostgreSQL *)
Inductive PgValue : Type := PgI32 (z : Z) | PgF64 (x : F64) | PgText (s : string).

Definition PgRow : Type := list (string * PgValue).

Class Postgres (W : Type) := {
  pg_query : W -> string -> list PgValue -> W * result string (list PgRow);
  pg_row_count : string   (* the error of [query_opt] and [query_one] *)
}.

(** [Row::get] *)
Fixpoint row_get (c : string) (r : PgRow) : option PgValue :=
  match r with
  | [] => None
  | (c', v) :: r' => if bool_decide (c = c') then Some v else row_get c r'
  end.

Definition get_i32 (c : string) (r : PgRow) : option Z := match row_get c r with Some (PgI32 z) => Some z | _ => None end.
Definition get_f64 (c : string) (r : PgRow) : option F64 := match row_get c r with Some (PgF64 x) => Some x | _ => None end.
Definition get_text (c : string) (r : PgRow) : option string := match row_get c r with Some (PgText s) => Some s | _ => None end.

(** [Number::from_f64], and the sum of an iterator. *)
Class JsonOfFloat (J : JsonLib) := { num_of_f64 : F64 -> option Num }.

Definition f64_sum (l : list F64) : F64 := foldl (SFadd 53 1024) (S754_zero true) l.

Section tools.
Context {J : JsonLib} {N : JsonOfFloat J} {S : SerdeLib} {W : Type} {PG : Postgres W}.

Definition json_f64 (x : F64) : Value := match num_of_f64 x with Some n => JNumber n | None => JNull end.

Definition query_opt (w : W) (sql : string) (params : list PgValue) : W * result string (option PgRow) :=
  let '(w, r) := pg_query w sql params in
  (w, rows ← r; match rows with [] => Ok None | [row] => Ok (Some row) | _ => Err pg_row_count end).

Definition query_one (w : W) (sql : string) (params : list PgValue) : W * result string PgRow :=
  let '(w, r) := pg_query w sql params in
  (w, rows ← r; match rows with [row] => Ok row | _ => Err pg_row_count end).

(** ** The connection *)

(** The cached connection, if it is live: the fast path, and the check under
    the second lock. *)
Definition live_client (closed : nat -> bool) (cached : option nat) : option nat :=
  match cached with Some c => if closed c then None else Some c | None => None end.

(** After a dial: a live connection that is there by now is kept, else the
    new one is cached.  The cache, and the connection to use. *)
Definition install_client (closed : nat -> bool) (cached : option nat) (dialed : nat) : option nat * nat :=
  match live_client closed cached with
  | Some existing => (cached, existing)
  | None => (Some dialed, dialed)
  end.

(** [before] and [after]: the cache under the two locks. *)
Definition db_client (closed : nat -> bool) (before : option nat) (dial : result string nat) (after : option nat)
    : option nat * result string nat :=
  match live_client closed before with
  | Some c => (before, Ok c)
  | None =>
      match dial with
      | Err e => (after, Err e)
      | Ok c => let '(cache, used) := install_client closed after c in (cache, Ok used)
      end
  end.

(** ** The queries *)
Definition SQL_ORDER : string := "SELECT id, customer, total::float8 AS total, status FROM orders WHERE id = $1".
Definition SQL_ORDERS_OF : string := "SELECT id, total::float8 AS total, status FROM orders WHERE customer = $1 ORDER BY id".
Definition SQL_FLAGS_OF : string :=
  "SELECT f.order_id, f.reason, f.flagged_by, f.flagged_at::text AS flagged_at " +:+
  "FROM order_flags f JOIN orders o ON o.id = f.order_id " +:+ "WHERE o.customer = $1 ORDER BY f.id".
Definition SQL_EXISTS : string := "SELECT 1 FROM orders WHERE id = $1".
Definition SQL_FLAG : string :=
  "INSERT INTO order_flags (order_id, reason, flagged_by) " +:+
  "VALUES ($1, $2, $3) RETURNING id, flagged_at::text AS flagged_at".

Definition order_json (r : PgRow) : option Value :=
  id ← get_i32 "id" r; customer ← get_text "customer" r; total ← get_f64 "total" r; status ← get_text "status" r;
  Some (json_obj [("id", json_int id); ("customer", JString customer); ("total", json_f64 total); ("status", JString status)]).

Definition history_order_json (r : PgRow) : option Value :=
  id ← get_i32 "id" r; total ← get_f64 "total" r; status ← get_text "status" r;
  Some (json_obj [("id", json_int id); ("total", json_f64 total); ("status", JString status)]).

Definition flag_json (r : PgRow) : option Value :=
  order_id ← get_i32 "order_id" r; reason ← get_text "reason" r; by_ ← get_text "flagged_by" r; at_ ← get_text "flagged_at" r;
  Some (json_obj [("orderId", json_int order_id); ("reason", JString reason); ("flaggedBy", JString by_); ("flaggedAt", JString at_)]).

(** A result, or a panic. *)
Definition ToolOutcome : Type := option (result string Value).

Definition db_get_order (conn : result string ()) (w : W) (order_id : Z) : W * ToolOutcome :=
  match conn with
  | Err e => (w, Some (Err e))
  | Ok _ =>
      let '(w, row) := query_opt w SQL_ORDER [PgI32 order_id] in
      match row with
      | Err e => (w, Some (Err e))
      | Ok (Some r) => (w, v ← order_json r; Some (Ok v))
      | Ok None => (w, Some (Ok JNull))
      end
  end.

Definition db_get_customer_history (conn : result string ()) (w : W) (customer : string) : W * ToolOutcome :=
  match conn with
  | Err e => (w, Some (Err e))
  | Ok _ =>
      let '(w, orders) := pg_query w SQL_ORDERS_OF [PgText customer] in
      match orders with
      | Err e => (w, Some (Err e))
      | Ok orders =>
          let '(w, flags) := pg_query w SQL_FLAGS_OF [PgText customer] in
          match flags with
          | Err e => (w, Some (Err e))
          | Ok flags =>
              (w, totals ← mapM (get_f64 "total") orders;
                  orders_json ← mapM history_order_json orders;
                  flags_json ← mapM flag_json flags;
                  Some (Ok (json_obj [("customer", JString customer);
                                      ("orderCount", json_int (Z.of_nat (length orders)));
                                      ("lifetimeTotal", json_f64 (f64_sum totals));
                                      ("orders", JArray orders_json); ("priorFlags", JArray flags_json)])))
          end
      end
  end.

Definition db_flag_order (conn : result string ()) (w : W) (order_id : Z) (reason flagged_by : string) : W * ToolOutcome :=
  match conn with
  | Err e => (w, Some (Err e))
  | Ok _ =>
      let '(w, exists_) := query_opt w SQL_EXISTS [PgI32 order_id] in
      match exists_ with
      | Err e => (w, Some (Err e))
      | Ok None => (w, Some (Err ("order " +:+ i64_to_string order_id +:+ " does not exist")))
      | Ok (Some _) =>
          let '(w, row) := query_one w SQL_FLAG [PgI32 order_id; PgText reason; PgText flagged_by] in
          match row with
          | Err e => (w, Some (Err e))
          | Ok r =>
              (w, id ← get_i32 "id" r; at_ ← get_text "flagged_at" r;
                  Some (Ok (json_obj [("flagId", json_int id); ("orderId", json_int order_id); ("reason", JString reason);
                                      ("flaggedBy", JString flagged_by); ("flaggedAt", JString at_)])))
          end
      end
  end.

(** ** The tools *)
Definition dec_i32 (v : Value) : option Z := z ← as_i64 v; if (- 2 ^ 31 <=? z) && (z <? 2 ^ 31) then Some z else None.

(** The decoders of [GetOrderArgs], [CustomerHistoryArgs] and [FlagOrderArgs]. *)
Definition dec_GetOrderArgs (args : Map) : option Z := map_get "order_id" args ≫= dec_i32.
Definition dec_CustomerHistoryArgs (args : Map) : option string := map_get "customer" args ≫= as_str.
Definition dec_FlagOrderArgs (args : Map) : option (Z * string) :=
  order_id ← map_get "order_id" args ≫= dec_i32; reason ← map_get "reason" args ≫= as_str; Some (order_id, reason).

(** A call of a tool of the server: the text of its result, or of its error
    (bad arguments and unknown tools are refused by rmcp). *)
Definition call_tool (conn : result string ()) (w : W) (name : string) (args : Map) : W * option (result string string) :=
  let '(w, r) :=
    if bool_decide (name = "get_order") then
      match dec_GetOrderArgs args with
      | Some order_id => db_get_order conn w order_id
      | None => (w, Some (Err (decode_error "GetOrderArgs" (JObject args))))
      end
    else if bool_decide (name = "get_customer_history") then
      match dec_CustomerHistoryArgs args with
      | Some customer => db_get_customer_history conn w customer
      | None => (w, Some (Err (decode_error "CustomerHistoryArgs" (JObject args))))
      end
    else if bool_decide (name = "flag_order") then
      match dec_FlagOrderArgs args with
      | Some (order_id, reason) => db_flag_order conn w order_id reason "mcp-events-demo-agent"
      | None => (w, Some (Err (decode_error "FlagOrderArgs" (JObject args))))
      end
    else (w, Some (Err (decode_error name (JObject args)))) in
  (w, r ← r; Some (v ← r; Ok (value_to_string v))).

(** ** What the server advertises *)
Definition EVENTS_EXTENSION_ID : string := "io.modelcontextprotocol/events".

Definition events_extension : Value :=
  json_obj [("delivery", JArray (JString <$> ["poll"; "push"; "webhook"]));
            ("methods", JArray (JString <$> ["events/list"; "events/poll"; "events/stream"; "events/subscribe"; "events/unsubscribe"]))].

(** The [#[tool]] attributes: the names and descriptions of the tools. *)
Definition tools : list (string * string) :=
  [("get_order",
   "Fetch the current authoritative state of one order (id, customer, total, status). Event " +:+
   "payloads are triage-only; call this for the source of truth.");
   ("get_customer_history",
   "Fetch a customer's order history: order count, lifetime total, every order, and any prior " +:+
   "review flags. Use this to judge whether a new high-value order is routine for this customer or " +:+
   "anomalous.");
   ("flag_order",
   "Flag an order for human review, recording a reason. Writes to the order_flags table (which is " +:+
   "outside the watched publication, so flagging never re-triggers events). Errors if the order " +:+
   "does not exist.")].

(** What [get_info] sets of rmcp's [ServerInfo]; the protocol version is left
    to the negotiation. *)
Record ServerInfo := {
  si_tools : bool;                (* [enable_tools] *)
  si_extensions : option Map;
  si_name : string;
  si_title : option string;
  si_version : string;
  si_instructions : option string
}.

Definition CARGO_PKG_VERSION : string := "0.1.0".

Definition instructions : string :=
  "Orders demo server. Tools give authoritative order state and actions (get_order, " +:+
  "get_customer_history, flag_order). The draft MCP Events extension " +:+
  "(io.modelcontextprotocol/events) adds events/list, events/poll, events/stream, " +:+
  "events/subscribe and events/unsubscribe on this same endpoint: subscribe to " +:+
  "`high-value-orders.changed` to be notified when rows enter, change within, or leave the " +:+
  "high-value-orders continuous query. Event payloads are semantic diffs {changeType, before, " +:+
  "after} — triage from the event, verify via tools, act via flag_order.".

Definition get_info : ServerInfo :=
  {| si_tools := true; si_extensions := Some (map_insert EVENTS_EXTENSION_ID events_extension []);
     si_name := "drasi-mcp-events"; si_title := Some "Drasi-backed MCP server: orders tools + draft Events extension";
     si_version := CARGO_PKG_VERSION; si_instructions := Some instructions |}.

(** Only the tools that are declared do anything. *)
Lemma call_undeclared conn w name args : name ∉ tools.*1 -> call_tool conn w name args = (w, Some (Err (decode_error name (JObject args)))).
Proof.
  intros Hn. unfold call_tool. rewrite !bool_decide_eq_false_2; [done|..]; intros ->; apply Hn; unfold tools; set_solver.
Qed.

(** ** The connection is live, and a live one is never replaced *)
Lemma db_client_live closed before dial after cache used :
  db_client closed before dial after = (cache, Ok used) ->
  (closed used = false \/ dial = Ok used) /\ cache = Some used.
Proof.
  unfold db_client, install_client, live_client. intros H.
  destruct before as [c|]; [destruct (closed c) eqn:Ec|]; try (injection H as <- <-; auto);
    (destruct dial as [d|e]; [|done]); (destruct after as [x|]; [destruct (closed x) eqn:Ex|]); injection H as <- <-; auto.
Qed.

Lemma db_client_keeps closed before dial after cache r c :
  db_client closed before dial after = (cache, r) -> live_client closed before = None -> live_client closed after = Some c ->
  cache = after.
Proof.
  unfold db_client, install_client. intros H Hb Ha. rewrite Hb in H. destruct dial; [|by injection H]. rewrite Ha in H. by injection H.
Qed.
End tools.
