(* ===== verification/FlagOnce.v ===== *)
(** * The agent's order policy on the server's tools: an order is flagged at
    most once.

    The policy runs against the tools over a database of orders and flags
    (drasi/seed.sql), whose answers to the four statements that read and the
    one that writes are stated in [OrdersDb]. *)
From Stdlib Require Import SpecFloat.
From S2P Require Import Prelude RustStd Json Wire State JsonText Dispatch Text F64 Client AgentConfig AgentBrain AgentBrainSafe Tools.

(** ** The database *)
Record Order := { or_id : Z; or_customer : string; or_total : F64; or_status : string }.
Record Flag := { fg_id : Z; fg_order_id : Z; fg_reason : string; fg_by : string; fg_at : string }.

Definition flag_row (f : Flag) : PgRow :=
  [("order_id", PgI32 (fg_order_id f)); ("reason", PgText (fg_reason f)); ("flagged_by", PgText (fg_by f)); ("flagged_at", PgText (fg_at f))].

(** The flags of a customer's orders, as the join gives them. *)
Definition flags_of (orders : list Order) (flags : list Flag) (customer : string) : list Flag :=
  base.filter (fun f => fg_order_id f ∈ or_id <$> base.filter (fun o => or_customer o = customer) orders) flags.

(** What PostgreSQL does with the statements: any of them may fail; those
    that read change nothing, and the one that writes adds its flag or does
    nothing, whatever becomes of its answer. *)
Class OrdersDb {W : Type} (PG : Postgres W) := {
  db_orders : W -> list Order;
  db_flags : W -> list Flag;
  db_reads w sql params :
    sql ∈ [SQL_ORDER; SQL_ORDERS_OF; SQL_FLAGS_OF; SQL_EXISTS] ->
    db_orders (pg_query w sql params).1 = db_orders w /\ db_flags (pg_query w sql params).1 = db_flags w;
  db_flags_answer w customer rows :
    (pg_query w SQL_FLAGS_OF [PgText customer]).2 = Ok rows -> rows = flag_row <$> flags_of (db_orders w) (db_flags w) customer;
  db_exists_answer w id rows :
    (pg_query w SQL_EXISTS [PgI32 id]).2 = Ok rows -> rows <> [] -> id ∈ or_id <$> db_orders w;
  db_flag_write w id reason by_ :
    let w' := (pg_query w SQL_FLAG [PgI32 id; PgText reason; PgText by_]).1 in
    db_orders w' = db_orders w /\
    (db_flags w' = db_flags w \/ exists f, fg_order_id f = id /\ db_flags w' = db_flags w ++ [f])
}.

Section once.
Context {J : JsonLib} {N : JsonOfFloat J} {S : SerdeLib} {F : JsonFloat J} {P : PrettyJson J} {D : DebugLib}.
Context {JL : JsonLaws J} {SL : SerdeLaws S}.
Context {W : Type} {PG : Postgres W} {DB : OrdersDb PG}.

(** Whether a connection can be had, and what rmcp makes of a failed call
    ([None]: the handler panicked). *)
Context (conn : W -> result string ()) (call_error : option string -> string).

Lemma json_f64_wf x : wf_value (json_f64 x).
Proof. unfold json_f64. by destruct (num_of_f64 x). Qed.

(** ** A tool call of the agent, served *)
Definition text_content (text : string) : CallToolResult :=
  {| ct_is_error := Some false; ct_structured := None;
     ct_content := [Some (json_obj [("type", JString "text"); ("text", JString text)])] |}.

Definition agent_call (w : W) (name : string) (args : Value) : W * result string Value :=
  match as_object args with
  | None => (w, rmcp_call (fun _ _ => Err "") name args)
  | Some m =>
      let '(w, r) := call_tool (conn w) w name m in
      (w, rmcp_call (fun _ _ => match r with
                                | Some (Ok text) => Ok (text_content text)
                                | Some (Err e) => Err (call_error (Some e))
                                | None => Err (call_error None)
                                end) name args)
  end.

(** A brain on the tools, the model silent. *)
Fixpoint brain_in {A} (w : W) (p : Brain A) : W * A :=
  match p with
  | Done a => (w, a)
  | Post r k => brain_in w (k None)
  | Tool name args k => let '(w, r) := agent_call w name args in brain_in w (k r)
  end.

Lemma brain_in_try w name args k :
  brain_in w (tool_try name args k) =
  let '(w', r) := agent_call w name args in
  match r with Ok v => brain_in w' (k v) | Err e => (w', Err (ToolFailed e)) end.
Proof. unfold tool_try. cbn [brain_in]. destruct (agent_call w name args) as [w' []]; reflexivity. Qed.

(** ** The tools on the tables *)
Definition same_tables (w w' : W) : Prop := db_orders w' = db_orders w /\ db_flags w' = db_flags w.

Lemma same_tables_trans w1 w2 w3 : same_tables w1 w2 -> same_tables w2 w3 -> same_tables w1 w3.
Proof. intros [H1 H2] [H3 H4]. split; congruence. Qed.

Lemma query_reads w sql params :
  sql ∈ [SQL_ORDER; SQL_ORDERS_OF; SQL_FLAGS_OF; SQL_EXISTS] -> same_tables w (query_opt w sql params).1.
Proof.
  intros Hs. unfold query_opt. pose proof (db_reads w sql params Hs) as H. by destruct (pg_query w sql params).
Qed.

Lemma get_order_reads c w id : same_tables w (db_get_order c w id).1.
Proof.
  unfold db_get_order. destruct c as [[]|]; [|by split]. pose proof (query_reads w SQL_ORDER [PgI32 id] ltac:(left)) as H.
  destruct (query_opt w _ _) as [w' [[row|]|]]; exact H.
Qed.

Definition flag_value (f : Flag) : Value :=
  json_obj [("orderId", json_int (fg_order_id f)); ("reason", JString (fg_reason f)); ("flaggedBy", JString (fg_by f));
            ("flaggedAt", JString (fg_at f))].

Lemma flags_json l : mapM flag_json (flag_row <$> l) = Some (flag_value <$> l).
Proof. 
  induction l as [|f l IH]; [done|]. rewrite !fmap_cons.
  change (mapM flag_json (flag_row f :: (flag_row <$> l))) with
    (y ← flag_json (flag_row f); k ← mapM flag_json (flag_row <$> l); Some (y :: k)). by rewrite IH.
Qed.

(** The history of a customer, when it is given. *)
Lemma get_history_spec c w customer :
  let '(w', r) := db_get_customer_history c w customer in
  same_tables w w' /\
  forall v, r = Some (Ok v) ->
    wf_value v /\ value_get "priorFlags" v = Some (JArray (flag_value <$> flags_of (db_orders w) (db_flags w) customer)).
Proof.
  unfold db_get_customer_history. destruct c as [[]|e]; [|by split; [split|]].
  pose proof (db_reads w SQL_ORDERS_OF [PgText customer] ltac:(set_solver)) as H1.
  destruct (pg_query w SQL_ORDERS_OF _) as [w1 [orders|]]; [|by split].
  pose proof (db_reads w1 SQL_FLAGS_OF [PgText customer] ltac:(set_solver)) as H2.
  pose proof (db_flags_answer w1 customer) as Ha.
  destruct (pg_query w1 SQL_FLAGS_OF _) as [w2 [rows|]]; (split; [by eapply same_tables_trans|]); [|done].
  intros v Hv. specialize (Ha rows eq_refl). cbn [fst] in H1. destruct H1 as [Eo Ef]. rewrite Eo, Ef in Ha. subst rows.
  rewrite flags_json in Hv. apply bind_Some in Hv as (totals & _ & Hv). apply bind_Some in Hv as (orders_json & Ho & Hv).
  injection Hv as <-. split; [|reflexivity]. apply json_obj_wf. repeat apply Forall_cons_2; cbn [snd]; try done.
  - by apply json_f64_wf.
  - apply wf_array. apply mapM_Some_1 in Ho. clear -Ho. induction Ho as [|x y xs ys Hxy _ IH]; constructor; [|done].
    unfold history_order_json in Hxy. repeat (apply bind_Some in Hxy as (? & _ & Hxy)). injection Hxy as <-.
    apply json_obj_wf. repeat apply Forall_cons_2; cbn [snd]; try done. by apply json_f64_wf.
  - apply wf_array, Forall_fmap, Forall_true. intros f. apply json_obj_wf. by repeat apply Forall_cons_2.
Qed.

(** What the agent makes of the text of a result. *)
Lemma text_payload v : wf_value v -> tool_payload (text_content (value_to_string v)) = v.
Proof. intros Hv. unfold tool_payload. cbn [ct_is_error text_content default ct_structured]. unfold text_of. simpl. by rewrite json_from_to. Qed.

Lemma call_reads w name m :
  name = "get_order" \/ name = "get_customer_history" -> same_tables w (call_tool (conn w) w name m).1.
Proof.
  unfold call_tool. intros [-> | ->].
  - rewrite bool_decide_eq_true_2 by done. destruct (dec_GetOrderArgs m) as [id|]; [|by split].
    pose proof (get_order_reads (conn w) w id) as H. by destruct (db_get_order _ _ _).
  - rewrite bool_decide_eq_false_2, bool_decide_eq_true_2 by done. destruct (dec_CustomerHistoryArgs m) as [c|]; [|by split].
    pose proof (get_history_spec (conn w) w c) as H. destruct (db_get_customer_history _ _ _) as [w' r]. apply H.
Qed.

Lemma agent_reads w name args :
  name = "get_order" \/ name = "get_customer_history" -> same_tables w (agent_call w name args).1.
Proof.
  intros Hn. unfold agent_call. destruct (as_object args) as [m|]; [|by split].
  pose proof (call_reads w name m Hn) as H. by destruct (call_tool _ _ _ _).
Qed.

(** The history the agent gets. *)
Lemma agent_history w customer w' v :
  agent_call w "get_customer_history" (json_obj [("customer", JString customer)]) = (w', Ok v) ->
  array_or_empty (value_get "priorFlags" v) = flag_value <$> flags_of (db_orders w) (db_flags w) customer.
Proof.
  unfold agent_call. change (as_object (json_obj [("customer", JString customer)])) with (Some [("customer", JString customer)]).
  cbv iota beta. unfold call_tool. rewrite bool_decide_eq_false_2, bool_decide_eq_true_2 by done.
  change (dec_CustomerHistoryArgs [("customer", JString customer)]) with (Some customer). cbv iota beta.
  pose proof (get_history_spec (conn w) w customer) as H. destruct (db_get_customer_history _ _ _) as [w1 r].
  destruct H as [_ H]. destruct r as [[h|e]|]; [|done|done]. intros Hc. specialize (H h eq_refl) as [Hwf Hf].
  unfold rmcp_call in Hc. cbn [as_object json_obj] in Hc. simpl in Hc. injection Hc as _ Hv.
  change (tool_payload (text_content (value_to_string h)) = v) in Hv. rewrite text_payload in Hv by done. subst v.
  unfold array_or_empty. by rewrite Hf.
Qed.

(** A flag is of an order on record. *)
Lemma flag_order_writes c w id reason by_ :
  let w' := (db_flag_order c w id reason by_).1 in
  db_orders w' = db_orders w /\
  (db_flags w' = db_flags w \/ id ∈ or_id <$> db_orders w /\ exists f, fg_order_id f = id /\ db_flags w' = db_flags w ++ [f]).
Proof.
  unfold db_flag_order. destruct c as [[]|e]; [|by split; [|left]].
  pose proof (query_reads w SQL_EXISTS [PgI32 id] ltac:(set_solver)) as [Ho Hf].
  pose proof (db_exists_answer w id) as Hex. unfold query_opt in *. destruct (pg_query w SQL_EXISTS _) as [w1 r1].
  cbn [fst snd] in *. destruct r1 as [[|row [|]]|]; cbn; try (by split; [|left]). specialize (Hex _ eq_refl ltac:(done)).
  unfold query_one. pose proof (db_flag_write w1 id reason by_) as [Ho2 Hf2]. destruct (pg_query w1 SQL_FLAG _) as [w2 r2].
  cbn [fst snd] in *. assert (forall A (x : A), let w' := (w2, x).1 in
    db_orders w' = db_orders w /\ (db_flags w' = db_flags w \/ id ∈ or_id <$> db_orders w /\
      exists f, fg_order_id f = id /\ db_flags w' = db_flags w ++ [f])) as H.
  { intros A x. cbn. rewrite Ho2, Ho. split; [done|]. rewrite Hf in Hf2. destruct Hf2 as [->|?]; [by left|right; by split]. }
  destruct r2 as [[|? []]|]; cbn; apply (H _ ()).
Qed.

Definition flags_on (id : Z) (w : W) : list Flag := base.filter (fun f => fg_order_id f = id) (db_flags w).

(** What the review of an order may do to the tables: nothing, or its first
    flag. *)
Definition first_flag (id : Z) (w w' : W) : Prop :=
  db_orders w' = db_orders w /\
  (db_flags w' = db_flags w \/ flags_on id w = [] /\ exists f, fg_order_id f = id /\ db_flags w' = db_flags w ++ [f]).

Lemma same_first id w w' : same_tables w w' -> first_flag id w w'.
Proof. intros [Ho Hf]. split; [done|by left]. Qed.

Lemma flags_on_app id w w' f :
  fg_order_id f = id -> db_flags w' = db_flags w ++ [f] -> flags_on id w' = flags_on id w ++ [f].
Proof. unfold flags_on. intros Hf ->. rewrite filter_app. by rewrite filter_cons_True. Qed.

Lemma first_flag_trans id w1 w2 w3 : first_flag id w1 w2 -> first_flag id w2 w3 -> first_flag id w1 w3.
Proof.
  intros [Ho1 Hf1] [Ho2 Hf2]. split; [congruence|]. destruct Hf2 as [->|[Hno2 (f & Hf & Hf2)]]; [done|].
  destruct Hf1 as [H1|[_ (g & Hg & Hf1)]].
  - right. split; [unfold flags_on in *; by rewrite <- H1|]. exists f. split; [done|congruence].
  - rewrite (flags_on_app _ _ _ _ Hg Hf1) in Hno2. by destruct (flags_on id w1).
Qed.

(** Orders have one customer. *)
Definition owned (id : Z) (customer : string) (w : W) : Prop :=
  forall o, o ∈ db_orders w -> or_id o = id -> or_customer o = customer.

Lemma agent_flag_writes w id reason :
  i64_min <= id <= i64_max ->
  let w' := (agent_call w "flag_order" (json_obj [("order_id", json_int id); ("reason", JString reason)])).1 in
  db_orders w' = db_orders w /\
  (db_flags w' = db_flags w \/ id ∈ or_id <$> db_orders w /\ exists f, fg_order_id f = id /\ db_flags w' = db_flags w ++ [f]).
Proof.
  intros Hid. unfold agent_call.
  change (as_object (json_obj [("order_id", json_int id); ("reason", JString reason)]))
    with (Some [("order_id", json_int id); ("reason", JString reason)]). cbv iota beta.
  unfold call_tool. rewrite !bool_decide_eq_false_2 by done. rewrite bool_decide_eq_true_2 by done.
  unfold dec_FlagOrderArgs. change (map_get "order_id" _) with (Some (json_int id)). change (map_get "reason" _) with (Some (JString reason)).
  cbn [mbind option_bind as_str]. unfold dec_i32.
  change (as_i64 (json_int id)) with (num_as_i64 (num_of_Z id)). rewrite num_as_i64_of by done. cbn [mbind option_bind].
  destruct (_ && _); cbn [mbind option_bind]; [|by split; [|left]].
  pose proof (flag_order_writes (conn w) w id reason "mcp-events-demo-agent") as H. by destruct (db_flag_order _ _ _ _ _).
Qed.

Lemma unflagged_none w id customer :
  i64_min <= id <= i64_max -> owned id customer w -> id ∈ or_id <$> db_orders w ->
  has_flag id (flag_value <$> flags_of (db_orders w) (db_flags w) customer) = false -> flags_on id w = [].
Proof.
  intros Hr Hown (o & Ho & Hin)%list_elem_of_fmap Hno. unfold flags_on. apply filter_none, Forall_forall. intros f Hf Hid.
  apply not_true_iff_false in Hno. apply Hno, has_flag_true. exists (flag_value f).
  split; [|unfold flag_value; change (value_get "orderId" _) with (Some (json_int (fg_order_id f))); rewrite Hid; by apply num_as_i64_of].
  apply list_elem_of_fmap_2, list_elem_of_filter. split; [|done]. apply list_elem_of_fmap. exists o.
  rewrite Hid, list_elem_of_filter. split_and!; [done| |done]. by apply Hown.
Qed.

(** ** The review of an order *)
Definition event_order (event : EventOccurrence) : Z := int_or (-1) (value_get "id" (event_row (eo_data event))).
Definition event_customer (event : EventOccurrence) : string := str_or "?" (value_get "customer" (event_row (eo_data event))).

Lemma policy_first_flag w event :
  i64_min <= event_order event <= i64_max -> owned (event_order event) (event_customer event) w ->
  first_flag (event_order event) w (brain_in w (policy_brain event)).1.
Proof.
  intros Hid Hown. unfold policy_brain. fold (event_order event) (event_customer event).
  case_bool_decide; [by apply same_first|]. rewrite brain_in_try.
  pose proof (agent_reads w "get_order" (json_obj [("order_id", json_int (event_order event))]) ltac:(auto)) as H1.
  destruct (agent_call w "get_order" _) as [w1 [order|]]; [|by apply same_first].
  destruct (is_null order || _); [by apply same_first|]. rewrite brain_in_try.
  pose proof (agent_reads w1 "get_customer_history" (json_obj [("customer", JString (event_customer event))]) ltac:(auto)) as H2.
  pose proof (agent_history w1 (event_customer event)) as Hh.
  destruct (agent_call w1 "get_customer_history" _) as [w2 [history|]]; [|by apply same_first; eapply same_tables_trans].
  rewrite (Hh _ _ eq_refl). destruct (has_flag _ _) eqn:Eh; [by apply same_first; eapply same_tables_trans|].
  eapply first_flag_trans; [by apply same_first|]. eapply first_flag_trans; [by apply same_first|]. cbn [fst] in H1, H2.
  destruct (anomaly _ _ _ _ _); [|by apply same_first]. rewrite brain_in_try.
  match goal with |- context [agent_call w2 "flag_order" (json_obj [_; ("reason", JString ?r)])] =>
    pose proof (agent_flag_writes w2 _ r Hid) as [Ho Hf] end.
  destruct (agent_call w2 "flag_order" _) as [w3 r3]. cbn [fst] in Ho, Hf.
  assert (first_flag (event_order event) w2 w3) as H3; [|by destruct r3].
  split; [done|]. destruct Hf as [?|[Hin Hf]]; [by left|]. right. split; [|done].
  destruct H1 as [H1 _], H2 as [H2 H2']. eapply unflagged_none; [done| |done|].
  - unfold owned. rewrite H2, H1. apply Hown.
  - rewrite H2, H2'. exact Eh.
Qed.

(** C22. Whatever events of an order come, in whatever number - at least once
    delivery repeats them - the order policy on the server's tools leaves the
    orders as they are, the flags that were there in place, and at most one
    flag more than before, of that order and only when it had none: also when
    a statement fails, or an answer is lost after its row is written. *)
Theorem flag_once w events id customer :
  i64_min <= id <= i64_max -> owned id customer w ->
  Forall (fun e => event_order e = id /\ event_customer e = customer) events ->
  let w' := foldl (fun w e => (brain_in w (policy_brain e)).1) w events in
  first_flag id w w' /\ (length (flags_on id w') <= Nat.max 1 (length (flags_on id w)))%nat.
Proof.
  intros Hid Hown Hev. cbv zeta. set (w' := foldl _ w events).
  assert (first_flag id w w') as H.
  { subst w'. revert w Hown. induction Hev as [|e events [He Hc] _ IH]; intros w Hown; [by apply same_first; split|].
    simpl. rewrite <- He, <- Hc in Hown. pose proof (policy_first_flag w e ltac:(by rewrite He) Hown) as H1.
    rewrite He in H1. eapply first_flag_trans; [done|]. apply IH. rewrite <- He, <- Hc.
    unfold owned. destruct H1 as [-> _]. exact Hown. }
  split; [done|]. destruct H as [_ [E|[Hno (f & Hf & E)]]].
  - unfold flags_on. rewrite E. lia.
  - rewrite (flags_on_app _ _ _ _ Hf E), Hno. simpl. lia.
Qed.
End once.

(** ** Examples: two lists as the database *)
Section example.
#[local] Instance ex_pretty_flag : PrettyJson ZJson := {| to_string_pretty := value_to_string |}.

#[local] Instance ZOfFloat : JsonOfFloat ZJson := {|
  num_of_f64 x :=
    match x with
    | S754_zero _ => Some 0
    | S754_finite s m e => Some ((if s then -1 else 1) * (if 0 <=? e then Z.pos m * 2 ^ e else Z.pos m / 2 ^ (- e)))
    | _ => None
    end
|}.

Definition Tables : Type := (list Order * list Flag)%type.

Definition order_row (o : Order) : PgRow :=
  [("id", PgI32 (or_id o)); ("customer", PgText (or_customer o)); ("total", PgF64 (or_total o)); ("status", PgText (or_status o))].

Definition tables_query (w : Tables) (sql : string) (params : list PgValue) : Tables * result string (list PgRow) :=
  let '(orders, flags) := w in
  match params with
  | [PgI32 id] =>
      let found := base.filter (fun o => or_id o = id) orders in
      if bool_decide (sql = SQL_ORDER) then (w, Ok (order_row <$> found))
      else if bool_decide (sql = SQL_EXISTS) then (w, Ok ((fun _ => []) <$> found))
      else (w, Err "syntax error")
  | [PgText customer] =>
      if bool_decide (sql = SQL_ORDERS_OF) then (w, Ok (order_row <$> base.filter (fun o => or_customer o = customer) orders))
      else if bool_decide (sql = SQL_FLAGS_OF) then (w, Ok (flag_row <$> flags_of orders flags customer))
      else (w, Err "syntax error")
  | [PgI32 id; PgText reason; PgText by_] =>
      if bool_decide (sql = SQL_FLAG) then
        let n := 1 + Z.of_nat (length flags) in
        ((orders, flags ++ [{| fg_id := n; fg_order_id := id; fg_reason := reason; fg_by := by_; fg_at := "now" |}]),
         Ok [[("id", PgI32 n); ("flagged_at", PgText "now")]])
      else (w, Err "syntax error")
  | _ => (w, Err "syntax error")
  end.

#[local] Instance TablesPg : Postgres Tables := {| pg_query := tables_query; pg_row_count := "unexpected number of rows" |}.

#[local] Instance TablesDb : OrdersDb TablesPg.
Proof.
  refine {| db_orders := fst; db_flags := snd |}.
  - intros [orders flags] sql params Hs. cbn [pg_query TablesPg tables_query].
    destruct params as [|[] [|[] [|[] [|]]]]; try done; repeat case_bool_decide; try done. subst sql.
    exfalso. revert Hs. rewrite !elem_of_cons, elem_of_nil. intros [H|[H|[H|[H|[]]]]]; apply (f_equal String.length) in H; vm_compute in H; lia.
  - intros [orders flags] customer rows H. cbn in H. by injection H as <-.
  - intros [orders flags] id rows H Hne. cbn in H. injection H as <-. cbn [fst].
    destruct (base.filter _ orders) as [|o l] eqn:E; [done|]. apply list_elem_of_fmap. exists o.
    assert (o ∈ base.filter (fun o => or_id o = id) orders) as Hin by (rewrite E; left).
    apply list_elem_of_filter in Hin as [<- ?]. by split.
  - intros [orders flags] id reason by_. cbn. split; [done|]. right. eexists. split; [|reflexivity]. reflexivity.
Defined.

Definition ex_tables : Tables :=
  ([{| or_id := 3; or_customer := "ada"; or_total := f64_of_Z 100; or_status := "paid" |};
    {| or_id := 7; or_customer := "ada"; or_total := f64_of_Z 900; or_status := "open" |}], []).

Definition ex_review (w : Tables) (e : EventOccurrence) : Tables :=
  (brain_in (S := JsonText.ZSerde) (fun _ => Ok ()) (default "panic") w
     (policy_brain e)).1.

Definition ex_events : list EventOccurrence := [ex_change "added" 7; ex_change "added" 7; ex_change "updated" 7].

Lemma flag_once_witness :
  first_flag (PG := TablesPg) 7 ex_tables (foldl ex_review ex_tables ex_events) /\
  fg_order_id <$> (foldl ex_review ex_tables ex_events).2 = [7].
Proof.
  split; [|vm_compute; reflexivity].
  pose proof (flag_once (SL := JsonText.ZSerde_laws) (fun _ => Ok ()) (default "panic") ex_tables ex_events 7 "ada") as H.
  refine (proj1 (H _ _ _)).
  - unfold i64_min, i64_max. lia.
  - intros o. unfold ex_tables. cbn [db_orders TablesDb fst]. rewrite !elem_of_cons, elem_of_nil. by intros [->|[->|[]]].
  - unfold ex_events. repeat constructor.
Defined.
End example.
