(* ===== verification/Server.v ===== *)
(** * The server as a whole: start-up (crates/mcp-events-server/src: main.rs,
    [ServerConfig::load], [spawn_feed_pipeline]), the routes of
    [dispatch::router], and what its event types carry.

    The file system, the YAML decoder and the socket are arguments; a started
    server is its state and what it runs beside the requests. *)
From S2P Require Import Prelude RustStd Lib Json Canon Wire Buffer Registry Store Signing Ssrf Feed Mock.
From S2P Require Import Config Mapping State Handlers Subscribe Stream Dispatch.

Inductive StartError : Type :=
| ConfigUnread (e : string)
| ConfigUnparsed (e : string)
| ConfigInvalid (e : ConfigError)
| AppFailed (e : AppError)
| BindFailed (addr : string).

(** What the pipeline forwards; the interval in ms. *)
Inductive FeedSource : Type :=
| MockSource (query_id : string) (interval : Z)
| DrasiSource (url : string).

(** The routes; a method a path does not serve is refused with 405, an unknown
    path with 404. *)
Inductive Route : Type := HybridRoute | HealthRoute | InjectRoute | BadMethod | NoRoute.

Definition route (path method : string) : Route :=
  if bool_decide (path = "/mcp") then HybridRoute
  else if bool_decide (path = "/healthz") then
    if bool_decide (method ∈ ["GET"; "HEAD"]) then HealthRoute else BadMethod
  else if bool_decide (path = "/inject") then
    if bool_decide (method = "POST") then InjectRoute else BadMethod
  else NoRoute.

Definition healthz : string := "ok".

Section server.
Context {J : JsonLib} {C : Chrono} {Y : Crypto} {D : DebugLib}.

(** ** Start-up *)

(** [ServerConfig::load]: [file] is what reading the file gives, [yaml] the
    decoder. *)
Definition config_load (file : result string string) (yaml : string -> result string ServerConfig)
    : result StartError ServerConfig :=
  raw ← map_err ConfigUnread file;
  cfg ← map_err ConfigUnparsed (yaml raw);
  _ ← map_err ConfigInvalid (validate cfg);
  Ok cfg.

(** The source [spawn_feed_pipeline] spawns; [None]: the feed is disabled. *)
Definition feed_source (c : ServerConfig) : option FeedSource :=
  match fs_kind (c_feed c) with
  | MockKind =>
      let query_id :=
        default "" (match fs_query_id (c_feed c) with Some id => Some id | None => q_id <$> head (c_queries c) end) in
      Some (MockSource query_id (default 2000 (fs_interval_ms (c_feed c))))
  | DrasiSse => DrasiSource <$> fs_url (c_feed c)
  end.

Record Server := {
  sv_state : AppState;
  sv_feed : option FeedSource;
  sv_worker : bool;   (* the delivery worker was spawned *)
  sv_addr : string
}.

(** [main]; [bound] tells whether an address can be bound. *)
Definition server_start (file : result string string) (yaml : string -> result string ServerConfig)
    (rnd : Z) (http_ok : bool) (bound : string -> bool) : result StartError Server :=
  cfg ← config_load file yaml;
  state ← map_err AppFailed (app_new cfg rnd http_ok);
  let feed := feed_source (a_config state) in
  let worker := wh_enabled (c_webhook (a_config state)) in
  let addr := c_host (a_config state) +:+ ":" +:+ u64_to_string (c_port (a_config state)) in
  if bound addr then Ok {| sv_state := state; sv_feed := feed; sv_worker := worker; sv_addr := addr |}
  else Err (BindFailed addr).

(** A started server has a valid configuration and a fresh state of it, its
    feed is never disabled, and its event types offer webhook delivery exactly
    if the worker runs. *)
Lemma server_started file yaml rnd http_ok bound sv :
  server_start file yaml rnd http_ok bound = Ok sv ->
  let c := a_config (sv_state sv) in
  validate c = Ok () /\ app_new c rnd true = Ok (sv_state sv) /\ is_Some (sv_feed sv) /\
  (forall d, d ∈ registry_list (a_registry (sv_state sv)) -> Webhook ∈ ed_delivery d <-> sv_worker sv = true).
Proof.
  unfold server_start. intros (cfg & Hload & (s & Happ & H)%bind_Ok)%bind_Ok.
  unfold config_load in Hload. apply bind_Ok in Hload as (raw & _ & (cfg' & _ & ([] & Hv & [= <-])%bind_Ok)%bind_Ok).
  destruct (validate cfg') as [[]|e] eqn:Ev; [|done]. clear Hv. unfold app_new in *. rewrite Ev in *. cbn [map_err mbind result_bind] in *.
  destruct http_ok; [|done]. simpl in Happ. injection Happ as <-. cbv zeta in H. destruct (bound _); [|done]. injection H as <-. cbn.
  rewrite Ev. split_and!; [done|done| |].
  - unfold feed_source. destruct (fs_kind _) eqn:Ek; [by eexists|]. apply validate_spec in Ev as (_ & _ & Hu).
    destruct (Hu Ek) as [u ->]. by eexists.
  - intros d Hd. rewrite (model_delivery cfg' d Hd). unfold delivery_modes. destruct (wh_enabled _); set_solver.
Qed.

(** ** The server at work *)

(** What happens to the shared state: an event of the feed is forwarded, an
    occurrence is injected, a request or a task takes a step on the buffer or
    the store.  Steps on the buffer that are not emissions are reads and
    subscriptions to the live channel. *)
Inductive ServerOp : Type :=
| Fed (ev : FeedEvent) (uuid : string) (map_now emit_now : Z)
| Injected (r : InjectRequest) (now emit_now : Z) (uuid : string)
| Looked (now : Z) (name : string)
| Listened (name : string)
| OnStore (o : StoreOp).

Definition server_step (s : AppState) (o : ServerOp) : AppState :=
  match o with
  | Fed ev uuid map_now emit_now =>
      with_buffer s (pipeline_step (c_event_modeling (a_config s)) (a_registry s) (a_buffer s) uuid map_now emit_now ev)
  | Injected r now emit_now uuid => (handle_inject s now emit_now uuid r).1
  | Looked now name => with_buffer s (buf_step (a_buffer s) (OpRead now name))
  | Listened name => with_buffer s (buf_step (a_buffer s) (OpLive name))
  | OnStore o => with_store s (store_step (a_subs s) o)
  end.

Definition server_run (s : AppState) (ops : list ServerOp) : AppState := foldl server_step s ops.

(** The occurrences of a type: those of the feed, and those injected. *)
Definition fed_as (mode : EventModeling) (name : string) (o : ServerOp) : option EmittedEvent :=
  match o with
  | Fed ev uuid map_now _ =>
      em ← map_feed_event mode uuid map_now ev; if bool_decide (em_name em = name) then Some em else None
  | _ => None
  end.

Definition injected_as (name : string) (o : ServerOp) : option EmittedEvent :=
  match o with
  | Injected r now _ uuid =>
      if bool_decide (ir_name r = name) then
        Some {| em_name := name; em_event_id := default uuid (ir_event_id r); em_timestamp := now; em_data := ir_data r |}
      else None
  | _ => None
  end.

(** The events of an op are of a configured query. *)
Definition of_query (c : ServerConfig) (o : ServerOp) : Prop :=
  match o with Fed ev _ _ _ => fe_query_id ev ∈ q_id <$> c_queries c | _ => True end.

(** ** What a type carries *)

(** The steps on the buffer an op takes. *)
Definition buf_ops (s : AppState) (o : ServerOp) : list BufOp :=
  match o with
  | Fed ev uuid map_now emit_now =>
      match map_feed_event (c_event_modeling (a_config s)) uuid map_now ev with
      | Some em => match registry_get (a_registry s) (em_name em) with Some _ => [OpEmit emit_now em] | None => [] end
      | None => []
      end
  | Injected r now emit_now uuid =>
      if bool_decide (ir_name r ∈ a_injected_names s) then
        [OpEmit emit_now {| em_name := ir_name r; em_event_id := default uuid (ir_event_id r); em_timestamp := now; em_data := ir_data r |}]
      else []
  | Looked now name => [OpRead now name]
  | Listened name => [OpLive name]
  | OnStore _ => []
  end.

Lemma server_step_buf s o :
  a_buffer (server_step s o) = buf_run (a_buffer s) (buf_ops s o) /\ same_setup s (server_step s o).
Proof.
  destruct o as [ev uuid map_now emit_now|r now emit_now uuid| | |]; simpl; try (by repeat split).
  - split; [|by repeat split]. unfold pipeline_step. destruct (map_feed_event _ _ _ _) as [em|]; [|done].
    by destruct (registry_get _ _).
  - unfold handle_inject. by case_bool_decide; repeat split.
Qed.

Lemma buf_ops_setup s s' : same_setup s s' -> buf_ops s' = buf_ops s.
Proof. intros [Hc Hr _ Hi _]. unfold buf_ops. by rewrite Hc, Hr, Hi. Qed.

Lemma server_run_buf s ops : a_buffer (server_run s ops) = buf_run (a_buffer s) (ops ≫= buf_ops s).
Proof.
  revert s. induction ops as [|o ops IH]; intros s; [done|]. simpl. rewrite IH. destruct (server_step_buf s o) as [-> Hs].
  rewrite (buf_ops_setup _ _ Hs). unfold buf_run. by rewrite foldl_app.
Qed.

Lemma server_run_setup s ops : same_setup s (server_run s ops).
Proof.
  revert s. induction ops as [|o ops IH]; intros s; [reflexivity|]. etrans; [apply (server_step_buf s o)|apply IH].
Qed.

Lemma buf_ops_length s ops : (length (ops ≫= buf_ops s) <= length ops)%nat.
Proof.
  induction ops as [|o ops IH]; [done|]. csimpl. rewrite length_app.
  assert (length (buf_ops s o) <= 1)%nat; [|lia]. unfold buf_ops. repeat case_match; simpl; lia.
Qed.

Lemma emits_app name l k : emits name (l ++ k) = emits name l ++ emits name k.
Proof. apply omap_app. Qed.

(** The event types of a configuration. *)
Definition event_types (c : ServerConfig) : list string :=
  (c_queries c ≫= derived_names (c_event_modeling c)) ++ (in_name <$> c_injected c).

(** The occurrence of a type that an op brings: what the feed's change maps
    to, if that is an event type; what is injected, if the type is configured
    as injected. *)
Definition occurrence_as (c : ServerConfig) (name : string) (o : ServerOp) : option EmittedEvent :=
  match o with
  | Fed _ _ _ _ => if bool_decide (name ∈ event_types c) then fed_as (c_event_modeling c) name o else None
  | Injected _ _ _ _ => if bool_decide (name ∈ in_name <$> c_injected c) then injected_as name o else None
  | _ => None
  end.

Definition occurrences (c : ServerConfig) (name : string) (ops : list ServerOp) : list EmittedEvent :=
  omap (occurrence_as c name) ops.

(** While the feed reports configured queries only, a type has one source. *)
Definition sourced (c : ServerConfig) (name : string) (o : ServerOp) : option EmittedEvent :=
  if bool_decide (name ∈ in_name <$> c_injected c) then injected_as name o else fed_as (c_event_modeling c) name o.

Lemma omap_one {A B} (f : A -> option B) x : omap f [x] = match f x with Some y => [y] | None => [] end.
Proof. done. Qed.

Lemma registered_types c name :
  is_Some (registry_get (registry_new (m_defs (build_event_model c))) name) <-> name ∈ event_types c.
Proof.
  assert (ed_name <$> m_defs (build_event_model c) = event_types c) as E.
  { rewrite model_defs. unfold event_types. rewrite fmap_app, <- list_fmap_compose. f_equal.
    induction (c_queries c) as [|q qs IH]; [done|]. csimpl. by rewrite fmap_app, IH, query_defs_names. }
  split.
  - intros [d Hd]. apply registry_get_Some in Hd as [<- Hd]. rewrite <- E. by apply list_elem_of_fmap_2.
  - intros H. apply registry_get_is_Some. by rewrite E.
Qed.

Lemma op_occurrences c rnd s name o :
  app_new c rnd true = Ok s -> emits name (buf_ops s o) = occurrences c name [o].
Proof.
  unfold app_new. intros ([] & _ & [= <-])%bind_Ok. unfold occurrences, emits. rewrite omap_one.
  destruct o as [ev uuid map_now emit_now|r now emit_now uuid| | |]; cbn [buf_ops occurrence_as]; try done.
  - cbn [a_config a_registry]. unfold fed_as. destruct (map_feed_event _ uuid map_now ev) as [em|]; [|by case_bool_decide].
    cbn [mbind option_bind]. pose proof (registered_types c (em_name em)) as Hr.
    destruct (registry_get _ (em_name em)) as [d|].
    + assert (em_name em ∈ event_types c) as Hin by (apply Hr; by eexists). rewrite omap_one. case_decide as Hd.
      * subst name. by rewrite !bool_decide_eq_true_2 by done.
      * rewrite (bool_decide_eq_false_2 (em_name em = name)) by done. by case_bool_decide.
    + case_bool_decide as Hin; [|done]. rewrite bool_decide_eq_false_2; [done|]. intros <-. by destruct (proj2 Hr Hin).
  - cbn [a_injected_names]. unfold injected_as. case_bool_decide as Hin; rewrite elem_of_list_to_set in Hin.
    + rewrite omap_one. csimpl. case_decide as Hd; [subst name; by rewrite !bool_decide_eq_true_2|].
      rewrite (bool_decide_eq_false_2 (ir_name r = name)) by done. by case_bool_decide.
    + case_bool_decide as Hn; [|done]. rewrite bool_decide_eq_false_2; [done|]. by intros <-.
Qed.

(** The steps of the server on its buffer emit the occurrences. *)
Lemma server_emits c rnd s name ops :
  app_new c rnd true = Ok s -> emits name (ops ≫= buf_ops s) = occurrences c name ops.
Proof.
  intros Happ. induction ops as [|o ops IH]; [done|].
  csimpl. rewrite emits_app, IH, (op_occurrences c rnd _ name o Happ). unfold occurrences. by rewrite <- omap_app.
Qed.

Lemma occurrence_sourced c name o :
  validate c = Ok () -> of_query c o -> name ∈ event_types c -> occurrence_as c name o = sourced c name o.
Proof.
  intros Hv Hq Hname. unfold sourced. destruct o as [ev uuid map_now emit_now|r now emit_now uuid| | |]; cbn [occurrence_as];
    try (by destruct (bool_decide _)).
  - simpl in Hq. apply list_elem_of_fmap in Hq as (q & Hid & Hq). rewrite (bool_decide_eq_true_2 (name ∈ event_types c)) by done.
    case_bool_decide as Hin; [|done]. unfold fed_as. destruct (map_feed_event _ uuid map_now ev) as [em|] eqn:Em; [|done].
    csimpl. destruct (map_feed_event_registered c q _ _ _ _ Hq Hid Em) as [Hn _].
    rewrite bool_decide_eq_false_2; [done|]. intros <-. revert Hin. apply validate_disjoint; [done|]. apply list_elem_of_bind. eauto.
Qed.

Lemma occurrences_none c name ops : name ∉ event_types c -> occurrences c name ops = [].
Proof.
  intros Hn. assert (name ∉ in_name <$> c_injected c) as Hi by (intros Hi; apply Hn; unfold event_types; apply elem_of_app; by right).
  unfold occurrences. induction ops as [|o ops IH]; [done|]. csimpl. rewrite IH.
  destruct o; csimpl; by rewrite ?bool_decide_eq_false_2 by done.
Qed.

(** A started server has a fresh buffer, with the capacity and the window of
    its configuration. *)
Lemma started_buffer c rnd s :
  app_new c rnd true = Ok s ->
  a_buffer s = buffer_new (cfg (a_buffer s)) rnd /\
  max_events_per_type (cfg (a_buffer s)) = bs_max_events_per_type (c_buffer c) /\
  max_age (cfg (a_buffer s)) = (fun ms => milliseconds (i64_try_from_or_max ms)) <$> bs_max_age_ms (c_buffer c).
Proof. unfold app_new. intros ([] & _ & [= <-])%bind_Ok. done. Qed.

(** C23. What an event type of a running server carries: whatever the feed
    forwards, is injected, is asked and is subscribed, in any order, a type
    holds and broadcasts exactly the events that the feed's changes map to
    under its name and, if the configuration has it as [injected], what was
    injected into it, each once, in order, numbered from 1.  As long as the
    feed reports configured queries only, the two never meet: an injected type
    carries exactly what was injected and any other exactly what the feed
    gave.  Nothing is ever kept for a name that is no event type; and the feed
    runs, and the delivery worker exactly if some type offers webhook
    delivery. *)
Theorem server_log file yaml rnd http_ok bound sv ops name :
  server_start file yaml rnd http_ok bound = Ok sv ->
  let c := a_config (sv_state sv) in
  let st := type_state (a_buffer (server_run (sv_state sv) ops)) name in
  let occ := occurrences c name ops in
  0 <= bs_max_events_per_type (c_buffer c) -> Z.of_nat (length ops) < u64_max ->
  let h := imap (fun i ev => {| st_seq := Z.of_nat i + 1; st_event_id := em_event_id ev;
                                st_timestamp := em_timestamp ev; st_data := em_data ev |}) occ in
  tx st = imap (fun i ev => {| le_seq := Z.of_nat i + 1; le_occurrence :=
    {| eo_event_id := em_event_id ev; eo_name := name; eo_timestamp := iso8601 (em_timestamp ev); eo_data := em_data ev;
       eo_cursor := Some (Some (cursor_text rnd (Z.of_nat i + 1))); eo_meta := None |} |}) occ /\
  last_seq st = Z.of_nat (length occ) /\ entries st `suffix_of` h /\
  (bs_max_age_ms (c_buffer c) = None -> entries st = drop (length occ - Z.to_nat (bs_max_events_per_type (c_buffer c))) h) /\
  (Forall (of_query c) ops -> name ∈ event_types c ->
   occ = omap (if bool_decide (name ∈ in_name <$> c_injected c) then injected_as name else fed_as (c_event_modeling c) name) ops) /\
  (is_Some (registry_get (a_registry (sv_state sv)) name) <-> name ∈ event_types c) /\ (name ∉ event_types c -> occ = []) /\
  is_Some (sv_feed sv) /\
  (forall d, d ∈ registry_list (a_registry (sv_state sv)) -> Webhook ∈ ed_delivery d <-> sv_worker sv = true).
Proof.
  intros Hs c st occ Hmax Hlen h. destruct (server_started _ _ _ _ _ _ Hs) as (Hv & Happ & Hfeed & Hw). fold c in Hv, Happ.
  pose proof Happ as Happ'. unfold app_new in Happ'. rewrite Hv in Happ'. injection Happ' as Es.
  destruct (started_buffer c rnd _ Happ) as (Eb & Em & Ea). set (bc := cfg (a_buffer (sv_state sv))) in *.
  set (bops := ops ≫= buf_ops (sv_state sv)). pose proof (buf_ops_length (sv_state sv) ops) as Hle. fold bops in Hle.
  assert (emits name bops = occ) as Hocc by apply (server_emits c rnd (sv_state sv) name ops Happ).
  assert (a_buffer (server_run (sv_state sv) ops) = reached bc rnd bops) as Er by (rewrite server_run_buf, Eb; done).
  rewrite <- Em in *. pose proof (buffer_contents bc rnd bops Hmax ltac:(lia) name) as Hc. cbv zeta in Hc.
  rewrite <- Er, Hocc in Hc. fold st h in Hc. destruct Hc as (Hl & Ht & He & Hring). split_and!; try done.
  - intros Hno. apply Hring. by rewrite Ea, Hno.
  - intros Hq Hname. unfold occ, occurrences. clear -Hv Hq Hname. induction Hq as [|o ops Ho _ IH]; [by case_bool_decide|].
    pose proof (occurrence_sourced c name o Hv Ho Hname) as E. unfold sourced in E.
    csimpl. rewrite IH, E. by case_bool_decide.
  - rewrite <- Es. cbn [a_registry]. apply registered_types.
  - apply occurrences_none.
Qed.

(** The synthetic feed, unless told another query, is of the first one, which
    a valid configuration has. *)
Lemma mock_source_of_query c query_id interval n now order phase uuid map_now emit_now :
  validate c = Ok () -> fs_query_id (c_feed c) = None -> feed_source c = Some (MockSource query_id interval) ->
  of_query c (Fed (Mock.mock_event n query_id now order phase) uuid map_now emit_now).
Proof.
  intros (_ & Hne & _)%validate_spec Hd. unfold feed_source. rewrite Hd. destruct (fs_kind _); [|by destruct (fs_url _)].
  destruct (c_queries c) as [|q qs] eqn:Eq; [done|]. intros [= <- <-]. unfold of_query, Mock.mock_event. rewrite Eq.
  repeat case_match; simplify_eq; csimpl; left.
Qed.
End server.

(** ** Examples *)
Section example.
#[local] Abbreviation ex_yaml := (fun _ : string => Ok (ex_config_of PerChange)).

Definition ex_incident : InjectRequest (J := ZJson) := {| ir_name := "incident"; ir_data := JNull; ir_event_id := None |}.

Definition ex_ops : list (ServerOp (J := ZJson)) :=
  [Injected ex_incident 4 4 "u-2"; Fed Mapping.ex_change "uuid" 5 5; Looked 6 "incident"].

Lemma server_log_witness :
  exists sv, server_start (Ok "") ex_yaml 7 true (fun _ => true) = Ok sv /\
    last_seq (type_state (a_buffer (server_run (D := PlainDebug) (sv_state sv) ex_ops)) "orders.added") = 1 /\
    last_seq (type_state (a_buffer (server_run (D := PlainDebug) (sv_state sv) ex_ops)) "incident") = 1.
Proof.
  destruct (server_start (Ok "") ex_yaml 7 true (fun _ => true)) as [sv|] eqn:E; [|discriminate E]. exists sv. split; [done|].
  assert (a_config (sv_state sv) = ex_config_of PerChange) as Ec by (injection E as <-; reflexivity).
  pose proof (fun name => server_log (D := PlainDebug) (Ok "") ex_yaml 7 true (fun _ => true) sv ex_ops name E) as H.
  cbv zeta in H. rewrite Ec in H.
  assert (forall name, last_seq (type_state (a_buffer (server_run (D := PlainDebug) (sv_state sv) ex_ops)) name) =
    Z.of_nat (length (occurrences (ex_config_of PerChange) name ex_ops))) as Hl.
  { intros name. by apply (H name). }
  split; rewrite Hl; reflexivity.
Defined.

(** The guard against collisions knows the configured queries only: a change
    of another query that a Drasi reaction reports is emitted as an
    occurrence of an injected type of that name. *)
Definition ex_shadowed : ServerConfig (J := ZJson) :=
  let c := ex_config_of PerChange in
  {| c_host := c_host c; c_port := c_port c; c_auth_tokens := []; c_event_modeling := PerChange; c_buffer := c_buffer c;
     c_feed := c_feed c; c_queries := c_queries c; c_push := c_push c; c_poll := c_poll c; c_webhook := c_webhook c;
     c_tools := c_tools c;
     c_injected := [{| in_name := "other.added"; in_description := "d"; in_payload_schema := None; in_input_schema := None |}] |}.

Example unconfigured_query_leaks :
  let ev := {| fe_query_id := "other"; fe_change := Added; fe_before := None; fe_after := Some JNull;
               fe_timestamp := None; fe_upstream_id := None |} in
  match server_start (Ok "") (fun _ => Ok ex_shadowed) 7 true (fun _ => true) with
  | Ok sv => last_seq (type_state (a_buffer (server_run (D := PlainDebug) (sv_state sv) [Fed ev "uuid" 5 5])) "other.added") = 1
  | Err _ => False
  end.
Proof. reflexivity. Qed.
End example.
