(* ===== verification/EndToEnd.v ===== *)
(** * From the feed to the terminal.

    The whole path of a streamed event: a change that the feed forwards or an
    occurrence that is injected goes through the pipeline into the buffer of a
    running server ([Server]), over any number of connections of its generator
    to the client library and out of the harness as a line ([Resume]). *)
From S2P Require Import Prelude RustStd Lib Json Wire Codec Buffer History Registry Config Mapping State Stream.
From S2P Require Import JsonText ClientSse Client ClientServer ClientState Harness Resume.
From S2P Require Import Signing Store Ssrf Feed Handlers Subscribe Dispatch Server.

(** ** Numbered events and the events themselves *)
Section numbered.
Context {J : JsonLib} {C : Chrono}.

Lemma number_take k n l : take k (number n l) = number n (take k l).
Proof. revert k n. induction l as [|em l IH]; intros [|k] n; csimpl; [done..|]. by rewrite IH. Qed.

Lemma number_drop k n l : drop k (number n l) = number (n + Z.of_nat k) (drop k l).
Proof.
  revert k n. induction l as [|em l IH]; intros [|k] n; csimpl; rewrite ?Z.add_0_r; try done.
  rewrite IH. f_equal. lia.
Qed.

(** The filter does not see the numbers. *)
Lemma number_filter {A} p f (g : Stored -> A) n l :
  (forall i j em, g (stored_of i em) = g (stored_of j em)) ->
  g <$> base.filter (fun e => passes p f e = true) (number n l) =
  (g ∘ stored_of 0) <$> base.filter (fun em => passes p f (stored_of 0 em) = true) l.
Proof.
  intros Hg. revert n. induction l as [|em l IH]; intros n; [done|]. csimpl. rewrite !filter_cons.
  change (passes p f (stored_of n em)) with (passes p f (stored_of 0 em)).
  case_decide; csimpl; [|done]. f_equal; [apply Hg|done].
Qed.

(** What is owed between two positions of a history. *)
Lemma passing_numbered {A} p f (g : Stored -> A) lo hi l :
  (forall i j em, g (stored_of i em) = g (stored_of j em)) -> 0 <= lo -> hi <= Z.of_nat (length l) ->
  g <$> passing p f lo hi (number 1 l) =
  (g ∘ stored_of 0) <$> base.filter (fun em => passes p f (stored_of 0 em) = true) (take (Z.to_nat (hi - lo)) (drop (Z.to_nat lo) l)).
Proof.
  intros Hg Hlo Hhi. destruct (decide (hi < lo)) as [Hlt|Hge].
  - rewrite passing_none by lia. replace (Z.to_nat (hi - lo)) with 0%nat by lia. done.
  - unfold passing. rewrite window_take_drop; [|apply number_consecutive|lia|by rewrite number_length].
    rewrite number_drop, number_take. by apply number_filter.
Qed.
End numbered.

(** ** The path of a streamed event *)
Section path.
Context {J : JsonLib} {C : Chrono} {Y : Crypto} {D : DebugLib} {S : SerdeLib} {JL : JsonLaws J} {SL : SerdeLaws S}.

(** The line the harness prints of an event, and whether the arguments of the
    harness and the filter of its type pass it. *)
Definition event_text (name : string) (em : EmittedEvent) : string := event_line (poll_occurrence name (stored_of 0 em)).

Definition wanted (s : AppState) (a : StreamArgs) (em : EmittedEvent) : Prop :=
  passes (ta_params a) (a_filters s !! ta_name a) (stored_of 0 em) = true.

#[local] Instance wanted_dec s a em : Decision (wanted s a em) := decide (_ = true).

(** The occurrences in [(lo, hi]] that are wanted, as lines. *)
Definition lines_between (s : AppState) (a : StreamArgs) (occ : list EmittedEvent) (lo hi : Z) : list string :=
  event_text (ta_name a) <$> base.filter (wanted s a) (take (Z.to_nat (hi - lo)) (drop (Z.to_nat lo) occ)).

Lemma owed_lines s a occ lo hi :
  0 <= lo -> hi <= Z.of_nat (length occ) ->
  text_of a <$> passing (ta_params a) (a_filters s !! ta_name a) lo hi (number 1 occ) = lines_between s a occ lo hi.
Proof.
  intros Hlo Hhi. rewrite (passing_numbered _ _ (text_of a)); [|done..]. reflexivity.
Qed.

(** ** A stream of a server at work *)

(** What happens while a connection is open: something else on the server, or
    a step of the generator the connection reads from. *)
Inductive Happening : Type :=
| Elsewhere (o : ServerOp)
| Generator (i : Input).

(** The server takes the step: its own handler or pipeline, or the generator
    on the server's buffer. *)
Definition serve_step (c : StreamCfg) (g : StreamState) (s : AppState) (x : Happening)
    : option (StreamState * AppState * Output) :=
  match x with
  | Elsewhere o => Some (g, server_step s o, yields [])
  | Generator (InOther _) => None
  | Generator i => '(g', b, o) ← stream_step c g (a_buffer s) i; Some (g', with_buffer s b, o)
  end.

Fixpoint serve_run (c : StreamCfg) (g : StreamState) (s : AppState) (l : list Happening)
    : option (StreamState * AppState * list Output) :=
  match l with
  | [] => Some (g, s, [])
  | x :: l' =>
      '(g1, s1, o) ← serve_step c g s x;
      '(g2, s2, os) ← serve_run c g1 s1 l';
      Some (g2, s2, o :: os)
  end.

Definition elsewhere (l : list Happening) : list ServerOp :=
  omap (fun x => match x with Elsewhere o => Some o | Generator _ => None end) l.

(** A connection to the server: what happens from the moment it is opened to
    the moment the next one is, and what of its frames travels back. *)
Record served (a : StreamArgs) (s : AppState) (r : StreamRun) (cn : Connection) (l : list Happening) (s' : AppState) : Prop := {
  se_id : i64_ok (cl_next_id (tn_client r));
  se_run : exists g os,
    serve_run (stream_cfg a r (a_filters s !! ta_name a)) stream_new s l = Some (g, s', os) /\ gapless os /\
    Forall (fun fr => wf_value (frame_value fr)) (frames os) /\
    ((forall req, cn_exchange cn req = None) \/
     exists body, (forall req, cn_exchange cn req = Some (sse_head, body)) /\ carries (frames os) body)
}.

(** The harness over any number of connections to the server; its process may
    die and be started again from its file. *)
Inductive watches (a : StreamArgs) : AppState -> StreamRun -> list Happening -> AppState -> StreamRun -> list string -> bool -> Prop :=
| watches_end s r : watches a s r [] s r [] false
| watches_on s r cn l s1 r1 out k s' r' lines restarted :
    served a s r cn l s1 -> stream_turn a r cn = (r1, out, None) ->
    watches a s1 r1 k s' r' lines restarted ->
    watches a s r (l ++ k) s' r' (lines_of out ++ lines) restarted
| watches_restart s r cn l s1 r1 out ended client st k s' r' lines restarted :
    served a s r cn l s1 -> stream_turn a r cn = (r1, out, ended) ->
    ta_state_file a <> None -> file_state a (tn_fs r1) = Ok st ->
    watches a s1 (stream_start client (tn_fs r1) st) k s' r' lines restarted ->
    watches a s r (l ++ k) s' r' (lines_of out ++ lines) true.

(** A generator alone on the server. *)
Lemma serve_generator c g s l g' b' os :
  Forall (fun i => match i with InOther _ => False | _ => True end) l ->
  stream_run c g (a_buffer s) l = Some (g', b', os) -> exists s', serve_run c g s (Generator <$> l) = Some (g', s', os).
Proof.
  intros Hl. revert g s os. induction Hl as [|i l Hi _ IH]; intros g s os Hrun; [injection Hrun as <- <- <-; by exists s|].
  simpl in Hrun. apply bind_Some in Hrun as ([[g1 b1] o] & Hst & Hrun).
  apply bind_Some in Hrun as ([[g2 b2] os2] & Hrun & [= <- <- <-]). destruct (IH g1 (with_buffer s b1) os2 Hrun) as [s' Hs'].
  exists s'. rewrite fmap_cons. cbn [serve_run]. assert (serve_step c g s (Generator i) = Some (g1, with_buffer s b1, o)) as ->
    by (destruct i; [done|cbn [serve_step]; by rewrite Hst..]).
  cbn [mbind option_bind]. by rewrite Hs'.
Qed.

(** *** Seen from the buffer *)
Section flat.
Context (s0 : AppState).

Definition flat_step (x : Happening) : list Input :=
  match x with Elsewhere o => InOther <$> buf_ops s0 o | Generator (InOther _) => [] | Generator i => [i] end.

Definition flat (l : list Happening) : list Input := l ≫= flat_step.

Lemma flat_app l k : flat (l ++ k) = flat l ++ flat k.
Proof. apply bind_app. Qed.

Lemma run_others c g b ops :
  stream_run c g b (InOther <$> ops) = Some (g, buf_run b ops, (fun _ => yields []) <$> ops).
Proof. revert b. induction ops as [|o ops IH]; intros b; [done|]. csimpl. rewrite IH. done. Qed.

Lemma frames_nothing {A} (l : list A) : frames ((fun _ => yields []) <$> l) = [] /\ clean_run ((fun _ => yields []) <$> l).
Proof. induction l as [|x l [IH1 IH2]]; [by split; [|constructor]|]. split; [exact IH1|]. by constructor. Qed.

Lemma serve_run_flat c g s l g' s' os :
  same_setup s0 s -> serve_run c g s l = Some (g', s', os) ->
  same_setup s0 s' /\ exists os',
    stream_run c g (a_buffer s) (flat l) = Some (g', a_buffer s', os') /\ frames os' = frames os /\ (clean_run os -> clean_run os').
Proof.
  revert g s os. induction l as [|x l IH]; intros g s os Hs Hrun.
  { injection Hrun as <- <- <-. split; [done|]. by exists []. }
  simpl in Hrun. apply bind_Some in Hrun as ([[g1 s1] o] & Hst & Hrun).
  apply bind_Some in Hrun as ([[g2 s2] os2] & Hrun & [= <- <- <-]).
  change (flat (x :: l)) with (flat_step x ++ flat l).
  assert (same_setup s0 s1 /\ exists o', stream_run c g (a_buffer s) (flat_step x) = Some (g1, a_buffer s1, o') /\
    frames o' = out_frames o /\ (out_truncated o = false -> clean_run o')) as (Hs1 & o' & Ho & Hf & Hc).
  { destruct x as [op|i]; cbn [serve_step] in *.
    - cbn [flat_step]. injection Hst as <- <- <-. destruct (server_step_buf s op) as [Eb Hset]. split; [by etrans|].
      rewrite run_others, Eb, <- (buf_ops_setup _ _ Hs). eexists. split; [done|]. by destruct (frames_nothing (buf_ops s op)).
    - assert (flat_step (Generator i) = [i] /\ stream_step c g (a_buffer s) i = Some (g1, a_buffer s1, o) /\ same_setup s s1) as (-> & Hi & Hset).
      { destruct i; first [done|apply bind_Some in Hst as ([[g3 b3] o3] & Hst & [= <- <- <-]); by rewrite Hst]. }
      split; [by etrans|]. exists [o]. simpl. rewrite Hi. split; [done|]. split; [by unfold frames; csimpl; rewrite app_nil_r|].
      intros ?. by repeat constructor. }
  destruct (IH _ _ _ Hs1 Hrun) as (Hs2 & os' & Hos & Hfr & Hcl). split; [done|]. exists (o' ++ os'). split_and!.
  - apply stream_run_app. eauto 10.
  - rewrite frames_app, Hf, Hfr. done.
  - intros [H1 H2]%Forall_cons. apply Forall_app. split; [by apply Hc|by apply Hcl].
Qed.

Lemma stream_run_buf c g b l g' b' os :
  stream_run c g b l = Some (g', b', os) -> b' = buf_run b (run_ops (sp_name (sc_params c)) l).
Proof.
  revert g b os. induction l as [|i l IH]; intros g b os Hrun; [by injection Hrun|].
  simpl in Hrun. apply bind_Some in Hrun as ([[g1 b1] o] & Hst & Hrun).
  apply bind_Some in Hrun as ([[g2 b2] os2] & Hrun & [= <- <- <-]). rewrite (IH _ _ _ Hrun).
  unfold run_ops. csimpl. unfold buf_run at 2. rewrite foldl_app. f_equal. clear -Hst.
  unfold stream_step, probe, replay, resync, read_one, read, live in Hst.
  destruct i as [bo| |now|[|k|]|], (s_phase g); try done;
    repeat (case_match; try done); injection Hst as <- <- <-; try done; by simplify_eq.
Qed.

Lemma served_flat a s r cn l s1 :
  same_setup s0 s -> served a s r cn l s1 ->
  same_setup s0 s1 /\ Resume.answered a (a_filters s0 !! ta_name a) (a_buffer s) r cn (flat l) /\
  a_buffer s1 = buf_run (a_buffer s) (run_ops (ta_name a) (flat l)).
Proof.
  intros Hs [Hid (g & os & Hrun & [Hcl Hgap] & Hw & Hex)].
  destruct (serve_run_flat _ _ _ _ _ _ _ Hs Hrun) as (Hs1 & os' & Hrun' & Hf & Hc). rewrite <- Hf in *.
  rewrite (ss_filters _ _ Hs) in Hrun'. split; [done|]. split.
  - split; [done|]. eexists _, _, os'. split; [exact Hrun'|]. split; [split; [by apply Hc|exact Hgap]|done].
  - exact (stream_run_buf _ _ _ _ _ _ _ Hrun').
Qed.

Lemma watches_flat a s r l s' r' lines restarted bc rnd ops :
  watches a s r l s' r' lines restarted -> same_setup s0 s -> a_buffer s = buf_run (buffer_new bc rnd) ops ->
  watched bc rnd a (a_filters s0 !! ta_name a) ops r (ops ++ run_ops (ta_name a) (flat l)) r' lines restarted.
Proof.
  intros H. revert ops. induction H as [s r|s r cn l s1 r1 out k s' r' lines restarted Hsv Ht _ IH
    |s r cn l s1 r1 out ended client st k s' r' lines restarted Hsv Ht Hf Hst _ IH]; intros ops Hs Eb.
  { rewrite app_nil_r. constructor. }
  all: destruct (served_flat _ _ _ _ _ _ Hs Hsv) as (Hs1 & Hans & Eb1); rewrite Eb in Hans, Eb1;
    unfold buf_run in Eb1; rewrite <- foldl_app in Eb1; specialize (IH _ Hs1 Eb1); unfold run_ops in *;
    rewrite flat_app, bind_app, (assoc_L (++)).
  - by eapply watched_on.
  - by eapply watched_restart.
Qed.

(** What happens elsewhere is what the buffer sees emitted. *)
Lemma flat_emits name l : emits name (run_ops name (flat l)) = emits name (elsewhere l ≫= buf_ops s0).
Proof.
  unfold run_ops. induction l as [|[o|i] l IH]; [done|..]; change (flat (?x :: l)) with (flat_step x ++ flat l);
    rewrite bind_app, emits_app, IH.
  - csimpl. rewrite emits_app. f_equal. f_equal. induction (buf_ops s0 o) as [|b bs IHb]; [done|]. csimpl. by rewrite IHb.
  - by destruct i.
Qed.

Lemma flat_length name l : (length (run_ops name (flat l)) <= length l)%nat.
Proof.
  unfold run_ops. induction l as [|[o|i] l IH]; [done|..]; csimpl; rewrite bind_app, length_app.
  - assert (length ((InOther <$> buf_ops s0 o) ≫= input_ops name) = length (buf_ops s0 o)) as ->
      by (induction (buf_ops s0 o) as [|b bs IHb]; [done|]; csimpl; lia).
    assert (length (buf_ops s0 o) <= 1)%nat; [unfold buf_ops; repeat case_match; simpl; lia|lia].
  - destruct i; csimpl; lia.
Qed.
End flat.

(** C4. From the feed to the terminal: let a server start from a valid
    configuration and work: its feed forwards changes, occurrences are
    injected, requests read the buffer and subscriptions come and go, in any
    order, before and while a harness watches an event type of it from a
    position, over any number of connections, each broken off anywhere.  Then
    the harness prints the occurrences of that type after the position - what
    the feed's changes map to under its name, and for an injected type what
    was injected - which its arguments pass, each once and in order, up to
    where it stands.  If its process dies and is started again from its file,
    every one of them is still printed, and nothing else is.  The steps are
    those of the server itself ([server_step]: the pipeline and the inject
    handler; [stream_step] on the server's buffer).  (No connection reports
    [truncated], and no replay loses events behind the client's back.) *)
Theorem feed_to_terminal file yaml rnd http_ok bound sv a before r during s' r' lines restarted p0 :
  server_start file yaml rnd http_ok bound = Ok sv ->
  let c := a_config (sv_state sv) in
  let s := server_run (sv_state sv) before in
  let occ := Server.occurrences c (ta_name a) (before ++ elsewhere during) in
  let all := Z.of_nat (length occ) in
  0 <= bs_max_events_per_type (c_buffer c) -> 0 <= rnd <= u64_max ->
  Z.of_nat (length before) + Z.of_nat (length during) < u64_max ->
  watches a s r during s' r' lines restarted ->
  stands rnd a r p0 -> 0 <= p0 <= Z.of_nat (length (Server.occurrences c (ta_name a) before)) ->
  exists p, stands rnd a r' p /\ 0 <= p <= all /\
    (restarted = false -> p0 <= p /\ lines = lines_between s a occ p0 p) /\
    (forall x, x ∈ lines_between s a occ p0 p -> x ∈ lines) /\
    (forall x, x ∈ lines -> x ∈ lines_between s a occ p0 all).
Proof.
  intros Hs c s occ all Hmax Hrnd Hlen Hw Hst Hp0.
  destruct (server_started _ _ _ _ _ _ Hs) as (_ & Happ & _). fold c in Happ. set (s0 := sv_state sv) in *.
  destruct (started_buffer c rnd s0 Happ) as (Eb & Em & _). set (bc := cfg (a_buffer s0)) in *.
  pose proof (server_run_setup s0 before) as Hset. fold s in Hset.
  assert (a_buffer s = buf_run (buffer_new bc rnd) (before ≫= buf_ops s0)) as Es by (rewrite <- Eb; apply server_run_buf).
  pose proof (watches_flat s0 _ _ _ _ _ _ _ _ bc rnd _ Hw Hset Es) as Hwd.
  set (ops' := (before ≫= buf_ops s0) ++ run_ops (ta_name a) (flat s0 during)) in *.
  pose proof (server_emits c rnd s0 (ta_name a) before Happ) as E.
  assert (emits (ta_name a) ops' = occ) as E'.
  { unfold ops'. rewrite emits_app, flat_emits, <- emits_app, <- bind_app. by apply server_emits with rnd. }
  pose proof (buf_ops_length s0 before) as Hle. pose proof (flat_length s0 (ta_name a) during) as Hle'.
  rewrite <- (ss_filters _ _ Hset) in Hwd.
  destruct (resume_lines bc rnd ltac:(by rewrite Em) Hrnd a (a_filters s !! ta_name a) _ r _ r' lines restarted p0 Hwd Hst)
    as (p & Hp & Hpb & Honce & Hall & Hon); [rewrite history_length, E; lia|unfold ops'; rewrite length_app; lia|].
  rewrite history_length, E' in Hpb, Hon. unfold history in Honce, Hall, Hon. rewrite E' in Honce, Hall, Hon. fold all in Hpb, Honce, Hall, Hon.
  exists p. split_conj; try (done || lia).
  - intros Hr. destruct (Honce Hr) as [Hle2 ->]. split; [done|]. apply owed_lines; lia.
  - intros x Hx. rewrite <- owed_lines in Hx by lia. apply list_elem_of_fmap in Hx as (e & -> & He). by apply Hall.
  - intros x Hx. destruct (Hon x Hx) as (e & He & ->). rewrite <- owed_lines by lia. by apply list_elem_of_fmap_2.
Qed.
End path.

(** ** Examples: the events of [Buffer.ex_ops], injected *)
Section example.
Definition ex_server_config : ServerConfig (J := ZJson) :=
  {| c_host := default_host; c_port := default_port; c_auth_tokens := []; c_event_modeling := Single;
     c_buffer := {| bs_max_events_per_type := 2; bs_max_age_ms := None |};
     c_feed := {| fs_kind := MockKind; fs_query_id := None; fs_interval_ms := None; fs_url := None |};
     c_queries := [{| q_id := "orders"; q_description := None; q_payload_schema := None |}];
     c_push := PushSettings_default; c_poll := PollSettings_default; c_webhook := WebhookSettings_default;
     c_tools := ToolsSettings_default;
     c_injected := [{| in_name := "t.changed"; in_description := "d"; in_payload_schema := None; in_input_schema := None |}] |}.

Definition ex_injection (id : string) (n : Z) : ServerOp (J := ZJson) :=
  Injected {| ir_name := "t.changed"; ir_data := json_int n; ir_event_id := Some id |} (seconds n) (seconds n) "u".

Definition ex_sops : list (ServerOp (J := ZJson)) :=
  [ex_injection "a" 1; ex_injection "b" 2; Listened "t.changed"; ex_injection "c" 3].

Definition ex_during : list (Happening (J := ZJson)) := Generator <$> ex_stream_inputs.

#[local] Abbreviation ex_turn := (stream_turn (S := ZSerde) ex_args ex_start ex_whole).
#[local] Abbreviation ex_occ := (Server.occurrences ex_server_config "t.changed" (ex_sops ++ elsewhere ex_during)).

Lemma ex_served s :
  a_buffer s = ex_stream_buffer -> exists s', served (D := PlainDebug) ex_args s ex_start ex_whole ex_during s'.
Proof.
  intros Eb. destruct (ex_answered (a_filters s !! "t.changed")) as [Hid (g & b & os & Hrun & H)]. rewrite <- Eb in Hrun.
  apply (serve_generator (D := PlainDebug)) in Hrun as [s' Hs']; [|by repeat constructor].
  exists s'. split; [exact Hid|]. by exists g, os.
Qed.

Lemma feed_to_terminal_witness :
  exists sv p, server_start (Ok "") (fun _ => Ok ex_server_config) 7 true (fun _ => true) = Ok sv /\
    length ex_occ = 3%nat /\ stands (S := ZSerde) 7 ex_args ex_turn.1.1 p /\
    lines_of ex_turn.1.2 = lines_between (server_run (D := PlainDebug) (sv_state sv) ex_sops) ex_args ex_occ 1 p.
Proof.
  assert (match ex_turn.2 with None => true | Some _ => false end = true) as Ht by (vm_compute; reflexivity).
  destruct (server_start (Ok "") (fun _ => Ok ex_server_config) 7 true (fun _ => true)) as [sv|] eqn:E; [|discriminate E]. exists sv.
  assert (a_buffer (server_run (D := PlainDebug) (sv_state sv) ex_sops) = ex_stream_buffer) as Eb by (injection E as <-; reflexivity).
  destruct (ex_served _ Eb) as [s' Hs'].
  pose proof (feed_to_terminal (D := PlainDebug) (S := ZSerde) (SL := ZSerde_laws) (Ok "") (fun _ => Ok ex_server_config) 7 true
    (fun _ => true) sv ex_args ex_sops ex_start (ex_during ++ []) s' ex_turn.1.1 (lines_of ex_turn.1.2 ++ []) false 1 E) as H.
  assert (a_config (sv_state sv) = ex_server_config) as Ec by (injection E as <-; reflexivity).
  cbv zeta in H. rewrite Ec in H. destruct H as (p & Hp & _ & Hl & _).
  - discriminate.
  - split; discriminate.
  - reflexivity.
  - eapply watches_on; [exact Hs'| |apply watches_end]. destruct ex_turn as [[r1 out] ended]. cbn [fst snd] in *. by destruct ended.
  - exact ex_stands.
  - split; discriminate.
  - exists p. split; [reflexivity|]. split; [reflexivity|]. split; [exact Hp|]. rewrite <- (app_nil_r (lines_of _)). exact (proj2 (Hl eq_refl)).
Defined.
End example.
