(* ===== verification/KeepAlive.v ===== *)
(** * The refresh loop against the server: a subscription that is refreshed
    never lapses.

    The [subscribe] command of the harness sleeps until some 80% of a grant
    are over and subscribes again.  This file follows it over any number of
    refreshes, each served by [handle_subscribe] while other requests, the
    sweep of lapsed subscriptions and the delivery worker go on.  The two
    sides read the same clock. *)
From S2P Require Import Prelude RustStd Lib Json Canon Wire Buffer Registry Store Signing Ssrf.
From S2P Require Import Config Mapping State Handlers Subscribe ClientState Client Harness.

(** What the client reads of the server's dates: they are in milliseconds. *)
Class Rfc3339Laws (C : Chrono) (R : Rfc3339) : Prop := {
  parse_iso8601 t : is_dt t = true -> parse_from_rfc3339 (to_rfc3339_millis t) = Some (t / 1000000 * 1000000)
}.

Section keep.
Context {J : JsonLib} {C : Chrono} {Y : Crypto} {S : SerdeLib} {U : UrlLib} {R : Rfc3339} {RL : Rfc3339Laws C R}.

(** ** Interference *)

(** Steps that leave a subscription be: any on the buffer and any on the
    store, but for its own removal, an upsert of its key by another request,
    and a sweep after [until]. *)
Definition tame_op (id : string) (until : Z) (o : StoreOp) : Prop :=
  match o with
  | OpUpsert _ k _ _ _ _ | OpRemove k => derive_sub_id k <> id
  | OpExpire now => now <= until
  | _ => True
  end.

Inductive TameSteps (id : string) (until : Z) : AppState -> AppState -> Prop :=
| TameRefl s : TameSteps id until s s
| TameBuffer s o s' : TameSteps id until (with_buffer s (buf_step (a_buffer s) o)) s' -> TameSteps id until s s'
| TameStore s o s' :
    tame_op id until o -> TameSteps id until (with_store s (store_step (a_subs s) o)) s' -> TameSteps id until s s'.

(** A run of a program under a kind of interference; [exec] is the run under
    any. *)
Fixpoint exec_under {Q R A} (steps : AppState -> AppState -> Prop) (p : Prog Q R A) (s : AppState) (a : A) (s' : AppState) : Prop :=
  match p with
  | Ret x => a = x /\ s' = s
  | Atomic f k => exists s1, steps (f s).1 s1 /\ exec_under steps (k (f s).2) s1 a s'
  | Ask q k => exists r s1, steps s s1 /\ exec_under steps (k r) s1 a s'
  end.

Lemma tame_app_steps id until s s' : TameSteps id until s s' -> AppSteps s s'.
Proof. induction 1; [constructor|..]; (eapply StepsCons; [constructor|done]). Qed.

(** ** What they keep *)

(** The record of [id], its grant ending at [rb]. *)
Record kept (id : string) (rb : Z) (s : AppState) : Prop := {
  ke_ok : store_ok (a_subs s);
  ke_sub : exists sub, subs (a_subs s) !! id = Some sub /\ ws_refresh_before sub = Some rb
}.

Lemma upsert_other st now k params secret rb c id :
  derive_sub_id k <> id -> subs (upsert st now k params secret rb c).1 !! id = subs st !! id.
Proof. intros Hne. unfold upsert, upsert_create. by repeat case_match; simpl; rewrite ?lookup_insert_ne. Qed.

Lemma store_op_sub st o id until rb sub :
  store_ok st -> tame_op id until o -> until < rb ->
  subs st !! id = Some sub -> ws_refresh_before sub = Some rb ->
  exists sub', subs (store_step st o) !! id = Some sub' /\ ws_refresh_before sub' = Some rb.
Proof.
  intros Hok Ht Hu Hs Hrb. destruct o as [now k p x rb' c|k|now|i a|i ca a n|p u|i|i c]; simpl in *.
  - rewrite upsert_other by done. eauto.
  - rewrite lookup_delete_ne by done. eauto.
  - rewrite expire_lookup, Hs by done. unfold is_lapsed. rewrite Hrb. rewrite (proj2 (Z.leb_gt _ _)) by lia. eauto.
  - unfold mark_delivery_ok. destruct (decide (i = id)) as [->|Hne]; simpl.
    + rewrite Hs. simpl. rewrite lookup_insert_eq. eauto.
    + case_match; simpl; rewrite ?lookup_insert_ne by done; eauto.
  - unfold mark_delivery_failed. destruct (decide (i = id)) as [->|Hne].
    + rewrite Hs. simpl. rewrite lookup_insert_eq. eauto.
    + case_match; simpl; rewrite ?lookup_insert_ne by done; eauto.
  - rewrite lookup_fmap, Hs. eexists. split; [done|]. unfold verify_sub. by case_match.
  - unfold reactivate. destruct (decide (i = id)) as [->|Hne]; simpl.
    + rewrite Hs. simpl. rewrite lookup_insert_eq. eauto.
    + case_match; simpl; rewrite ?lookup_insert_ne by done; eauto.
  - unfold update_cursor. destruct (decide (i = id)) as [->|Hne].
    + rewrite Hs. simpl. rewrite lookup_insert_eq. eauto.
    + case_match; simpl; rewrite ?lookup_insert_ne by done; eauto.
Qed.

Lemma tame_kept id until rb s s' : until < rb -> TameSteps id until s s' -> kept id rb s -> kept id rb s'.
Proof.
  intros Hu. induction 1 as [s|s o s' _ IH|s o s' Ht _ IH]; [done|..]; intros [Hok (sub & Hs & Hrb)]; apply IH.
  - split; simpl; eauto.
  - split; simpl; [by apply store_step_ok|by eapply store_op_sub].
Qed.

Lemma tame_ok id until s s' : TameSteps id until s s' -> store_ok (a_subs s) -> store_ok (a_subs s').
Proof. induction 1 as [s|s o s' _ IH|s o s' _ _ IH]; [done|..]; intros Hok; apply IH; simpl; [done|by apply store_step_ok]. Qed.

Lemma tame_verified id until s s' pr u :
  TameSteps id until s s' -> is_verified (a_subs s) pr u = true -> is_verified (a_subs s') pr u = true.
Proof.
  unfold is_verified. intros Ht H. bsimp. apply bool_decide_eq_true. by eapply app_steps_verified, H; eapply tame_app_steps.
Qed.

Lemma upsert_kept st now k x y rb c o s :
  store_ok st -> (upsert st now k x y (Some rb) c).2 = Ok o -> a_subs s = (upsert st now k x y (Some rb) c).1 ->
  kept (derive_sub_id k) rb s /\ ws_id (outcome_sub o) = derive_sub_id k.
Proof.
  intros Hok Ho Es. destruct (upsert_Ok _ _ _ _ _ _ _ _ Hok Ho) as (Hid & sub & Hs & [= _ _ Hrb _ _] & _).
  split; [|done]. split; rewrite Es; [by apply upsert_ok|]. eauto.
Qed.

(** An unlapsed record is refreshed. *)
Lemma upsert_unlapsed st now k x y rb c rb' s :
  kept (derive_sub_id k) rb s -> a_subs s = st -> now < rb ->
  exists snap, (upsert st now k x y rb' c).2 = Ok (Refreshed snap).
Proof.
  intros [_ (sub & Hs & Hrb)] <- Hnow. unfold upsert. rewrite Hs. unfold is_lapsed. rewrite Hrb.
  rewrite (proj2 (Z.leb_gt _ _)) by lia. by eexists.
Qed.

(** ** One subscription request *)
Variables (s0 : AppState) (pr : string) (a : SubscribeArgs) (ck : Checked).

Definition key_of : SubKey := sub_key pr (ba_name a) (ba_url a) (default JNull (ba_params a)).
Definition id_of : string := derive_sub_id key_of.
Definition ttl : Z := milliseconds (i64_try_from_or_max (grant_ttl_ms (c_webhook (a_config s0)) (ba_ttl_ms a))).

Lemma check_subscribe_cursor c c' :
  check_subscribe s0 (Some pr) (subscribe_params a c) = check_subscribe s0 (Some pr) (subscribe_params a c').
Proof. done. Qed.

Lemma request_kept until t c s r s' :
  check_subscribe s0 (Some pr) (subscribe_params a c) = Ok ck -> store_ok (a_subs s) -> until < t_grant t + ttl ->
  is_dt (t_grant t + ttl) = true ->
  exec_under (TameSteps id_of until) (handle_subscribe s0 t (Some pr) (subscribe_params a c)) s r s' ->
  (forall res, r = Returned (Ok res) ->
     kept id_of (t_grant t + ttl) s' /\ is_verified (a_subs s') pr (ba_url a) = true /\
     sr_refresh_before res = Some (iso8601 (t_grant t + ttl)) /\ sr_id res = id_of) /\
  (forall rb, kept id_of rb s -> until < rb -> t_upsert t < rb -> is_verified (a_subs s) pr (ba_url a) = true ->
     exists res, r = Returned (Ok res) /\ is_Some (sr_delivery_status res)).
Proof.
  intros Hck Hok Hu Hdt. pose proof (proj1 (check_subscribe_Ok _ _ _ _) Hck) as Hall. destruct Hall as [[= Hpr] _ _ _ _ _ _ _ _].
  unfold handle_subscribe. rewrite Hck. cbv zeta. change (milliseconds _) with ttl. unfold date_add. rewrite Hdt. cbn [exec_under].
  intros (s1 & H1 & s2 & H2 & H). assert (store_ok (a_subs s1)) as Hok1 by (by eapply tame_ok).
  assert (forall rb, kept id_of rb s -> until < rb -> kept id_of rb s1) as Hk1.
  { intros rb Hk Hrb. eapply tame_kept; [done|exact H1|]. by destruct Hk. }
  revert H2 H. unfold upsert_step. rewrite <- Hpr. cbn [subscribe_params sb_name sb_delivery sb_params ds_url]. fold key_of.
  match goal with |- context [upsert (a_subs s1) ?n key_of ?x ?y ?e ?c0] =>
    pose proof (fun o s => upsert_kept (a_subs s1) n key_of x y (t_grant t + ttl) c0 o s Hok1) as Hup;
    pose proof (fun rb => upsert_unlapsed (a_subs s1) n key_of x y rb c0 (Some (t_grant t + ttl)) s1) as Hun;
    pose proof (upsert_verified (a_subs s1) n key_of x y e c0) as Hver;
    destruct (upsert (a_subs s1) n key_of x y e c0) as [st res] end.
  cbn [fst snd] in *. fold id_of in Hup, Hun. intros H2 H.
  assert (forall rb, kept id_of rb s -> until < rb -> t_upsert t < rb -> exists snap, res = Ok (Refreshed snap)) as Href.
  { intros rb Hk Hrb Ht. apply (Hun rb); [by apply Hk1|done|done]. }
  destruct res as [o|[max]].
  2: { destruct H as [-> ->]. split; [done|]. intros rb Hk Hrb Ht. by destruct (Href rb Hk Hrb Ht). }
  destruct (Hup o (with_store s1 st) eq_refl eq_refl) as [Hk2 Hid].
  apply (tame_kept _ _ _ _ _ Hu H2) in Hk2. destruct H as (s3 & H3 & H). pose proof (tame_kept _ _ _ _ _ Hu H3 Hk2) as Hk3.
  assert (is_verified (a_subs s) pr (ba_url a) = true -> is_verified (a_subs s2) pr (ba_url a) = true) as Hv2.
  { intros Hv. eapply tame_verified; [exact H2|]. unfold is_verified. cbn. rewrite Hver. by eapply tame_verified. }
  destruct (is_verified (a_subs s2) pr (ba_url a)) eqn:Ev; cbn [exec_under] in H.
  - destruct H as [-> ->]. split.
    + intros res [= <-]. split_and!; [done|by eapply tame_verified|by destruct o|by destruct o].
    + intros rb Hk Hrb Ht _. destruct (Href rb Hk Hrb Ht) as [snap [= ->]]. eexists. split; [done|by eexists].
  - split; [|intros rb _ _ _ Hv; by specialize (Hv2 Hv)].
    intros res Hr. destruct H as (w & s4 & H4 & H). pose proof (tame_kept _ _ _ _ _ Hu H4 Hk3) as Hk4.
    destruct (verify_endpoint _ _ _ _ _) as [|reason]; cbn [exec_under] in H; [|by destruct H as (? & _ & -> & _)].
    destruct H as (s5 & H5 & -> & ->). injection Hr as <-.
    assert (TameSteps id_of until s4 s5) as H5'.
    { apply (TameStore _ _ _ (OpSetVerified pr (ba_url a))); [done|]. exact H5. }
    split_and!; [by eapply tame_kept| |by destruct o|by destruct o].
    eapply tame_verified; [exact H5|]. unfold is_verified. simpl. apply bool_decide_eq_true. set_solver.
Qed.

(** ** The loop *)

(** How late things are: between the grant and the nap, and between waking up
    and the end of the request that follows. *)
Context (lag : Z).

(** The refreshes after an answer [res] to a request whose grant was made at
    [g]: the client reads the clock, sleeps, and subscribes with the cursor
    it was given; an answer that is no success ends it. *)
Inductive refreshing : AppState -> Z -> SubscribeResult -> AppState -> list (Ended (result JsonRpcError SubscribeResult)) -> Prop :=
| refreshing_nil s g res : refreshing s g res s []
| refreshing_cons s g res now nap t s1 r s2 s' outs :
    now <= g + lag ->
    refresh_sleep (sr_refresh_before res) now = Ok nap ->
    now + nap <= t_grant t -> t_upsert t <= now + nap + lag -> is_dt (t_grant t + ttl) = true ->
    TameSteps id_of (now + nap + lag) s s1 ->
    exec_under (TameSteps id_of (now + nap + lag))
      (handle_subscribe s0 t (Some pr) (subscribe_params a (sr_cursor res))) s1 r s2 ->
    (forall res', r = Returned (Ok res') -> refreshing s2 (t_grant t) res' s' outs) ->
    ((forall res', r <> Returned (Ok res')) -> s' = s2 /\ outs = []) ->
    refreshing s g res s' (r :: outs).

(** Sleeping leaves time for the request. *)
Lemma nap_in_time g now nap :
  is_dt (g + ttl) = true -> refresh_sleep (Some (iso8601 (g + ttl))) now = Ok nap -> now <= g + lag -> 0 <= lag ->
  6 * lag + milliseconds 1 <= ttl -> 2 * lag + seconds 1 + milliseconds 1 <= ttl ->
  now + nap + lag < g + ttl.
Proof.
  intros Hdt Hn Hnow Hlag H6 H2. unfold refresh_sleep in Hn. unfold iso8601 in Hn. rewrite parse_iso8601 in Hn by done.
  simpl in Hn. injection Hn as <-. unfold milliseconds, seconds in *.
  set (w := g + ttl) in *. assert (w - 1000000 < w / 1000000 * 1000000 <= w) as Hw by (Z.div_mod_to_equations; lia).
  rewrite (proj2 (Z.ltb_ge _ _)) by lia. Z.div_mod_to_equations. lia.
Qed.

(** C24. A subscription kept by the refresh loop never lapses: when a request
    of the loop has been granted, every later one of it succeeds, as the
    refresh of the same subscription, whatever else goes on - other requests,
    sweeps, deliveries, suspensions, full quotas - short of a request of
    another client that removes it or takes its key;
    provided that the granted time is at least six times the delay between the
    two sides, and a second longer than twice that delay. *)
Theorem keep_alive until t s c res s1 s' outs :
  check_subscribe s0 (Some pr) (subscribe_params a c) = Ok ck -> store_ok (a_subs s) ->
  0 <= lag -> 6 * lag + milliseconds 1 <= ttl -> 2 * lag + seconds 1 + milliseconds 1 <= ttl ->
  is_dt (t_grant t + ttl) = true -> until < t_grant t + ttl ->
  exec_under (TameSteps id_of until) (handle_subscribe s0 t (Some pr) (subscribe_params a c)) s (Returned (Ok res)) s1 ->
  refreshing s1 (t_grant t) res s' outs ->
  Forall (fun r => exists res', r = Returned (Ok res') /\ is_Some (sr_delivery_status res') /\ sr_id res' = sr_id res) outs.
Proof.
  intros Hck Hok Hlag H6 H2 Hdt Hu He Hr.
  destruct (proj1 (request_kept until t c s _ s1 Hck Hok Hu Hdt He) res eq_refl) as (Hk & Hv & Hrb & Hid).
  rewrite Hid. clear He Hok Hu Hid. set (g := t_grant t) in *. clearbody g. clear s t.
  induction Hr as [|s g res now nap t s2 r s3 s' outs Hnow Hnap Hg Hup Hdt' Ht He Hnext IH Hend]; [constructor|].
  rewrite Hrb in Hnap. pose proof (nap_in_time g now nap Hdt Hnap Hnow Hlag H6 H2) as Hin.
  pose proof (tame_kept _ _ _ _ _ Hin Ht Hk) as Hk2. pose proof (tame_verified _ _ _ _ _ _ Ht Hv) as Hv2.
  assert (now + nap + lag < t_grant t + ttl) as Hu by (unfold milliseconds, seconds in *; lia).
  destruct (request_kept _ t (sr_cursor res) s2 r s3 Hck (ke_ok _ _ _ Hk2) Hu Hdt' He) as [Hdone Hgo].
  destruct (Hgo _ Hk2 Hin ltac:(lia) Hv2) as (res' & -> & Hst). destruct (Hdone res' eq_refl) as (Hk3 & Hv3 & Hrb' & Hid').
  constructor; [by exists res'|]. by apply (IH res').
Qed.
End keep.

(** ** Examples: a grant of ten seconds, refreshed after eight *)
Section example.
#[local] Instance MillisRfc : Rfc3339 := {|
  to_rfc3339 t := i64_to_string (t / 1000000);
  parse_from_rfc3339 s := (fun ms => ms * 1000000) <$> i64_from_str s
|}.

#[local] Instance MillisRfc_laws : Rfc3339Laws MillisChrono MillisRfc.
Proof.
  split. intros t Ht. unfold is_dt in Ht. apply andb_true_iff in Ht as [Hl%Z.leb_le Hh%Z.leb_le]. cbn in Hl, Hh.
  cbn [to_rfc3339_millis parse_from_rfc3339 MillisRfc MillisChrono].
  rewrite i64_from_to_string; [done|]. unfold i64_min, i64_max. Z.div_mod_to_equations. lia.
Qed.

Lemma run_exec_under {J : JsonLib} {C : Chrono} {Q R A} (steps : AppState -> AppState -> Prop) (env : Q -> R) (p : Prog Q R A) s :
  (forall s, steps s s) -> exec_under steps p s (run env p s).1 (run env p s).2.
Proof. intros Hr. revert s. induction p as [x|X f k IH|q k IH]; intros s; simpl; [done|eauto..]. Qed.

Definition ex_args : SubscribeArgs (J := ZJson) :=
  {| ba_name := "orders.changed"; ba_url := "https://hook"; ba_params := None; ba_ttl_ms := Some (Some 1);
     ba_secret := WHSEC_PREFIX +:+ hex_text "abcdefghijklmnopqrstuvwx"; ba_state_file := None |}.

Definition ex_later : Clock3 := {| t_grant := seconds 109; t_read := seconds 109; t_upsert := seconds 109 |}.

Definition ex_refreshed (res : SubscribeResult) (s : AppState) : Ended (result JsonRpcError SubscribeResult) * AppState :=
  run (ex_world (U := HttpsUrl))
    (handle_subscribe (S := EchoSerde) (U := HttpsUrl) ex_app ex_later (Some "alice") (subscribe_params ex_args (sr_cursor res))) s.

Lemma keep_alive_witness :
  exists res s1 res', ex_subscribed = (Returned (Ok res), s1) /\ (ex_refreshed res s1).1 = Returned (Ok res') /\
    is_Some (sr_delivery_status res') /\ sr_id res' = sr_id res.
Proof.
  assert (snd <$> answered ex_subscribed.1 = Some (Some "110000")) as Hrb by (vm_compute; reflexivity).
  destruct (check_subscribe (U := HttpsUrl) ex_app (Some "alice") (subscribe_params ex_args None)) as [ck|e] eqn:Hck; [|discriminate Hck].
  pose proof (run_exec_under (TameSteps (id_of "alice" ex_args) (seconds 103)) (ex_world (U := HttpsUrl))
    (handle_subscribe (S := EchoSerde) (U := HttpsUrl) ex_app ex_clock (Some "alice") ex_subscribe) ex_app (TameRefl _ _)) as H1.
  change (run _ _ _) with ex_subscribed in H1. destruct ex_subscribed as [[[res|e]|] s1]; [|discriminate Hrb..].
  simpl in Hrb. injection Hrb as Hrb. exists res, s1.
  pose proof (keep_alive (S := EchoSerde) (U := HttpsUrl) (RL := MillisRfc_laws) ex_app "alice" ex_args ck (seconds 1)
    (seconds 103) ex_clock ex_app None res s1 (ex_refreshed res s1).2 [(ex_refreshed res s1).1] Hck) as H.
  assert (ttl ex_app ex_args = seconds 10) as Httl by reflexivity. rewrite Httl in H.
  assert (refresh_sleep (sr_refresh_before res) (seconds 101) = Ok (seconds 36 / 5)) as Hnap by (by rewrite Hrb).
  assert (refreshing (S := EchoSerde) (U := HttpsUrl) ex_app "alice" ex_args (seconds 1) s1 (seconds 100) res
    (ex_refreshed res s1).2 [(ex_refreshed res s1).1]) as Hr.
  { eapply (refreshing_cons _ _ _ _ _ _ _ (seconds 101) (seconds 36 / 5) ex_later s1);
      [ | exact Hnap | | | | apply TameRefl | apply run_exec_under; apply TameRefl | constructor | by split ];
      rewrite ?Httl; by vm_compute. }
  destruct (proj1 (Forall_singleton _ _) (H ltac:(by split) ltac:(by vm_compute) ltac:(by vm_compute) ltac:(by vm_compute)
    ltac:(by vm_compute) ltac:(by vm_compute) H1 Hr)) as (res' & Hr' & Hst & Hid).
  by exists res'.
Defined.
End example.
