(* ===== verification/StdInst.v ===== *)
(** * Real instances of the parameters of [Lib], for running the model.

    The theorems hold for any [Chrono] and [Crypto]; here are instances that
    compute what the standards prescribe, so that the repository's own test
    vectors can be run: the Gregorian calendar and RFC 3339 text (chrono's
    [to_rfc3339_opts(Millis, true)] in the years 0 to 9999), SHA-256 (FIPS
    180-4), HMAC (RFC 2104), hexadecimal and padded base64 (RFC 4648).  Known
    answers of the standards check the definitions. *)
From S2P Require Import Prelude RustStd Lib.

(** ** Bytes *)
Definition byte_z (c : ascii) : Z := Z.of_N (N_of_ascii c).
Definition z_byte (z : Z) : ascii := ascii_of_N (Z.to_N z).

Fixpoint bytes_of (s : string) : list Z :=
  match s with EmptyString => [] | String c s' => byte_z c :: bytes_of s' end.

Fixpoint of_bytes (l : list Z) : string :=
  match l with [] => "" | b :: l' => String (z_byte b) (of_bytes l') end.

Lemma byte_z_range c : 0 <= byte_z c < 256.
Proof. unfold byte_z. pose proof (N_ascii_bounded c). lia. Qed.

Lemma z_byte_z c : z_byte (byte_z c) = c.
Proof. unfold z_byte, byte_z. by rewrite N2Z.id, ascii_N_embedding. Qed.

(** ** SHA-256 *)
Definition w32 (z : Z) : Z := z mod 2 ^ 32.

Definition rotr (n x : Z) : Z := Z.lor (Z.shiftr x n) (w32 (Z.shiftl x (32 - n))).

Definition not32 (x : Z) : Z := 2 ^ 32 - 1 - x.

(** The first 32 bits of the fractional parts of the cube roots and of the
    square roots of the first primes. *)
Definition primes : list Z :=
  base.filter (fun p => 2 <= p /\ forallb (fun d => negb (p mod d =? 0)) (seqZ 2 (p - 2)) = true)
    (seqZ 0 312).

Fixpoint root_search (bits : nat) (pow target r : Z) : Z :=
  match bits with
  | O => r
  | S b =>
      let r' := r + 2 ^ Z.of_nat b in
      root_search b pow target (if Z.pow r' pow <=? target then r' else r)
  end.

Definition frac_root (pow p : Z) : Z := w32 (root_search 37 pow (p * 2 ^ (32 * pow)) 0).

Definition sha_k : list Z := Eval vm_compute in frac_root 3 <$> primes.
Definition sha_h0 : list Z := Eval vm_compute in frac_root 2 <$> take 8 primes.

(** Padding: a one bit, zeros, and the length in bits on 64 bits. *)
Fixpoint be_bytes (n : nat) (z : Z) : list Z :=
  match n with O => [] | S m => be_bytes m (z / 256) ++ [z mod 256] end.

Definition sha_pad (m : list Z) : list Z :=
  let len := Z.of_nat (length m) in
  m ++ [128] ++ replicate (Z.to_nat ((55 - len) mod 64)) 0 ++ be_bytes 8 (8 * len).

Fixpoint chunks_of {A} (fuel n : nat) (l : list A) : list (list A) :=
  match fuel, l with
  | S f, _ :: _ => take n l :: chunks_of f n (drop n l)
  | _, _ => []
  end.

Definition be_word (l : list Z) : Z := foldl (fun acc b => acc * 256 + b) 0 l.

(** The message schedule, the newest word first. *)
Definition sched_step (w : list Z) : list Z :=
  let at_ i := default 0 (w !! i) in
  let s0 := Z.lxor (Z.lxor (rotr 7 (at_ 14%nat)) (rotr 18 (at_ 14%nat))) (Z.shiftr (at_ 14%nat) 3) in
  let s1 := Z.lxor (Z.lxor (rotr 17 (at_ 1%nat)) (rotr 19 (at_ 1%nat))) (Z.shiftr (at_ 1%nat) 10) in
  w32 (at_ 15%nat + s0 + at_ 6%nat + s1) :: w.

Definition schedule (block : list Z) : list Z :=
  rev (Nat.iter 48 sched_step (rev (be_word <$> chunks_of 16 4 block))).

Definition sha_round (h : list Z) (kw : Z * Z) : list Z :=
  match h with
  | [a; b; c; d; e; f; g; hh] =>
      let S1 := Z.lxor (Z.lxor (rotr 6 e) (rotr 11 e)) (rotr 25 e) in
      let ch := Z.lxor (Z.land e f) (Z.land (not32 e) g) in
      let t1 := w32 (hh + S1 + ch + kw.1 + kw.2) in
      let S0 := Z.lxor (Z.lxor (rotr 2 a) (rotr 13 a)) (rotr 22 a) in
      let maj := Z.lxor (Z.lxor (Z.land a b) (Z.land a c)) (Z.land b c) in
      [w32 (t1 + w32 (S0 + maj)); a; b; c; w32 (d + t1); e; f; g]
  | _ => h
  end.

Definition sha_block (h block : list Z) : list Z :=
  zip_with (fun x y => w32 (x + y)) h (foldl sha_round h (zip sha_k (schedule block))).

Definition sha256_bytes (m : list Z) : list Z :=
  let p := sha_pad m in
  foldl sha_block sha_h0 (chunks_of (length p) 64 p) ≫= be_bytes 4.

(** ** HMAC *)
Definition hmac_key (k : list Z) : list Z :=
  let k' := if 64 <? Z.of_nat (length k) then sha256_bytes k else k in
  k' ++ replicate (64 - length k') 0.

Definition hmac_bytes (k m : list Z) : list Z :=
  let k := hmac_key k in
  sha256_bytes ((Z.lxor 92 <$> k) ++ sha256_bytes ((Z.lxor 54 <$> k) ++ m)).

(** ** Base64: the standard alphabet, padded *)
Definition b64_char (n : Z) : ascii :=
  z_byte (if n <? 26 then 65 + n else if n <? 52 then 71 + n else if n <? 62 then n - 4
          else if n =? 62 then 43 else 47).

Definition char_b64 (c : ascii) : option Z :=
  let k := byte_z c in
  if (65 <=? k) && (k <=? 90) then Some (k - 65)
  else if (97 <=? k) && (k <=? 122) then Some (k - 71)
  else if (48 <=? k) && (k <=? 57) then Some (k + 4)
  else if k =? 43 then Some 62 else if k =? 47 then Some 63 else None.

Fixpoint b64_text (s : string) : string :=
  match s with
  | EmptyString => ""
  | String a EmptyString =>
      let x := byte_z a in
      String (b64_char (x / 4)) (String (b64_char (x mod 4 * 16)) "==")
  | String a (String b EmptyString) =>
      let x := byte_z a in let y := byte_z b in
      String (b64_char (x / 4)) (String (b64_char (x mod 4 * 16 + y / 16))
        (String (b64_char (y mod 16 * 4)) "="))
  | String a (String b (String c s')) =>
      let x := byte_z a in let y := byte_z b in let z := byte_z c in
      String (b64_char (x / 4)) (String (b64_char (x mod 4 * 16 + y / 16))
        (String (b64_char (y mod 16 * 4 + z / 64)) (String (b64_char (z mod 64)) (b64_text s'))))
  end.

(** Padding is required and the bits it leaves over must be zero. *)
Fixpoint b64_bytes (s : string) : option string :=
  match s with
  | EmptyString => Some ""
  | String a (String b (String c (String d s'))) =>
      i ← char_b64 a; j ← char_b64 b;
      let x := z_byte (i * 4 + j / 16) in
      if bool_decide (c = "="%char /\ d = "="%char /\ s' = "") then
        if j mod 16 =? 0 then Some (String x "") else None
      else
        k ← char_b64 c;
        let y := z_byte (j mod 16 * 16 + k / 4) in
        if bool_decide (d = "="%char /\ s' = "") then
          if k mod 4 =? 0 then Some (String x (String y "")) else None
        else
          l ← char_b64 d; r ← b64_bytes s';
          Some (String x (String y (String (z_byte (k mod 4 * 64 + l)) r)))
  | _ => None
  end.

(** What is true of the 64 digits, by evaluation. *)
Lemma b64_digit i :
  0 <= i < 64 ->
  char_b64 (b64_char i) = Some i /\ b64_char i <> "="%char /\
  ((32 <? N_of_ascii (b64_char i)) && (N_of_ascii (b64_char i) <? 127))%N = true.
Proof.
  intros Hi.
  cut (Forall (fun i => char_b64 (b64_char i) = Some i /\ b64_char i <> "="%char /\
    ((32 <? N_of_ascii (b64_char i)) && (N_of_ascii (b64_char i) <? 127))%N = true) (seqZ 0 64)).
  - rewrite Forall_forall. intros H. apply H, elem_of_seqZ. lia.
  - decide_closed.
Qed.

Lemma z_byte_eq z c : z = byte_z c -> z_byte z = c.
Proof. intros ->. apply z_byte_z. Qed.

(** The bytes of a group and its digits. *)
Ltac b64_bounds :=
  repeat match goal with
  | c : ascii |- _ =>
      lazymatch goal with
      | _ : 0 <= byte_z c < 256 |- _ => fail
      | _ => pose proof (byte_z_range c)
      end
  end.

Ltac b64_step :=
  match goal with
  | |- context [char_b64 (b64_char ?i)] =>
      rewrite (proj1 (b64_digit i ltac:(Z.to_euclidean_division_equations; lia))); simpl
  | |- context [bool_decide (b64_char ?i = "="%char /\ ?P)] =>
      rewrite (bool_decide_eq_false_2 (b64_char i = "="%char /\ P))
        by (intros [? ?]; by apply (proj1 (proj2 (b64_digit i
              ltac:(Z.to_euclidean_division_equations; lia)))))
  | |- context [bool_decide ?P] => rewrite (bool_decide_eq_true_2 P) by done
  | |- context [(?z =? 0)] =>
      rewrite (proj2 (Z.eqb_eq z 0)) by (Z.to_euclidean_division_equations; lia)
  end.

Ltac b64_group :=
  b64_bounds; cbn [b64_text b64_bytes]; repeat b64_step; repeat f_equal; try done;
  apply z_byte_eq; Z.to_euclidean_division_equations; lia.

(** Strings by groups of three bytes. *)
Lemma string_ind3 (P : string -> Prop) :
  P "" -> (forall a, P (String a "")) -> (forall a b, P (String a (String b ""))) ->
  (forall a b c s, P s -> P (String a (String b (String c s)))) -> forall s, P s.
Proof.
  intros H0 H1 H2 H3. fix IH 1. intros [|a [|b [|c s]]]; [done..|]. apply H3, IH.
Qed.

Lemma b64_roundtrip s : b64_bytes (b64_text s) = Some s.
Proof.
  induction s as [|a|a b|a b c s IH] using string_ind3; [done| | |].
  - b64_group.
  - b64_group.
  - b64_bounds. cbn [b64_text b64_bytes]. repeat b64_step. rewrite IH. simpl.
    repeat f_equal; apply z_byte_eq; Z.to_euclidean_division_equations; lia.
Qed.

(** ** The instance *)
#[export] Instance StdCrypto : Crypto := {
  sha256 s := of_bytes (sha256_bytes (bytes_of s));
  hmac_sha256 k m := of_bytes (hmac_bytes (bytes_of k) (bytes_of m));
  hex_encode := hex_text;
  base64_encode := b64_text;
  base64_decode := b64_bytes;
  base64_error _ := "invalid base64"
}.

#[export] Instance StdCrypto_laws : CryptoLaws StdCrypto.
Proof.
  split; [apply b64_roundtrip|]. intros s. simpl.
  induction s as [|a|a b|a b c s IH] using string_ind3; [done|..]; b64_bounds;
    cbn [b64_text str_forall];
    rewrite ?IH, ?(fun i H => proj2 (proj2 (b64_digit i H)))
      by (Z.to_euclidean_division_equations; lia); done.
Qed.

(** Known answers: the digest of three letters and of nothing (FIPS 180-4),
    the first case of RFC 4231, and the vectors of RFC 4648. *)
Example sha256_abc :
  hex_text (sha256 "abc") = "ba7816bf8f01cfea414140de5dae2223b00361a396177a9cb410ff61f20015ad".
Proof. vm_compute. reflexivity. Qed.

Example sha256_empty :
  hex_text (sha256 "") = "e3b0c44298fc1c149afbf4c8996fb92427ae41e4649b934ca495991b7852b855".
Proof. vm_compute. reflexivity. Qed.

Example hmac_jefe :
  hex_text (hmac_sha256 "Jefe" "what do ya want for nothing?")
  = "5bdcc146bf60754e6a042426089575c75a003f089d2739839dec58b964ec3843".
Proof. vm_compute. reflexivity. Qed.

Example base64_vectors :
  b64_text <$> ["f"; "fo"; "foo"; "foob"; "fooba"; "foobar"]
  = ["Zg=="; "Zm8="; "Zm9v"; "Zm9vYg=="; "Zm9vYmE="; "Zm9vYmFy"].
Proof. vm_compute. reflexivity. Qed.

(** ** The calendar *)

(** Days since the epoch to year, month and day, in the proleptic Gregorian
    calendar: eras of 400 years that begin in March. *)
Definition civil_from_days (days : Z) : Z * Z * Z :=
  let z := days + 719468 in
  let era := z / 146097 in
  let doe := z mod 146097 in
  let yoe := (doe - doe / 1460 + doe / 36524 - doe / 146096) / 365 in
  let doy := doe - (365 * yoe + yoe / 4 - yoe / 100) in
  let mp := (5 * doy + 2) / 153 in
  let m := if mp <? 10 then mp + 3 else mp - 9 in
  (yoe + era * 400 + (if m <=? 2 then 1 else 0), m, doy - (153 * mp + 2) / 5 + 1).

Definition days_from_civil (y m d : Z) : Z :=
  let y := if m <=? 2 then y - 1 else y in
  let yoe := y mod 400 in
  let doy := (153 * (if 2 <? m then m - 3 else m + 9) + 2) / 5 + d - 1 in
  y / 400 * 146097 + (yoe * 365 + yoe / 4 - yoe / 100 + doy) - 719468.

(** A number of [n] digits at least. *)
Fixpoint pad_dec (n : nat) (z : Z) : string :=
  match n with O => "" | S m => pad_dec m (z / 10) +:+ String (digit_char (z mod 10)) "" end.

Definition iso_date_time (t : Z) : string :=
  let secs := t / 1000000000 in
  let '(y, m, d) := civil_from_days (secs / 86400) in
  let s := secs mod 86400 in
  pad_dec 4 y +:+ "-" +:+ pad_dec 2 m +:+ "-" +:+ pad_dec 2 d +:+ "T" +:+
  pad_dec 2 (s / 3600) +:+ ":" +:+ pad_dec 2 (s mod 3600 / 60) +:+ ":" +:+ pad_dec 2 (s mod 60).

Definition iso_millis (t : Z) : string :=
  iso_date_time t +:+ "." +:+ pad_dec 3 (t mod 1000000000 / 1000000) +:+ "Z".

#[export] Instance IsoChrono : Chrono := {
  MIN_UTC := - 8334601228800 * 10 ^ 9;
  MAX_UTC := 8210266876799 * 10 ^ 9 + 999999999;
  to_rfc3339_millis := iso_millis
}.

#[export] Instance IsoChrono_laws : ChronoLaws IsoChrono.
Proof. by split. Qed.

(** [Utc.with_ymd_and_hms(..).unwrap()]. *)
Definition ymd_hms (y mo d h mi s : Z) : Z :=
  seconds (days_from_civil y mo d * 86400 + h * 3600 + mi * 60 + s).

(** The two conversions of dates agree around the leap years 2000 and 2100,
    and the bounds of the range are chrono's. *)
Example calendar_agrees :
  forallb (fun n => let '(y, m, d) := civil_from_days n in days_from_civil y m d =? n)
    (seqZ 10957 800 ++ seqZ 47400 800) = true.
Proof. vm_compute. reflexivity. Qed.

Example calendar_bounds :
  (civil_from_days (MIN_UTC / 10 ^ 9 / 86400), civil_from_days (MAX_UTC / 10 ^ 9 / 86400),
   civil_from_days 0, civil_from_days 11016)
  = ((-262143, 1, 1), (262142, 12, 31), (1970, 1, 1), (2000, 2, 29)).
Proof. vm_compute. reflexivity. Qed.
