(* ===== verification/TestKit.v ===== *)
(** * Running the repository's unit tests on the model.

    A [#[test]] function becomes a program of the [Test] monad: it passes a
    clock and the state of the objects it works on, and fails at the first
    assertion that does not hold, as the harness of cargo does.  [Utc::now]
    reads the clock, which moves on by a microsecond at each call.  The files
    EngineTests, FeedTests, ServerTests, ClientTests and AgentTests are the
    test modules of the crates, a definition per test, run by evaluation on
    the definitions the theorems are about. *)
From S2P Require Import Prelude RustStd Json Lib JsonText StdInst.

(** ** The monad *)
Definition Test (S A : Type) : Type := Z * S -> option (A * (Z * S)).

#[export] Instance test_ret S : MRet (Test S) := fun A a w => Some (a, w).
#[export] Instance test_bind S : MBind (Test S) := fun A B f t w =>
  match t w with Some (a, w') => f a w' | None => None end.

Section kit.
Context {S : Type}.

(** [assert!], [assert_eq!], [assert_ne!] and [unwrap]. *)
Definition assert (b : bool) : Test S unit := fun w => if b then Some (tt, w) else None.

Definition assert_eq {A} `{EqDecision A} (x y : A) : Test S unit := assert (bool_decide (x = y)).

Definition assert_ne {A} `{EqDecision A} (x y : A) : Test S unit := assert (negb (bool_decide (x = y))).

Definition unwrap {A} (o : option A) : Test S A :=
  fun w => match o with Some a => Some (a, w) | None => None end.

(** The clock and the state. *)
Definition utc_now : Test S Z := fun w => Some (w.1, (w.1 + 1000, w.2)).

Definition gets {A} (f : S -> A) : Test S A := fun w => Some (f w.2, w).

(** A call at the time it is made, which changes the state. *)
Definition call {A} (f : Z -> S -> S * A) : Test S A :=
  fun w => let '(s', a) := f w.1 w.2 in Some (a, (w.1 + 1000, s')).

Definition modify (f : S -> S) : Test S unit := fun w => Some (tt, (w.1, f w.2)).

(** A [for] loop over a list, or a range. *)
Fixpoint for_each {A} (l : list A) (body : A -> Test S unit) : Test S unit :=
  match l with
  | [] => mret tt
  | x :: l' => body x ;; for_each l' body
  end.

(** The outcome of a test that begins at [now] in state [s]. *)
Definition passed (now : Z) (s : S) (t : Test S unit) : bool := bool_decide (is_Some (t (now, s))).

(** The names of the tests that fail. *)
Definition failing (now : Z) (s : S) (l : list (string * Test S unit)) : list string :=
  (base.filter (fun nt => passed now s nt.2 = false) l).*1.

(** A failed assertion ends a test: what follows cannot make up for it. *)
Lemma assert_fails {A} (k : unit -> Test S A) w : (assert false ≫= k) w = None.
Proof. done. Qed.

Lemma passed_bind {A} now s (t : Test S A) (k : A -> Test S unit) :
  passed now s (t ≫= k) = true ->
  exists a now' s', t (now, s) = Some (a, (now', s')) /\ passed now' s' (k a) = true.
Proof.
  unfold passed, mbind, test_bind. destruct (t (now, s)) as [[a [now' s']]|].
  - intros H. by exists a, now', s'.
  - intros H. apply bool_decide_eq_true in H as [? [=]].
Qed.
End kit.

(** ** JSON literals: [json!] *)

(** JSON text with single quotes for double ones, and white space. *)
Fixpoint json_literal (quoted : bool) (s : string) : string :=
  match s with
  | EmptyString => ""
  | String c s' =>
      if bool_decide (c = "'"%char) then String quote (json_literal (negb quoted) s')
      else if negb quoted && (bool_decide (c = " "%char) || bool_decide (c = "010"%char))
      then json_literal quoted s'
      else String c (json_literal quoted s')
  end.

Definition json_text (s : string) : string := json_literal false s.

Definition js (s : string) : Value (J := ZJson) := default (JString "not JSON") (read_json (json_text s)).

Example js_example :
  bool_decide (js "{'b': [1, null, true], 'a': {'d': 'x y'}}"
    = JObject [("a", JObject [("d", JString "x y")]);
               ("b", JArray [JNumber (J := ZJson) 1; JNull; JBool true])]) = true.
Proof. vm_compute. reflexivity. Qed.

Definition is_none {A} (o : option A) : bool := match o with Some _ => false | None => true end.
Definition is_some {A} (o : option A) : bool := negb (is_none o).
Definition is_empty {A} (l : list A) : bool := match l with [] => true | _ => false end.

(** [str::ends_with] on one character. *)
Definition ends_with_char (c : ascii) (s : string) : bool :=
  bool_decide (String.get (String.length s - 1) s = Some c).

(** The time the tests start: 2026-02-19T15:30:00.123Z. *)
Definition test_start : Z := ymd_hms 2026 2 19 15 30 0 + milliseconds 123.
