(* ===== verification/EngineTests.v ===== *)
(** * The unit tests of mcp-events-engine, run on the model.

    Each definition is a [#[test]] function of the crate; its calls are the
    definitions of [Canon], [Registry], [Buffer] and [Store].  The tests of
    buffer.rs run on a buffer whose epoch is any of a few random draws, the
    least and the greatest [u64] among them. *)
From S2P Require Import Prelude RustStd Json Lib Wire Canon Buffer Registry Store JsonText StdInst TestKit.

(** ** buffer.rs *)
Module BufferTests.
Section tests.
(** The epoch that [EventBuffer::new] draws. *)
Context (rnd : Z).

Abbreviation T := (Test EventBuffer).

Definition buf (cap : Z) : T unit :=
  modify (fun _ => buffer_new {| max_events_per_type := cap; max_age := None |} rnd).

Definition ev (name id : string) (ts : Z) : EmittedEvent :=
  {| em_name := name; em_event_id := id; em_timestamp := ts;
     em_data := json_obj [("id", JString id)] |}.

(** The methods, at the time of the call. *)
Definition b_emit (e : EmittedEvent) : T Z := call (fun now b => emit b now e).
Definition b_read (name : string) (cursor : option string) (age cap : option Z)
    (params : option Value) (f : option ParamFilter) : T ReadResult :=
  call (fun now b => read b now name cursor age cap params f).
Definition b_live (name : string) : T nat := call (fun _ b => live b name).
Definition b_cursor (name : string) : T string := gets (fun b => current_cursor b name).
Definition recv (name : string) (rx : nat) : T LiveEvent :=
  o ← gets (fun b => tx (type_state b name) !! rx); unwrap o.

Definition epoch_of : T Z :=
  c ← b_cursor "__epoch_probe__"; '(e, _) ← unwrap (parse_cursor c); mret e.

Definition ids (r : ReadResult) : list string := eo_event_id <$> rr_events r.

(** [format!("{}:n", epoch_of(&b))]. *)
Definition at_pos (n : Z) : T string := e ← epoch_of; mret (u64_to_string e +:+ ":" +:+ u64_to_string n).

(** The same in another epoch: [epoch_of(&b).wrapping_add(1)]. *)
Definition foreign_pos (n : Z) : T string :=
  e ← epoch_of; mret (u64_to_string (u64_add e 1) +:+ ":" +:+ u64_to_string n).

(** [for i in 1..=n { b.emit(ev("t", &format!("e{i}"), now)); }] *)
Definition emit_upto (n : Z) (now : Z) : T unit :=
  for_each (seqZ 1 n) (fun i => b_emit (ev "t" ("e" +:+ u64_to_string i) now);; mret tt).

Definition null_cursor_starts_from_now_on_empty_buffer : T unit :=
  buf 10;;
  r ← b_read "t" None None None None None;
  assert (is_empty (rr_events r));;
  assert (negb (rr_truncated r));;
  assert (negb (rr_has_more r));;
  c0 ← at_pos 0; assert_eq (rr_cursor r) c0;;
  c ← b_cursor "t"; assert_eq (rr_cursor r) c.

Definition null_cursor_skips_history_and_resumes_forward : T unit :=
  buf 10;;
  now ← utc_now;
  b_emit (ev "t" "e1" now);; b_emit (ev "t" "e2" now);;
  r ← b_read "t" None None None None None;
  assert (is_empty (rr_events r));;
  assert (negb (rr_truncated r));;
  c2 ← at_pos 2; assert_eq (rr_cursor r) c2;;
  b_emit (ev "t" "e3" now);;
  r2 ← b_read "t" (Some (rr_cursor r)) None None None None;
  assert_eq (ids r2) ["e3"];;
  assert (negb (rr_truncated r2));;
  assert (negb (rr_has_more r2));;
  c3 ← at_pos 3; assert_eq (rr_cursor r2) c3.

Definition resume_returns_events_in_order_then_drains : T unit :=
  buf 10;;
  r0 ← b_read "t" None None None None None;
  now ← utc_now;
  emit_upto 3 now;;
  r ← b_read "t" (Some (rr_cursor r0)) None None None None;
  assert_eq (ids r) ["e1"; "e2"; "e3"];;
  assert (negb (rr_truncated r));;
  assert (negb (rr_has_more r));;
  r2 ← b_read "t" (Some (rr_cursor r)) None None None None;
  assert (is_empty (rr_events r2));;
  assert_eq (rr_cursor r2) (rr_cursor r);;
  assert (negb (rr_truncated r2)).

(** The parse of the timestamp by chrono is left out; its text is compared. *)
Definition poll_occurrences_have_no_cursor_and_iso8601_timestamps : T unit :=
  buf 10;;
  r0 ← b_read "t" None None None None None;
  now ← utc_now; b_emit (ev "t" "e1" now);;
  r ← b_read "t" (Some (rr_cursor r0)) None None None None;
  occ ← unwrap (rr_events r !! 0%nat);
  assert_eq (eo_cursor occ) None;;
  assert_eq (eo_name occ) "t";;
  assert_eq (eo_data occ) (json_obj [("id", JString "e1")]);;
  assert_eq (eo_timestamp occ) "2026-02-19T15:30:00.123Z";;
  assert (ends_with_char "Z" (eo_timestamp occ)).

Definition foreign_epoch_truncates_and_replays_from_oldest_retained : T unit :=
  buf 10;;
  now ← utc_now;
  emit_upto 3 now;;
  foreign ← foreign_pos 2;
  r ← b_read "t" (Some foreign) None None None None;
  assert (rr_truncated r);;
  assert_eq (ids r) ["e1"; "e2"; "e3"];;
  c3 ← at_pos 3; assert_eq (rr_cursor r) c3.

Definition foreign_epoch_on_empty_buffer_resets_to_now : T unit :=
  buf 10;;
  foreign ← foreign_pos 7;
  r ← b_read "t" (Some foreign) None None None None;
  assert (rr_truncated r);;
  assert (is_empty (rr_events r));;
  c0 ← at_pos 0; assert_eq (rr_cursor r) c0.

Definition unparseable_cursors_truncate : T unit :=
  buf 10;;
  now ← utc_now; b_emit (ev "t" "e1" now);;
  for_each ["garbage"; ""; "12"; ":"; "1:2:3"; "abc:def"; "1:def"; "-1:2"] (fun bogus =>
    r ← b_read "t" (Some bogus) None None None None;
    assert (rr_truncated r);;
    assert_eq (ids r) ["e1"]).

Definition evicted_cursor_truncates_and_resumes_from_oldest : T unit :=
  buf 3;;
  r0 ← b_read "t" None None None None None;
  now ← utc_now;
  emit_upto 5 now;;
  r ← b_read "t" (Some (rr_cursor r0)) None None None None;
  assert (rr_truncated r);;
  assert_eq (ids r) ["e3"; "e4"; "e5"];;
  c5 ← at_pos 5; assert_eq (rr_cursor r) c5;;
  c2 ← at_pos 2;
  r2 ← b_read "t" (Some c2) None None None None;
  assert (negb (rr_truncated r2));;
  assert_eq (ids r2) ["e3"; "e4"; "e5"];;
  c1 ← at_pos 1;
  r3 ← b_read "t" (Some c1) None None None None;
  assert (rr_truncated r3);;
  assert_eq (ids r3) ["e3"; "e4"; "e5"].

Definition fully_age_evicted_buffer_with_stale_cursor_truncates_to_head : T unit :=
  modify (fun _ => buffer_new {| max_events_per_type := 10; max_age := Some (seconds 1) |} rnd);;
  r0 ← b_read "t" None None None None None;
  now ← utc_now;
  let old := now - seconds 3600 in
  b_emit (ev "t" "e1" old);; b_emit (ev "t" "e2" old);;
  r ← b_read "t" (Some (rr_cursor r0)) None None None None;
  assert (rr_truncated r);;
  assert (is_empty (rr_events r));;
  c2 ← at_pos 2; assert_eq (rr_cursor r) c2;;
  r2 ← b_read "t" (Some (rr_cursor r)) None None None None;
  assert (negb (rr_truncated r2));;
  assert (is_empty (rr_events r2)).

Definition minutes (n : Z) : Z := seconds (60 * n).

Definition max_age_floor_skips_old_events_and_truncates : T unit :=
  buf 10;;
  r0 ← b_read "t" None None None None None;
  now ← utc_now;
  b_emit (ev "t" "old" (now - minutes 10));; b_emit (ev "t" "new" (now - minutes 1));;
  r ← b_read "t" (Some (rr_cursor r0)) (Some (5 * 60 * 1000)) None None None;
  assert (rr_truncated r);;
  assert_eq (ids r) ["new"];;
  c2 ← at_pos 2; assert_eq (rr_cursor r) c2.

Definition gigantic_max_age_ms_clamps_instead_of_panicking : T unit :=
  buf 10;;
  r0 ← b_read "t" None None None None None;
  now ← utc_now; b_emit (ev "t" "e1" now);;
  for_each [u64_max; 9000000000000000000; i64_max] (fun ms =>
    r ← b_read "t" (Some (rr_cursor r0)) (Some ms) None None None;
    assert (negb (rr_truncated r));;
    assert_eq (ids r) ["e1"]).

Definition max_age_floor_without_skipped_events_does_not_truncate : T unit :=
  buf 10;;
  now ← utc_now;
  b_emit (ev "t" "old" (now - minutes 10));; b_emit (ev "t" "new" (now - minutes 1));;
  c1 ← at_pos 1;
  r ← b_read "t" (Some c1) (Some (5 * 60 * 1000)) None None None;
  assert (negb (rr_truncated r));;
  assert_eq (ids r) ["new"].

Definition max_age_ignored_when_cursor_is_null : T unit :=
  buf 10;;
  now ← utc_now; b_emit (ev "t" "old" (now - minutes 120));;
  r ← b_read "t" None (Some 1) None None None;
  assert (negb (rr_truncated r));;
  assert (is_empty (rr_events r));;
  c1 ← at_pos 1; assert_eq (rr_cursor r) c1.

Definition max_age_floor_applies_after_invalid_cursor_reset : T unit :=
  buf 10;;
  now ← utc_now;
  b_emit (ev "t" "old" (now - minutes 10));; b_emit (ev "t" "new" (now - minutes 1));;
  foreign ← foreign_pos 0;
  r ← b_read "t" (Some foreign) (Some (5 * 60 * 1000)) None None None;
  assert (rr_truncated r);;
  assert_eq (ids r) ["new"].

Definition future_cursor_same_epoch_resets_to_head : T unit :=
  buf 10;;
  now ← utc_now;
  b_emit (ev "t" "e1" now);; b_emit (ev "t" "e2" now);;
  future ← at_pos 99;
  r ← b_read "t" (Some future) None None None None;
  assert (rr_truncated r);;
  assert (is_empty (rr_events r));;
  c2 ← at_pos 2; assert_eq (rr_cursor r) c2.

(** The [loop] of the test: [rounds < 10] is asserted before each new round,
    so that ten rounds of fuel are enough. *)
Fixpoint paginate (fuel : nat) (cursor : string) (seen : list string) (rounds : Z)
    : T (string * list string * Z) :=
  match fuel with
  | O => unwrap None
  | S f =>
      r ← b_read "t" (Some cursor) None (Some 2) None None;
      assert (negb (rr_truncated r));;
      let seen := seen ++ ids r in
      let cursor := rr_cursor r in
      let rounds := rounds + 1 in
      if negb (rr_has_more r) then mret (cursor, seen, rounds)
      else assert (rounds <? 10);; paginate f cursor seen rounds
  end.

Definition max_events_paginates_with_has_more_and_intermediate_cursors : T unit :=
  buf 10;;
  r0 ← b_read "t" None None None None None;
  now ← utc_now;
  emit_upto 5 now;;
  '(cursor, seen, rounds) ← paginate 10 (rr_cursor r0) [] 0;
  assert_eq seen ["e1"; "e2"; "e3"; "e4"; "e5"];;
  assert_eq rounds 3;;
  c5 ← at_pos 5; assert_eq cursor c5.

Definition max_events_zero_returns_empty_batch_with_has_more : T unit :=
  buf 10;;
  r0 ← b_read "t" None None None None None;
  now ← utc_now; b_emit (ev "t" "e1" now);;
  r ← b_read "t" (Some (rr_cursor r0)) None (Some 0) None None;
  assert (is_empty (rr_events r));;
  assert (rr_has_more r);;
  assert_eq (rr_cursor r) (rr_cursor r0).

Definition change_type_filter : ParamFilter := fun params data =>
  match value_get "changeType" params with
  | Some want => bool_decide (value_get "changeType" data = Some want)
  | None => true
  end.

Definition change_ev (name id kind : string) : T EmittedEvent :=
  now ← utc_now;
  mret {| em_name := name; em_event_id := id; em_timestamp := now;
          em_data := json_obj [("id", JString id); ("changeType", JString kind)] |}.

(** [b.emit(change_ev("t", id, kind))] for each pair. *)
Definition emit_changes (l : list (string * string)) : T unit :=
  for_each l (fun ik => e ← change_ev "t" ik.1 ik.2; b_emit e;; mret tt).

Definition added_params : Value := json_obj [("changeType", JString "added")].

Definition filter_excludes_events_and_advances_cursor_past_them : T unit :=
  buf 10;;
  r0 ← b_read "t" None None None None None;
  emit_changes [("e1", "added"); ("e2", "updated"); ("e3", "added")];;
  r ← b_read "t" (Some (rr_cursor r0)) None None (Some added_params) (Some change_type_filter);
  assert_eq (ids r) ["e1"; "e3"];;
  assert (negb (rr_has_more r));;
  assert (negb (rr_truncated r));;
  c3 ← at_pos 3; assert_eq (rr_cursor r) c3.

Definition filtered_events_do_not_count_toward_max_events : T unit :=
  buf 10;;
  r0 ← b_read "t" None None None None None;
  emit_changes [("e1", "added"); ("e2", "updated"); ("e3", "added"); ("e4", "added")];;
  r ← b_read "t" (Some (rr_cursor r0)) None (Some 2) (Some added_params) (Some change_type_filter);
  assert_eq (ids r) ["e1"; "e3"];;
  assert (rr_has_more r);;
  c3 ← at_pos 3; assert_eq (rr_cursor r) c3;;
  r2 ← b_read "t" (Some (rr_cursor r)) None (Some 2) (Some added_params) (Some change_type_filter);
  assert_eq (ids r2) ["e4"];;
  assert (negb (rr_has_more r2)).

Definition trailing_filtered_events_do_not_set_has_more : T unit :=
  buf 10;;
  r0 ← b_read "t" None None None None None;
  emit_changes [("e1", "added"); ("e2", "added"); ("e3", "updated")];;
  r ← b_read "t" (Some (rr_cursor r0)) None (Some 2) (Some added_params) (Some change_type_filter);
  assert_eq (ids r) ["e1"; "e2"];;
  assert (negb (rr_has_more r));;
  c3 ← at_pos 3; assert_eq (rr_cursor r) c3.

Definition filter_not_applied_when_params_absent : T unit :=
  buf 10;;
  r0 ← b_read "t" None None None None None;
  emit_changes [("e1", "added"); ("e2", "updated")];;
  r ← b_read "t" (Some (rr_cursor r0)) None None None (Some change_type_filter);
  assert_eq (ids r) ["e1"; "e2"].

Definition event_types_are_independent : T unit :=
  buf 10;;
  now ← utc_now;
  n1 ← b_emit (ev "a" "a1" now); assert_eq n1 1;;
  n2 ← b_emit (ev "b" "b1" now); assert_eq n2 1;;
  n3 ← b_emit (ev "a" "a2" now); assert_eq n3 2;;
  ca ← b_cursor "a"; c2 ← at_pos 2; assert_eq ca c2;;
  cb ← b_cursor "b"; c1 ← at_pos 1; assert_eq cb c1;;
  c0 ← at_pos 0;
  r ← b_read "a" (Some c0) None None None None;
  assert_eq (ids r) ["a1"; "a2"].

Definition current_cursor_for_unknown_type_is_position_zero : T unit :=
  buf 10;;
  c ← b_cursor "nope"; c0 ← at_pos 0; assert_eq c c0.

Definition live_receivers_get_cursor_bearing_occurrences : T unit :=
  buf 10;;
  rx ← b_live "t";
  now ← utc_now;
  seq ← b_emit (ev "t" "e1" now);
  assert_eq seq 1;;
  l ← recv "t" rx;
  assert_eq (le_seq l) 1;;
  assert_eq (eo_event_id (le_occurrence l)) "e1";;
  c1 ← at_pos 1; assert_eq (eo_cursor (le_occurrence l)) (Some (Some c1));;
  c0 ← at_pos 0;
  r ← b_read "t" (Some c0) None None None None;
  o ← unwrap (rr_events r !! 0%nat);
  assert_eq (eo_cursor o) None.

(** [try_recv] finds nothing after the one event. *)
Definition live_subscription_only_sees_later_emissions : T unit :=
  buf 10;;
  now ← utc_now; b_emit (ev "t" "before" now);;
  rx ← b_live "t";
  now ← utc_now; b_emit (ev "t" "after" now);;
  l ← recv "t" rx;
  assert_eq (eo_event_id (le_occurrence l)) "after";;
  n ← gets (fun b => length (tx (type_state b "t")));
  assert_eq n (S rx).

Definition tests : list (string * T unit) :=
  [("null_cursor_starts_from_now_on_empty_buffer", null_cursor_starts_from_now_on_empty_buffer);
   ("null_cursor_skips_history_and_resumes_forward", null_cursor_skips_history_and_resumes_forward);
   ("resume_returns_events_in_order_then_drains", resume_returns_events_in_order_then_drains);
   ("poll_occurrences_have_no_cursor_and_iso8601_timestamps", poll_occurrences_have_no_cursor_and_iso8601_timestamps);
   ("foreign_epoch_truncates_and_replays_from_oldest_retained", foreign_epoch_truncates_and_replays_from_oldest_retained);
   ("foreign_epoch_on_empty_buffer_resets_to_now", foreign_epoch_on_empty_buffer_resets_to_now);
   ("unparseable_cursors_truncate", unparseable_cursors_truncate);
   ("evicted_cursor_truncates_and_resumes_from_oldest", evicted_cursor_truncates_and_resumes_from_oldest);
   ("fully_age_evicted_buffer_with_stale_cursor_truncates_to_head", fully_age_evicted_buffer_with_stale_cursor_truncates_to_head);
   ("max_age_floor_skips_old_events_and_truncates", max_age_floor_skips_old_events_and_truncates);
   ("gigantic_max_age_ms_clamps_instead_of_panicking", gigantic_max_age_ms_clamps_instead_of_panicking);
   ("max_age_floor_without_skipped_events_does_not_truncate", max_age_floor_without_skipped_events_does_not_truncate);
   ("max_age_ignored_when_cursor_is_null", max_age_ignored_when_cursor_is_null);
   ("max_age_floor_applies_after_invalid_cursor_reset", max_age_floor_applies_after_invalid_cursor_reset);
   ("future_cursor_same_epoch_resets_to_head", future_cursor_same_epoch_resets_to_head);
   ("max_events_paginates_with_has_more_and_intermediate_cursors", max_events_paginates_with_has_more_and_intermediate_cursors);
   ("max_events_zero_returns_empty_batch_with_has_more", max_events_zero_returns_empty_batch_with_has_more);
   ("filter_excludes_events_and_advances_cursor_past_them", filter_excludes_events_and_advances_cursor_past_them);
   ("filtered_events_do_not_count_toward_max_events", filtered_events_do_not_count_toward_max_events);
   ("trailing_filtered_events_do_not_set_has_more", trailing_filtered_events_do_not_set_has_more);
   ("filter_not_applied_when_params_absent", filter_not_applied_when_params_absent);
   ("event_types_are_independent", event_types_are_independent);
   ("current_cursor_for_unknown_type_is_position_zero", current_cursor_for_unknown_type_is_position_zero);
   ("live_receivers_get_cursor_bearing_occurrences", live_receivers_get_cursor_bearing_occurrences);
   ("live_subscription_only_sees_later_emissions", live_subscription_only_sees_later_emissions)].
End tests.

Definition empty : EventBuffer := buffer_new {| max_events_per_type := 0; max_age := None |} 0.

Example buffer_tests_pass :
  (fun rnd => failing test_start empty (tests rnd)) <$> [0; 1; 12345678901234567890; u64_max]
  = [[]; []; []; []].
Proof. vm_compute. reflexivity. Qed.
End BufferTests.

(** ** canon.rs, lib.rs and registry.rs *)
Module CanonTests.
Definition T := Test unit.

Definition sorts_keys_recursively_no_whitespace : T unit :=
  assert_eq (canonical_json (js "{'b': 1, 'a': {'d': 2, 'c': [3, {'z': 0, 'y': 1}]}}"))
    (json_text "{'a':{'c':[3,{'y':1,'z':0}],'d':2},'b':1}").

(** The case of [-1.5] is left out: the numbers here are integers. *)
Definition scalars_render_as_compact_json : T unit :=
  assert_eq (canonical_json JNull) "null";;
  assert_eq (canonical_json (JBool true)) "true";;
  assert_eq (canonical_json (json_int 42)) "42";;
  assert_eq (canonical_json (JString ("a" +:+ String quote ("b" +:+ String "010" ""))))
    (json_text "'a\" +:+ String quote ("b\n" +:+ json_text "'"));;
  assert_eq (canonical_json (json_obj [])) "{}";;
  assert_eq (canonical_json (JArray [])) "[]".

Definition array_order_is_significant : T unit :=
  assert_ne (canonical_json (js "[1, 2]")) (canonical_json (js "[2, 1]")).

Definition semantically_equal_objects_canonicalize_identically : T unit :=
  a ← unwrap (read_json (json_text "{'severity':'P1','service':'db'}"));
  b ← unwrap (read_json (json_text "{ 'service' : 'db', 'severity': 'P1' }"));
  assert_eq (canonical_json a) (canonical_json b).

Definition escapes_keys : T unit :=
  assert_eq (canonical_json (json_obj [("a" +:+ String quote "b", json_int 1)]))
    (json_text "{'a\" +:+ String quote ("b" +:+ json_text "':1}")).

Definition iso8601_renders_utc_z_millis : T unit :=
  assert_eq (iso8601 (ymd_hms 2026 2 19 15 30 0)) "2026-02-19T15:30:00.000Z".

Definition def (name desc : string) : EventDefinition :=
  {| ed_name := name; ed_description := Some desc; ed_delivery := [Poll; Push];
     ed_input_schema := None; ed_payload_schema := None; ed_meta := None |}.

Definition list_preserves_order_and_get_finds_by_name : T unit :=
  let r := registry_new [def "a.changed" "A"; def "b.changed" "B"] in
  let listed := registry_list r in
  assert_eq (length listed) 2%nat;;
  assert_eq (ed_name <$> listed !! 0%nat) (Some "a.changed");;
  assert_eq (ed_name <$> listed !! 1%nat) (Some "b.changed");;
  b ← unwrap (registry_get r "b.changed"); assert_eq (ed_description b) (Some "B");;
  assert (is_none (registry_get r "missing")).

Definition duplicate_name_later_definition_wins_for_get : T unit :=
  let r := registry_new [def "x" "first"; def "x" "second"] in
  x ← unwrap (registry_get r "x"); assert_eq (ed_description x) (Some "second");;
  assert_eq (length (registry_list r)) 2%nat.

(** A clone shares an immutable registry: it is the same value. *)
Definition clones_share_state : T unit :=
  let r := registry_new [def "a" "A"] in
  let r2 := r in
  a ← unwrap (registry_get r2 "a"); assert_eq (ed_name a) "a".

Definition tests : list (string * T unit) :=
  [("sorts_keys_recursively_no_whitespace", sorts_keys_recursively_no_whitespace);
   ("scalars_render_as_compact_json", scalars_render_as_compact_json);
   ("array_order_is_significant", array_order_is_significant);
   ("semantically_equal_objects_canonicalize_identically", semantically_equal_objects_canonicalize_identically);
   ("escapes_keys", escapes_keys);
   ("iso8601_renders_utc_z_millis", iso8601_renders_utc_z_millis);
   ("list_preserves_order_and_get_finds_by_name", list_preserves_order_and_get_finds_by_name);
   ("duplicate_name_later_definition_wins_for_get", duplicate_name_later_definition_wins_for_get);
   ("clones_share_state", clones_share_state)].

Example canon_registry_tests_pass : failing test_start tt tests = [].
Proof. vm_compute. reflexivity. Qed.
End CanonTests.

(** ** store.rs *)
Module StoreTests.
Definition T := Test Store.

Definition new_store (max : Z) : T unit := modify (fun _ => store_new max).

Definition key (p u n : string) (params : Value) : SubKey :=
  {| principal := p; url := u; name := n; params_canonical := canonical_json params |}.

Definition no_params : Value := json_obj [].

Definition s_upsert (k : SubKey) (params : Value) (secret : string) (rb : option Z)
    (cursor : option string) : T (result StoreError UpsertOutcome) :=
  call (fun now st => upsert st now k params secret rb cursor).

Definition upsert_simple (k : SubKey) (secret : string) (rb : option Z) (cursor : option string)
    : T (result StoreError UpsertOutcome) := s_upsert k no_params secret rb cursor.

(** [upsert_simple(..).unwrap()]. *)
Definition upsert_ok (k : SubKey) (secret : string) (rb : option Z) (cursor : option string)
    : T UpsertOutcome := r ← upsert_simple k secret rb cursor; unwrap (ok_opt r).

Definition hours (n : Z) : Z := seconds (3600 * n).
Definition future : T (option Z) := now ← utc_now; mret (Some (now + hours 1)).

(** [store.get(&k).unwrap()]. *)
Definition got (k : SubKey) : T WebhookSub := o ← gets (fun st => get st k); unwrap o.

Definition fail_delivery (id category : string) (at_ n : Z) : T unit :=
  modify (fun st => mark_delivery_failed st id category at_ n).

Definition all_hexdigits (s : string) : bool :=
  str_forall (fun c => is_some (nibble_hex (to_ascii_lowercase_char c))) s.

Definition id_is_sub_prefixed_16_hex_and_deterministic_over_key : T unit :=
  let p1 := js "{'a':1}" in
  let k := key "dev@example.com" "https://h/x" "orders.changed" p1 in
  let id1 := derive_sub_id k in
  let id2 := derive_sub_id k in
  assert_eq id1 id2;;
  hex_part ← unwrap (strip_prefix "sub_" id1);
  assert_eq (String.length hex_part) 16%nat;;
  assert (all_hexdigits hex_part);;
  for_each [key "other@example.com" "https://h/x" "orders.changed" p1;
            key "dev@example.com" "https://h/y" "orders.changed" p1;
            key "dev@example.com" "https://h/x" "orders.deleted" p1;
            key "dev@example.com" "https://h/x" "orders.changed" (js "{'a':2}")] (fun other =>
    assert_ne (derive_sub_id other) id1).

Definition upsert_creates_with_supplied_cursor_and_grant : T unit :=
  new_store 4;;
  let k := key "p" "https://h/cb" "n" (js "{'severity':'P1'}") in
  rb ← future;
  out ← upsert_ok k "secret-a" rb (Some "c0");
  assert (is_created out);;
  let s := outcome_sub out in
  assert_eq (ws_id s) (derive_sub_id k);;
  assert_eq (ws_secret s) "secret-a";;
  assert_eq (ws_refresh_before s) rb;;
  assert_eq (ws_cursor s) (Some "c0");;
  assert (ws_active s);;
  assert (negb (ws_verified s));;
  assert (is_none (ws_last_delivery_at s));;
  stored ← got k;
  assert_eq (ws_id stored) (ws_id s).

Definition refresh_rotates_secret_regrants_ttl_and_ignores_supplied_cursor : T unit :=
  new_store 4;;
  let k := key "p" "https://h/cb" "n" no_params in
  rb ← future;
  out ← upsert_ok k "old-secret" rb (Some "c0");
  let id := ws_id (outcome_sub out) in
  modify (fun st => update_cursor st id (Some "w9"));;
  now ← utc_now;
  let rb2 := Some (now + hours 2) in
  out2 ← upsert_ok k "new-secret" rb2 (Some "stale-cursor");
  assert (negb (is_created out2));;
  let snap := outcome_sub out2 in
  assert_eq (ws_secret snap) "new-secret";;
  assert_eq (ws_refresh_before snap) rb2;;
  assert_eq (ws_cursor snap) (Some "w9");;
  stored ← got k;
  assert_eq (ws_cursor stored) (Some "w9");;
  assert_eq (ws_secret stored) "new-secret".

Definition refresh_reports_pre_refresh_active_but_reactivates_store_state : T unit :=
  new_store 4;;
  let k := key "p" "https://h/cb" "n" no_params in
  rb ← future;
  out ← upsert_ok k "s" rb None;
  let id := ws_id (outcome_sub out) in
  t ← utc_now;
  for_each (seqZ 0 3) (fun _ => fail_delivery id error_category.HTTP_5XX t 3);;
  s ← got k; assert (negb (ws_active s));;
  rb ← future;
  out ← upsert_ok k "s2" rb None;
  match out with
  | Refreshed snap =>
      assert (negb (ws_active snap));;
      assert_eq (ws_last_error snap) (Some error_category.HTTP_5XX);;
      assert (is_some (ws_failed_since snap));;
      let status := delivery_status snap in
      assert (negb (dv_active status));;
      assert_eq (dv_last_error status) (Some "http_5xx")
  | Created _ => unwrap None
  end;;
  s ← got k; assert (ws_active s);;
  fail_delivery id error_category.TIMEOUT t 3;;
  fail_delivery id error_category.TIMEOUT t 3;;
  s ← got k; assert (ws_active s).

Definition quota_applies_per_principal_to_new_keys_only : T unit :=
  new_store 2;;
  let k1 := key "p" "https://h/1" "n" no_params in
  let k2 := key "p" "https://h/2" "n" no_params in
  let k3 := key "p" "https://h/3" "n" no_params in
  rb ← future; upsert_ok k1 "s" rb None;;
  rb ← future; upsert_ok k2 "s" rb None;;
  rb ← future; r ← upsert_simple k3 "s" rb None;
  match r with Err (QuotaExceeded max) => assert_eq max 2 | Ok _ => unwrap None end;;
  rb ← future; o ← upsert_ok k1 "s2" rb None; assert (negb (is_created o));;
  let other := key "q" "https://h/1" "n" no_params in
  rb ← future; o ← upsert_ok other "s" rb None; assert (is_created o).

Definition lapsed_subscriptions_do_not_count_toward_quota : T unit :=
  new_store 1;;
  let lapsed_key := key "p" "https://h/old" "n" no_params in
  now ← utc_now; upsert_ok lapsed_key "s" (Some (now - hours 1)) None;;
  let fresh := key "p" "https://h/new" "n" no_params in
  rb ← future; o ← upsert_ok fresh "s" rb None; assert (is_created o).

Definition upsert_on_lapsed_key_is_a_fresh_create_adopting_the_cursor : T unit :=
  new_store 4;;
  let k := key "p" "https://h/cb" "n" no_params in
  now ← utc_now;
  o ← upsert_ok k "s" (Some (now - seconds 1)) (Some "old");
  let id := ws_id (outcome_sub o) in
  modify (fun st => update_cursor st id (Some "w5"));;
  t ← utc_now; fail_delivery id error_category.HTTP_4XX t 5;;
  rb ← future;
  out ← upsert_ok k "s2" rb (Some "client-cursor");
  assert (is_created out);;
  let s := outcome_sub out in
  assert_eq (ws_cursor s) (Some "client-cursor");;
  assert (is_none (ws_last_error s));;
  assert (is_none (ws_failed_since s));;
  assert (ws_active s).

Definition s_expire (now : Z) : T (list WebhookSub) := call (fun _ st => expire_lapsed st now).

Definition expire_lapsed_removes_only_lapsed_grants : T unit :=
  new_store 8;;
  now ← utc_now;
  let lapsed := key "p" "https://h/1" "n" no_params in
  let live := key "p" "https://h/2" "n" no_params in
  let forever := key "p" "https://h/3" "n" no_params in
  upsert_ok lapsed "s" (Some (now - seconds 5)) None;;
  upsert_ok live "s" (Some (now + hours 1)) None;;
  upsert_ok forever "s" None None;;
  removed ← s_expire now;
  assert_eq (length removed) 1%nat;;
  assert_eq (ws_key <$> removed !! 0%nat) (Some lapsed);;
  o ← gets (fun st => get st lapsed); assert (is_none o);;
  o ← gets (fun st => get st live); assert (is_some o);;
  o ← gets (fun st => get st forever); assert (is_some o);;
  removed ← s_expire now; assert (is_empty removed);;
  let edge := key "p" "https://h/4" "n" no_params in
  upsert_ok edge "s" (Some now) None;;
  removed ← s_expire now; assert_eq (length removed) 1%nat.

Definition suspension_after_n_consecutive_failures_and_recovery : T unit :=
  new_store 4;;
  let k := key "p" "https://h/cb" "n" no_params in
  rb ← future; o ← upsert_ok k "s" rb None;
  let id := ws_id (outcome_sub o) in
  t1 ← utc_now;
  let t2 := t1 + seconds 10 in
  fail_delivery id error_category.CONNECTION_REFUSED t1 3;;
  fail_delivery id error_category.TIMEOUT t2 3;;
  s ← got k;
  assert (ws_active s);;
  assert_eq (ws_last_error s) (Some error_category.TIMEOUT);;
  assert_eq (ws_failed_since s) (Some t1);;
  modify (fun st => mark_delivery_ok st id t2);;
  s ← got k;
  assert_eq (ws_last_delivery_at s) (Some t2);;
  assert (is_none (ws_last_error s));;
  assert (is_none (ws_failed_since s));;
  for_each (seqZ 0 3) (fun _ => fail_delivery id error_category.HTTP_5XX t2 3);;
  s ← got k; assert (negb (ws_active s));;
  modify (fun st => reactivate st id);;
  s ← got k; assert (ws_active s);;
  fail_delivery id error_category.HTTP_5XX t2 3;;
  fail_delivery id error_category.HTTP_5XX t2 3;;
  s ← got k; assert (ws_active s);;
  fail_delivery id error_category.HTTP_5XX t2 3;;
  s ← got k; assert (negb (ws_active s)).

Definition suspend_after_zero_disables_suspension : T unit :=
  new_store 4;;
  let k := key "p" "https://h/cb" "n" no_params in
  rb ← future; o ← upsert_ok k "s" rb None;
  let id := ws_id (outcome_sub o) in
  for_each (seqZ 0 10) (fun _ => t ← utc_now; fail_delivery id error_category.HTTP_5XX t 0);;
  s ← got k; assert (ws_active s).

Definition verification_cache_is_scoped_to_principal_and_url : T unit :=
  new_store 8;;
  v ← gets (fun st => is_verified st "p" "https://h/cb"); assert (negb v);;
  let k := key "p" "https://h/cb" "n" (js "{'a':1}") in
  rb ← future; upsert_ok k "s" rb None;;
  s ← got k; assert (negb (ws_verified s));;
  modify (fun st => set_verified st "p" "https://h/cb");;
  v ← gets (fun st => is_verified st "p" "https://h/cb"); assert v;;
  v ← gets (fun st => is_verified st "q" "https://h/cb"); assert (negb v);;
  v ← gets (fun st => is_verified st "p" "https://h/other"); assert (negb v);;
  s ← got k; assert (ws_verified s);;
  let k2 := key "p" "https://h/cb" "other.event" (js "{'b':2}") in
  rb ← future; out ← upsert_ok k2 "s" rb None;
  assert (ws_verified (outcome_sub out)).

Definition s_remove (k : SubKey) : T (option WebhookSub) := call (fun _ st => remove st k).

Definition remove_returns_the_subscription_once : T unit :=
  new_store 4;;
  let k := key "p" "https://h/cb" "n" no_params in
  rb ← future; upsert_ok k "s" rb None;;
  o ← s_remove k; removed ← unwrap o;
  assert_eq (ws_key removed) k;;
  o ← gets (fun st => get st k); assert (is_none o);;
  o ← s_remove k; assert (is_none o).

(** [got.sort()] is left out: the two orders are accepted. *)
Definition list_for_event_returns_matching_subs_including_suspended : T unit :=
  new_store 8;;
  let ka := key "p" "https://h/1" "orders.changed" no_params in
  let kb := key "q" "https://h/2" "orders.changed" (js "{'x':1}") in
  let kc := key "p" "https://h/1" "other.event" no_params in
  rb ← future; upsert_ok ka "s" rb None;;
  rb ← future; o ← upsert_ok kb "s" rb None;
  let id_b := ws_id (outcome_sub o) in
  rb ← future; upsert_ok kc "s" rb None;;
  t ← utc_now; fail_delivery id_b error_category.HTTP_4XX t 1;;
  l ← gets (fun st => list_for_event st "orders.changed");
  let urls := (fun s => url (ws_key s)) <$> l in
  assert (bool_decide (urls = ["https://h/1"; "https://h/2"]) ||
          bool_decide (urls = ["https://h/2"; "https://h/1"]));;
  assert (existsb (fun s => negb (ws_active s)) l);;
  l ← gets (fun st => list_for_event st "nope"); assert (is_empty l).

Definition update_cursor_sets_and_clears_the_watermark : T unit :=
  new_store 4;;
  let k := key "p" "https://h/cb" "n" no_params in
  rb ← future; o ← upsert_ok k "s" rb None;
  let id := ws_id (outcome_sub o) in
  modify (fun st => update_cursor st id (Some "w1"));;
  s ← got k; assert_eq (ws_cursor s) (Some "w1");;
  modify (fun st => update_cursor st id None);;
  s ← got k; assert (is_none (ws_cursor s));;
  modify (fun st => update_cursor st "sub_ffffffffffffffff" (Some "x")).

Definition params_canonicalization_makes_key_order_irrelevant : T unit :=
  new_store 4;;
  p1 ← unwrap (read_json (json_text "{'a':1,'b':2}"));
  p2 ← unwrap (read_json (json_text "{'b':2,'a':1}"));
  let k1 := key "p" "https://h/cb" "n" p1 in
  let k2 := key "p" "https://h/cb" "n" p2 in
  assert_eq (derive_sub_id k1) (derive_sub_id k2);;
  rb ← future; r ← s_upsert k1 p1 "s" rb None; unwrap (ok_opt r);;
  rb ← future; r ← s_upsert k2 p2 "s2" rb None; out ← unwrap (ok_opt r);
  assert (negb (is_created out)).

Definition delivery_status_renders_wire_shape : T unit :=
  new_store 4;;
  let k := key "p" "https://h/cb" "n" no_params in
  rb ← future; o ← upsert_ok k "s" rb None;
  let id := ws_id (outcome_sub o) in
  at_ ← utc_now;
  modify (fun st => mark_delivery_ok st id at_);;
  s ← got k;
  let status := delivery_status s in
  assert (dv_active status);;
  assert_eq (dv_last_delivery_at status) (Some (iso8601 at_));;
  assert (is_none (dv_last_error status));;
  assert (is_none (dv_failed_since status)).

Definition tests : list (string * T unit) :=
  [("id_is_sub_prefixed_16_hex_and_deterministic_over_key", id_is_sub_prefixed_16_hex_and_deterministic_over_key);
   ("upsert_creates_with_supplied_cursor_and_grant", upsert_creates_with_supplied_cursor_and_grant);
   ("refresh_rotates_secret_regrants_ttl_and_ignores_supplied_cursor", refresh_rotates_secret_regrants_ttl_and_ignores_supplied_cursor);
   ("refresh_reports_pre_refresh_active_but_reactivates_store_state", refresh_reports_pre_refresh_active_but_reactivates_store_state);
   ("quota_applies_per_principal_to_new_keys_only", quota_applies_per_principal_to_new_keys_only);
   ("lapsed_subscriptions_do_not_count_toward_quota", lapsed_subscriptions_do_not_count_toward_quota);
   ("upsert_on_lapsed_key_is_a_fresh_create_adopting_the_cursor", upsert_on_lapsed_key_is_a_fresh_create_adopting_the_cursor);
   ("expire_lapsed_removes_only_lapsed_grants", expire_lapsed_removes_only_lapsed_grants);
   ("suspension_after_n_consecutive_failures_and_recovery", suspension_after_n_consecutive_failures_and_recovery);
   ("suspend_after_zero_disables_suspension", suspend_after_zero_disables_suspension);
   ("verification_cache_is_scoped_to_principal_and_url", verification_cache_is_scoped_to_principal_and_url);
   ("remove_returns_the_subscription_once", remove_returns_the_subscription_once);
   ("list_for_event_returns_matching_subs_including_suspended", list_for_event_returns_matching_subs_including_suspended);
   ("update_cursor_sets_and_clears_the_watermark", update_cursor_sets_and_clears_the_watermark);
   ("params_canonicalization_makes_key_order_irrelevant", params_canonicalization_makes_key_order_irrelevant);
   ("delivery_status_renders_wire_shape", delivery_status_renders_wire_shape)].

Example store_tests_pass : failing test_start (store_new 0) tests = [].
Proof. vm_compute. reflexivity. Qed.
End StoreTests.
