(* ===== verification/FeedTests.v ===== *)
(** * The unit tests of drasi-feed, run on the model.

    The frames are those of the tests, with single quotes for double ones
    ([json_text]) and their amounts as integers (the tests have [5000.0]): the
    JSON numbers of the examples are integers.  The spawned tasks and the local
    server of the asynchronous tests are the definitions they run. *)
From S2P Require Import Prelude RustStd Json Lib Wire Utf8 SseText Feed FeedSse Mock JsonText StdInst TestKit.

#[local] Existing Instance ZSerde.

Definition T := Test unit.

#[export] Instance FeedEvent_eq_dec : EqDecision FeedEvent.
Proof. solve_decision. Defined.

(** [value["key"]], which is [null] where there is no such key. *)
Definition at_key (v : option Value) (k : string) : Value := default JNull (v ≫= value_get k).

Definition nth_event (l : list FeedEvent) (i : nat) : T FeedEvent := unwrap (l !! i).

(** ** mock.rs *)
Module MockTests.

(** The first [n] events; the amounts are integers. *)
Definition collect_mock (start : Z) (n : nat) : list FeedEvent :=
  mock_feed (fun z => z) "high-value-orders" ((fun i => start + milliseconds i) <$> seqZ 0 (Z.of_nat n)).

Definition mock_order_of (e : FeedEvent) : T Z :=
  id ← unwrap (fe_upstream_id e);
  rest ← unwrap (strip_prefix "order-" id);
  '(first, _) ← unwrap (split_once "-" rest);
  unwrap (u64_from_str first).

Fixpoint orders_of (l : list FeedEvent) : T (list Z) :=
  match l with [] => mret [] | e :: l' => n ← mock_order_of e; ns ← orders_of l'; mret (n :: ns) end.

Definition order_id (order k : Z) : string :=
  "order-" +:+ u64_to_string order +:+ "-rev-" +:+ u64_to_string k.

(** [for pair in evs.windows(2)]. *)
Fixpoint chained (evs : list FeedEvent) : T unit :=
  match evs with
  | e0 :: ((e1 :: _) as evs') => assert_eq (fe_before e1) (fe_after e0);; chained evs'
  | _ => mret tt
  end.

(** The checks of one order on its events. *)
Definition lifecycle (order : Z) (evs : list FeedEvent) : T unit :=
  for_each (imap pair evs) (fun '(k, e) =>
    expected ← unwrap ([Added; Updated; Updated; Deleted] !! k);
    assert_eq (fe_change e) expected;;
    assert_eq (fe_upstream_id e) (Some (order_id order (Z.of_nat k))));;
  chained evs;;
  if bool_decide (length evs = 4%nat) then
    e0 ← nth_event evs 0; e1 ← nth_event evs 1; e2 ← nth_event evs 2; e3 ← nth_event evs 3;
    assert_eq (at_key (fe_after e0) "id") (json_int order);;
    assert_ne (fe_before e1) (fe_after e1);;
    assert_ne (fe_before e2) (fe_after e2);;
    assert_eq (fe_after e3) None;;
    assert_eq (at_key (fe_before e3) "status") (JString "shipped")
  else mret tt.

Definition mock_feed_cycles_insert_updates_delete_with_correct_before_after : T unit :=
  now ← utc_now;
  let events := collect_mock now 15 in
  for_each events (fun e =>
    assert_eq (fe_query_id e) "high-value-orders";;
    assert (is_some (fe_timestamp e)));;
  for_each (imap pair (take 3 events)) (fun '(i, e) =>
    assert_eq (fe_change e) Added;;
    assert_eq (fe_before e) None;;
    assert_eq (at_key (fe_after e) "id") (json_int (Z.of_nat i + 1));;
    assert_eq (at_key (fe_after e) "status") (JString "open");;
    assert_eq (fe_upstream_id e) (Some (order_id (Z.of_nat i + 1) 0)));;
  orders ← orders_of events;
  assert_eq (remove_dups (merge_sort Z.le orders)) [1; 2; 3; 4; 5; 6];;
  for_each [1; 2; 3; 4; 5; 6] (fun order =>
    lifecycle order (base.filter (fun oe => oe.1 = order) (zip orders events)).*2);;
  for_each (imap pair (drop 12 events)) (fun '(i, e) =>
    assert_eq (fe_change e) Added;;
    n ← mock_order_of e;
    assert_eq n (Z.of_nat i + 4)).

Definition mock_feed_is_deterministic_modulo_timestamps : T unit :=
  let strip := fmap (fun e => (fe_change e, fe_before e, fe_after e, fe_upstream_id e)) in
  now ← utc_now; let a := strip (collect_mock now 20) in
  now ← utc_now; let b := strip (collect_mock now 20) in
  assert_eq a b.

Definition tests : list (string * T unit) :=
  [("mock_feed_cycles_insert_updates_delete_with_correct_before_after", mock_feed_cycles_insert_updates_delete_with_correct_before_after);
   ("mock_feed_is_deterministic_modulo_timestamps", mock_feed_is_deterministic_modulo_timestamps)].

Example mock_tests_pass : failing test_start tt tests = [].
Proof. vm_compute. reflexivity. Qed.
End MockTests.

(** ** sse.rs *)
Module FeedSseTests.
Definition lf (s : string) : string := s +:+ String LF "".

Definition frame (payload : string) : string := lf (lf ("data: " +:+ json_text payload)).

Definition ADD_FRAME : string := frame
  "{'queryId':'high-value-orders','results':[{'data':{'customer':'erin','id':5,'status':'open','total':5000},'type':'ADD'}],'timestamp':1749600000123}".

Definition UPDATE_FRAME : string := frame
  "{'queryId':'high-value-orders','results':[{'after':{'customer':'alice','id':1,'status':'open','total':1800},'before':{'customer':'alice','id':1,'status':'open','total':1500},'data':{'customer':'alice','id':1,'status':'open','total':1800},'type':'UPDATE'}],'timestamp':1749600005456}".

Definition DELETE_FRAME : string := frame
  "{'queryId':'high-value-orders','results':[{'data':{'customer':'erin','id':5,'status':'open','total':5000},'type':'DELETE'}],'timestamp':1749600010789}".

Definition HEARTBEAT_FRAME : string := frame "{'ts':1749600015000,'type':'heartbeat'}".

Definition KEEPALIVE_COMMENT : string := lf (lf ": keep-alive").

Definition MULTI_DIFF_FRAME : string := frame
  "{'queryId':'high-value-orders','results':[{'data':{'customer':'alice','id':1,'status':'open','total':1500},'type':'ADD'},{'data':{'customer':'carol','id':3,'status':'shipped','total':2200},'type':'ADD'}],'timestamp':1749599990000}".

(** [input.chunks(chunk_size)]. *)
Fixpoint str_chunks (fuel size : nat) (s : string) : list string :=
  match fuel, s with
  | S f, String _ _ => substring 0 size s :: str_chunks f size (substring size (String.length s - size) s)
  | _, _ => []
  end.

Definition parse_chunked (input : string) (chunk_size : nat) : list FeedEvent :=
  (push_all parser_default (str_chunks (String.length input) chunk_size input)).2 ≫=
    fun f => feed_events_from_payload (sf_data f).

Definition parses_add_frame : T unit :=
  let events := parse_chunked ADD_FRAME (String.length ADD_FRAME) in
  assert_eq (length events) 1%nat;;
  e ← nth_event events 0;
  assert_eq (fe_query_id e) "high-value-orders";;
  assert_eq (fe_change e) Added;;
  assert_eq (fe_before e) None;;
  after ← unwrap (fe_after e);
  assert_eq (at_key (Some after) "customer") (JString "erin");;
  assert_eq (at_key (Some after) "id") (json_int 5);;
  assert_eq (at_key (Some after) "total") (json_int 5000);;
  assert_eq (fe_timestamp e) (from_timestamp_millis 1749600000123);;
  assert_eq (fe_upstream_id e) None.

Definition parses_update_frame_with_before_and_after : T unit :=
  let events := parse_chunked UPDATE_FRAME (String.length UPDATE_FRAME) in
  assert_eq (length events) 1%nat;;
  e ← nth_event events 0;
  assert_eq (fe_change e) Updated;;
  assert_eq (at_key (fe_before e) "total") (json_int 1500);;
  assert_eq (at_key (fe_after e) "total") (json_int 1800).

Definition parses_delete_frame : T unit :=
  let events := parse_chunked DELETE_FRAME (String.length DELETE_FRAME) in
  assert_eq (length events) 1%nat;;
  e ← nth_event events 0;
  assert_eq (fe_change e) Deleted;;
  assert_eq (at_key (fe_before e) "customer") (JString "erin");;
  assert_eq (fe_after e) None.

Definition incremental_parsing_is_chunk_boundary_independent : T unit :=
  let combined := ADD_FRAME +:+ KEEPALIVE_COMMENT +:+ UPDATE_FRAME +:+ HEARTBEAT_FRAME +:+
                  DELETE_FRAME +:+ MULTI_DIFF_FRAME in
  let whole := parse_chunked combined (String.length combined) in
  assert_eq (length whole) 5%nat;;
  e3 ← nth_event whole 3; assert_eq (at_key (fe_after e3) "customer") (JString "alice");;
  e4 ← nth_event whole 4; assert_eq (at_key (fe_after e4) "customer") (JString "carol");;
  for_each [1; 2; 3; 5; 7; 16; 64]%nat (fun chunk_size =>
    assert_eq (parse_chunked combined chunk_size) whole).

Definition heartbeats_and_comments_produce_no_events : T unit :=
  assert (is_empty (parse_chunked (KEEPALIVE_COMMENT +:+ HEARTBEAT_FRAME +:+ KEEPALIVE_COMMENT) 4)).

Definition malformed_frame_is_skipped_and_stream_continues : T unit :=
  let input := lf (lf "data: {this is not json") +:+ ADD_FRAME in
  let events := parse_chunked input (String.length input) in
  assert_eq (length events) 1%nat;;
  e ← nth_event events 0; assert_eq (fe_change e) Added.

Definition unknown_diff_types_and_noops_are_skipped_aggregations_tolerated : T unit :=
  let payload := frame "{'queryId':'q','results':[
     {'type':'noop'},
     {'type':'SOMETHING_NEW','data':{}},
     {'after':{'count':2},'before':null,'type':'aggregation'},
     {'after':{'id':1},'before':{'id':1},'data':{'id':1},'grouping_keys':['id'],'type':'UPDATE','futureField':true}
     ],'timestamp':1749600000000}" in
  let events := parse_chunked payload (String.length payload) in
  assert_eq (length events) 2%nat;;
  e0 ← nth_event events 0;
  assert_eq (fe_change e0) Updated;;
  assert_eq (fe_before e0) None;;
  assert_eq (at_key (fe_after e0) "count") (json_int 2);;
  e1 ← nth_event events 1; assert_eq (fe_change e1) Updated.

(** [replace('\n', "\r\n")]. *)
Fixpoint crlf (s : string) : string :=
  match s with
  | EmptyString => ""
  | String c s' => if bool_decide (c = LF) then String CR (String LF (crlf s')) else String c (crlf s')
  end.

Definition crlf_lines_and_event_id_fields_are_tolerated : T unit :=
  let input := crlf (lf "event: message" +:+ lf "id: 42" +:+ lf "retry: 100" +:+ ADD_FRAME) in
  let events := parse_chunked input 3 in
  assert_eq (length events) 1%nat;;
  e ← nth_event events 0; assert_eq (fe_change e) Added.

Definition multiple_data_lines_join_with_newline : T unit :=
  let frames := (push parser_default (lf (lf (lf "data: first" +:+ "data:second")))).2 in
  assert_eq (length frames) 1%nat;;
  f ← unwrap (frames !! 0%nat); assert_eq (sf_data f) (lf "first" +:+ "second").

Definition blank_line_without_data_dispatches_nothing : T unit :=
  assert (is_empty (push parser_default (lf (lf (lf (lf "event: ping"))))).2).

(** The server takes two connections and sends one frame on each; the feed
    waits a second between them. *)
Definition sse_feed_delivers_and_reconnects_after_server_close : T unit :=
  let '(events, waits) :=
    run_drasi_sse_feed [Streamed [ADD_FRAME] false; Streamed [DELETE_FRAME] false] in
  first ← nth_event events 0; assert_eq (fe_change first) Added;;
  second ← nth_event events 1; assert_eq (fe_change second) Deleted;;
  assert_eq waits [seconds 1; seconds 1].

Definition tests : list (string * T unit) :=
  [("parses_add_frame", parses_add_frame);
   ("parses_update_frame_with_before_and_after", parses_update_frame_with_before_and_after);
   ("parses_delete_frame", parses_delete_frame);
   ("incremental_parsing_is_chunk_boundary_independent", incremental_parsing_is_chunk_boundary_independent);
   ("heartbeats_and_comments_produce_no_events", heartbeats_and_comments_produce_no_events);
   ("malformed_frame_is_skipped_and_stream_continues", malformed_frame_is_skipped_and_stream_continues);
   ("unknown_diff_types_and_noops_are_skipped_aggregations_tolerated", unknown_diff_types_and_noops_are_skipped_aggregations_tolerated);
   ("crlf_lines_and_event_id_fields_are_tolerated", crlf_lines_and_event_id_fields_are_tolerated);
   ("multiple_data_lines_join_with_newline", multiple_data_lines_join_with_newline);
   ("blank_line_without_data_dispatches_nothing", blank_line_without_data_dispatches_nothing);
   ("sse_feed_delivers_and_reconnects_after_server_close", sse_feed_delivers_and_reconnects_after_server_close)].

Example feed_sse_tests_pass : failing test_start tt tests = [].
Proof. vm_compute. reflexivity. Qed.
End FeedSseTests.
