(* ===== verification/ServerTests.v ===== *)
(** * The unit tests of mcp-events-server and the tests of the webhook
    signatures in mcp-events-wire, run on the model.

    The documents of config.rs are given as what their YAML says; the JSON
    literals have single quotes ([js]).  The signatures are computed by the
    SHA-256 and base64 of [StdInst], and compared with the known answers the
    repository pins. *)
From S2P Require Import Prelude RustStd Json Lib Wire Buffer Store Signing Ssrf Feed.
From S2P Require Import Config ConfigDecode Mapping State Subscribe Worker JsonText StdInst TestKit.

Definition T := Test unit.

(** ** config.rs *)
Module ConfigTests.
#[local] Instance EventModeling_eq_dec : EqDecision EventModeling.
Proof. solve_decision. Defined.
#[local] Instance FeedKind_eq_dec : EqDecision FeedKind.
Proof. solve_decision. Defined.

Definition SAMPLE : Value := js
"{'host': '127.0.0.1',
  'port': 8090,
  'authTokens': [{'token': 'devtoken', 'principal': 'dev@example.com'}],
  'eventModeling': 'single',
  'buffer': {'maxEventsPerType': 10000, 'maxAgeMs': 600000},
  'feed': {'kind': 'mock', 'queryId': 'high-value-orders', 'intervalMs': 2000},
  'queries': [{'id': 'high-value-orders',
    'description': 'Rows entering/leaving/changing in the high-value-orders continuous query',
    'payloadSchema': {}}],
  'push': {'heartbeatIntervalMs': 15000},
  'poll': {'nextPollMs': 2000},
  'webhook': {'enabled': true, 'ttlCapMs': 1800000, 'minTtlMs': 10000, 'maxSubscriptionsPerPrincipal': 16,
    'allowInsecureUrls': false, 'suspendAfterFailures': 5}}".

(** [serde_yaml::from_str(..).unwrap()] and [cfg.validate().unwrap()]. *)
Definition parsed (doc : Value) : T ServerConfig := unwrap (dec_ServerConfig doc).
Definition valid (cfg : ServerConfig) : T unit := unwrap (ok_opt (validate cfg)).

Definition parses_architecture_sample : T unit :=
  cfg ← parsed SAMPLE;
  valid cfg;;
  assert_eq (c_host cfg) "127.0.0.1";;
  assert_eq (c_port cfg) 8090;;
  assert_eq (c_event_modeling cfg) Single;;
  assert_eq (bs_max_events_per_type (c_buffer cfg)) 10000;;
  assert_eq (bs_max_age_ms (c_buffer cfg)) (Some 600000);;
  assert_eq (fs_kind (c_feed cfg)) MockKind;;
  assert_eq (fs_interval_ms (c_feed cfg)) (Some 2000);;
  assert_eq (length (c_queries cfg)) 1%nat;;
  q ← unwrap (c_queries cfg !! 0%nat);
  assert_eq (q_id q) "high-value-orders";;
  assert_eq (q_payload_schema q) (Some (json_obj []));;
  assert_eq (heartbeat_interval_ms (c_push cfg)) 15000;;
  assert_eq (next_poll_ms (c_poll cfg)) 2000;;
  assert (wh_enabled (c_webhook cfg));;
  assert (negb (wh_allow_insecure_urls (c_webhook cfg)));;
  assert_eq (wh_suspend_after_failures (c_webhook cfg)) 5;;
  assert_eq (principal_for_token cfg "devtoken") (Some "dev@example.com");;
  assert_eq (principal_for_token cfg "nope") None.

Definition minimal_config_uses_defaults : T unit :=
  cfg ← parsed (js "{'feed': {'kind': 'mock'}, 'queries': [{'id': 'q1'}]}");
  valid cfg;;
  assert_eq (c_host cfg) "127.0.0.1";;
  assert_eq (c_port cfg) 8090;;
  assert_eq (c_event_modeling cfg) Single;;
  assert_eq (bs_max_events_per_type (c_buffer cfg)) 10000;;
  assert (negb (wh_enabled (c_webhook cfg)));;
  assert_eq (wh_ttl_cap_ms (c_webhook cfg)) 1800000;;
  assert (is_empty (c_auth_tokens cfg)).

Definition per_change_and_drasi_sse_parse : T unit :=
  cfg ← parsed (js "{'eventModeling': 'perChange', 'feed': {'kind': 'drasiSse', 'url': 'http://localhost:8081/events'},
                     'queries': [{'id': 'q1'}]}");
  valid cfg;;
  assert_eq (c_event_modeling cfg) PerChange;;
  assert_eq (fs_kind (c_feed cfg)) DrasiSse.

Definition drasi_sse_without_url_is_rejected : T unit :=
  cfg ← parsed (js "{'feed': {'kind': 'drasiSse'}, 'queries': [{'id': 'q1'}]}");
  assert (negb (is_ok (validate cfg))).

Definition empty_queries_rejected_and_unknown_fields_rejected : T unit :=
  cfg ← parsed (js "{'feed': {'kind': 'mock'}, 'queries': []}");
  assert (negb (is_ok (validate cfg)));;
  assert (is_none (dec_ServerConfig (js "{'feed': {'kind': 'mock'}, 'queries': [{'id': 'q1'}], 'bogusField': 1}"))).

Definition null_max_age_disables_retention_window : T unit :=
  cfg ← parsed (js "{'feed': {'kind': 'mock'}, 'queries': [{'id': 'q1'}],
                     'buffer': {'maxEventsPerType': 5, 'maxAgeMs': null}}");
  assert_eq (bs_max_events_per_type (c_buffer cfg)) 5;;
  assert_eq (bs_max_age_ms (c_buffer cfg)) None.

Definition tests : list (string * T unit) :=
  [("parses_architecture_sample", parses_architecture_sample);
   ("minimal_config_uses_defaults", minimal_config_uses_defaults);
   ("per_change_and_drasi_sse_parse", per_change_and_drasi_sse_parse);
   ("drasi_sse_without_url_is_rejected", drasi_sse_without_url_is_rejected);
   ("empty_queries_rejected_and_unknown_fields_rejected", empty_queries_rejected_and_unknown_fields_rejected);
   ("null_max_age_disables_retention_window", null_max_age_disables_retention_window)].

Example config_tests_pass : failing test_start tt tests = [].
Proof. vm_compute. reflexivity. Qed.
End ConfigTests.

(** ** mapping.rs *)
Module MappingTests.
Definition config (mode : EventModeling) (webhook_enabled : bool) (injected : list InjectedEventType) : ServerConfig :=
  {| c_host := "127.0.0.1"; c_port := 0; c_auth_tokens := []; c_event_modeling := mode;
     c_buffer := BufferSettings_default;
     c_feed := {| fs_kind := MockKind; fs_query_id := Some "q1"; fs_interval_ms := Some 1000; fs_url := None |};
     c_queries := [{| q_id := "q1"; q_description := None; q_payload_schema := None |}];
     c_push := PushSettings_default; c_poll := PollSettings_default;
     c_webhook :=
       let d := WebhookSettings_default in
       {| wh_enabled := webhook_enabled; wh_ttl_cap_ms := wh_ttl_cap_ms d; wh_min_ttl_ms := wh_min_ttl_ms d;
          wh_max_subscriptions_per_principal := wh_max_subscriptions_per_principal d;
          wh_allow_insecure_urls := wh_allow_insecure_urls d;
          wh_suspend_after_failures := wh_suspend_after_failures d |};
     c_tools := ToolsSettings_default; c_injected := injected |}.

Definition feed_event (change : ChangeType) (before after : option Value) : T FeedEvent :=
  now ← utc_now;
  mret {| fe_query_id := "q1"; fe_change := change; fe_before := before; fe_after := after;
          fe_timestamp := Some now; fe_upstream_id := Some "row-1-rev-0" |}.

Definition UUID_A : string := "0f8fad5b-d9cb-469f-a165-70867728950e".
Definition UUID_B : string := "7c9e6679-7425-40de-944b-e07fc1f90ae7".

(** [map_feed_event(mode, ev)]; the uuid it may draw is given. *)
Definition mapped (mode : EventModeling) (uuid : string) (ev : FeedEvent) : T (option EmittedEvent) :=
  now ← utc_now; mret (map_feed_event mode uuid now ev).

(** The name, id and data of a change that is mapped. *)
Definition mapped_ok (mode : EventModeling) (change : ChangeType) (before after : option Value) : T EmittedEvent :=
  ev ← feed_event change before after; o ← mapped mode UUID_A ev; unwrap o.

Definition incidents (schema : string) : InjectedEventType :=
  {| in_name := "incidents.created"; in_description := "test incidents"; in_input_schema := Some (js schema);
     in_payload_schema := None |}.

Definition injected_type_gets_generic_equality_filter : T unit :=
  let cfg := config Single false
    [incidents "{'type': 'object', 'properties': {'priority': {'enum': ['P1', 'P2', 'P3', 'P4']}}}"] in
  let m := build_event_model cfg in
  assert (existsb (fun d => bool_decide (ed_name d = "incidents.created")) (m_defs m));;
  f ← unwrap (m_filters m !! "incidents.created");
  let p1 := js "{'priority': 'P1', 'service': 'x', 'title': 't'}" in
  let p3 := js "{'priority': 'P3', 'service': 'x', 'title': 't'}" in
  assert (f (js "{'priority': 'P1'}") p1);;
  assert (negb (f (js "{'priority': 'P1'}") p3));;
  assert (f (js "{}") p3);;
  assert (f (js "{'priority': null}") p3);;
  assert (f (js "{'unknown': 'zzz'}") p3).

Definition injected_types_are_exempt_from_change_type_validation : T unit :=
  let cfg := config Single false
    [incidents "{'type': 'object', 'properties': {'priority': {'enum': ['P1', 'P2']}}}"] in
  let diff_names := m_diff_names (build_event_model cfg) in
  assert (is_ok (validate_event_params diff_names "incidents.created" (Some (js "{'changeType': 'bogus'}"))));;
  assert (negb (is_ok (validate_event_params diff_names "q1.changed" (Some (js "{'changeType': 'bogus'}"))))).

Definition injected_name_collision_rejected_at_config_validation : T unit :=
  let cfg := config Single false
    [{| in_name := "q1.changed"; in_description := "collides with the query-derived type";
        in_input_schema := None; in_payload_schema := None |}] in
  assert (negb (is_ok (validate cfg))).

Definition single_mode_registers_one_changed_type_with_filter : T unit :=
  let m := build_event_model (config Single false []) in
  assert_eq (length (m_defs m)) 1%nat;;
  d ← unwrap (m_defs m !! 0%nat);
  assert_eq (ed_name d) "q1.changed";;
  assert_eq (ed_delivery d) [Poll; Push];;
  schema ← unwrap (ed_input_schema d);
  properties ← unwrap (value_get "properties" schema);
  change_type ← unwrap (value_get "changeType" properties);
  assert_eq (value_get "enum" change_type) (Some (js "['added', 'updated', 'deleted']"));;
  assert (is_some (m_filters m !! "q1.changed")).

Definition webhook_enabled_adds_delivery_mode : T unit :=
  d ← unwrap (m_defs (build_event_model (config Single true [])) !! 0%nat);
  assert (bool_decide (Webhook ∈ ed_delivery d)).

Definition per_change_mode_registers_three_types_without_filters : T unit :=
  let m := build_event_model (config PerChange false []) in
  assert_eq (ed_name <$> m_defs m) ["q1.added"; "q1.updated"; "q1.deleted"];;
  assert_eq (size (m_filters m)) 0%nat;;
  assert (forallb (fun d => is_none (ed_input_schema d)) (m_defs m)).

Definition single_mode_data_shape_omits_null_sides : T unit :=
  added ← mapped_ok Single Added None (Some (js "{'id': 1}"));
  assert_eq (em_name added) "q1.changed";;
  assert_eq (em_event_id added) "row-1-rev-0";;
  assert_eq (em_data added) (js "{'changeType': 'added', 'after': {'id': 1}}");;
  updated ← mapped_ok Single Updated (Some (js "{'id': 1}")) (Some (js "{'id': 1, 'x': 2}"));
  assert_eq (em_data updated) (js "{'changeType': 'updated', 'before': {'id': 1}, 'after': {'id': 1, 'x': 2}}");;
  deleted ← mapped_ok Single Deleted (Some (js "{'id': 1}")) None;
  assert_eq (em_data deleted) (js "{'changeType': 'deleted', 'before': {'id': 1}}").

Definition per_change_data_shapes : T unit :=
  added ← mapped_ok PerChange Added None (Some (js "{'id': 7}"));
  assert_eq (em_name added) "q1.added";;
  assert_eq (em_data added) (js "{'id': 7}");;
  updated ← mapped_ok PerChange Updated (Some (js "{'id': 7}")) (Some (js "{'id': 8}"));
  assert_eq (em_name updated) "q1.updated";;
  assert_eq (em_data updated) (js "{'before': {'id': 7}, 'after': {'id': 8}}");;
  deleted ← mapped_ok PerChange Deleted (Some (js "{'id': 7}")) None;
  assert_eq (em_name deleted) "q1.deleted";;
  assert_eq (em_data deleted) (js "{'id': 7}");;
  ev ← feed_event Added None None;
  o ← mapped PerChange UUID_A ev; assert (is_none o).

(** Two draws of a version 4 uuid. *)
Definition missing_upstream_id_falls_back_to_uuid : T unit :=
  ev ← feed_event Added None (Some (js "{}"));
  let ev := {| fe_query_id := fe_query_id ev; fe_change := fe_change ev; fe_before := fe_before ev;
               fe_after := fe_after ev; fe_timestamp := fe_timestamp ev; fe_upstream_id := None |} in
  o ← mapped Single UUID_A ev; a ← unwrap o;
  o ← mapped Single UUID_B ev; b ← unwrap o;
  assert_ne (em_event_id a) (em_event_id b);;
  assert_eq (em_event_id a) UUID_A.

Definition change_type_filter_matches_data : T unit :=
  f ← unwrap (m_filters (build_event_model (config Single false [])) !! "q1.changed");
  let data := js "{'changeType': 'added', 'after': {}}" in
  assert (f (js "{'changeType': 'added'}") data);;
  assert (negb (f (js "{'changeType': 'deleted'}") data));;
  assert (f (js "{}") data);;
  assert (f (js "{'changeType': null}") data);;
  assert (negb (f (js "{'changeType': 3}") data)).

Definition validate_event_params_enforces_change_type_enum : T unit :=
  let diff_names := m_diff_names (build_event_model (config Single false [])) in
  let ok v := is_ok (validate_event_params diff_names "q1.changed" (Some v)) in
  assert (is_ok (validate_event_params diff_names "q1.changed" None));;
  assert (ok (js "{}"));;
  assert (ok (js "{'changeType': 'updated'}"));;
  assert (ok (js "{'changeType': null}"));;
  assert (ok (js "{'otherParam': 42}"));;
  assert (negb (ok (js "{'changeType': 'bogus'}")));;
  assert (negb (ok (js "{'changeType': 1}")));;
  assert (negb (ok (js "'not-an-object'")));;
  assert (is_ok (validate_event_params diff_names "other" (Some (js "{'changeType': 'x'}")))).

Definition tests : list (string * T unit) :=
  [("injected_type_gets_generic_equality_filter", injected_type_gets_generic_equality_filter);
   ("injected_types_are_exempt_from_change_type_validation", injected_types_are_exempt_from_change_type_validation);
   ("injected_name_collision_rejected_at_config_validation", injected_name_collision_rejected_at_config_validation);
   ("single_mode_registers_one_changed_type_with_filter", single_mode_registers_one_changed_type_with_filter);
   ("webhook_enabled_adds_delivery_mode", webhook_enabled_adds_delivery_mode);
   ("per_change_mode_registers_three_types_without_filters", per_change_mode_registers_three_types_without_filters);
   ("single_mode_data_shape_omits_null_sides", single_mode_data_shape_omits_null_sides);
   ("per_change_data_shapes", per_change_data_shapes);
   ("missing_upstream_id_falls_back_to_uuid", missing_upstream_id_falls_back_to_uuid);
   ("change_type_filter_matches_data", change_type_filter_matches_data);
   ("validate_event_params_enforces_change_type_enum", validate_event_params_enforces_change_type_enum)].

Example mapping_tests_pass : failing test_start tt tests = [].
Proof. vm_compute. reflexivity. Qed.
End MappingTests.

(** ** webhook/handlers.rs, webhook/signer.rs and webhook/worker.rs *)
Module WebhookTests.
Definition settings (min_ttl_ms ttl_cap_ms : Z) : WebhookSettings :=
  {| wh_enabled := true; wh_ttl_cap_ms := ttl_cap_ms; wh_min_ttl_ms := min_ttl_ms;
     wh_max_subscriptions_per_principal := 16; wh_allow_insecure_urls := false; wh_suspend_after_failures := 5 |}.

Definition ttl_grant_clamps_into_min_cap_window : T unit :=
  let cfg := settings 10000 1800000 in
  assert_eq (grant_ttl_ms cfg None) 1800000;;
  assert_eq (grant_ttl_ms cfg (Some None)) 1800000;;
  assert_eq (grant_ttl_ms cfg (Some (Some 1))) 10000;;
  assert_eq (grant_ttl_ms cfg (Some (Some 60000))) 60000;;
  assert_eq (grant_ttl_ms cfg (Some (Some u64_max))) 1800000.

Definition ttl_grant_survives_min_above_cap_misconfig : T unit :=
  let cfg := settings 5000 1000 in
  assert_eq (grant_ttl_ms cfg (Some (Some 2))) 1000;;
  assert_eq (grant_ttl_ms cfg None) 1000.

(** URLs as the test needs them: a scheme, a host that is not empty, a path. *)
Fixpoint split_str (sep s : string) : option (string * string) :=
  match strip_prefix sep s with
  | Some r => Some ("", r)
  | None =>
      match s with
      | EmptyString => None
      | String c s' => '(a, b) ← split_str sep s'; Some (String c a, b)
      end
  end.

Definition HostUrl : UrlLib := {|
  Url := string * string * string;
  url_parse s :=
    match split_str "://" s with
    | Some (scheme, rest) =>
        let host := match split_once "/" rest with Some (h, _) => h | None => rest end in
        if bool_decide (host = "") then Err "empty host" else Ok (scheme, host, s)
    | None => Err "relative URL without a base"
    end;
  url_scheme u := u.1.1;
  url_host u := Some (HostDomain u.1.2);
  url_port_or_known_default u := if bool_decide (u.1.1 = "https") then Some 443 else Some 80;
  url_as_str u := u.2
|}.

Definition callback (raw : string) (insecure : bool) : result JsonRpcError (Url (UrlLib := HostUrl)) :=
  parse_callback_url (U := HostUrl) raw insecure.

Definition callback_url_requires_https_unless_insecure_allowed : T unit :=
  assert (is_ok (callback "https://example.com/hooks" false));;
  match callback "http://example.com/hooks" false with
  | Err err => assert_eq (err_code err) INVALID_PARAMS
  | Ok _ => unwrap None
  end;;
  assert (is_ok (callback "http://example.com/hooks" true));;
  assert (negb (is_ok (callback "ftp://example.com/x" true)));;
  assert (negb (is_ok (callback "not a url" true)));;
  assert (negb (is_ok (callback "https://" true))).

(** Two draws of a uuid. *)
Definition control_msg_ids_are_typed_and_unique : T unit :=
  let a := control_msg_id "gap" MappingTests.UUID_A in
  let b := control_msg_id "gap" MappingTests.UUID_B in
  assert (starts_with "msg_gap_" a);;
  assert (String.length "msg_gap_" <? String.length a)%nat;;
  assert_ne a b;;
  assert (starts_with "msg_verification_" (control_msg_id "verification" MappingTests.UUID_A)).

Definition parse_seq_reads_the_internal_cursor_format : T unit :=
  assert_eq (parse_seq "12345:7") (Some 7);;
  assert_eq (parse_seq "0:0") (Some 0);;
  assert_eq (parse_seq "garbage") None;;
  assert_eq (parse_seq "1:x") None.

Definition tests : list (string * T unit) :=
  [("ttl_grant_clamps_into_min_cap_window", ttl_grant_clamps_into_min_cap_window);
   ("ttl_grant_survives_min_above_cap_misconfig", ttl_grant_survives_min_above_cap_misconfig);
   ("callback_url_requires_https_unless_insecure_allowed", callback_url_requires_https_unless_insecure_allowed);
   ("control_msg_ids_are_typed_and_unique", control_msg_ids_are_typed_and_unique);
   ("parse_seq_reads_the_internal_cursor_format", parse_seq_reads_the_internal_cursor_format)].

Example webhook_tests_pass : failing test_start tt tests = [].
Proof. vm_compute. reflexivity. Qed.
End WebhookTests.

(** ** webhook/ssrf.rs *)
Module SsrfTests.
(** The addresses, read by [str::parse]: four octets; eight segments, the
    first [a], then zeros, the last ones [l]. *)
Definition ip4 (a b c d : Z) : IpAddr := V4 (v4 a b c d).
Definition ip6 (a b c d e f g h : Z) : IpAddr :=
  V6 {| seg0 := a; seg1 := b; seg2 := c; seg3 := d; seg4 := e; seg5 := f; seg6 := g; seg7 := h |}.

Definition ipv4_special_purpose_ranges_are_not_global : T unit :=
  for_each
    [ip4 0 0 0 0; ip4 0 1 2 3; ip4 127 0 0 1; ip4 127 255 255 254; ip4 10 0 0 1; ip4 172 16 0 1;
     ip4 172 31 255 255; ip4 192 168 1 1; ip4 169 254 10 10; ip4 100 64 0 1; ip4 100 127 255 255; ip4 192 0 0 7;
     ip4 192 0 2 1; ip4 198 18 0 1; ip4 198 19 255 255; ip4 198 51 100 1; ip4 203 0 113 9; ip4 224 0 0 1;
     ip4 255 255 255 255; ip4 240 0 0 1]
    (fun ip => assert (negb (ip_is_global ip))).

Definition ipv4_public_addresses_are_global : T unit :=
  for_each [ip4 1 1 1 1; ip4 8 8 8 8; ip4 93 184 216 34; ip4 100 128 0 1; ip4 172 32 0 1]
    (fun ip => assert (ip_is_global ip)).

Definition ipv6_special_purpose_ranges_are_not_global : T unit :=
  for_each
    [ip6 0 0 0 0 0 0 0 0; ip6 0 0 0 0 0 0 0 1; ip6 0xfc00 0 0 0 0 0 0 1; ip6 0xfd12 0x3456 0 0 0 0 0 1;
     ip6 0xfe80 0 0 0 0 0 0 1; ip6 0xfebf 0 0 0 0 0 0 1; ip6 0xff02 0 0 0 0 0 0 1; ip6 0x2001 0xdb8 0 0 0 0 0 1;
     ip6 0 0 0 0 0 0xffff 0x0a00 1; ip6 0 0 0 0 0 0xffff 0x7f00 1]
    (fun ip => assert (negb (ip_is_global ip))).

Definition ipv6_public_addresses_are_global : T unit :=
  for_each [ip6 0x2600 0 0 0 0 0 0 1; ip6 0x2606 0x4700 0x4700 0 0 0 0 0x1111; ip6 0 0 0 0 0 0xffff 0x0101 0x0101]
    (fun ip => assert (ip_is_global ip)).

Definition tests : list (string * T unit) :=
  [("ipv4_special_purpose_ranges_are_not_global", ipv4_special_purpose_ranges_are_not_global);
   ("ipv4_public_addresses_are_global", ipv4_public_addresses_are_global);
   ("ipv6_special_purpose_ranges_are_not_global", ipv6_special_purpose_ranges_are_not_global);
   ("ipv6_public_addresses_are_global", ipv6_public_addresses_are_global)].

Example ssrf_tests_pass : failing test_start tt tests = [].
Proof. vm_compute. reflexivity. Qed.
End SsrfTests.

(** ** tests/webhook.rs of mcp-events-wire *)
Module WhsecTests.
#[local] Instance WhsecError_eq_dec : EqDecision WhsecError.
Proof. solve_decision. Defined.

Definition WHSEC_23 : string := "whsec_AAECAwQFBgcICQoLDA0ODxAREhMUFRY=".
Definition WHSEC_24 : string := "whsec_AAECAwQFBgcICQoLDA0ODxAREhMUFRYX".
Definition WHSEC_64 : string :=
  "whsec_AAECAwQFBgcICQoLDA0ODxAREhMUFRYXGBkaGxwdHh8gISIjJCUmJygpKissLS4vMDEyMzQ1Njc4OTo7PD0+Pw==".
Definition WHSEC_65 : string :=
  "whsec_AAAAAAAAAAAAAAAAAAAAAAAAAAAAAAAAAAAAAAAAAAAAAAAAAAAAAAAAAAAAAAAAAAAAAAAAAAAAAAAAAAAAAAA=".

Definition whsec_bounds : T unit :=
  assert_eq (parse_whsec WHSEC_23) (Err (BadLength 23));;
  k24 ← unwrap (ok_opt (parse_whsec WHSEC_24));
  assert_eq (String.length k24) 24%nat;;
  assert_eq (bytes_of k24 !! 0%nat) (Some 0);;
  assert_eq (bytes_of k24 !! 23%nat) (Some 23);;
  k64 ← unwrap (ok_opt (parse_whsec WHSEC_64));
  assert_eq (String.length k64) 64%nat;;
  assert_eq (parse_whsec WHSEC_65) (Err (BadLength 65)).

Definition whsec_bad_prefix_rejected : T unit :=
  assert_eq (parse_whsec "AAECAwQFBgcICQoLDA0ODxAREhMUFRYX") (Err MissingPrefix);;
  assert_eq (parse_whsec "whsec-AAECAwQFBgcICQoLDA0ODxAREhMUFRYX") (Err MissingPrefix);;
  assert_eq (parse_whsec "WHSEC_AAECAwQFBgcICQoLDA0ODxAREhMUFRYX") (Err MissingPrefix).

Definition whsec_bad_base64_rejected : T unit :=
  match parse_whsec "whsec_!!!not-base64!!!" with Err (InvalidBase64 _) => mret tt | _ => unwrap None end.

Definition KAT_WHSEC : string := "whsec_TUNQLWV2ZW50cy13aXJlLWtub3duLWFuc3dlci0zMkI=".
Definition KAT_MSG_ID : string := "evt_789".
Definition KAT_TS : Z := 1739980800.
Definition KAT_BODY : string := json_text "{'eventId':'evt_789','name':'incident.created','timestamp':'2026-02-19T16:00:00Z','data':{'incidentId':'INC-1234','title':'Database connection pool exhausted','severity':'P1'},'cursor':'cursor_xyz'}".
Definition KAT_SIG : string := "v1,C58Y3Bm+leDlL4KEu1xinLp1QQKqaroJDZHLqvMtLuE=".

Definition kat_secret : T string := unwrap (ok_opt (parse_whsec KAT_WHSEC)).

Definition signature_known_answer : T unit :=
  secret ← kat_secret;
  assert_eq secret "MCP-events-wire-known-answer-32B";;
  assert_eq (sign_standard_webhooks secret KAT_MSG_ID KAT_TS KAT_BODY) KAT_SIG.

Definition verify_accepts_known_answer : T unit :=
  secret ← kat_secret;
  assert (verify_standard_webhooks secret KAT_MSG_ID KAT_TS KAT_BODY KAT_SIG).

Definition verify_rejects_tampering : T unit :=
  secret ← kat_secret;
  assert (negb (verify_standard_webhooks secret KAT_MSG_ID (KAT_TS + 1) KAT_BODY KAT_SIG));;
  assert (negb (verify_standard_webhooks secret "evt_790" KAT_TS KAT_BODY KAT_SIG));;
  let body := String " " (substring 1 (String.length KAT_BODY - 1) KAT_BODY) in
  assert (negb (verify_standard_webhooks secret KAT_MSG_ID KAT_TS body KAT_SIG));;
  other ← unwrap (ok_opt (parse_whsec WHSEC_24));
  assert (negb (verify_standard_webhooks other KAT_MSG_ID KAT_TS KAT_BODY KAT_SIG));;
  assert (negb (verify_standard_webhooks secret KAT_MSG_ID KAT_TS KAT_BODY "")).

Definition ZERO_SIG : string := "v1,AAAAAAAAAAAAAAAAAAAAAAAAAAAAAAAAAAAAAAAAAAA=".

Definition verify_is_multi_signature_aware : T unit :=
  secret ← kat_secret;
  assert (verify_standard_webhooks secret KAT_MSG_ID KAT_TS KAT_BODY (ZERO_SIG +:+ " " +:+ KAT_SIG));;
  assert (verify_standard_webhooks secret KAT_MSG_ID KAT_TS KAT_BODY (KAT_SIG +:+ " " +:+ ZERO_SIG)).

Definition verify_ignores_unknown_schemes_and_garbage : T unit :=
  secret ← kat_secret;
  let v1a := "v1a," +:+ substring 3 (String.length KAT_SIG - 3) KAT_SIG in
  assert (negb (verify_standard_webhooks secret KAT_MSG_ID KAT_TS KAT_BODY v1a));;
  assert (verify_standard_webhooks secret KAT_MSG_ID KAT_TS KAT_BODY (v1a +:+ " " +:+ KAT_SIG));;
  assert (verify_standard_webhooks secret KAT_MSG_ID KAT_TS KAT_BODY ("v1,%%% " +:+ KAT_SIG)).

Definition sign_verify_round_trip_fresh_secret : T unit :=
  let secret := of_bytes (seqZ 0 32) in
  let body := json_text "{'type':'verification','challenge':'a2f0'}" in
  let sig := sign_standard_webhooks secret "msg_verification_x1" 1760000000 body in
  assert (starts_with "v1," sig);;
  assert (verify_standard_webhooks secret "msg_verification_x1" 1760000000 body sig);;
  assert (negb (verify_standard_webhooks secret "msg_verification_x1" 1760000001 body sig)).

Definition tests : list (string * T unit) :=
  [("whsec_bounds", whsec_bounds);
   ("whsec_bad_prefix_rejected", whsec_bad_prefix_rejected);
   ("whsec_bad_base64_rejected", whsec_bad_base64_rejected);
   ("signature_known_answer", signature_known_answer);
   ("verify_accepts_known_answer", verify_accepts_known_answer);
   ("verify_rejects_tampering", verify_rejects_tampering);
   ("verify_is_multi_signature_aware", verify_is_multi_signature_aware);
   ("verify_ignores_unknown_schemes_and_garbage", verify_ignores_unknown_schemes_and_garbage);
   ("sign_verify_round_trip_fresh_secret", sign_verify_round_trip_fresh_secret)].

Example whsec_tests_pass : failing test_start tt tests = [].
Proof. vm_compute. reflexivity. Qed.
End WhsecTests.
