(* ===== verification/ClientTests.v ===== *)
(** * The unit tests of mcp-events-client, run on the model.

    The JSON frames are written with single quotes ([json_text]).  The three
    tests of the harness's clap parser ([cli_is_well_formed], the help texts
    and [parses_poll_flags]) are left out, with the parser. *)
From S2P Require Import Prelude RustStd Json Lib Wire Signing Utf8 SseText Dedup.
From S2P Require Import ClientSse Client ClientState Harness JsonText StdInst TestKit.

#[local] Existing Instance ZSerde.

Definition lf (s : string) : string := s +:+ String LF "".
Definition cr (s : string) : string := s +:+ String CR "".
Definition crlf (s : string) : string := s +:+ String CR (String LF "").

(** ** client.rs *)
Module CallTests.
Definition T := Test unit.

Definition expected : RequestId := Num_ 1.

(** The frame of a JSON text, where there is one. *)
Definition frame (data : string) : option StreamFrame :=
  match parse_stream_frame (json_text data) with FrameOf f => Some f | _ => None end.

Definition is_skip (o : FrameOutcome) : bool := match o with Skip => true | _ => false end.

Definition unary_response_extracted_from_sse_body : T unit :=
  let body := lf "event: message" +:+
    lf (lf ("data: " +:+ json_text "{'jsonrpc':'2.0','id':1,'result':{'ok':true}}")) in
  rpc ← unwrap (unary_response_from_sse body expected);
  assert_eq (rs_id rpc) (Some (Num_ 1));;
  result ← unwrap (rs_result rpc);
  assert_eq (value_get "ok" result) (Some (JBool true)).

Definition unary_response_skips_preceding_server_messages_in_sse : T unit :=
  let body := lf (lf ("data: " +:+ json_text "{'jsonrpc':'2.0','method':'notifications/message','params':{}}")) +:+
    lf (lf ("data: " +:+ json_text "{'jsonrpc':'2.0','id':1,'result':{'v':7}}")) in
  rpc ← unwrap (unary_response_from_sse body expected);
  result ← unwrap (rs_result rpc);
  assert_eq (value_get "v" result) (Some (json_int 7)).

Definition parses_active_frame : T unit :=
  match frame "{'jsonrpc':'2.0','method':'notifications/events/active','params':{'cursor':'historyId_99840','truncated':false,'_meta':{'io.modelcontextprotocol/subscriptionId':1}}}" with
  | Some (SfActive a) =>
      assert_eq (ea_cursor a) (Some "historyId_99840");;
      assert (negb (ea_truncated a))
  | _ => unwrap None
  end.

Definition parses_event_frame : T unit :=
  match frame "{'jsonrpc':'2.0','method':'notifications/events/event','params':{'eventId':'evt_001','name':'email.received','timestamp':'2026-02-19T15:30:00Z','data':{'subject':'MCP spec review'},'cursor':'historyId_99842','_meta':{'io.modelcontextprotocol/subscriptionId':1}}}" with
  | Some (SfEvent ev) =>
      assert_eq (eo_event_id ev) "evt_001";;
      assert_eq (eo_cursor ev) (Some (Some "historyId_99842"))
  | _ => unwrap None
  end.

Definition parses_heartbeat_with_null_cursor : T unit :=
  match frame "{'jsonrpc':'2.0','method':'notifications/events/heartbeat','params':{'cursor':null,'_meta':{'io.modelcontextprotocol/subscriptionId':1}}}" with
  | Some (SfHeartbeat h) => assert_eq (eh_cursor h) None
  | _ => unwrap None
  end.

Definition parses_error_and_terminated_frames : T unit :=
  match frame "{'jsonrpc':'2.0','method':'notifications/events/error','params':{'error':{'code':-32603,'message':'UpstreamError','data':{'reason':'Gmail API 503'}},'_meta':{'io.modelcontextprotocol/subscriptionId':1}}}" with
  | Some (SfError _) => mret tt
  | _ => unwrap None
  end;;
  match frame "{'jsonrpc':'2.0','method':'notifications/events/terminated','params':{'error':{'code':-32012,'message':'Forbidden','data':{'reason':'Access revoked'}},'_meta':{'io.modelcontextprotocol/subscriptionId':1}}}" with
  | Some (SfTerminated t) => assert_eq (err_code (et_error t)) FORBIDDEN
  | _ => unwrap None
  end.

Definition parses_final_result_frame : T unit :=
  match frame "{'jsonrpc':'2.0','id':1,'result':{'_meta':{}}}" with
  | Some SfResult => mret tt
  | _ => unwrap None
  end.

Definition error_response_frame_is_fatal_rpc_error : T unit :=
  match parse_stream_frame (json_text
    "{'jsonrpc':'2.0','id':1,'error':{'code':-32011,'message':'NotFound','data':{'kind':'event'}}}") with
  | Fatal (Rpc rpc) => assert_eq (re_code rpc) NOT_FOUND
  | _ => unwrap None
  end.

Definition unknown_method_and_garbage_skipped : T unit :=
  assert (is_skip (parse_stream_frame (json_text "{'jsonrpc':'2.0','method':'notifications/something/else','params':{}}")));;
  assert (is_skip (parse_stream_frame "not json"));;
  assert (is_skip (parse_stream_frame (json_text "{'jsonrpc':'2.0'}"))).

Definition malformed_known_notification_skipped_not_fatal : T unit :=
  assert (is_skip (parse_stream_frame (json_text
    "{'jsonrpc':'2.0','method':'notifications/events/event','params':{'nope':true}}"))).

Definition tests : list (string * T unit) :=
  [("unary_response_extracted_from_sse_body", unary_response_extracted_from_sse_body);
   ("unary_response_skips_preceding_server_messages_in_sse", unary_response_skips_preceding_server_messages_in_sse);
   ("parses_active_frame", parses_active_frame);
   ("parses_event_frame", parses_event_frame);
   ("parses_heartbeat_with_null_cursor", parses_heartbeat_with_null_cursor);
   ("parses_error_and_terminated_frames", parses_error_and_terminated_frames);
   ("parses_final_result_frame", parses_final_result_frame);
   ("error_response_frame_is_fatal_rpc_error", error_response_frame_is_fatal_rpc_error);
   ("unknown_method_and_garbage_skipped", unknown_method_and_garbage_skipped);
   ("malformed_known_notification_skipped_not_fatal", malformed_known_notification_skipped_not_fatal)].

Example call_tests_pass : failing test_start tt tests = [].
Proof. vm_compute. reflexivity. Qed.
End CallTests.

(** ** dedup.rs *)
Module DedupTests.
Definition T := Test LruSet.

Definition new_set (c : Z) : T unit := modify (fun _ => lru_new c).
Definition insert (k : string) : T bool := call (fun _ s => check_and_insert s k).

Definition detects_duplicates : T unit :=
  new_set 8;;
  d ← insert "a"; assert (negb d);;
  d ← insert "a"; assert d;;
  d ← insert "b"; assert (negb d).

Definition evicts_oldest_at_capacity : T unit :=
  new_set 2;;
  insert "a";; insert "b";; insert "c";;
  n ← gets lru_len; assert_eq n 2;;
  d ← insert "a"; assert (negb d).

Definition duplicate_access_promotes : T unit :=
  new_set 2;;
  insert "a";; insert "b";;
  d ← insert "a"; assert d;;
  insert "c";;
  d ← insert "a"; assert d;;
  d ← insert "b"; assert (negb d).

Definition tests : list (string * T unit) :=
  [("detects_duplicates", detects_duplicates);
   ("evicts_oldest_at_capacity", evicts_oldest_at_capacity);
   ("duplicate_access_promotes", duplicate_access_promotes)].

Example dedup_tests_pass : failing test_start (lru_new 1) tests = [].
Proof. vm_compute. reflexivity. Qed.
End DedupTests.

(** ** error.rs *)
Module ErrorTests.
Definition T := Test unit.

Definition code_names : T unit :=
  for_each [(NOT_FOUND, "NotFound"); (FORBIDDEN, "Forbidden"); (RESOURCE_EXHAUSTED, "ResourceExhausted");
            (UNSUPPORTED, "Unsupported"); (CALLBACK_ENDPOINT_ERROR, "CallbackEndpointError");
            (INVALID_PARAMS, "InvalidParams"); (-32050, "ServerError"); (42, "Error")] (fun '(code, name) =>
    assert_eq (code_name {| re_code := code; re_message := "m"; re_data := None |}) name).

Definition display_includes_code_name_and_data : T unit :=
  let e := rpc_error_from (not_found "event" "no such event") in
  let s := rpc_error_text e in
  assert (str_contains "NotFound" s);;
  assert (str_contains "-32011" s);;
  assert (str_contains (json_text "'kind'") s).

(** An [anyhow::Error] of the client is a [ClientError]. *)
Definition downcasts_through_anyhow : T unit :=
  let err := Rpc {| re_code := FORBIDDEN; re_message := "nope"; re_data := None |} in
  match err with Rpc e => assert_eq (re_code e) FORBIDDEN | _ => unwrap None end.

Definition tests : list (string * T unit) :=
  [("code_names", code_names);
   ("display_includes_code_name_and_data", display_includes_code_name_and_data);
   ("downcasts_through_anyhow", downcasts_through_anyhow)].

Example error_tests_pass : failing test_start tt tests = [].
Proof. vm_compute. reflexivity. Qed.
End ErrorTests.

(** ** sse.rs *)
Module ClientSseTests.
Definition T := Test SseParser.

#[local] Instance SseEvent_eq_dec : EqDecision SseEvent.
Proof. solve_decision. Defined.

Definition p_push (s : string) : T (list SseEvent) := call (fun _ p => push p s).
Definition p_finish : T (option SseEvent) := call (fun _ p => finish p).
Definition p_new : T unit := modify (fun _ => sse_new).

(** [evs[i].data]. *)
Definition data_at (evs : list SseEvent) (i : nat) : T string := e ← unwrap (evs !! i); mret (se_data e).

Fixpoint str_chunks (fuel size : nat) (s : string) : list string :=
  match fuel, s with
  | S f, String _ _ => substring 0 size s :: str_chunks f size (substring size (String.length s - size) s)
  | _, _ => []
  end.

Fixpoint push_chunks (l : list string) : T (list SseEvent) :=
  match l with [] => mret [] | c :: l' => e ← p_push c; es ← push_chunks l'; mret (e ++ es) end.

Definition collect_all (input : string) (chunk_size : nat) : T (list SseEvent) :=
  out ← push_chunks (str_chunks (String.length input) (Nat.max chunk_size 1) input);
  last ← p_finish;
  mret (out ++ opt_list last).

Definition simple_event : T unit :=
  p_new;;
  evs ← p_push (lf (lf "data: hello"));
  assert_eq (length evs) 1%nat;;
  d ← data_at evs 0; assert_eq d "hello";;
  assert_eq (se_event <$> evs !! 0%nat) (Some None).

Definition every_chunk_boundary_yields_same_events : T unit :=
  let input := crlf (crlf ("data: " +:+ json_text "{'a':1}")) +:+ crlf "event: ping" +:+ crlf "data: two" +:+
               crlf (crlf "data: lines") in
  p_new;;
  expected ← collect_all input (String.length input);
  assert_eq (length expected) 2%nat;;
  d ← data_at expected 0; assert_eq d (json_text "{'a':1}");;
  d ← data_at expected 1; assert_eq d (lf "two" +:+ "lines");;
  assert_eq (se_event <$> expected !! 1%nat) (Some (Some "ping"));;
  for_each (seq 1 (String.length input - 1)) (fun size =>
    p_new;;
    got ← collect_all input size;
    assert_eq got expected).

Definition crlf_split_across_chunks : T unit :=
  p_new;;
  evs ← p_push (cr "data: a"); assert (is_empty evs);;
  evs ← p_push (lf "" +:+ crlf "");
  assert_eq (length evs) 1%nat;;
  d ← data_at evs 0; assert_eq d "a".

Definition lone_cr_line_endings : T unit :=
  p_new;;
  evs ← p_push (cr "data: x" +:+ cr (cr "data: y") +:+ " ");
  assert_eq (length evs) 1%nat;;
  d ← data_at evs 0; assert_eq d (lf "x" +:+ "y").

Definition comments_and_unknown_fields_ignored : T unit :=
  p_new;;
  evs ← p_push (lf ": keepalive" +:+ lf "retry: 1000" +:+ lf "foo: bar" +:+ lf (lf "data: v"));
  assert_eq (length evs) 1%nat;;
  d ← data_at evs 0; assert_eq d "v".

Definition id_field_captured_and_persists : T unit :=
  p_new;;
  evs ← p_push (lf "id: 7" +:+ lf (lf "data: a") +:+ lf (lf "data: b"));
  assert_eq (length evs) 2%nat;;
  assert_eq (se_id <$> evs !! 0%nat) (Some (Some "7"));;
  assert_eq (se_id <$> evs !! 1%nat) (Some (Some "7")).

Definition empty_data_not_dispatched : T unit :=
  p_new;;
  evs ← p_push (lf (lf "event: noop")); assert (is_empty evs);;
  o ← p_finish; assert (is_none o).

Definition no_space_after_colon : T unit :=
  p_new;;
  evs ← p_push (lf (lf "data:tight"));
  d ← data_at evs 0; assert_eq d "tight".

Definition finish_flushes_unterminated_event : T unit :=
  p_new;;
  evs ← p_push "data: tail"; assert (is_empty evs);;
  ev ← p_finish;
  assert_eq (se_data <$> ev) (Some "tail").

Definition multibyte_utf8_split_across_chunks : T unit :=
  let input := lf (lf "data: héllo✓") in
  for_each (seq 1 (String.length input - 1)) (fun size =>
    p_new;;
    evs ← collect_all input size;
    assert_eq (length evs) 1%nat;;
    d ← data_at evs 0; assert_eq d "héllo✓").

Definition tests : list (string * T unit) :=
  [("p_new", p_new);
   ("simple_event", simple_event);
   ("every_chunk_boundary_yields_same_events", every_chunk_boundary_yields_same_events);
   ("crlf_split_across_chunks", crlf_split_across_chunks);
   ("lone_cr_line_endings", lone_cr_line_endings);
   ("comments_and_unknown_fields_ignored", comments_and_unknown_fields_ignored);
   ("id_field_captured_and_persists", id_field_captured_and_persists);
   ("empty_data_not_dispatched", empty_data_not_dispatched);
   ("no_space_after_colon", no_space_after_colon);
   ("finish_flushes_unterminated_event", finish_flushes_unterminated_event);
   ("multibyte_utf8_split_across_chunks", multibyte_utf8_split_across_chunks)].

Example client_sse_tests_pass : failing test_start sse_new tests = [].
Proof. vm_compute. reflexivity. Qed.
End ClientSseTests.

(** ** state.rs *)
Module StateTests.
Definition T := Test FileSystem.

#[local] Instance CursorState_eq_dec : EqDecision CursorState.
Proof. solve_decision. Defined.

(** [load_state(&path).unwrap()] and [save_state(&path, &st).unwrap()]. *)
Definition load (path : string) : T (option CursorState) :=
  r ← gets (fun fs => load_state fs path true); unwrap (ok_opt r).

Definition save (path : string) (c : option string) : T unit :=
  r ← call (fun _ fs => save_state fs path {| cs_cursor := c |} Written true); unwrap (ok_opt r).

Definition raw (path : string) : T Value :=
  o ← gets (fun fs : FileSystem => fs !! path); bytes ← unwrap o; unwrap (read_json bytes).

Definition missing_file_loads_as_none : T unit :=
  s ← load "/tmp/missing.json"; assert_eq s None.

Definition round_trip_with_cursor : T unit :=
  let path := "/tmp/state.json" in
  save path (Some "17442:9");;
  s ← load path; assert_eq s (Some {| cs_cursor := Some "17442:9" |});;
  v ← raw path; assert_eq v (js "{'cursor': '17442:9'}").

Definition round_trip_null_cursor : T unit :=
  let path := "/tmp/null.json" in
  save path None;;
  v ← raw path; assert_eq v (js "{'cursor': null}");;
  s ← load path; assert_eq s (Some {| cs_cursor := None |}).

Definition overwrite_keeps_latest : T unit :=
  let path := "/tmp/overwrite.json" in
  save path (Some "a");;
  save path (Some "b");;
  s ← load path; st ← unwrap s; assert_eq (cs_cursor st) (Some "b").

Definition tests : list (string * T unit) :=
  [("missing_file_loads_as_none", missing_file_loads_as_none);
   ("round_trip_with_cursor", round_trip_with_cursor);
   ("round_trip_null_cursor", round_trip_null_cursor);
   ("overwrite_keeps_latest", overwrite_keeps_latest)].

Example state_tests_pass : failing test_start (∅ : FileSystem) tests = [].
Proof. vm_compute. reflexivity. Qed.
End StateTests.

(** ** bin/events-harness.rs *)
Module HarnessTests.
Definition T := Test unit.

(** [to_rfc3339] with the seconds in milliseconds, and its reading. *)
Definition read_2 (s : string) (i : nat) : option Z := u64_from_str (substring i 2 s).

Definition read_rfc3339 (s : string) : option Z :=
  y ← u64_from_str (substring 0 4 s);
  mo ← read_2 s 5; d ← read_2 s 8; h ← read_2 s 11; mi ← read_2 s 14; sec ← read_2 s 17;
  ms ← u64_from_str (substring 20 3 s);
  if bool_decide (substring 23 6 s = "+00:00")
  then Some (ymd_hms y mo d h mi sec + milliseconds ms) else None.

#[local] Instance IsoRfc : Rfc3339 := {|
  to_rfc3339 t := iso_date_time t +:+ "." +:+ pad_dec 3 (t mod 1000000000 / 1000000) +:+ "+00:00";
  parse_from_rfc3339 := read_rfc3339
|}.

(** The parts after the argument parser. *)
Definition parses_subscribe_ttl_variants : T unit :=
  assert_eq (ok_opt (parse_ttl (Some "null"))) (Some (Some None));;
  assert_eq (ok_opt (parse_ttl (Some "3600000"))) (Some (Some (Some 3600000)));;
  assert_eq (ok_opt (parse_ttl None)) (Some None);;
  assert (negb (is_ok (parse_ttl (Some "soon")))).

Definition generated_secret_is_valid_whsec : T unit :=
  let s := generate_whsec (of_bytes (seqZ 224 32)) in
  bytes ← unwrap (ok_opt (parse_whsec s));
  assert_eq (String.length bytes) 32%nat.

Definition refresh_sleep_handles_no_expiry_and_past_deadlines : T unit :=
  now ← utc_now;
  assert_eq (ok_opt (refresh_sleep None now)) (Some NO_EXPIRY_REFRESH_INTERVAL);;
  now ← utc_now;
  let past := to_rfc3339 (now - seconds 10) in
  now ← utc_now;
  assert_eq (ok_opt (refresh_sleep (Some past) now)) (Some (seconds 1));;
  now ← utc_now;
  let future := to_rfc3339 (now + seconds 100) in
  now ← utc_now;
  nap ← unwrap (ok_opt (refresh_sleep (Some future) now));
  assert ((seconds 70 <=? nap) && (nap <=? seconds 85));;
  now ← utc_now;
  assert (negb (is_ok (refresh_sleep (Some "not-a-date") now))).

Definition tests : list (string * T unit) :=
  [("parses_subscribe_ttl_variants", parses_subscribe_ttl_variants);
   ("generated_secret_is_valid_whsec", generated_secret_is_valid_whsec);
   ("refresh_sleep_handles_no_expiry_and_past_deadlines", refresh_sleep_handles_no_expiry_and_past_deadlines)].

Example harness_tests_pass : failing test_start tt tests = [].
Proof. vm_compute. reflexivity. Qed.
End HarnessTests.
