(* ===== verification/AgentTests.v ===== *)
(** * The unit tests of mcp-events-agent, run on the model.

    The amounts, [f64]s in the tests, are integers, which the agent reads as
    [f64]s; JSON texts are compact, with single quotes for double ones
    ([json_text]).  The mock of the tools answers the brain's calls. *)
From S2P Require Import Prelude RustStd Json Lib Wire State Dispatch Text F64.
From S2P Require Import Client AgentConfig AgentBrain AgentChoice Codec JsonText StdInst TestKit.

#[local] Existing Instance ZSerde.
#[local] Existing Instance PlainDebug.
#[local] Instance compact_pretty : PrettyJson ZJson := {| to_string_pretty := value_to_string |}.

Definition T := Test unit.

(** [MockTools]: what it answers, and the names it was called with. *)
Definition mock_tools (order_total : Z) (history : Value) : World :=
  {| w_post _ _ := None;
     w_tool _ name _ := Ok (
       if bool_decide (name = "get_order") then
         json_obj [("id", json_int 6); ("customer", JString "ivy"); ("total", json_int order_total);
                   ("status", JString "open")]
       else if bool_decide (name = "get_customer_history") then history
       else if bool_decide (name = "flag_order") then json_obj [("flagId", json_int 9)]
       else JNull) |}.

Definition calls (t : list Event) : list string :=
  omap (fun e => match e with Called name _ _ => Some name | Posted _ _ => None end) t.

Definition event_of (v : Value) : T EventOccurrence := unwrap (dec_EventOccurrence v).

Definition added_event (total : Z) : T EventOccurrence :=
  event_of (json_obj
    [("eventId", JString "e1"); ("name", JString "high-value-orders.changed");
     ("timestamp", JString "2026-08-09T00:00:00Z");
     ("data", json_obj
        [("changeType", JString "added");
         ("after", json_obj [("id", json_int 6); ("customer", JString "ivy"); ("total", json_int total);
                             ("status", JString "open")])])]).

Definition history_with_flag_on_other_order : Value := js
"{'customer': 'ivy', 'orderCount': 2, 'lifetimeTotal': 9200,
  'orders': [{'id': 5, 'total': 7200, 'status': 'open'}, {'id': 6, 'total': 2000, 'status': 'open'}],
  'priorFlags': [{'orderId': 5, 'reason': 'first-ever order', 'flaggedBy': 't', 'flaggedAt': 'x'}]}".

(** [policy_brain(&added_event(total), &tools).await.expect("verdict")]. *)
Definition verdict_on (total : Z) : T (string * list string) :=
  e ← added_event total;
  let '(t, o) := brain_run (mock_tools total history_with_flag_on_other_order) 0 (policy_brain e) in
  verdict ← unwrap (ok_opt o);
  mret (verdict, calls t).

Definition prior_flag_alone_does_not_flag_a_routine_order : T unit :=
  '(verdict, names) ← verdict_on 2000;
  assert (str_contains "routine" verdict);;
  assert (negb (existsb (fun c => bool_decide (c = "flag_order")) names)).

Definition catalog_json : Value := JArray
  [json_obj
     [("name", JString "high-value-orders.changed");
      ("description", JString "Fires when an order enters, changes within, or leaves the set of high-value orders (total > $1,000). Subscribe to monitor significant order and payment activity, e.g. for fraud or review workflows.");
      ("delivery", js "['poll', 'push']")];
   json_obj
     [("name", JString "stuck-orders.changed");
      ("description", JString "Fires when an order has remained in status 'open' too long without being processed. Subscribe to catch orders falling through the cracks in fulfillment or operations workflows.");
      ("delivery", js "['poll', 'push']")];
   json_obj
     [("name", JString "incidents.created");
      ("description", JString "Fires when an operational incident is reported. Subscribe to monitor production incidents that may need triage, escalation, or on-call attention.");
      ("delivery", js "['poll', 'push']");
      ("inputSchema", js "{'type': 'object', 'properties': {'priority': {'enum': ['P1', 'P2', 'P3', 'P4']}}}")]].

Definition catalog : T (list EventDefinition) := unwrap (dec_list dec_EventDefinition catalog_json).

(** [cat.iter().find(|d| d.name == name).unwrap()]. *)
Definition named (cat : list EventDefinition) (name : string) : T EventDefinition :=
  unwrap (snd <$> list_find (fun d => ed_name d = name) cat).

Definition policy_chooser_matches_task_to_stream_and_extracts_enum_args : T unit :=
  cat ← catalog;
  c ← unwrap (policy_choose "You are on-call: watch for P1 incidents and escalate them" cat);
  assert_eq (ch_name c) "incidents.created";;
  assert_eq (ch_arguments c) (Some (js "{'priority': 'P1'}"));;
  c ← unwrap (policy_choose "Monitor high value payment activity for possible fraud" cat);
  assert_eq (ch_name c) "high-value-orders.changed";;
  assert_eq (ch_arguments c) None;;
  c ← unwrap (policy_choose "Watch fulfillment for orders stuck without processing" cat);
  assert_eq (ch_name c) "stuck-orders.changed".

Definition choice_args_validated_and_case_coerced : T unit :=
  cat ← catalog;
  incidents ← named cat "incidents.created";
  assert_eq (ok_opt (validate_choice_args incidents (Some (js "{'priority': 'p1'}"))))
    (Some (Some (js "{'priority': 'P1'}")));;
  assert (negb (is_ok (validate_choice_args incidents (Some (js "{'sev': 'P1'}")))));;
  assert (negb (is_ok (validate_choice_args incidents (Some (js "{'priority': 'urgent'}")))));;
  hv ← named cat "high-value-orders.changed";
  assert (negb (is_ok (validate_choice_args hv (Some (js "{'priority': 'P1'}")))));;
  assert_eq (ok_opt (validate_choice_args hv None)) (Some None).

Definition policy_chooser_enum_extraction_is_whole_token : T unit :=
  cat ← catalog;
  c ← unwrap (policy_choose "monitor operational incidents for the P1000 migration" cat);
  assert_eq (ch_name c) "incidents.created";;
  assert_eq (ch_arguments c) None.

Definition stuck_events_get_the_ops_playbook_not_fraud : T unit :=
  ev ← event_of (js "{'eventId': 'e9', 'name': 'stuck-orders.changed', 'timestamp': '2026-08-10T00:00:00Z',
    'data': {'changeType': 'added', 'after': {'id': 4, 'customer': 'dave', 'total': 250, 'status': 'open'}}}");
  assert (str_contains "notifying fulfillment" (policy_stuck ev));;
  ev_unstuck ← event_of (js "{'eventId': 'e10', 'name': 'stuck-orders.changed', 'timestamp': '2026-08-10T00:00:01Z',
    'data': {'changeType': 'deleted', 'before': {'id': 4, 'customer': 'dave', 'total': 250, 'status': 'open'}}}");
  assert (str_contains "unstuck" (policy_stuck ev_unstuck)).

Definition LINE : string := String "010" "".

Definition first_json_object_tolerates_fences_and_prose : T unit :=
  let text := "Sure! Here is my choice:" +:+ LINE +:+ "```json" +:+ LINE +:+
    json_text "{'eventName':'incidents.created','arguments':{'priority':'P1'},'rationale':'on-call task'}" +:+
    LINE +:+ "``` hope that helps" in
  v ← unwrap (first_json_object text);
  assert_eq (value_get "eventName" v) (Some (JString "incidents.created"));;
  arguments ← unwrap (value_get "arguments" v);
  assert_eq (value_get "priority" arguments) (Some (JString "P1"));;
  assert (is_none (first_json_object "no json here")).

Definition env_file_parsing_and_precedence : T unit :=
  let content :=
    "# comment" +:+ LINE +:+ "TEST_ENVFILE_A=hello" +:+ LINE +:+
    "TEST_ENVFILE_B=" +:+ String quote "quoted value" +:+ String quote LINE +:+ LINE +:+
    "not a pair" +:+ LINE +:+ "TEST_ENVFILE_C=x=y" +:+ LINE in
  let env : Env := {["TEST_ENVFILE_A" := Some "real-env-wins"]} in
  '(env, loaded) ← unwrap (load_env_file (Some content) env);
  assert_eq loaded 2;;
  assert_eq (env !! "TEST_ENVFILE_A") (Some (Some "real-env-wins"));;
  assert_eq (env !! "TEST_ENVFILE_B") (Some (Some "quoted value"));;
  assert_eq (env !! "TEST_ENVFILE_C") (Some (Some "x=y")).

Definition openai_tool_def_conversion : T unit :=
  let defs := [js "{'name': 'get_order', 'description': 'd',
    'input_schema': {'type': 'object', 'properties': {'order_id': {'type': 'integer'}}}}"] in
  out ← unwrap (openai_tool_defs defs !! 0%nat);
  let function := at_key "function" out in
  assert_eq (at_key "type" out) (JString "function");;
  assert_eq (at_key "name" function) (JString "get_order");;
  assert_eq (at_key "type" (at_key "order_id" (at_key "properties" (at_key "parameters" function))))
    (JString "integer").

Definition prior_flag_corroborates_a_real_anomaly : T unit :=
  '(verdict, names) ← verdict_on 25000;
  assert (str_contains "Flagged" verdict);;
  assert (str_contains "prior flag" verdict);;
  assert (existsb (fun c => bool_decide (c = "flag_order")) names).

Definition tests : list (string * T unit) :=
  [("prior_flag_alone_does_not_flag_a_routine_order", prior_flag_alone_does_not_flag_a_routine_order);
   ("policy_chooser_matches_task_to_stream_and_extracts_enum_args", policy_chooser_matches_task_to_stream_and_extracts_enum_args);
   ("choice_args_validated_and_case_coerced", choice_args_validated_and_case_coerced);
   ("policy_chooser_enum_extraction_is_whole_token", policy_chooser_enum_extraction_is_whole_token);
   ("stuck_events_get_the_ops_playbook_not_fraud", stuck_events_get_the_ops_playbook_not_fraud);
   ("first_json_object_tolerates_fences_and_prose", first_json_object_tolerates_fences_and_prose);
   ("env_file_parsing_and_precedence", env_file_parsing_and_precedence);
   ("openai_tool_def_conversion", openai_tool_def_conversion);
   ("prior_flag_corroborates_a_real_anomaly", prior_flag_corroborates_a_real_anomaly)].

Example agent_tests_pass : failing test_start tt tests = [].
Proof. vm_compute. reflexivity. Qed.
